(** * Reliable-ordered datagram transport: receive side

    A shallow embedding of the receive pipeline of the connection layer
    (src/network/reliable.cpp, split.cpp, packet.cpp and
    src/util/binheap.h, timeout_queue.h), with the properties the
    design document states about it. *)

From Stdlib Require Import ZArith Lia List Bool.
From stdpp Require Import base option list sorting gmap fin_maps.

Local Open Scope Z_scope.

(** ** Fixed-width integers

    The C++ types [u8], [u16], [u32], [u64] and [size_t] are unsigned
    integers that wrap around; a value is a [Z] in range and every
    arithmetic result is reduced explicitly. *)

Definition wrap8 (x : Z) : Z := x mod 2 ^ 8.
Definition wrap16 (x : Z) : Z := x mod 2 ^ 16.
Definition wrap32 (x : Z) : Z := x mod 2 ^ 32.
Definition wrap64 (x : Z) : Z := x mod 2 ^ 64.

Definition is_u16 (x : Z) : Prop := 0 <= x < 2 ^ 16.
Definition is_u64 (x : Z) : Prop := 0 <= x < 2 ^ 64.

(** reliable.h *)
Definition MAX_RELIABLE_WINDOW_SIZE : Z := 0x8000.
Definition START_RELIABLE_WINDOW_SIZE : Z := 0x400.
Definition MIN_RELIABLE_WINDOW_SIZE : Z := 0x40.
Definition SEQNUM_INITIAL : Z := 65500.
Definition SEQNUM_MAX : Z := 65535.

(** ** Sequence number extrapolation (reliable.cpp) *)

Definition compute_full_seqnum (base seqnum : Z) : Z :=
  let base_mod := Z.land base 0xFFFF in
  let forward_diff := wrap16 (seqnum - base_mod) in
  let backward_diff := wrap16 (base_mod - seqnum) in
  if (forward_diff <=? 32768) || (base <? backward_diff)
  then wrap64 (base + forward_diff)
  else wrap64 (base - backward_diff).

Lemma land_0xFFFF (x : Z) : Z.land x 0xFFFF = x mod 2 ^ 16.
Proof. change 0xFFFF with (Z.ones 16). apply Z.land_ones. lia. Qed.

Lemma compute_full_seqnum_forward (base k : Z) :
  0 <= base -> base + 32768 < 2 ^ 64 -> 0 <= k <= 32768 ->
  compute_full_seqnum base ((base + k) mod 2 ^ 16) = base + k.
Proof.
  intros Hb Hmax Hk. unfold compute_full_seqnum, wrap16, wrap64.
  rewrite land_0xFFFF.
  assert (Hf : ((base + k) mod 2 ^ 16 - base mod 2 ^ 16) mod 2 ^ 16 = k).
  { rewrite <- Zminus_mod. replace (base + k - base) with k by lia.
    apply Z.mod_small. lia. }
  rewrite Hf.
  destruct (Z.leb_spec k 32768) as [_|]; [|lia]. cbn [orb].
  apply Z.mod_small. lia.
Qed.

Lemma compute_full_seqnum_backward (base k : Z) :
  base < 2 ^ 64 -> 1 <= k <= 32767 -> k <= base ->
  compute_full_seqnum base ((base - k) mod 2 ^ 16) = base - k.
Proof.
  intros Hmax Hk Hbk. unfold compute_full_seqnum, wrap16, wrap64.
  rewrite land_0xFFFF.
  assert (Hf : ((base - k) mod 2 ^ 16 - base mod 2 ^ 16) mod 2 ^ 16 = 2 ^ 16 - k).
  { rewrite <- Zminus_mod. replace (base - k - base) with (- k) by lia.
    rewrite Z.mod_opp_l_nz; rewrite ?Z.mod_small; lia. }
  assert (Hg : (base mod 2 ^ 16 - (base - k) mod 2 ^ 16) mod 2 ^ 16 = k).
  { rewrite <- Zminus_mod. replace (base - (base - k)) with k by lia.
    apply Z.mod_small. lia. }
  rewrite Hf, Hg.
  destruct (Z.leb_spec (2 ^ 16 - k) 32768); [lia|].
  destruct (Z.ltb_spec base k); [lia|]. cbn [orb].
  apply Z.mod_small. lia.
Qed.

(** At a distance of exactly half the wire sequence space the forward
    reading wins. *)
Lemma compute_full_seqnum_tie (base : Z) :
  0 <= base -> base + 32768 < 2 ^ 64 ->
  compute_full_seqnum base ((base - 32768) mod 2 ^ 16) = base + 32768.
Proof.
  intros Hb Hmax.
  replace ((base - 32768) mod 2 ^ 16) with ((base + 32768) mod 2 ^ 16).
  - apply compute_full_seqnum_forward; lia.
  - replace (base + 32768) with (base - 32768 + 1 * 2 ^ 16) by lia.
    apply Z.mod_add. lia.
Qed.

(** ** Received packets (packet.h) *)

Definition BASE_HEADER_SIZE : Z := 7.
Definition ORIGINAL_HEADER_SIZE : Z := 1.
Definition RELIABLE_HEADER_SIZE : Z := 3.
Definition CHANNEL_COUNT : Z := 3.
Definition PACKET_MAXSIZE : Z := 1500.

Definition CONTROLTYPE_ACK : Z := 0.
Definition CONTROLTYPE_SET_PEER_ID : Z := 1.
Definition CONTROLTYPE_PING : Z := 2.
Definition CONTROLTYPE_DISCO : Z := 3.

Definition PACKET_TYPE_CONTROL : Z := 0.
Definition PACKET_TYPE_ORIGINAL : Z := 1.
Definition PACKET_TYPE_SPLIT : Z := 2.
Definition PACKET_TYPE_RELIABLE : Z := 3.
Definition PACKET_TYPE_MAX : Z := 4.

Inductive ReceivedPacketType : Type :=
| RPT_INVALID
| RPT_ORIGINAL
| RPT_ACK
| RPT_SET_PEER_ID
| RPT_PING
| RPT_DISCO
| RPT_SPLIT.

Global Instance ReceivedPacketType_eq_dec : EqDecision ReceivedPacketType.
Proof. solve_decision. Defined.

(** [struct ReceivedPacket].  [data] is the receive buffer, a byte a [Z]
    in [0, 256); [contents] is the offset into [data] at which the
    unparsed rest starts (the C++ field is the pointer [data + offset]).
    The log tag [uuid] and the source address play no part in the
    transport logic and are left out. *)
Record ReceivedPacket : Type := mkReceivedPacket {
  received_time_ms : Z;
  data : list Z;
  data_size : Z;
  protocol_id : Z;
  peer_id : Z;
  channelnum : Z;
  type : ReceivedPacketType;
  is_reliable : bool;
  reliable_seqnum : Z;
  reliable_full_seqnum : Z;
  ack_seqnum : Z;
  set_peer_id_new_peer_id : Z;
  split_seqnum : Z;
  split_chunk_count : Z;
  split_chunk_num : Z;
  contents : Z;
  contents_size : Z
}.

Global Instance ReceivedPacket_eq_dec : EqDecision ReceivedPacket.
Proof. solve_decision. Defined.

(** [ReceivedPacket::make]: a zero-initialised packet. *)
Definition make : ReceivedPacket :=
  mkReceivedPacket 0 [] 0 0 0 0 RPT_INVALID false 0 0 0 0 0 0 0 0 0.

Definition set_reliable_full_seqnum (v : Z) (p : ReceivedPacket) : ReceivedPacket :=
  mkReceivedPacket (received_time_ms p) (data p) (data_size p) (protocol_id p)
    (peer_id p) (channelnum p) (type p) (is_reliable p) (reliable_seqnum p) v
    (ack_seqnum p) (set_peer_id_new_peer_id p) (split_seqnum p)
    (split_chunk_count p) (split_chunk_num p) (contents p) (contents_size p).

(** Field updates. *)
Definition set_data (v : list Z) (p : ReceivedPacket) : ReceivedPacket :=
  mkReceivedPacket (received_time_ms p) v (data_size p) (protocol_id p) (peer_id p)
    (channelnum p) (type p) (is_reliable p) (reliable_seqnum p) (reliable_full_seqnum p)
    (ack_seqnum p) (set_peer_id_new_peer_id p) (split_seqnum p) (split_chunk_count p)
    (split_chunk_num p) (contents p) (contents_size p).
Definition set_data_size (v : Z) (p : ReceivedPacket) : ReceivedPacket :=
  mkReceivedPacket (received_time_ms p) (data p) v (protocol_id p) (peer_id p)
    (channelnum p) (type p) (is_reliable p) (reliable_seqnum p) (reliable_full_seqnum p)
    (ack_seqnum p) (set_peer_id_new_peer_id p) (split_seqnum p) (split_chunk_count p)
    (split_chunk_num p) (contents p) (contents_size p).
Definition set_protocol_id (v : Z) (p : ReceivedPacket) : ReceivedPacket :=
  mkReceivedPacket (received_time_ms p) (data p) (data_size p) v (peer_id p) (channelnum
    p) (type p) (is_reliable p) (reliable_seqnum p) (reliable_full_seqnum p) (ack_seqnum
    p) (set_peer_id_new_peer_id p) (split_seqnum p) (split_chunk_count p)
    (split_chunk_num p) (contents p) (contents_size p).
Definition set_peer_id (v : Z) (p : ReceivedPacket) : ReceivedPacket :=
  mkReceivedPacket (received_time_ms p) (data p) (data_size p) (protocol_id p) v
    (channelnum p) (type p) (is_reliable p) (reliable_seqnum p) (reliable_full_seqnum p)
    (ack_seqnum p) (set_peer_id_new_peer_id p) (split_seqnum p) (split_chunk_count p)
    (split_chunk_num p) (contents p) (contents_size p).
Definition set_channelnum (v : Z) (p : ReceivedPacket) : ReceivedPacket :=
  mkReceivedPacket (received_time_ms p) (data p) (data_size p) (protocol_id p) (peer_id
    p) v (type p) (is_reliable p) (reliable_seqnum p) (reliable_full_seqnum p)
    (ack_seqnum p) (set_peer_id_new_peer_id p) (split_seqnum p) (split_chunk_count p)
    (split_chunk_num p) (contents p) (contents_size p).
Definition set_type (v : ReceivedPacketType) (p : ReceivedPacket) : ReceivedPacket :=
  mkReceivedPacket (received_time_ms p) (data p) (data_size p) (protocol_id p) (peer_id
    p) (channelnum p) v (is_reliable p) (reliable_seqnum p) (reliable_full_seqnum p)
    (ack_seqnum p) (set_peer_id_new_peer_id p) (split_seqnum p) (split_chunk_count p)
    (split_chunk_num p) (contents p) (contents_size p).
Definition set_is_reliable (v : bool) (p : ReceivedPacket) : ReceivedPacket :=
  mkReceivedPacket (received_time_ms p) (data p) (data_size p) (protocol_id p) (peer_id
    p) (channelnum p) (type p) v (reliable_seqnum p) (reliable_full_seqnum p)
    (ack_seqnum p) (set_peer_id_new_peer_id p) (split_seqnum p) (split_chunk_count p)
    (split_chunk_num p) (contents p) (contents_size p).
Definition set_reliable_seqnum (v : Z) (p : ReceivedPacket) : ReceivedPacket :=
  mkReceivedPacket (received_time_ms p) (data p) (data_size p) (protocol_id p) (peer_id
    p) (channelnum p) (type p) (is_reliable p) v (reliable_full_seqnum p) (ack_seqnum p)
    (set_peer_id_new_peer_id p) (split_seqnum p) (split_chunk_count p) (split_chunk_num
    p) (contents p) (contents_size p).
Definition set_ack_seqnum (v : Z) (p : ReceivedPacket) : ReceivedPacket :=
  mkReceivedPacket (received_time_ms p) (data p) (data_size p) (protocol_id p) (peer_id
    p) (channelnum p) (type p) (is_reliable p) (reliable_seqnum p) (reliable_full_seqnum
    p) v (set_peer_id_new_peer_id p) (split_seqnum p) (split_chunk_count p)
    (split_chunk_num p) (contents p) (contents_size p).
Definition set_set_peer_id_new_peer_id (v : Z) (p : ReceivedPacket) : ReceivedPacket :=
  mkReceivedPacket (received_time_ms p) (data p) (data_size p) (protocol_id p) (peer_id
    p) (channelnum p) (type p) (is_reliable p) (reliable_seqnum p) (reliable_full_seqnum
    p) (ack_seqnum p) v (split_seqnum p) (split_chunk_count p) (split_chunk_num p)
    (contents p) (contents_size p).
Definition set_split_seqnum (v : Z) (p : ReceivedPacket) : ReceivedPacket :=
  mkReceivedPacket (received_time_ms p) (data p) (data_size p) (protocol_id p) (peer_id
    p) (channelnum p) (type p) (is_reliable p) (reliable_seqnum p) (reliable_full_seqnum
    p) (ack_seqnum p) (set_peer_id_new_peer_id p) v (split_chunk_count p)
    (split_chunk_num p) (contents p) (contents_size p).
Definition set_split_chunk_count (v : Z) (p : ReceivedPacket) : ReceivedPacket :=
  mkReceivedPacket (received_time_ms p) (data p) (data_size p) (protocol_id p) (peer_id
    p) (channelnum p) (type p) (is_reliable p) (reliable_seqnum p) (reliable_full_seqnum
    p) (ack_seqnum p) (set_peer_id_new_peer_id p) (split_seqnum p) v (split_chunk_num p)
    (contents p) (contents_size p).
Definition set_split_chunk_num (v : Z) (p : ReceivedPacket) : ReceivedPacket :=
  mkReceivedPacket (received_time_ms p) (data p) (data_size p) (protocol_id p) (peer_id
    p) (channelnum p) (type p) (is_reliable p) (reliable_seqnum p) (reliable_full_seqnum
    p) (ack_seqnum p) (set_peer_id_new_peer_id p) (split_seqnum p) (split_chunk_count p)
    v (contents p) (contents_size p).
Definition set_contents (v : Z) (p : ReceivedPacket) : ReceivedPacket :=
  mkReceivedPacket (received_time_ms p) (data p) (data_size p) (protocol_id p) (peer_id
    p) (channelnum p) (type p) (is_reliable p) (reliable_seqnum p) (reliable_full_seqnum
    p) (ack_seqnum p) (set_peer_id_new_peer_id p) (split_seqnum p) (split_chunk_count p)
    (split_chunk_num p) v (contents_size p).
Definition set_contents_size (v : Z) (p : ReceivedPacket) : ReceivedPacket :=
  mkReceivedPacket (received_time_ms p) (data p) (data_size p) (protocol_id p) (peer_id
    p) (channelnum p) (type p) (is_reliable p) (reliable_seqnum p) (reliable_full_seqnum
    p) (ack_seqnum p) (set_peer_id_new_peer_id p) (split_seqnum p) (split_chunk_count p)
    (split_chunk_num p) (contents p) v.

(** The payload slice [contents, contents + contents_size) of a packet. *)
Definition contents_bytes (p : ReceivedPacket) : list Z :=
  take (Z.to_nat (contents_size p)) (drop (Z.to_nat (contents p)) (data p)).

(** ** Reliable receive buffer (reliable.h, reliable.cpp)

    The two callbacks given to the constructor are parameters.  They act
    on a state [U] of the caller; every call is also recorded, in order,
    so that statements can speak about the calls made. *)

Module Reliable.

Inductive call : Type :=
| CallSendAck (rpkt : ReceivedPacket)
| CallProcessPacket (rpkt : ReceivedPacket) (continue : bool).

Definition processed (c : call) : option ReceivedPacket :=
  match c with CallProcessPacket p _ => Some p | CallSendAck _ => None end.

Definition acked (c : call) : option ReceivedPacket :=
  match c with CallSendAck p => Some p | CallProcessPacket _ _ => None end.

Definition stopped (c : call) : bool :=
  match c with CallProcessPacket _ b => negb b | CallSendAck _ => false end.

(** The packets handed to [processPacket], and those acknowledged, in call order. *)
Definition processed_packets (cs : list call) : list ReceivedPacket := omap processed cs.
Definition acked_packets (cs : list call) : list ReceivedPacket := omap acked cs.
Definition processed_seqnums (cs : list call) : list Z :=
  reliable_full_seqnum <$> processed_packets cs.

Section Buffer.

Context {U : Type}.
Variable sendAck : ReceivedPacket -> U -> U.
Variable processPacket : ReceivedPacket -> U -> bool * U.

Record env : Type := mkEnv { user : U; calls : list call }.

Definition call_sendAck (rpkt : ReceivedPacket) (e : env) : env :=
  mkEnv (sendAck rpkt (user e)) (calls e ++ [CallSendAck rpkt]).

Definition call_processPacket (rpkt : ReceivedPacket) (e : env) : bool * env :=
  let '(b, u) := processPacket rpkt (user e) in
  (b, mkEnv u (calls e ++ [CallProcessPacket rpkt b])).

(** [std::priority_queue<ReceivedPacket*, vector, OrderByFullSeqNum>]:
    [top] is a packet of least [full_seqnum].  The queue is kept as the
    list of its elements in the order [top]/[pop] would hand them out;
    among packets of equal [full_seqnum], which the C++ standard leaves
    open, the one pushed first comes first. *)
Fixpoint push (rpkt : ReceivedPacket) (q : list ReceivedPacket) : list ReceivedPacket :=
  match q with
  | [] => [rpkt]
  | x :: q' =>
      if reliable_full_seqnum rpkt <? reliable_full_seqnum x
      then rpkt :: q
      else x :: push rpkt q'
  end.

Record ReliableReceivedPacketBuffer : Type := mkBuffer {
  next_incoming_seqnum : Z;
  m_queue : list ReceivedPacket
}.

Definition init : ReliableReceivedPacketBuffer := mkBuffer SEQNUM_INITIAL [].

(** [flush]: one turn of the loop per queued packet looked at. *)
Fixpoint flush (q : list ReceivedPacket) (next : Z) (e : env)
  : ReliableReceivedPacketBuffer * env :=
  match q with
  | [] => (mkBuffer next q, e)
  | rpkt :: q' =>
      if reliable_full_seqnum rpkt <=? next then
        if reliable_full_seqnum rpkt <? next then
          flush q' next e
        else
          let next' := wrap64 (next + 1) in
          let '(continue, e') := call_processPacket rpkt e in
          if negb continue then (mkBuffer next' q', e')
          else flush q' next' e'
      else (mkBuffer next q, e)
  end.

(** [insert]; [None] is the failed [assert(rpkt->is_reliable)]. *)
Definition insert (rpkt : ReceivedPacket) (b : ReliableReceivedPacketBuffer) (e : env)
  : option (ReliableReceivedPacketBuffer * env) :=
  if negb (is_reliable rpkt) then None else
  let next := next_incoming_seqnum b in
  let full_seqnum := compute_full_seqnum next (reliable_seqnum rpkt) in
  let rpkt := set_reliable_full_seqnum full_seqnum rpkt in
  if wrap64 (next + MAX_RELIABLE_WINDOW_SIZE) <? full_seqnum then
    Some (b, e)
  else
    let e := call_sendAck rpkt e in
    if full_seqnum <? next then Some (b, e)
    else if next =? reliable_full_seqnum rpkt then
      let next' := wrap64 (next + 1) in
      let '(continue, e') := call_processPacket rpkt e in
      if negb continue then Some (mkBuffer next' (m_queue b), e')
      else Some (flush (m_queue b) next' e')
    else Some (mkBuffer next (push rpkt (m_queue b)), e).

(** A run of arrivals, each handed to [insert]. *)
Fixpoint insert_all (rpkts : list ReceivedPacket) (b : ReliableReceivedPacketBuffer) (e : env)
  : option (ReliableReceivedPacketBuffer * env) :=
  match rpkts with
  | [] => Some (b, e)
  | rpkt :: rest =>
      match insert rpkt b e with
      | Some (b', e') => insert_all rest b' e'
      | None => None
      end
  end.

End Buffer.

(** A reliable packet as it comes from the parser, with wire number [s]. *)
Definition reliable_packet (s : Z) : ReceivedPacket :=
  mkReceivedPacket 0 [] 0 0 0 0 RPT_ORIGINAL true s 0 0 0 0 0 0 0 0.

End Reliable.

(** ** Properties of the reliable receive buffer *)

Module ReliableFacts.
Import Reliable.

Local Abbreviation full := reliable_full_seqnum (only parsing).

(** The queue hands its packets out by ascending [full_seqnum]. *)
Definition queue_sorted (q : list ReceivedPacket) : Prop :=
  StronglySorted (fun a b => full a <= full b) q.

(** [n], [n+1], ... ([k] numbers), counted in [u64]. *)
Fixpoint count_from (n : Z) (k : nat) : list Z :=
  match k with
  | O => []
  | S k' => n :: count_from (wrap64 (n + 1)) k'
  end.

(** [k] increments of a [u64] counter. *)
Fixpoint incr_by (n : Z) (k : nat) : Z :=
  match k with
  | O => n
  | S k' => incr_by (wrap64 (n + 1)) k'
  end.

Definition no_stop (cs : list call) : Prop := Forall (fun c => stopped c = false) cs.

Lemma processed_seqnums_app (cs1 cs2 : list call) :
  processed_seqnums (cs1 ++ cs2) = processed_seqnums cs1 ++ processed_seqnums cs2.
Proof. unfold processed_seqnums, processed_packets. by rewrite omap_app, fmap_app. Qed.

Lemma processed_seqnums_process (p : ReceivedPacket) (c : bool) (cs : list call) :
  processed_seqnums (CallProcessPacket p c :: cs) = reliable_full_seqnum p :: processed_seqnums cs.
Proof. done. Qed.

Lemma processed_seqnums_ack (p : ReceivedPacket) (cs : list call) :
  processed_seqnums (CallSendAck p :: cs) = processed_seqnums cs.
Proof. done. Qed.

Lemma acked_packets_app (cs1 cs2 : list call) :
  acked_packets (cs1 ++ cs2) = acked_packets cs1 ++ acked_packets cs2.
Proof. unfold acked_packets. by rewrite omap_app. Qed.

Lemma count_from_nowrap (n : Z) (k : nat) :
  0 <= n -> n + Z.of_nat k < 2 ^ 64 -> count_from n k = seqZ n (Z.of_nat k).
Proof.
  revert n. induction k as [|k IH]; intros n Hn Hk; [done|].
  cbn [count_from]. rewrite Nat2Z.inj_succ, seqZ_cons by lia. f_equal.
  unfold wrap64. rewrite Z.mod_small by lia.
  rewrite IH by lia. f_equal; lia.
Qed.

Lemma incr_by_nowrap (n : Z) (k : nat) :
  0 <= n -> n + Z.of_nat k < 2 ^ 64 -> incr_by n k = n + Z.of_nat k.
Proof.
  revert n. induction k as [|k IH]; intros n Hn Hk; cbn [incr_by]; [lia|].
  unfold wrap64. rewrite Z.mod_small by lia. rewrite IH by lia. lia.
Qed.

Section Facts.

Context {U : Type}.
Variable sendAck : ReceivedPacket -> U -> U.
Variable processPacket : ReceivedPacket -> U -> bool * U.

Local Abbreviation env := (@env U).
Local Abbreviation flush := (flush processPacket).
Local Abbreviation insert := (insert sendAck processPacket).
Local Abbreviation insert_all := (insert_all sendAck processPacket).
Local Abbreviation call_processPacket := (call_processPacket processPacket).

Lemma call_processPacket_calls (rpkt : ReceivedPacket) (e e' : env) (c : bool) :
  call_processPacket rpkt e = (c, e') ->
  calls e' = calls e ++ [CallProcessPacket rpkt c].
Proof.
  unfold Reliable.call_processPacket. destruct (processPacket rpkt (user e)) as [b u].
  intros [= <- <-]. done.
Qed.

Lemma push_elem_of (rpkt x : ReceivedPacket) (q : list ReceivedPacket) :
  x ∈ push rpkt q <-> x = rpkt \/ x ∈ q.
Proof.
  induction q as [|y q IH]; cbn [push].
  - rewrite list_elem_of_singleton, elem_of_nil. tauto.
  - destruct (full rpkt <? full y); rewrite !elem_of_cons; [tauto|].
    rewrite IH. tauto.
Qed.

Lemma push_Forall (P : ReceivedPacket -> Prop) (rpkt : ReceivedPacket) (q : list ReceivedPacket) :
  P rpkt -> Forall P q -> Forall P (push rpkt q).
Proof.
  intros Hp Hq. apply Forall_forall. intros x Hx.
  apply push_elem_of in Hx as [->|Hx]; [done|].
  by eapply Forall_forall in Hq.
Qed.

Lemma push_sorted (rpkt : ReceivedPacket) (q : list ReceivedPacket) :
  queue_sorted q -> queue_sorted (push rpkt q).
Proof.
  unfold queue_sorted. induction 1 as [|y q Hq IH Hy]; cbn [push].
  - repeat constructor.
  - destruct (Z.ltb_spec (full rpkt) (full y)) as [Hlt|Hge].
    + constructor; [by constructor|].
      constructor; [lia|]. eapply Forall_impl; [exact Hy|].
      cbn. intros z Hz. lia.
    + constructor; [done|]. apply push_Forall; [lia|done].
Qed.

(** What one run of [flush] does: it makes no [sendAck] call, hands
    out consecutive stream positions, leaves a suffix of the queue, and,
    unless [processPacket] asked to stop, leaves only packets beyond the
    new [next_incoming_seqnum]. *)
Lemma flush_spec (q : list ReceivedPacket) (next : Z) (e : env) :
  exists (cs : list call) (k : nat),
    calls (flush q next e).2 = calls e ++ cs /\
    acked_packets cs = [] /\
    processed_seqnums cs = count_from next k /\
    next_incoming_seqnum (flush q next e).1 = incr_by next k /\
    m_queue (flush q next e).1 `suffix_of` q /\
    (queue_sorted q -> no_stop cs ->
     Forall (fun p => next_incoming_seqnum (flush q next e).1 < full p)
            (m_queue (flush q next e).1)).
Proof.
  revert next e. induction q as [|rpkt q IH]; intros next e; cbn [Reliable.flush].
  - exists [], 0%nat. rewrite app_nil_r. by repeat split.
  - destruct (Z.leb_spec (full rpkt) next) as [Hle|Hgt].
    + destruct (Z.ltb_spec (full rpkt) next) as [Hlt|Hge].
      * destruct (IH next e) as (cs & k & H1 & H2 & H3 & H4 & H5 & H6).
        exists cs, k. repeat split; try done.
        -- by apply suffix_cons_r.
        -- intros Hs. apply H6. by apply StronglySorted_inv in Hs as [? _].
      * assert (full rpkt = next) as Heq by lia.
        destruct (call_processPacket rpkt e) as [c e'] eqn:Hcall.
        apply call_processPacket_calls in Hcall.
        destruct c; cbn [negb].
        -- destruct (IH (wrap64 (next + 1)) e') as (cs & k & H1 & H2 & H3 & H4 & H5 & H6).
           exists (CallProcessPacket rpkt true :: cs), (S k).
           rewrite H1, Hcall, <- app_assoc. repeat split; try done.
           ++ cbn. by rewrite <- H3, Heq.
           ++ by apply suffix_cons_r.
           ++ intros Hs Hn. apply H6.
              ** by apply StronglySorted_inv in Hs as [? _].
              ** by apply Forall_cons_1 in Hn as [_ ?].
        -- exists [CallProcessPacket rpkt false], 1%nat. cbn.
           rewrite Hcall, Heq. repeat split; try done.
           ++ by apply suffix_cons_r.
           ++ intros _ Hn. apply Forall_cons_1 in Hn as [Hn _]. done.
    + exists [], 0%nat. rewrite app_nil_r. repeat split; try done.
      intros Hs _. cbn. apply StronglySorted_inv in Hs as [_ Hs].
      constructor; [lia|]. eapply Forall_impl; [exact Hs|]. cbn. intros. lia.
Qed.

Lemma flush_sorted (q : list ReceivedPacket) (next : Z) (e : env) :
  queue_sorted q -> queue_sorted (m_queue (flush q next e).1).
Proof.
  intros Hs. destruct (flush_spec q next e) as (_ & _ & _ & _ & _ & _ & [l Hl] & _).
  unfold queue_sorted in *. rewrite Hl in Hs.
  by apply StronglySorted_app_1_r in Hs.
Qed.

(** [flush] when [processPacket] never asks to stop and every queued
    packet lies below [M]: the counter stays at most [M], positions
    [next .. next'-1] are handed out, and a queued packet at or beyond
    the new counter stays queued. *)
Lemma flush_run (M : Z) (q : list ReceivedPacket) (next : Z) (e : env) :
  (forall p u, (processPacket p u).1 = true) ->
  queue_sorted q -> Forall (fun p => full p < M) q ->
  0 <= next <= M -> M < 2 ^ 64 ->
  exists cs : list call,
    calls (flush q next e).2 = calls e ++ cs /\
    acked_packets cs = [] /\
    next <= next_incoming_seqnum (flush q next e).1 <= M /\
    processed_seqnums cs = seqZ next (next_incoming_seqnum (flush q next e).1 - next) /\
    Forall (fun p => next_incoming_seqnum (flush q next e).1 < full p)
           (m_queue (flush q next e).1) /\
    (forall p, p ∈ m_queue (flush q next e).1 -> p ∈ q) /\
    (forall p, p ∈ q -> next_incoming_seqnum (flush q next e).1 <= full p ->
               p ∈ m_queue (flush q next e).1).
Proof.
  intros Hcont Hs Hlt Hn HM. revert next e Hn.
  induction q as [|rpkt q IH]; intros next e Hn; cbn [Reliable.flush].
  - exists []. rewrite app_nil_r, Z.sub_diag. cbn. repeat split; try done; lia.
  - apply StronglySorted_inv in Hs as [Hs Hmin].
    apply Forall_cons_1 in Hlt as [Hr Hlt].
    destruct (Z.leb_spec (full rpkt) next) as [Hle|Hgt].
    + destruct (Z.ltb_spec (full rpkt) next) as [Hlt'|Hge].
      * destruct (IH Hs Hlt next e Hn) as (cs & H1 & H2 & H3 & H4 & H5 & H6 & H7).
        exists cs. repeat split; try done; try lia.
        -- intros p Hp. apply elem_of_cons. right. by apply H6.
        -- intros p [->|Hp]%elem_of_cons Hp'; [lia|]. by apply H7.
      * assert (full rpkt = next) as Heq by lia.
        destruct (call_processPacket rpkt e) as [c e'] eqn:Hcall.
        assert (c = true) as ->.
        { unfold Reliable.call_processPacket in Hcall.
          specialize (Hcont rpkt (user e)).
          destruct (processPacket rpkt (user e)); cbn in Hcont.
          by injection Hcall as <- _. }
        apply call_processPacket_calls in Hcall. cbn [negb].
        assert (wrap64 (next + 1) = next + 1) as Hw
          by (unfold wrap64; apply Z.mod_small; lia).
        rewrite Hw.
        destruct (IH Hs Hlt (next + 1) e' ltac:(lia))
          as (cs & H1 & H2 & H3 & H4 & H5 & H6 & H7).
        exists (CallProcessPacket rpkt true :: cs).
        rewrite H1, Hcall, <- app_assoc. repeat split; try done; try lia.
        -- rewrite processed_seqnums_process, H4, Heq.
           rewrite (seqZ_cons next) by lia. do 2 f_equal; lia.
        -- intros p Hp. apply elem_of_cons. right. by apply H6.
        -- intros p [->|Hp]%elem_of_cons Hp'; [lia|]. by apply H7.
    + exists []. rewrite app_nil_r, Z.sub_diag. cbn. repeat split; try done; try lia.
      constructor; [lia|]. eapply Forall_impl; [exact Hmin|]. cbn. intros. lia.
Qed.

(** Two stream positions in a window of at most 2^16 with the same wire
    number are the same position. *)
Lemma wire_seqnum_inj (S N f f' : Z) :
  N <= 2 ^ 16 -> S <= f < S + N -> S <= f' < S + N ->
  f mod 2 ^ 16 = f' mod 2 ^ 16 -> f = f'.
Proof.
  intros HN Hf Hf' Heq.
  pose proof (Z.div_mod f (2 ^ 16) ltac:(lia)).
  pose proof (Z.div_mod f' (2 ^ 16) ltac:(lia)).
  assert (f / 2 ^ 16 = f' / 2 ^ 16 \/ f / 2 ^ 16 < f' / 2 ^ 16 \/ f' / 2 ^ 16 < f / 2 ^ 16)
    as [?|[?|?]] by lia; nia.
Qed.

(** The state of a run in which the positions [S .. S+N-1] arrive:
    [seen] lists the wire numbers that arrived so far. *)
Definition run_inv (S N : Z) (seen : list Z) (b : ReliableReceivedPacketBuffer) : Prop :=
  S <= next_incoming_seqnum b <= S + N /\
  queue_sorted (m_queue b) /\
  Forall (fun p => next_incoming_seqnum b < full p) (m_queue b) /\
  (next_incoming_seqnum b < S + N -> Forall (fun p => full p < S + N) (m_queue b)) /\
  (forall f, next_incoming_seqnum b <= f < S + N -> f mod 2 ^ 16 ∈ seen ->
             exists p, p ∈ m_queue b /\ full p = f).

(** A packet of the run: reliable, with the wire number of a position in the window. *)
Definition in_run (S N : Z) (rpkt : ReceivedPacket) : Prop :=
  is_reliable rpkt = true /\
  exists f, S <= f < S + N /\ reliable_seqnum rpkt = f mod 2 ^ 16.

Lemma insert_run (S N : Z) (seen : list Z) (rpkt : ReceivedPacket)
    (b : ReliableReceivedPacketBuffer) (e : env) :
  (forall p u, (processPacket p u).1 = true) ->
  0 <= S -> 0 <= N <= MAX_RELIABLE_WINDOW_SIZE ->
  S + N + MAX_RELIABLE_WINDOW_SIZE < 2 ^ 64 ->
  run_inv S N seen b -> in_run S N rpkt ->
  exists b' e' cs,
    insert rpkt b e = Some (b', e') /\
    calls e' = calls e ++ cs /\
    next_incoming_seqnum b <= next_incoming_seqnum b' /\
    processed_seqnums cs =
      seqZ (next_incoming_seqnum b) (next_incoming_seqnum b' - next_incoming_seqnum b) /\
    run_inv S N (seen ++ [reliable_seqnum rpkt]) b'.
Proof.
  unfold MAX_RELIABLE_WINDOW_SIZE.
  intros Hcont HS HN Hmax (Hn & Hsort & Hgt & Hlt & Hseen) (Hrel & f & Hf & Hwire).
  destruct b as [n q]; cbn [next_incoming_seqnum m_queue] in *.
  unfold Reliable.insert. rewrite Hrel. cbn [negb next_incoming_seqnum m_queue].
  assert (wrap64 (n + 0x8000) = n + 0x8000) as Hw
    by (unfold wrap64; apply Z.mod_small; lia).
  unfold MAX_RELIABLE_WINDOW_SIZE. rewrite Hw.
  assert (Hseen' : forall (q' : list ReceivedPacket) n', n <= n' ->
    (forall p, p ∈ q -> n' <= full p -> p ∈ q') ->
    forall f', n' <= f' < S + N -> f' <> f ->
      f' mod 2 ^ 16 ∈ seen ++ [reliable_seqnum rpkt] -> exists p, p ∈ q' /\ full p = f').
  { intros q' n' Hn' Hq' f' Hf' Hne [Hin|Hin%list_elem_of_singleton]%elem_of_app.
    - destruct (Hseen f' ltac:(lia) Hin) as (p & Hp & Hfp).
      exists p. split; [apply Hq'; [done|lia]|done].
    - exfalso. apply Hne. symmetry.
      apply (wire_seqnum_inj S N); [lia|lia|lia|congruence]. }
  destruct (Z_lt_le_dec f n) as [Hold|Hnew].
  - (* a position already delivered *)
    destruct (Z.eq_dec (n - f) 32768) as [Htie|Hntie].
    + (* half the wire space behind: read as a position far ahead *)
      assert (compute_full_seqnum n (reliable_seqnum rpkt) = n + 32768) as ->.
      { rewrite Hwire. replace f with (n - 32768) by lia.
        apply compute_full_seqnum_tie; lia. }
      destruct (Z.ltb_spec (n + 0x8000) (n + 32768)); [lia|].
      destruct (Z.ltb_spec (n + 32768) n); [lia|].
      cbn [reliable_full_seqnum set_reliable_full_seqnum].
      destruct (Z.eqb_spec n (n + 32768)); [lia|].
      eexists _, _, [_]. split; [done|]. cbn [calls call_sendAck].
      split; [done|]. cbn [next_incoming_seqnum m_queue]. rewrite Z.sub_diag.
      split; [lia|]. split; [done|]. unfold run_inv. cbn [next_incoming_seqnum m_queue].
      repeat split; try lia.
      * by apply push_sorted.
      * apply push_Forall; [cbn; lia|done].
    + assert (compute_full_seqnum n (reliable_seqnum rpkt) = f) as ->.
      { rewrite Hwire. replace f with (n - (n - f)) by lia.
        apply compute_full_seqnum_backward; lia. }
      destruct (Z.ltb_spec (n + 0x8000) f); [lia|].
      destruct (Z.ltb_spec f n); [|lia].
      eexists _, _, [_]. split; [done|]. cbn [calls call_sendAck].
      split; [done|]. cbn [next_incoming_seqnum m_queue]. rewrite Z.sub_diag.
      split; [lia|]. split; [done|]. unfold run_inv. cbn [next_incoming_seqnum m_queue].
      repeat split; try done; try lia.
      intros f' Hf'. apply (Hseen' q n); [lia|done|done|lia].
  - assert (compute_full_seqnum n (reliable_seqnum rpkt) = f) as ->.
    { rewrite Hwire. replace f with (n + (f - n)) by lia.
      apply compute_full_seqnum_forward; lia. }
    destruct (Z.ltb_spec (n + 0x8000) f); [lia|].
    destruct (Z.ltb_spec f n); [lia|].
    cbn [reliable_full_seqnum set_reliable_full_seqnum].
    destruct (Z.eqb_spec n f) as [<-|Hne].
    + (* the expected position: deliver, then flush *)
      set (rpkt' := set_reliable_full_seqnum n rpkt).
      set (e1 := call_sendAck sendAck rpkt' e).
      destruct (call_processPacket rpkt' e1) as [c e2] eqn:Hcall.
      assert (c = true) as ->.
      { unfold Reliable.call_processPacket in Hcall.
        specialize (Hcont rpkt' (user e1)).
        destruct (processPacket rpkt' (user e1)); cbn in Hcont.
        by injection Hcall as <- _. }
      apply call_processPacket_calls in Hcall. cbn [negb].
      assert (wrap64 (n + 1) = n + 1) as Hw1
        by (unfold wrap64; apply Z.mod_small; lia).
      rewrite Hw1.
      destruct (flush_run (S + N) q (n + 1) e2 Hcont Hsort (Hlt ltac:(lia))
                  ltac:(lia) ltac:(lia))
        as (cs & H1 & H2 & H3 & H4 & H5 & H6 & H7).
      destruct (flush q (n + 1) e2) as [b' e'] eqn:Hfl. cbn [fst snd] in *.
      exists b', e', (CallSendAck rpkt' :: CallProcessPacket rpkt' true :: cs).
      split; [done|]. split.
      { rewrite H1, Hcall. subst e1. cbn [calls call_sendAck].
        by rewrite <- !app_assoc. }
      split; [lia|]. split.
      { rewrite processed_seqnums_ack, processed_seqnums_process, H4.
        cbn [reliable_full_seqnum rpkt' set_reliable_full_seqnum].
        rewrite (seqZ_cons n) by lia. do 2 f_equal; lia. }
      unfold run_inv. repeat split; try lia; try done.
      * pose proof (flush_sorted q (n + 1) e2 Hsort) as Hfs.
        by rewrite Hfl in Hfs.
      * intros _. apply Forall_forall. intros p Hp.
        eapply Forall_forall in Hlt; [exact Hlt|lia|by apply H6].
      * intros f' Hf'. apply (Hseen' (m_queue b') (next_incoming_seqnum b')); [lia| |lia|lia].
        intros p Hp Hp'. by apply H7.
    + (* a later position: queue it *)
      eexists _, _, [_]. split; [done|]. cbn [calls call_sendAck].
      split; [done|]. cbn [next_incoming_seqnum m_queue]. rewrite Z.sub_diag.
      split; [lia|]. split; [done|]. unfold run_inv. cbn [next_incoming_seqnum m_queue].
      repeat split; try lia.
      * by apply push_sorted.
      * apply push_Forall; [cbn; lia|done].
      * intros Hn'. apply push_Forall; [cbn; lia|by apply Hlt].
      * intros f' Hf' Hin. destruct (Z.eq_dec f' f) as [->|Hne'].
        -- eexists. split; [apply push_elem_of; by left|done].
        -- apply (Hseen' _ n); [lia| |lia|done|done].
           intros p Hp _. apply push_elem_of. by right.
Qed.

Lemma insert_all_run (S N : Z) (rpkts : list ReceivedPacket) (seen : list Z)
    (b : ReliableReceivedPacketBuffer) (e : env) :
  (forall p u, (processPacket p u).1 = true) ->
  0 <= S -> 0 <= N <= MAX_RELIABLE_WINDOW_SIZE ->
  S + N + MAX_RELIABLE_WINDOW_SIZE < 2 ^ 64 ->
  run_inv S N seen b -> Forall (in_run S N) rpkts ->
  exists b' e' cs,
    insert_all rpkts b e = Some (b', e') /\
    calls e' = calls e ++ cs /\
    next_incoming_seqnum b <= next_incoming_seqnum b' /\
    processed_seqnums cs =
      seqZ (next_incoming_seqnum b) (next_incoming_seqnum b' - next_incoming_seqnum b) /\
    run_inv S N (seen ++ (reliable_seqnum <$> rpkts)) b'.
Proof.
  intros Hcont HS HN Hmax Hinv Hall. revert seen b e Hinv.
  induction Hall as [|rpkt rpkts Hr Hall IH]; intros seen b e Hinv.
  - exists b, e, []. cbn. rewrite !app_nil_r, Z.sub_diag. done.
  - destruct (insert_run S N seen rpkt b e Hcont HS HN Hmax Hinv Hr)
      as (b1 & e1 & cs1 & Hi & Hc1 & Hle1 & Hp1 & Hinv1).
    destruct (IH _ b1 e1 Hinv1) as (b2 & e2 & cs2 & Hi2 & Hc2 & Hle2 & Hp2 & Hinv2).
    exists b2, e2, (cs1 ++ cs2). cbn [Reliable.insert_all]. rewrite Hi.
    split; [done|]. split; [by rewrite Hc2, Hc1, <- app_assoc|].
    split; [lia|]. split.
    + rewrite processed_seqnums_app, Hp1, Hp2.
      * replace (next_incoming_seqnum b2 - next_incoming_seqnum b)
          with ((next_incoming_seqnum b1 - next_incoming_seqnum b)
                + (next_incoming_seqnum b2 - next_incoming_seqnum b1)) by lia.
        rewrite seqZ_app by lia. do 2 f_equal. lia.
    + by rewrite fmap_cons, cons_middle, app_assoc.
Qed.

(** C1.  Starting from [next_incoming_seqnum = S] with nothing queued,
    let the reliable packets of the stream positions [S .. S+N-1]
    ([N <= MAX_RELIABLE_WINDOW_SIZE], counters away from the end of
    [u64]) arrive in any order, each at least once, duplicates allowed,
    and let [processPacket] always return continue.  Then [insert] does
    not fail, and [processPacket] is called exactly [N] times, with the
    full sequence numbers [S, S+1, ..., S+N-1] in this order. *)
Theorem reliable_in_order_delivery (S N : Z) (rpkts : list ReceivedPacket) (e : env) :
  (forall p u, (processPacket p u).1 = true) ->
  0 <= S -> 0 <= N <= MAX_RELIABLE_WINDOW_SIZE ->
  S + N + MAX_RELIABLE_WINDOW_SIZE < 2 ^ 64 ->
  Forall (in_run S N) rpkts ->
  (forall f, S <= f < S + N -> f mod 2 ^ 16 ∈ reliable_seqnum <$> rpkts) ->
  exists b' e' cs,
    insert_all rpkts (mkBuffer S []) e = Some (b', e') /\
    calls e' = calls e ++ cs /\
    processed_seqnums cs = seqZ S N /\
    next_incoming_seqnum b' = S + N.
Proof.
  intros Hcont HS HN Hmax Hall Hcover.
  assert (run_inv S N [] (mkBuffer S [])) as Hinv.
  { unfold run_inv. cbn. repeat split; try lia; try constructor.
    intros f _ Hf. by apply elem_of_nil in Hf. }
  destruct (insert_all_run S N rpkts [] (mkBuffer S []) e Hcont HS HN Hmax Hinv Hall)
    as (b' & e' & cs & Hi & Hc & _ & Hp & Hn & _ & Hgt & _ & Hseen).
  cbn [next_incoming_seqnum app] in *.
  assert (next_incoming_seqnum b' = S + N) as Hend.
  { destruct (Z.eq_dec (next_incoming_seqnum b') (S + N)) as [|Hne]; [done|].
    exfalso.
    destruct (Hseen (next_incoming_seqnum b') ltac:(lia) (Hcover (next_incoming_seqnum b') ltac:(lia)))
      as (p & Hin & Hfull).
    eapply Forall_forall in Hgt; [|exact Hin]. cbn in Hgt. lia. }
  exists b', e', cs. repeat split; try done.
  rewrite Hp, Hend. f_equal. lia.
Qed.

(** C3.  One arrival of a reliable packet.  If the extrapolated
    position is at most [next_incoming_seqnum + MAX_RELIABLE_WINDOW_SIZE]
    (a [u64] sum), [sendAck] is called exactly once, for this packet;
    when the position lies below [next_incoming_seqnum] that is the only
    call and the buffer stays as it was.  If the position is beyond the
    bound, no callback is called and the counter, the queue and the
    caller's state are unchanged. *)
Theorem insert_acks_within_window (rpkt : ReceivedPacket)
    (b : ReliableReceivedPacketBuffer) (e : env) :
  is_reliable rpkt = true ->
  let next := next_incoming_seqnum b in
  let full_seqnum := compute_full_seqnum next (reliable_seqnum rpkt) in
  let rpkt' := set_reliable_full_seqnum full_seqnum rpkt in
  exists b' e' cs,
    insert rpkt b e = Some (b', e') /\
    calls e' = calls e ++ cs /\
    (full_seqnum <= wrap64 (next + MAX_RELIABLE_WINDOW_SIZE) ->
       acked_packets cs = [rpkt'] /\
       (full_seqnum < next -> cs = [CallSendAck rpkt'] /\ b' = b)) /\
    (wrap64 (next + MAX_RELIABLE_WINDOW_SIZE) < full_seqnum ->
       cs = [] /\ b' = b /\ e' = e).
Proof.
  intros Hrel next full_seqnum rpkt'. unfold Reliable.insert. rewrite Hrel. cbn [negb].
  fold next. fold full_seqnum. fold rpkt'.
  destruct (Z.ltb_spec (wrap64 (next + MAX_RELIABLE_WINDOW_SIZE)) full_seqnum) as [Hfar|Hwin].
  { exists b, e, []. rewrite app_nil_r. repeat split; try done; lia. }
  destruct (Z.ltb_spec full_seqnum next) as [Hold|Hnew].
  { eexists _, _, [_]. cbn [calls call_sendAck]. repeat split; try done; lia. }
  destruct (next =? full rpkt').
  - destruct (call_processPacket rpkt' (call_sendAck sendAck rpkt' e)) as [c e1] eqn:Hcall.
    apply call_processPacket_calls in Hcall. cbn [calls call_sendAck] in Hcall.
    destruct c; cbn [negb].
    + destruct (flush_spec (m_queue b) (wrap64 (next + 1)) e1)
        as (cs & k & H1 & H2 & _).
      destruct (flush (m_queue b) (wrap64 (next + 1)) e1) as [b' e'].
      cbn [fst snd] in *.
      exists b', e', (CallSendAck rpkt' :: CallProcessPacket rpkt' true :: cs).
      split; [done|]. split; [by rewrite H1, Hcall, <- !app_assoc|].
      split; [|lia]. intros _. split; [|lia]. cbn. fold (acked_packets cs). by rewrite H2.
    + eexists _, _, [_; _]. split; [done|].
      split; [by rewrite Hcall, <- app_assoc|]. split; [|lia]. intros _. split; [done|lia].
  - eexists _, _, [_]. cbn [calls call_sendAck]. split; [done|]. split; [done|].
    split; [|lia]. intros _. split; [done|lia].
Qed.

(** C9 (amended).  Let the queue hold only packets at or beyond
    [next_incoming_seqnum].  One [insert] hands consecutive stream
    positions, starting at [next_incoming_seqnum], to [processPacket],
    and advances the counter by their number; a queued duplicate of a
    position already handed out is dropped, not handed out again.  If no
    call of [processPacket] returned stop, every packet queued when
    [insert] returns is again at or beyond [next_incoming_seqnum]. *)
Theorem insert_keeps_queue_beyond_next (rpkt : ReceivedPacket)
    (b b' : ReliableReceivedPacketBuffer) (e e' : env) :
  queue_sorted (m_queue b) ->
  Forall (fun p => next_incoming_seqnum b <= full p) (m_queue b) ->
  insert rpkt b e = Some (b', e') ->
  exists (cs : list call) (k : nat),
    calls e' = calls e ++ cs /\
    processed_seqnums cs = count_from (next_incoming_seqnum b) k /\
    next_incoming_seqnum b' = incr_by (next_incoming_seqnum b) k /\
    (no_stop cs ->
       queue_sorted (m_queue b') /\
       Forall (fun p => next_incoming_seqnum b' <= full p) (m_queue b')).
Proof.
  intros Hsort Hinv. unfold Reliable.insert.
  destruct (is_reliable rpkt); cbn [negb]; [|done].
  set (next := next_incoming_seqnum b).
  set (rpkt' := set_reliable_full_seqnum _ rpkt).
  destruct (Z.ltb_spec (wrap64 (next + MAX_RELIABLE_WINDOW_SIZE))
              (compute_full_seqnum next (reliable_seqnum rpkt))) as [Hfar|Hwin].
  { intros [= <- <-]. exists [], 0%nat. by rewrite app_nil_r. }
  destruct (Z.ltb_spec (compute_full_seqnum next (reliable_seqnum rpkt)) next) as [Hold|Hnew].
  { intros [= <- <-]. exists [CallSendAck rpkt'], 0%nat. done. }
  destruct (Z.eqb_spec next (full rpkt')) as [Heq|Hne].
  - destruct (call_processPacket rpkt' (call_sendAck sendAck rpkt' e)) as [c e1] eqn:Hcall.
    apply call_processPacket_calls in Hcall. cbn [calls call_sendAck] in Hcall.
    destruct c; cbn [negb].
    + destruct (flush_spec (m_queue b) (wrap64 (next + 1)) e1)
        as (cs & k & H1 & H2 & H3 & H4 & H5 & H6).
      pose proof (flush_sorted (m_queue b) (wrap64 (next + 1)) e1 Hsort) as H7.
      destruct (flush (m_queue b) (wrap64 (next + 1)) e1) as [b1 e2].
      cbn [fst snd] in *. intros [= <- <-].
      exists (CallSendAck rpkt' :: CallProcessPacket rpkt' true :: cs), (S k).
      split; [by rewrite H1, Hcall, <- !app_assoc|].
      split; [by rewrite processed_seqnums_ack, processed_seqnums_process, H3, <- Heq|].
      split; [done|]. intros Hns. split; [done|].
      do 2 apply Forall_cons_1 in Hns as [_ Hns].
      eapply Forall_impl; [exact (H6 Hsort Hns)|]. cbn. intros. lia.
    + intros [= <- <-]. exists [CallSendAck rpkt'; CallProcessPacket rpkt' false], 1%nat.
      split; [by rewrite Hcall, <- app_assoc|].
      split; [by rewrite processed_seqnums_ack, processed_seqnums_process, <- Heq|].
      split; [done|]. intros Hns.
      apply Forall_cons_1 in Hns as [_ Hns]. apply Forall_cons_1 in Hns as [Hns _]. done.
  - intros [= <- <-]. exists [CallSendAck rpkt'], 0%nat. cbn [calls call_sendAck].
    repeat split; try done.
    + by apply push_sorted.
    + cbn [next_incoming_seqnum m_queue]. apply push_Forall; [|done].
      unfold rpkt'. cbn [reliable_full_seqnum set_reliable_full_seqnum]. fold next. lia.
Qed.

End Facts.

(** C2 as stated fails at the backward distance 32768: the wire number
    half the sequence space behind [base] is read as the position half
    the sequence space ahead. *)
Lemma compute_full_seqnum_backward_32768 :
  0 <= 32768 < 2 ^ 40 /\ 1 <= 32768 <= 32768 /\ 32768 >= 32768 /\
  compute_full_seqnum 32768 ((32768 - 32768) mod 2 ^ 16) = 65536 /\
  compute_full_seqnum 32768 ((32768 - 32768) mod 2 ^ 16) <> 32768 - 32768.
Proof. repeat split; try lia; vm_compute; congruence. Qed.

(** C2 (amended).  For [base] in [0, 2^40): the wire number of [base]
    extrapolates to [base]; that of [base + k] to [base + k] for [k] in
    [0, 32768]; that of [base - k] to [base - k] for [k] in [1, 32767]
    when [base >= k]. *)
Theorem compute_full_seqnum_identities (base k : Z) :
  0 <= base < 2 ^ 40 ->
  compute_full_seqnum base (base mod 2 ^ 16) = base /\
  (0 <= k <= 32768 -> compute_full_seqnum base ((base + k) mod 2 ^ 16) = base + k) /\
  (1 <= k <= 32767 -> base >= k ->
     compute_full_seqnum base ((base - k) mod 2 ^ 16) = base - k).
Proof.
  intros Hb. split; [|split].
  - pose proof (compute_full_seqnum_forward base 0 ltac:(lia) ltac:(lia) ltac:(lia)) as H.
    by rewrite !Z.add_0_r in H.
  - intros Hk. apply compute_full_seqnum_forward; lia.
  - intros Hk Hbk. apply compute_full_seqnum_backward; lia.
Qed.

Lemma compute_full_seqnum_identities_witness :
  compute_full_seqnum 65500 (65500 mod 2 ^ 16) = 65500 /\
  compute_full_seqnum 65500 ((65500 + 100) mod 2 ^ 16) = 65500 + 100 /\
  compute_full_seqnum 65500 ((65500 - 100) mod 2 ^ 16) = 65500 - 100.
Proof.
  destruct (compute_full_seqnum_identities 65500 100 ltac:(lia)) as (H1 & H2 & H3).
  split; [exact H1|]. split; [apply H2; lia|apply H3; lia].
Defined.

(** *** Concrete runs *)

Definition always_continue (_ : ReceivedPacket) (u : unit) : bool * unit := (true, u).
Definition ack_nothing (_ : ReceivedPacket) (u : unit) : unit := u.
Definition env0 : @env unit := mkEnv tt [].

(** Wrap of the wire numbers (scenario S3, with a reordering and a duplicate). *)
Lemma reliable_in_order_delivery_witness :
  exists b' e' cs,
    insert_all ack_nothing always_continue
      (reliable_packet <$> [65535; 1; 65534; 0; 0]) (mkBuffer 65534 []) env0
      = Some (b', e') /\
    calls e' = calls env0 ++ cs /\
    processed_seqnums cs = seqZ 65534 4 /\
    next_incoming_seqnum b' = 65534 + 4.
Proof.
  apply (reliable_in_order_delivery ack_nothing always_continue 65534 4).
  - done.
  - lia.
  - unfold MAX_RELIABLE_WINDOW_SIZE. lia.
  - unfold MAX_RELIABLE_WINDOW_SIZE. lia.
  - repeat constructor.
    + exists 65535. split; [lia|done].
    + exists 65537. split; [lia|done].
    + exists 65534. split; [lia|done].
    + exists 65536. split; [lia|done].
    + exists 65536. split; [lia|done].
  - intros f Hf.
    assert (f = 65534 \/ f = 65535 \/ f = 65536 \/ f = 65537) as [-> | [-> | [-> | ->]]] by lia;
      clear Hf; vm_compute; repeat first [apply list_elem_of_here | apply list_elem_of_further].
Defined.

Lemma insert_acks_within_window_witness :
  exists b' e' cs,
    insert ack_nothing always_continue (reliable_packet 65400) init env0 = Some (b', e') /\
    calls e' = calls env0 ++ cs /\
    cs = [CallSendAck (set_reliable_full_seqnum 65400 (reliable_packet 65400))] /\
    b' = init.
Proof.
  destruct (insert_acks_within_window ack_nothing always_continue
              (reliable_packet 65400) init env0 eq_refl)
    as (b' & e' & cs & Hi & Hc & Hwin & _).
  exists b', e', cs. split; [exact Hi|]. split; [exact Hc|].
  apply Hwin; vm_compute; congruence.
Defined.

Lemma insert_keeps_queue_beyond_next_witness :
  exists (cs : list call) (k : nat),
    calls env0 ++ [CallSendAck (set_reliable_full_seqnum 65502 (reliable_packet 65502))]
      = calls env0 ++ cs /\
    processed_seqnums cs = count_from (next_incoming_seqnum init) k /\
    next_incoming_seqnum init = incr_by (next_incoming_seqnum init) k /\
    (no_stop cs ->
       queue_sorted [set_reliable_full_seqnum 65502 (reliable_packet 65502)] /\
       Forall (fun p => next_incoming_seqnum init <= reliable_full_seqnum p)
              [set_reliable_full_seqnum 65502 (reliable_packet 65502)]).
Proof.
  apply (insert_keeps_queue_beyond_next ack_nothing always_continue
           (reliable_packet 65502) init
           (mkBuffer SEQNUM_INITIAL [set_reliable_full_seqnum 65502 (reliable_packet 65502)])
           env0
           (mkEnv tt [CallSendAck (set_reliable_full_seqnum 65502 (reliable_packet 65502))])).
  - constructor.
  - constructor.
  - reflexivity.
Defined.

(** C9 as stated fails when [processPacket] returns stop during
    [flush] while a duplicate of the position just handed out is still
    queued.  Positions 65502, 65502, 65501 arrive and are queued; then
    65500 arrives and [processPacket] stops at 65502. *)
Definition stop_at_65502 (p : ReceivedPacket) (u : unit) : bool * unit :=
  (negb (reliable_full_seqnum p =? 65502), u).

Definition stale_queue : list ReceivedPacket :=
  [set_reliable_full_seqnum 65501 (reliable_packet 65501);
   set_reliable_full_seqnum 65502 (reliable_packet 65502);
   set_reliable_full_seqnum 65502 (reliable_packet 65502)].

Lemma stop_leaves_duplicate_below_next :
  insert_all ack_nothing stop_at_65502
    (reliable_packet <$> [65502; 65502; 65501]) init env0
    = Some (mkBuffer 65500 stale_queue,
            mkEnv tt (CallSendAck <$> [set_reliable_full_seqnum 65502 (reliable_packet 65502);
                                        set_reliable_full_seqnum 65502 (reliable_packet 65502);
                                        set_reliable_full_seqnum 65501 (reliable_packet 65501)])) /\
  queue_sorted stale_queue /\
  Forall (fun p => 65500 <= reliable_full_seqnum p) stale_queue /\
  exists e',
    insert ack_nothing stop_at_65502 (reliable_packet 65500)
      (mkBuffer 65500 stale_queue) env0
    = Some (mkBuffer 65503 [set_reliable_full_seqnum 65502 (reliable_packet 65502)], e') /\
    ~ Forall (fun p => 65503 <= reliable_full_seqnum p)
        [set_reliable_full_seqnum 65502 (reliable_packet 65502)].
Proof.
  split; [reflexivity|]. split.
  { unfold queue_sorted, stale_queue. repeat constructor; cbn; lia. }
  split.
  { unfold stale_queue. repeat constructor; cbn; lia. }
  eexists. split; [reflexivity|].
  intros H. apply Forall_cons_1 in H as [H _]. cbn in H. lia.
Qed.

End ReliableFacts.

(** ** Wire parser (binreader.h, packet.cpp) *)

Module Parser.

Inductive ParseError : Type :=
| UnexpectedEOF (m_size : Z)
| WrongProtocolId (protocol_id : Z)
| InvalidChannel (channelnum : Z)
| InvalidRawType (raw_type : Z)
| InvalidControlType (control_type : Z)
| ChunkNumTooLarge (chunk_num chunk_count : Z)
| NestedReliable
| InvalidPacketType (raw_type : Z)
| EmptyContents.

(** The outcome of code that may throw.  [OutOfBounds] is a read of a
    byte that the buffer does not have. *)
Inductive result (A : Type) : Type :=
| Ok (a : A)
| Throw (err : ParseError)
| OutOfBounds.
Arguments Ok {A} a.
Arguments Throw {A} err.
Arguments OutOfBounds {A}.

Global Instance result_bind : MBind result := fun A B k m =>
  match m with
  | Ok a => k a
  | Throw err => Throw err
  | OutOfBounds => OutOfBounds
  end.

Record BinReader : Type := mkBinReader {
  m_data : list Z;
  m_size : Z;
  m_pos : Z
}.

Definition getPosition (r : BinReader) : Z := m_pos r.

(** [BinReader::_read]: the cursor (an offset into [m_data]) and the advanced reader. *)
Definition _read (n : Z) (r : BinReader) : result (Z * BinReader) :=
  if m_size r <? wrap64 (m_pos r + n) then Throw (UnexpectedEOF (m_size r))
  else Ok (m_pos r, mkBinReader (m_data r) (m_size r) (wrap64 (m_pos r + n))).

(** The byte at an offset of the buffer. *)
Definition byte_at (d : list Z) (i : Z) : result Z :=
  if i <? 0 then OutOfBounds
  else match d !! Z.to_nat i with
       | Some b => Ok b
       | None => OutOfBounds
       end.

(** Modelled from the spec: [::readU8], [::readU16] and [::readU32] of
    util/serialize.h, which is not among the sources; the design
    document has all multi-byte fields big-endian. *)
Definition deserialize_U8 (d : list Z) (cursor : Z) : result Z :=
  byte_at d cursor.

Definition deserialize_U16 (d : list Z) (cursor : Z) : result Z :=
  b0 ← byte_at d cursor ;
  b1 ← byte_at d (cursor + 1) ;
  Ok (Z.lor (Z.shiftl b0 8) b1).

Definition deserialize_U32 (d : list Z) (cursor : Z) : result Z :=
  b0 ← byte_at d cursor ;
  b1 ← byte_at d (cursor + 1) ;
  b2 ← byte_at d (cursor + 2) ;
  b3 ← byte_at d (cursor + 3) ;
  Ok (Z.lor (Z.lor (Z.lor (Z.shiftl b0 24) (Z.shiftl b1 16)) (Z.shiftl b2 8)) b3).

Definition readU8 (r : BinReader) : result (Z * BinReader) :=
  '(cursor, r') ← _read 1 r ;
  v ← deserialize_U8 (m_data r) cursor ;
  Ok (v, r').

Definition readU16 (r : BinReader) : result (Z * BinReader) :=
  '(cursor, r') ← _read 2 r ;
  v ← deserialize_U16 (m_data r) cursor ;
  Ok (v, r').

Definition readU32 (r : BinReader) : result (Z * BinReader) :=
  '(cursor, r') ← _read 4 r ;
  v ← deserialize_U32 (m_data r) cursor ;
  Ok (v, r').

Section Parse.

(** [PROTOCOL_ID] of network/networkprotocol.h, which is not among the sources. *)
Variable PROTOCOL_ID : Z.

(** The [switch (control_type)] of [parse]. *)
Definition parse_control (control_type : Z) (r : BinReader) (p : ReceivedPacket)
  : result (BinReader * ReceivedPacket) :=
  if control_type =? CONTROLTYPE_ACK then
    let p := set_type RPT_ACK p in
    '(v, r) ← readU16 r ;
    Ok (r, set_ack_seqnum v p)
  else if control_type =? CONTROLTYPE_SET_PEER_ID then
    let p := set_type RPT_SET_PEER_ID p in
    '(v, r) ← readU16 r ;
    Ok (r, set_set_peer_id_new_peer_id v p)
  else if control_type =? CONTROLTYPE_PING then
    Ok (r, set_type RPT_PING p)
  else if control_type =? CONTROLTYPE_DISCO then
    Ok (r, set_type RPT_DISCO p)
  else Throw (InvalidControlType control_type).

(** The [switch (raw_type)] of [parse]; the [bool] is [cannot_be_empty]. *)
Definition parse_body (raw_type : Z) (r : BinReader) (p : ReceivedPacket)
  : result (BinReader * ReceivedPacket * bool) :=
  if raw_type =? PACKET_TYPE_CONTROL then
    '(control_type, r) ← readU8 r ;
    '(r, p) ← parse_control control_type r p ;
    Ok (r, p, false)
  else if raw_type =? PACKET_TYPE_ORIGINAL then
    Ok (r, set_type RPT_ORIGINAL p, true)
  else if raw_type =? PACKET_TYPE_SPLIT then
    let p := set_type RPT_SPLIT p in
    '(v, r) ← readU16 r ;
    let p := set_split_seqnum v p in
    '(v, r) ← readU16 r ;
    let p := set_split_chunk_count v p in
    '(v, r) ← readU16 r ;
    let p := set_split_chunk_num v p in
    if split_chunk_count p <=? split_chunk_num p then
      Throw (ChunkNumTooLarge (split_chunk_num p) (split_chunk_count p))
    else Ok (r, p, true)
  else if raw_type =? PACKET_TYPE_RELIABLE then
    Throw NestedReliable
  else Throw (InvalidPacketType raw_type).

(** [ReceivedPacket::parse], on a packet whose [data] and [data_size] are filled in. *)
Definition parse (p : ReceivedPacket) : result ReceivedPacket :=
  let r := mkBinReader (data p) (data_size p) 0 in
  '(v, r) ← readU32 r ;
  let p := set_protocol_id v p in
  if negb (protocol_id p =? PROTOCOL_ID) then Throw (WrongProtocolId (protocol_id p)) else
  '(v, r) ← readU16 r ;
  let p := set_peer_id v p in
  '(v, r) ← readU8 r ;
  let p := set_channelnum v p in
  if CHANNEL_COUNT <=? channelnum p then Throw (InvalidChannel (channelnum p)) else
  '(raw_type, r) ← readU8 r ;
  if PACKET_TYPE_MAX <=? raw_type then Throw (InvalidRawType raw_type) else
  '(raw_type, r, p) ←
    (if raw_type =? PACKET_TYPE_RELIABLE then
       let p := set_is_reliable true p in
       '(v, r) ← readU16 r ;
       let p := set_reliable_seqnum v p in
       '(raw_type, r) ← readU8 r ;
       Ok (raw_type, r, p)
     else Ok (raw_type, r, p)) ;
  let p := set_type RPT_INVALID p in
  '(r, p, cannot_be_empty) ← parse_body raw_type r p ;
  let p := set_contents (getPosition r) p in
  let p := set_contents_size (wrap64 (data_size p - getPosition r)) p in
  if cannot_be_empty && (contents_size p =? 0) then Throw EmptyContents
  else Ok p.

End Parse.

(** A received datagram: a zero-initialised packet with the buffer filled in. *)
Definition received (bytes : list Z) : ReceivedPacket :=
  set_data_size (Z.of_nat (length bytes)) (set_data bytes make).

End Parser.

(** ** Properties of the wire parser *)

Module ParserFacts.
Import Parser.

Definition is_u8 (x : Z) : Prop := 0 <= x < 2 ^ 8.

(** *** The wire grammar, as the design document gives it

    A datagram is the base header, an optional reliable envelope, the
    header of the inner packet and the payload; [encode] lays it out
    with all multi-byte fields big-endian. *)

Inductive inner : Type :=
| Control_ACK (seqnum : Z)
| Control_SET_PEER_ID (new_peer_id : Z)
| Control_PING
| Control_DISCO
| Original
| Split (seqnum chunk_count chunk_num : Z).

Record datagram : Type := mkDatagram {
  d_protocol_id : Z;
  d_peer_id : Z;
  d_channel : Z;
  d_reliable : option Z;
  d_inner : inner;
  d_payload : list Z
}.

Definition be16 (v : Z) : list Z := [v / 2 ^ 8; v mod 2 ^ 8].
Definition be32 (v : Z) : list Z :=
  [v / 2 ^ 24; (v / 2 ^ 16) mod 2 ^ 8; (v / 2 ^ 8) mod 2 ^ 8; v mod 2 ^ 8].

Definition encode_reliable (rel : option Z) : list Z :=
  match rel with
  | Some seqnum => [3] ++ be16 seqnum
  | None => []
  end.

Definition encode_inner (i : inner) : list Z :=
  match i with
  | Control_ACK seqnum => [0; 0] ++ be16 seqnum
  | Control_SET_PEER_ID new_peer_id => [0; 1] ++ be16 new_peer_id
  | Control_PING => [0; 2]
  | Control_DISCO => [0; 3]
  | Original => [1]
  | Split seqnum chunk_count chunk_num =>
      [2] ++ be16 seqnum ++ be16 chunk_count ++ be16 chunk_num
  end.

Definition encode_header (d : datagram) : list Z :=
  be32 (d_protocol_id d) ++ be16 (d_peer_id d) ++ [d_channel d]
  ++ encode_reliable (d_reliable d) ++ encode_inner (d_inner d).

Definition encode (d : datagram) : list Z := encode_header d ++ d_payload d.

Definition wf_inner (i : inner) (payload : list Z) : Prop :=
  match i with
  | Control_ACK seqnum => is_u16 seqnum
  | Control_SET_PEER_ID new_peer_id => is_u16 new_peer_id
  | Control_PING | Control_DISCO => True
  | Original => payload <> []
  | Split seqnum chunk_count chunk_num =>
      is_u16 seqnum /\ is_u16 chunk_count /\ is_u16 chunk_num /\
      chunk_num < chunk_count /\ payload <> []
  end.

Definition wf_datagram (PROTOCOL_ID : Z) (d : datagram) : Prop :=
  d_protocol_id d = PROTOCOL_ID /\ 0 <= d_protocol_id d < 2 ^ 32 /\
  is_u16 (d_peer_id d) /\
  0 <= d_channel d < CHANNEL_COUNT /\
  match d_reliable d with Some seqnum => is_u16 seqnum | None => True end /\
  wf_inner (d_inner d) (d_payload d).

Definition type_of (i : inner) : ReceivedPacketType :=
  match i with
  | Control_ACK _ => RPT_ACK
  | Control_SET_PEER_ID _ => RPT_SET_PEER_ID
  | Control_PING => RPT_PING
  | Control_DISCO => RPT_DISCO
  | Original => RPT_ORIGINAL
  | Split _ _ _ => RPT_SPLIT
  end.

(** The packet fields the grammar prescribes for a datagram; a field
    that the datagram does not carry keeps the value it has in [p]. *)
Definition packet_of (d : datagram) (p : ReceivedPacket) : ReceivedPacket :=
  mkReceivedPacket (received_time_ms p) (data p) (data_size p)
    (d_protocol_id d) (d_peer_id d) (d_channel d) (type_of (d_inner d))
    (match d_reliable d with Some _ => true | None => is_reliable p end)
    (match d_reliable d with Some seqnum => seqnum | None => reliable_seqnum p end)
    (reliable_full_seqnum p)
    (match d_inner d with Control_ACK seqnum => seqnum | _ => ack_seqnum p end)
    (match d_inner d with
     | Control_SET_PEER_ID new_peer_id => new_peer_id
     | _ => set_peer_id_new_peer_id p end)
    (match d_inner d with Split seqnum _ _ => seqnum | _ => split_seqnum p end)
    (match d_inner d with Split _ chunk_count _ => chunk_count | _ => split_chunk_count p end)
    (match d_inner d with Split _ _ chunk_num => chunk_num | _ => split_chunk_num p end)
    (Z.of_nat (length (encode_header d)))
    (Z.of_nat (length (d_payload d))).

(** *** Reading *)

(** A reader over the buffer [pre ++ suf] that has consumed [pre]. *)
Definition reader (pre suf : list Z) : BinReader :=
  mkBinReader (pre ++ suf) (Z.of_nat (length (pre ++ suf))) (Z.of_nat (length pre)).

Lemma reader_snoc (pre suf l : list Z) :
  mkBinReader (pre ++ l ++ suf) (Z.of_nat (length (pre ++ l ++ suf)))
              (Z.of_nat (length pre) + Z.of_nat (length l))
  = reader (pre ++ l) suf.
Proof. unfold reader. rewrite <- !app_assoc, (length_app pre l). f_equal. lia. Qed.

Lemma byte_at_app (pre suf : list Z) (i : nat) :
  byte_at (pre ++ suf) (Z.of_nat (length pre) + Z.of_nat i)
  = match suf !! i with Some b => Ok b | None => OutOfBounds end.
Proof.
  unfold byte_at. destruct (Z.ltb_spec (Z.of_nat (length pre) + Z.of_nat i) 0); [lia|].
  replace (Z.to_nat (Z.of_nat (length pre) + Z.of_nat i)) with (length pre + i)%nat by lia.
  by rewrite lookup_app_r, Nat.add_comm, Nat.add_sub by lia.
Qed.

Lemma _read_reader (n : nat) (pre suf : list Z) :
  Z.of_nat (length (pre ++ suf)) + Z.of_nat n < 2 ^ 64 ->
  _read (Z.of_nat n) (reader pre suf)
  = if decide (n <= length suf)%nat
    then Ok (Z.of_nat (length pre),
             mkBinReader (pre ++ suf) (Z.of_nat (length (pre ++ suf)))
                         (Z.of_nat (length pre) + Z.of_nat n))
    else Throw (UnexpectedEOF (Z.of_nat (length (pre ++ suf)))).
Proof.
  intros Hlen. unfold _read, reader. cbn [m_size m_pos m_data].
  rewrite length_app in *.
  assert (wrap64 (Z.of_nat (length pre) + Z.of_nat n) = Z.of_nat (length pre) + Z.of_nat n) as ->
    by (unfold wrap64; apply Z.mod_small; lia).
  destruct (Z.ltb_spec (Z.of_nat (length pre + length suf))
              (Z.of_nat (length pre) + Z.of_nat n)); case_decide; try lia; done.
Qed.

Lemma byte_at_reader (pre suf : list Z) (i : nat) (k : Z) :
  k = Z.of_nat i ->
  byte_at (m_data (reader pre suf)) (Z.of_nat (length pre) + k)
  = match suf !! i with Some b => Ok b | None => OutOfBounds end.
Proof. intros ->. apply byte_at_app. Qed.

Lemma byte_at_reader_0 (pre suf : list Z) :
  byte_at (m_data (reader pre suf)) (Z.of_nat (length pre))
  = match suf !! 0%nat with Some b => Ok b | None => OutOfBounds end.
Proof. rewrite <- (byte_at_reader pre suf 0 0) by done. by rewrite Z.add_0_r. Qed.

Lemma readU8_reader (pre suf : list Z) :
  Z.of_nat (length (pre ++ suf)) + 8 < 2 ^ 64 ->
  readU8 (reader pre suf)
  = match suf with
    | b :: suf' => Ok (b, reader (pre ++ [b]) suf')
    | _ => Throw (UnexpectedEOF (Z.of_nat (length (pre ++ suf))))
    end.
Proof.
  intros Hlen. unfold readU8. rewrite (_read_reader 1) by lia.
  destruct suf as [|b suf]; [done|].
  rewrite decide_True by (cbn; lia). cbn [mbind result_bind].
  unfold deserialize_U8. rewrite byte_at_reader_0. cbn [lookup list_lookup mbind result_bind].
  do 2 f_equal. apply (reader_snoc pre suf [b]).
Qed.

Lemma readU16_reader (pre suf : list Z) :
  Z.of_nat (length (pre ++ suf)) + 8 < 2 ^ 64 ->
  readU16 (reader pre suf)
  = match suf with
    | b0 :: b1 :: suf' =>
        Ok (Z.lor (Z.shiftl b0 8) b1, reader (pre ++ [b0; b1]) suf')
    | _ => Throw (UnexpectedEOF (Z.of_nat (length (pre ++ suf))))
    end.
Proof.
  intros Hlen. unfold readU16. rewrite (_read_reader 2) by lia.
  destruct suf as [|b0 [|b1 suf]]; [done|done|].
  rewrite decide_True by (cbn; lia). cbn [mbind result_bind].
  unfold deserialize_U16.
  rewrite byte_at_reader_0, (byte_at_reader _ _ 1 1) by done. cbn [lookup list_lookup mbind result_bind].
  do 2 f_equal. apply (reader_snoc pre suf [b0; b1]).
Qed.

Lemma readU32_reader (pre suf : list Z) :
  Z.of_nat (length (pre ++ suf)) + 8 < 2 ^ 64 ->
  readU32 (reader pre suf)
  = match suf with
    | b0 :: b1 :: b2 :: b3 :: suf' =>
        Ok (Z.lor (Z.lor (Z.lor (Z.shiftl b0 24) (Z.shiftl b1 16)) (Z.shiftl b2 8)) b3,
            reader (pre ++ [b0; b1; b2; b3]) suf')
    | _ => Throw (UnexpectedEOF (Z.of_nat (length (pre ++ suf))))
    end.
Proof.
  intros Hlen. unfold readU32. rewrite (_read_reader 4) by lia.
  destruct suf as [|b0 [|b1 [|b2 [|b3 suf]]]]; [done|done|done|done|].
  rewrite decide_True by (cbn; lia). cbn [mbind result_bind].
  unfold deserialize_U32.
  rewrite byte_at_reader_0, (byte_at_reader _ _ 1 1), (byte_at_reader _ _ 2 2),
    (byte_at_reader _ _ 3 3) by done. cbn [lookup list_lookup mbind result_bind].
  do 2 f_equal. apply (reader_snoc pre suf [b0; b1; b2; b3]).
Qed.

(** *** Big-endian fields *)

Lemma lor_mul_pow2 (hi lo n : Z) :
  0 <= n -> 0 <= lo < 2 ^ n -> Z.lor (hi * 2 ^ n) lo = hi * 2 ^ n + lo.
Proof.
  intros Hn Hlo.
  assert (Z.land (hi * 2 ^ n) lo = 0) as Hl.
  { apply Z.bits_inj'. intros i Hi. rewrite Z.land_spec, Z.bits_0.
    destruct (Z.ltb_spec i n).
    - by rewrite Z.mul_pow2_bits_low by lia.
    - destruct (Z.eq_dec lo 0) as [->|]; [by rewrite Z.bits_0, andb_false_r|].
      rewrite (Z.bits_above_log2 lo i); [apply andb_false_r|lia|].
      apply Z.lt_le_trans with n; [|done]. apply Z.log2_lt_pow2; lia. }
  by rewrite <- Z.lxor_lor, <- Z.add_nocarry_lxor.
Qed.

Lemma lor_shiftl_8 (hi lo : Z) :
  0 <= hi -> is_u8 lo -> Z.lor (Z.shiftl hi 8) lo = hi * 2 ^ 8 + lo.
Proof.
  intros Hhi Hlo. rewrite Z.shiftl_mul_pow2 by lia. by apply lor_mul_pow2.
Qed.

Lemma divmod_256 (a b : Z) :
  0 <= b < 2 ^ 8 -> (a * 2 ^ 8 + b) / 2 ^ 8 = a /\ (a * 2 ^ 8 + b) mod 2 ^ 8 = b.
Proof.
  intros Hb. split.
  - rewrite Z.div_add_l by lia. rewrite Z.div_small by lia. lia.
  - rewrite Z.add_comm, Z.mod_add by lia. apply Z.mod_small. lia.
Qed.

Lemma be16_decode (b0 b1 : Z) :
  is_u8 b0 -> is_u8 b1 ->
  is_u16 (Z.lor (Z.shiftl b0 8) b1) /\ be16 (Z.lor (Z.shiftl b0 8) b1) = [b0; b1].
Proof.
  intros H0 H1. rewrite lor_shiftl_8 by (done || apply H0).
  destruct (divmod_256 b0 b1 H1) as [Hd Hm].
  unfold is_u8, is_u16, be16 in *. rewrite Hd, Hm. split; [lia|done].
Qed.

Lemma be16_encode (v : Z) :
  is_u16 v -> is_u8 (v / 2 ^ 8) /\ is_u8 (v mod 2 ^ 8) /\
  Z.lor (Z.shiftl (v / 2 ^ 8) 8) (v mod 2 ^ 8) = v.
Proof.
  unfold is_u16, is_u8. intros Hv.
  pose proof (Z.div_mod v (2 ^ 8) ltac:(lia)).
  pose proof (Z.mod_pos_bound v (2 ^ 8) ltac:(lia)).
  assert (0 <= v / 2 ^ 8 < 2 ^ 8) by (split; [apply Z.div_pos; lia|apply Z.div_lt_upper_bound; lia]).
  split; [done|]. split; [done|].
  rewrite lor_shiftl_8 by (done || lia). lia.
Qed.

Lemma lor_shiftl_32 (b0 b1 b2 b3 : Z) :
  is_u8 b0 -> is_u8 b1 -> is_u8 b2 -> is_u8 b3 ->
  Z.lor (Z.lor (Z.lor (Z.shiftl b0 24) (Z.shiftl b1 16)) (Z.shiftl b2 8)) b3
  = ((b0 * 2 ^ 8 + b1) * 2 ^ 8 + b2) * 2 ^ 8 + b3.
Proof.
  unfold is_u8. intros H0 H1 H2 H3. rewrite !Z.shiftl_mul_pow2 by lia.
  rewrite (lor_mul_pow2 b0 (b1 * 2 ^ 16) 24) by lia.
  replace (b0 * 2 ^ 24 + b1 * 2 ^ 16) with ((b0 * 2 ^ 8 + b1) * 2 ^ 16) by lia.
  rewrite (lor_mul_pow2 _ (b2 * 2 ^ 8) 16) by lia.
  replace ((b0 * 2 ^ 8 + b1) * 2 ^ 16 + b2 * 2 ^ 8)
    with (((b0 * 2 ^ 8 + b1) * 2 ^ 8 + b2) * 2 ^ 8) by lia.
  by rewrite (lor_mul_pow2 _ b3 8) by lia.
Qed.

Lemma be32_bytes (b0 b1 b2 b3 : Z) :
  is_u8 b0 -> is_u8 b1 -> is_u8 b2 -> is_u8 b3 ->
  be32 (((b0 * 2 ^ 8 + b1) * 2 ^ 8 + b2) * 2 ^ 8 + b3) = [b0; b1; b2; b3].
Proof.
  unfold is_u8. intros H0 H1 H2 H3.
  set (z := b0 * 2 ^ 8 + b1). set (y := z * 2 ^ 8 + b2). set (x := y * 2 ^ 8 + b3).
  assert (x / 2 ^ 8 = y /\ x mod 2 ^ 8 = b3) as [Hx Hxm] by by apply divmod_256.
  assert (y / 2 ^ 8 = z /\ y mod 2 ^ 8 = b2) as [Hy Hym] by by apply divmod_256.
  assert (z / 2 ^ 8 = b0 /\ z mod 2 ^ 8 = b1) as [Hz Hzm] by by apply divmod_256.
  assert (x / 2 ^ 16 = z) as H16.
  { change (2 ^ 16) with (2 ^ 8 * 2 ^ 8). rewrite <- Z.div_div by lia. by rewrite Hx. }
  assert (x / 2 ^ 24 = b0) as H24.
  { change (2 ^ 24) with (2 ^ 16 * 2 ^ 8). rewrite <- Z.div_div by lia. by rewrite H16. }
  unfold be32. by rewrite H24, H16, Hx, Hxm, Hym, Hzm.
Qed.

Lemma be32_decode (b0 b1 b2 b3 : Z) :
  is_u8 b0 -> is_u8 b1 -> is_u8 b2 -> is_u8 b3 ->
  let v := Z.lor (Z.lor (Z.lor (Z.shiftl b0 24) (Z.shiftl b1 16)) (Z.shiftl b2 8)) b3 in
  0 <= v < 2 ^ 32 /\ be32 v = [b0; b1; b2; b3].
Proof.
  intros H0 H1 H2 H3 v. subst v. rewrite lor_shiftl_32 by done.
  split; [unfold is_u8 in *; lia|]. by apply be32_bytes.
Qed.

Lemma be32_encode (v : Z) :
  0 <= v < 2 ^ 32 ->
  Forall is_u8 (be32 v) /\
  Z.lor (Z.lor (Z.lor (Z.shiftl (v / 2 ^ 24) 24) (Z.shiftl ((v / 2 ^ 16) mod 2 ^ 8) 16))
               (Z.shiftl ((v / 2 ^ 8) mod 2 ^ 8) 8)) (v mod 2 ^ 8) = v.
Proof.
  intros Hv.
  assert (is_u8 (v / 2 ^ 24) /\ is_u8 ((v / 2 ^ 16) mod 2 ^ 8) /\
          is_u8 ((v / 2 ^ 8) mod 2 ^ 8) /\ is_u8 (v mod 2 ^ 8)) as (H0 & H1 & H2 & H3).
  { unfold is_u8. repeat split; try (apply Z.mod_pos_bound; lia);
      try (apply Z.div_pos; lia). apply Z.div_lt_upper_bound; lia. }
  split; [unfold be32; by repeat apply Forall_cons_2; try apply Forall_nil|].
  rewrite lor_shiftl_32 by done.
  pose proof (Z.div_mod v (2 ^ 8) ltac:(lia)) as E1.
  pose proof (Z.div_mod (v / 2 ^ 8) (2 ^ 8) ltac:(lia)) as E2.
  pose proof (Z.div_mod (v / 2 ^ 16) (2 ^ 8) ltac:(lia)) as E3.
  assert (v / 2 ^ 8 / 2 ^ 8 = v / 2 ^ 16) as Hq1
    by (rewrite Z.div_div by lia; done).
  assert (v / 2 ^ 16 / 2 ^ 8 = v / 2 ^ 24) as Hq2
    by (rewrite Z.div_div by lia; done).
  rewrite Hq1 in E2. rewrite Hq2 in E3. lia.
Qed.

(** *** The encoding determines the datagram *)

Lemma be16_app_inj (v v' : Z) (l l' : list Z) :
  be16 v ++ l = be16 v' ++ l' -> v = v' /\ l = l'.
Proof.
  unfold be16. cbn [app]. intros [= Hd Hm Hl]. split; [|done].
  rewrite (Z.div_mod v (2 ^ 8)), (Z.div_mod v' (2 ^ 8)) by lia. by rewrite Hd, Hm.
Qed.

Lemma be32_app_inj (v v' : Z) (l l' : list Z) :
  be32 v ++ l = be32 v' ++ l' -> v = v' /\ l = l'.
Proof.
  unfold be32. cbn [app]. intros [= H24 H16 H8 H0 Hl]. split; [|done].
  assert (v / 2 ^ 16 = v' / 2 ^ 16) as E16.
  { rewrite (Z.div_mod (v / 2 ^ 16) (2 ^ 8)), (Z.div_mod (v' / 2 ^ 16) (2 ^ 8)) by lia.
    rewrite !Z.div_div by lia. change (2 ^ 16 * 2 ^ 8) with (2 ^ 24). by rewrite H24, H16. }
  assert (v / 2 ^ 8 = v' / 2 ^ 8) as E8.
  { rewrite (Z.div_mod (v / 2 ^ 8) (2 ^ 8)), (Z.div_mod (v' / 2 ^ 8) (2 ^ 8)) by lia.
    rewrite !Z.div_div by lia. change (2 ^ 8 * 2 ^ 8) with (2 ^ 16). by rewrite E16, H8. }
  rewrite (Z.div_mod v (2 ^ 8)), (Z.div_mod v' (2 ^ 8)) by lia. by rewrite E8, H0.
Qed.

Lemma divmod_256_eq (v v' : Z) :
  v / 2 ^ 8 = v' / 2 ^ 8 -> v mod 2 ^ 8 = v' mod 2 ^ 8 -> v = v'.
Proof.
  intros Hd Hm. rewrite (Z.div_mod v (2 ^ 8)), (Z.div_mod v' (2 ^ 8)) by lia.
  by rewrite Hd, Hm.
Qed.

Lemma encode_inner_inj (i i' : inner) (l l' : list Z) :
  encode_inner i ++ l = encode_inner i' ++ l' -> i = i' /\ l = l'.
Proof.
  destruct i, i'; cbn; intros Heq; try discriminate Heq; simplify_eq;
    repeat match goal with
           | H1 : ?a / 2 ^ 8 = ?b / 2 ^ 8, H2 : ?a mod 2 ^ 8 = ?b mod 2 ^ 8 |- _ =>
               pose proof (divmod_256_eq a b H1 H2); clear H1 H2; subst
           end;
    done.
Qed.

Lemma encode_inner_not_reliable (i : inner) (l : list Z) : hd 0 (encode_inner i ++ l) <> 3.
Proof. by destruct i. Qed.

Lemma encode_inj (d d' : datagram) : encode d = encode d' -> d = d'.
Proof.
  destruct d as [pid peer ch rel i payload], d' as [pid' peer' ch' rel' i' payload'].
  unfold encode, encode_header. cbn [d_protocol_id d_peer_id d_channel d_reliable d_inner d_payload].
  rewrite <- !app_assoc. intros H.
  apply be32_app_inj in H as [-> H]. apply be16_app_inj in H as [-> H].
  cbn [app] in H. injection H as -> H.
  assert (rel = rel' /\ encode_inner i ++ payload = encode_inner i' ++ payload') as [-> H'].
  { destruct rel as [s|], rel' as [s'|]; cbn [encode_reliable app] in H.
    - apply (f_equal tail) in H. cbn [tail] in H.
      apply be16_app_inj in H as [-> H]. done.
    - exfalso. apply (encode_inner_not_reliable i' payload'). by rewrite <- H.
    - exfalso. apply (encode_inner_not_reliable i payload). by rewrite H.
    - done. }
  apply encode_inner_inj in H' as [-> ->]. done.
Qed.

Lemma be16_read (v b0 b1 : Z) (l l' : list Z) :
  is_u16 v -> b0 :: b1 :: l = be16 v ++ l' -> Z.lor (Z.shiftl b0 8) b1 = v /\ l = l'.
Proof.
  intros Hv. unfold be16. cbn [app]. intros [= -> -> ->].
  split; [by apply be16_encode|done].
Qed.

Lemma be32_read (v b0 b1 b2 b3 : Z) (l l' : list Z) :
  0 <= v < 2 ^ 32 -> b0 :: b1 :: b2 :: b3 :: l = be32 v ++ l' ->
  Z.lor (Z.lor (Z.lor (Z.shiftl b0 24) (Z.shiftl b1 16)) (Z.shiftl b2 8)) b3 = v /\ l = l'.
Proof.
  intros Hv. unfold be32. cbn [app]. intros [= -> -> -> -> ->].
  split; [by apply be32_encode|done].
Qed.

End ParserFacts.

Module ParserExact.
Import Parser ParserFacts.

Section Exact.

Variable PROTOCOL_ID : Z.

Local Abbreviation parse := (parse PROTOCOL_ID).

(** A packet whose buffer holds exactly the declared number of bytes,
    at most the size of the receive buffer. *)
Definition buffer_ok (p : ReceivedPacket) : Prop :=
  data_size p = Z.of_nat (length (data p)) /\
  data_size p <= PACKET_MAXSIZE /\
  Forall is_u8 (data p).

Lemma reader_start (d : list Z) :
  mkBinReader d (Z.of_nat (length d)) 0 = reader [] d.
Proof. done. Qed.

Ltac length_ok := rewrite ?length_app in *; cbn [length] in *; lia.

Ltac read_field :=
  first [ rewrite readU32_reader by length_ok
        | rewrite readU16_reader by length_ok
        | rewrite readU8_reader by length_ok ].

Ltac eof_ok := intros ? [= <-]; rewrite ?length_app; cbn [length]; lia.

Ltac next_bytes :=
  match goal with
  | |- context [match ?l with [] => _ | _ :: _ => _ end] => is_var l; destruct l
  | H : context [match ?l with [] => _ | _ :: _ => _ end] |- _ => is_var l; destruct l
  end.

Lemma parse_body_cases (raw_type : Z) (pre suf : list Z) (p : ReceivedPacket) :
  Z.of_nat (length (pre ++ suf)) <= PACKET_MAXSIZE ->
  Forall is_u8 suf ->
  match parse_body raw_type (reader pre suf) p with
  | Ok (r, p', cannot_be_empty) =>
      exists i payload,
        suf = tl (encode_inner i) ++ payload /\
        hd 0 (encode_inner i) = raw_type /\
        r = reader (pre ++ tl (encode_inner i)) payload /\
        cannot_be_empty = match i with Original | Split _ _ _ => true | _ => false end /\
        match i with
        | Control_ACK s | Control_SET_PEER_ID s => is_u16 s
        | Split s c n => is_u16 s /\ is_u16 c /\ is_u16 n /\ n < c
        | _ => True
        end /\
        p' = mkReceivedPacket (received_time_ms p) (data p) (data_size p)
               (protocol_id p) (peer_id p) (channelnum p) (type_of i)
               (is_reliable p) (reliable_seqnum p) (reliable_full_seqnum p)
               (match i with Control_ACK s => s | _ => ack_seqnum p end)
               (match i with Control_SET_PEER_ID s => s | _ => set_peer_id_new_peer_id p end)
               (match i with Split s _ _ => s | _ => split_seqnum p end)
               (match i with Split _ c _ => c | _ => split_chunk_count p end)
               (match i with Split _ _ n => n | _ => split_chunk_num p end)
               (contents p) (contents_size p)
  | Throw err =>
      (forall i payload, suf = tl (encode_inner i) ++ payload ->
         hd 0 (encode_inner i) = raw_type ->
         match i with
         | Control_ACK s | Control_SET_PEER_ID s => is_u16 s
         | Split s c n => is_u16 s /\ is_u16 c /\ is_u16 n /\ n < c
         | _ => True
         end -> False) /\
      (forall n, err = UnexpectedEOF n -> n = Z.of_nat (length (pre ++ suf)))
  | OutOfBounds => False
  end.
Proof.
  unfold PACKET_MAXSIZE. intros Hlen Hu8. unfold parse_body.
  unfold PACKET_TYPE_CONTROL, PACKET_TYPE_ORIGINAL, PACKET_TYPE_SPLIT, PACKET_TYPE_RELIABLE.
  destruct (Z.eqb_spec raw_type 0) as [->|Hn0].
  { (* CONTROL *)
    read_field. destruct suf as [|control_type suf]; cbn [mbind result_bind].
    { split; [|eof_ok].
      intros [] payload Heq; cbn in Heq; try done. }
    apply Forall_cons_1 in Hu8 as [Hc Hu8].
    unfold parse_control, CONTROLTYPE_ACK, CONTROLTYPE_SET_PEER_ID, CONTROLTYPE_PING,
      CONTROLTYPE_DISCO.
    destruct (Z.eqb_spec control_type 0) as [->|Hc0].
    { read_field. destruct suf as [|b0 [|b1 suf]]; cbn [mbind result_bind].
      1,2: split; [|eof_ok]; intros [] payload Heq Hhd; cbn in Heq, Hhd; try done.
      apply Forall_cons_1 in Hu8 as [H0 Hu8]. apply Forall_cons_1 in Hu8 as [H1 Hu8].
      destruct (be16_decode b0 b1 H0 H1) as [Hr Hb].
      exists (Control_ACK (Z.lor (Z.shiftl b0 8) b1)), suf. cbn [encode_inner tl hd app].
      rewrite Hb. cbn [app]. rewrite <- !app_assoc. done. }
    destruct (Z.eqb_spec control_type 1) as [->|Hc1].
    { read_field. destruct suf as [|b0 [|b1 suf]]; cbn [mbind result_bind].
      1,2: split; [|eof_ok]; intros [] payload Heq Hhd; cbn in Heq, Hhd; try done.
      apply Forall_cons_1 in Hu8 as [H0 Hu8]. apply Forall_cons_1 in Hu8 as [H1 Hu8].
      destruct (be16_decode b0 b1 H0 H1) as [Hr Hb].
      exists (Control_SET_PEER_ID (Z.lor (Z.shiftl b0 8) b1)), suf.
      cbn [encode_inner tl hd app].
      rewrite Hb. cbn [app]. rewrite <- !app_assoc. done. }
    destruct (Z.eqb_spec control_type 2) as [->|Hc2].
    { exists Control_PING, suf. done. }
    destruct (Z.eqb_spec control_type 3) as [->|Hc3].
    { exists Control_DISCO, suf. done. }
    split; [|done]. intros [] payload Heq Hhd; cbn in Heq, Hhd; congruence. }
  destruct (Z.eqb_spec raw_type 1) as [->|Hn1].
  { exists Original, suf. cbn [encode_inner tl app]. by rewrite app_nil_r. }
  destruct (Z.eqb_spec raw_type 2) as [->|Hn2].
  { read_field. destruct suf as [|b0 [|b1 suf]]; cbn [mbind result_bind].
    1,2: split; [|eof_ok]; intros [] payload Heq Hhd; cbn in Heq, Hhd; try done.
    read_field. destruct suf as [|b2 [|b3 suf]]; cbn [mbind result_bind].
    1,2: split; [|eof_ok]; intros [] payload Heq Hhd; cbn in Heq, Hhd; try done.
    read_field. destruct suf as [|b4 [|b5 suf]]; cbn [mbind result_bind].
    1,2: split; [|eof_ok]; intros [] payload Heq Hhd; cbn in Heq, Hhd; try done.
    repeat (apply Forall_cons_1 in Hu8 as [? Hu8]).
    destruct (be16_decode b0 b1) as [Hr0 Hb0]; [done..|].
    destruct (be16_decode b2 b3) as [Hr1 Hb1]; [done..|].
    destruct (be16_decode b4 b5) as [Hr2 Hb2]; [done..|].
    cbn [split_chunk_count split_chunk_num set_split_chunk_num set_split_chunk_count
         set_split_seqnum set_type].
    destruct (Z.leb_spec (Z.lor (Z.shiftl b2 8) b3) (Z.lor (Z.shiftl b4 8) b5)) as [Hbad|Hgood].
    - split; [|done]. intros [] payload Heq Hhd Hwf; cbn in Heq, Hhd; try done.
      destruct Hwf as (Hs & Hc & Hn & Hlt).
      destruct (be16_encode _ Hs) as (? & ? & Es).
      destruct (be16_encode _ Hc) as (? & ? & Ec).
      destruct (be16_encode _ Hn) as (? & ? & En).
      injection Heq as -> -> -> -> -> -> _. rewrite Ec, En in Hbad. lia.
    - exists (Split (Z.lor (Z.shiftl b0 8) b1) (Z.lor (Z.shiftl b2 8) b3)
                    (Z.lor (Z.shiftl b4 8) b5)), suf.
      cbn [encode_inner tl hd app]. rewrite Hb0, Hb1, Hb2. cbn [app].
      rewrite <- !app_assoc. done. }
  destruct (Z.eqb_spec raw_type 3) as [->|Hn3].
  { split; [|done]. intros [] payload Heq Hhd; cbn in Heq, Hhd; congruence. }
  split; [|done]. intros [] payload Heq Hhd; cbn in Heq, Hhd; congruence.
Qed.

Lemma encode_inner_hd_tl (i : inner) :
  encode_inner i = hd 0 (encode_inner i) :: tail (encode_inner i).
Proof. by destruct i. Qed.

Lemma encode_base (d : datagram) :
  wf_datagram PROTOCOL_ID d ->
  exists b0 b1 b2 b3 b4 b5,
    encode d = b0 :: b1 :: b2 :: b3 :: b4 :: b5 :: d_channel d
               :: (encode_reliable (d_reliable d) ++ encode_inner (d_inner d) ++ d_payload d) /\
    Z.lor (Z.lor (Z.lor (Z.shiftl b0 24) (Z.shiftl b1 16)) (Z.shiftl b2 8)) b3 = PROTOCOL_ID /\
    Z.lor (Z.shiftl b4 8) b5 = d_peer_id d.
Proof.
  intros (Hpid & Hr & Hpeer & _).
  destruct (be32_encode _ Hr) as [_ E32]. destruct (be16_encode _ Hpeer) as (_ & _ & E16).
  eexists _, _, _, _, _, _. split; [|split; [by rewrite <- Hpid|exact E16]].
  unfold encode, encode_header, be32, be16. by rewrite <- !app_assoc.
Qed.

(** What follows the type byte: the inner header, the payload slice and the emptiness check. *)
Definition parse_rest (raw_type : Z) (r : BinReader) (p : ReceivedPacket)
  : result ReceivedPacket :=
  '(r, p, cannot_be_empty) ← parse_body raw_type r p ;
  let p := set_contents (getPosition r) p in
  let p := set_contents_size (wrap64 (data_size p - getPosition r)) p in
  if cannot_be_empty && (contents_size p =? 0) then Throw EmptyContents
  else Ok p.

Lemma parse_rest_cases (raw_type : Z) (pre suf : list Z) (p : ReceivedPacket) :
  Z.of_nat (length (pre ++ suf)) <= PACKET_MAXSIZE ->
  Forall is_u8 suf ->
  data_size p = Z.of_nat (length (pre ++ suf)) ->
  match parse_rest raw_type (reader pre suf) p with
  | Ok p' =>
      exists i payload,
        suf = tail (encode_inner i) ++ payload /\
        hd 0 (encode_inner i) = raw_type /\
        wf_inner i payload /\
        p' = mkReceivedPacket (received_time_ms p) (data p) (data_size p)
               (protocol_id p) (peer_id p) (channelnum p) (type_of i)
               (is_reliable p) (reliable_seqnum p) (reliable_full_seqnum p)
               (match i with Control_ACK s => s | _ => ack_seqnum p end)
               (match i with Control_SET_PEER_ID s => s | _ => set_peer_id_new_peer_id p end)
               (match i with Split s _ _ => s | _ => split_seqnum p end)
               (match i with Split _ c _ => c | _ => split_chunk_count p end)
               (match i with Split _ _ n => n | _ => split_chunk_num p end)
               (Z.of_nat (length (pre ++ tail (encode_inner i))))
               (Z.of_nat (length payload))
  | Throw err =>
      (forall i payload, suf = tail (encode_inner i) ++ payload ->
         hd 0 (encode_inner i) = raw_type -> wf_inner i payload -> False) /\
      (forall n, err = UnexpectedEOF n -> n = Z.of_nat (length (pre ++ suf)))
  | OutOfBounds => False
  end.
Proof.
  intros Hlen Hu8 Hsz. unfold parse_rest.
  pose proof (parse_body_cases raw_type pre suf p Hlen Hu8) as Hbody.
  destruct (parse_body raw_type (reader pre suf) p) as [[[r p'] c]|err|];
    cbn [mbind result_bind]; [| |done].
  - destruct Hbody as (i & payload & -> & Hhd & -> & -> & Hwf & ->).
    cbn [contents_size set_contents_size set_contents data_size getPosition reader m_pos].
    assert (wrap64 (data_size p - Z.of_nat (length (pre ++ tail (encode_inner i))))
            = Z.of_nat (length payload)) as ->.
    { rewrite Hsz. unfold wrap64, PACKET_MAXSIZE in *. rewrite !length_app in *.
      rewrite Z.mod_small; lia. }
    destruct (Z.eqb_spec (Z.of_nat (length payload)) 0) as [Hz|Hnz].
    + assert (payload = []) as -> by (destruct payload; [done|cbn in Hz; lia]).
      destruct i; cbn [andb].
      1-4: by (eexists _, []; repeat split; try done; apply Hwf).
      * split; [|done]. intros i' payload' Heq Hhd' Hwf'. rewrite app_nil_r in Heq.
        destruct (encode_inner_inj Original i' [] payload') as [<- <-]; [|by cbn in Hwf'].
        rewrite (encode_inner_hd_tl i'), Hhd', <- Hhd, app_nil_r. cbn [app].
        rewrite <- Heq. apply encode_inner_hd_tl.
      * split; [|done]. intros i' payload' Heq Hhd' Hwf'. rewrite app_nil_r in Heq.
        destruct (encode_inner_inj (Split seqnum chunk_count chunk_num) i' [] payload')
          as [<- <-]; [|cbn in Hwf'; tauto].
        rewrite (encode_inner_hd_tl i'), Hhd', <- Hhd, app_nil_r. cbn [app].
        rewrite <- Heq. apply encode_inner_hd_tl.
    + assert (payload <> []) by (intros ->; cbn in Hnz; lia).
      rewrite andb_false_r. exists i, payload. repeat split; try done.
      destruct i; cbn; tauto.
  - destruct Hbody as [Hno Heof]. split; [|done].
    intros i payload Heq Hhd Hwf. apply (Hno i payload Heq Hhd).
    destruct i; cbn in Hwf |- *; tauto.
Qed.

Lemma parse_unfold (p : ReceivedPacket) :
  parse p =
  (let r := mkBinReader (data p) (data_size p) 0 in
   '(v, r) ← readU32 r ;
   let p := set_protocol_id v p in
   if negb (protocol_id p =? PROTOCOL_ID) then Throw (WrongProtocolId (protocol_id p)) else
   '(v, r) ← readU16 r ;
   let p := set_peer_id v p in
   '(v, r) ← readU8 r ;
   let p := set_channelnum v p in
   if CHANNEL_COUNT <=? channelnum p then Throw (InvalidChannel (channelnum p)) else
   '(raw_type, r) ← readU8 r ;
   if PACKET_TYPE_MAX <=? raw_type then Throw (InvalidRawType raw_type) else
   '(raw_type, r, p) ←
     (if raw_type =? PACKET_TYPE_RELIABLE then
        let p := set_is_reliable true p in
        '(v, r) ← readU16 r ;
        let p := set_reliable_seqnum v p in
        '(raw_type, r) ← readU8 r ;
        Ok (raw_type, r, p)
      else Ok (raw_type, r, p)) ;
   parse_rest raw_type r (set_type RPT_INVALID p)).
Proof. reflexivity. Qed.

Ltac open_datagram d0 Hwf Heq :=
  intros d0 Hwf Heq;
  let E := fresh "E" in
  destruct (encode_base d0 Hwf) as (? & ? & ? & ? & ? & ? & E & ? & ?);
  rewrite E in Heq; clear E.

Ltac too_short :=
  split; [|eof_ok];
  let d0 := fresh "d0" in let Hwf := fresh "Hwf" in let Heq := fresh "Heq" in
  open_datagram d0 Hwf Heq;
  destruct d0 as [? ? ? [?|] [] ?]; discriminate Heq.

Lemma parse_cases (p : ReceivedPacket) :
  buffer_ok p ->
  match parse p with
  | Ok p' => exists d, wf_datagram PROTOCOL_ID d /\ data p = encode d /\ p' = packet_of d p
  | Throw err =>
      (forall d, wf_datagram PROTOCOL_ID d -> data p <> encode d) /\
      (forall n, err = UnexpectedEOF n -> n = data_size p)
  | OutOfBounds => False
  end.
Proof.
  intros (Hsz & Hmax & Hu8). rewrite parse_unfold. cbv zeta. rewrite Hsz in *.
  rewrite reader_start. unfold PACKET_MAXSIZE in Hmax.
  destruct (data p) as [|b0 [|b1 [|b2 [|b3 suf]]]] eqn:Hd; read_field; cbn [mbind result_bind].
  1-4: too_short.
  apply Forall_cons_1 in Hu8 as [H0 Hu8]. apply Forall_cons_1 in Hu8 as [H1 Hu8].
  apply Forall_cons_1 in Hu8 as [H2 Hu8]. apply Forall_cons_1 in Hu8 as [H3 Hu8].
  destruct (be32_decode b0 b1 b2 b3 H0 H1 H2 H3) as [Hr32 Hb32].
  set (v32 := Z.lor (Z.lor (Z.lor (Z.shiftl b0 24) (Z.shiftl b1 16)) (Z.shiftl b2 8)) b3) in *.
  cbn [protocol_id set_protocol_id app].
  destruct (Z.eqb_spec v32 PROTOCOL_ID) as [Hpid|Hpid]; cbn [negb].
  2: { split; [|done]. open_datagram d0 Hwf Heq. subst v32. congruence. }
  read_field. destruct suf as [|b4 [|b5 suf]]; cbn [mbind result_bind app]. 1-2: too_short.
  apply Forall_cons_1 in Hu8 as [H4 Hu8]. apply Forall_cons_1 in Hu8 as [H5 Hu8].
  destruct (be16_decode b4 b5 H4 H5) as [Hr16 Hb16].
  set (v16 := Z.lor (Z.shiftl b4 8) b5) in *.
  read_field. destruct suf as [|b6 suf]; cbn [mbind result_bind app]. 1: too_short.
  apply Forall_cons_1 in Hu8 as [H6 Hu8].
  cbn [channelnum set_channelnum]. unfold CHANNEL_COUNT at 1.
  destruct (Z.leb_spec 3 b6) as [Hch|Hch].
  { split; [|done]. open_datagram d0 Hwf Heq.
    destruct Hwf as (_ & _ & _ & Hc & _). unfold CHANNEL_COUNT in Hc.
    injection Heq as _ _ _ _ _ _ Hb6 _. lia. }
  read_field. destruct suf as [|b7 suf]; cbn [mbind result_bind app]. 1: too_short.
  apply Forall_cons_1 in Hu8 as [H7 Hu8].
  unfold PACKET_TYPE_MAX, PACKET_TYPE_RELIABLE.
  destruct (Z.leb_spec 4 b7) as [Hty|Hty].
  { split; [|done]. open_datagram d0 Hwf Heq.
    destruct d0 as [? ? ? [?|] [] ?]; injection Heq as _ _ _ _ _ _ _ Hb7 _; lia. }
  assert (0 <= b6 < CHANNEL_COUNT) as Hchan by (unfold CHANNEL_COUNT, is_u8 in *; lia).
  destruct (Z.eqb_spec b7 3) as [->|Hnrel].
  - (* reliable envelope *)
    read_field. destruct suf as [|b8 [|b9 suf]]; cbn [mbind result_bind app]. 1-2: too_short.
    apply Forall_cons_1 in Hu8 as [H8 Hu8]. apply Forall_cons_1 in Hu8 as [H9 Hu8].
    destruct (be16_decode b8 b9 H8 H9) as [Hrs Hbs].
    set (vs := Z.lor (Z.shiftl b8 8) b9) in *.
    read_field. destruct suf as [|b10 suf]; cbn [mbind result_bind app]. 1: too_short.
    apply Forall_cons_1 in Hu8 as [H10 Hu8].
    match goal with |- context [parse_rest ?t ?r ?q] =>
      pose proof (parse_rest_cases t [b0; b1; b2; b3; b4; b5; b6; 3; b8; b9; b10] suf q
                    Hmax Hu8 Hsz) as Hrest;
      destruct (parse_rest t r q) as [p'|err|]; [| |done]
    end.
    + destruct Hrest as (i & payload & -> & Hhd & Hwfi & ->).
      exists (mkDatagram v32 v16 b6 (Some vs) i payload). split; [|split].
      * done.
      * unfold encode, encode_header.
        cbn [d_protocol_id d_peer_id d_channel d_reliable d_inner d_payload encode_reliable].
        rewrite Hb32, Hb16, Hbs, (encode_inner_hd_tl i), Hhd. by rewrite <- !app_assoc.
      * unfold packet_of, encode_header.
        cbn [d_protocol_id d_peer_id d_channel d_reliable d_inner d_payload encode_reliable].
        rewrite Hb32, Hb16, Hbs, (encode_inner_hd_tl i), !length_app. cbn. f_equal; lia.
    + destruct Hrest as [Hno Heof]. split; [|exact Heof].
      open_datagram d0 Hwf Heq. destruct d0 as [pid peer ch rel i payload].
      destruct Hwf as (_ & _ & _ & _ & Hwrel & Hwfi).
      cbn [d_protocol_id d_peer_id d_channel d_reliable d_inner d_payload] in *.
      destruct rel as [s|]; cbn [encode_reliable app] in Heq.
      * apply (f_equal (drop 8)) in Heq. cbn [skipn] in Heq; rewrite ?drop_0 in Heq.
        apply be16_read in Heq as [_ Heq]; [|done].
        rewrite (encode_inner_hd_tl i) in Heq. cbn [app] in Heq. injection Heq as Hhd Htl.
        by apply (Hno i payload).
      * apply (f_equal (drop 7)) in Heq. cbn [skipn] in Heq; rewrite ?drop_0 in Heq.
        by apply (encode_inner_not_reliable i payload); rewrite <- Heq.
  - (* no envelope *)
    cbn [mbind result_bind].
    match goal with |- context [parse_rest ?t ?r ?q] =>
      pose proof (parse_rest_cases t [b0; b1; b2; b3; b4; b5; b6; b7] suf q
                    Hmax Hu8 Hsz) as Hrest;
      destruct (parse_rest t r q) as [p'|err|]; [| |done]
    end.
    + destruct Hrest as (i & payload & -> & Hhd & Hwfi & ->).
      exists (mkDatagram v32 v16 b6 None i payload). split; [|split].
      * done.
      * unfold encode, encode_header.
        cbn [d_protocol_id d_peer_id d_channel d_reliable d_inner d_payload encode_reliable].
        rewrite Hb32, Hb16, (encode_inner_hd_tl i), Hhd. by rewrite <- !app_assoc.
      * unfold packet_of, encode_header.
        cbn [d_protocol_id d_peer_id d_channel d_reliable d_inner d_payload encode_reliable].
        rewrite Hb32, Hb16, (encode_inner_hd_tl i), !length_app. cbn. f_equal; lia.
    + destruct Hrest as [Hno Heof]. split; [|exact Heof].
      open_datagram d0 Hwf Heq. destruct d0 as [pid peer ch rel i payload].
      destruct Hwf as (_ & _ & _ & _ & Hwrel & Hwfi).
      cbn [d_protocol_id d_peer_id d_channel d_reliable d_inner d_payload] in *.
      apply (f_equal (drop 7)) in Heq. cbn [skipn] in Heq; rewrite ?drop_0 in Heq.
      destruct rel as [s|]; cbn [encode_reliable app] in Heq.
      * injection Heq as Hb7 _. done.
      * rewrite (encode_inner_hd_tl i) in Heq. cbn [app] in Heq. injection Heq as Hhd Htl.
        by apply (Hno i payload).
Qed.

Lemma packet_of_contents (d : datagram) (p : ReceivedPacket) :
  data p = encode d -> contents_bytes (packet_of d p) = d_payload d.
Proof.
  intros Hd. unfold contents_bytes, packet_of. cbn [contents contents_size data].
  rewrite Hd, !Nat2Z.id. unfold encode.
  by rewrite drop_app_length, firstn_all.
Qed.


End Exact.

(** A reliable split chunk: protocol id 0x4f457403, peer 1, channel 0,
    reliable seqnum 65500, split seqnum 7, chunk 2 of 3, payload "A". *)
Definition example_bytes : list Z :=
  [0x4f; 0x45; 0x74; 0x03; 0; 1; 0; 3; 0xff; 0xdc; 2; 0; 7; 0; 3; 0; 2; 65].

Definition example_datagram : datagram :=
  mkDatagram 0x4f457403 1 0 (Some 65500) (Split 7 3 2) [65].


(** [_read] refuses exactly the reads that would pass the declared size. *)
Lemma _read_throws_iff (n : Z) (r : BinReader) :
  (exists err, _read n r = Throw err) <-> m_size r < wrap64 (m_pos r + n).
Proof.
  unfold _read. destruct (Z.ltb_spec (m_size r) (wrap64 (m_pos r + n))); split.
  - done.
  - intros _. by eexists.
  - by intros [err [=]].
  - lia.
Qed.

End ParserExact.

(** ** Intrusive binary heap (util/binheap.h)

    Nodes are allocated by the users of the heap and linked by
    pointers.  A pointer is an [option positive] ([None] is [nullptr]);
    [nodes] is the memory that holds the nodes.  An operation is a
    function on the state that fails ([None]) when the C++ code
    dereferences a pointer to no node or fails an assertion. *)

Module BinHeap.

Section Heap.

Context {T : Type}.

(** The comparator, [Compare is_less_than]. *)
Variable is_less_than : T -> T -> bool.

Record BinHeapNode : Type := mkNode {
  value : T;
  in_heap : option positive;
  parent : option positive;
  left : option positive;
  right : option positive
}.

(** The heap object at address [this], and the node memory. *)
Record state : Type := mkState {
  nodes : gmap positive BinHeapNode;
  this : positive;
  m_size : Z;
  m_root : option positive
}.

(** [BinHeapNode(args...)]: a node outside every heap. *)
Definition new_node (v : T) : BinHeapNode := mkNode v None None None None.

(** [BinHeap()] at address [h], over a node memory. *)
Definition new_heap (h : positive) (mem : gmap positive BinHeapNode) : state :=
  mkState mem h 0 None.

Definition M (A : Type) : Type := state -> option (A * state).

Definition ret {A : Type} (a : A) : M A := fun s => Some (a, s).
Definition fail {A : Type} : M A := fun _ => None.
Definition bind {A B : Type} (m : M A) (k : A -> M B) : M B :=
  fun s => match m s with
           | Some (a, s') => k a s'
           | None => None
           end.

Notation "'do' x <- m ; k" := (bind m (fun x => k))
  (at level 10, x name, m at level 100, k at level 200,
   format "'[v' 'do'  x  <-  m ; '/' k ']'").
Notation "'do' ' pat <- m ; k" := (bind m (fun x => let 'pat := x in k))
  (at level 10, pat pattern, m at level 100, k at level 200,
   format "'[v' 'do'  ' pat  <-  m ; '/' k ']'").
Notation "m ;; k" := (bind m (fun _ => k))
  (at level 100, k at level 200, right associativity).

(** [assert(c)] and [sanity_check(c)]. *)
Definition assert (c : bool) : M unit := if c then ret tt else fail.

(** Reading and writing the fields of the node a pointer points to. *)
Definition load (p : option positive) : M BinHeapNode :=
  fun s => match p with
           | Some a => match nodes s !! a with
                       | Some nd => Some (nd, s)
                       | None => None
                       end
           | None => None
           end.

Definition modify (p : option positive) (f : BinHeapNode -> BinHeapNode) : M unit :=
  fun s => match p with
           | Some a => match nodes s !! a with
                       | Some _ => Some (tt, mkState (alter f a (nodes s)) (this s) (m_size s) (m_root s))
                       | None => None
                       end
           | None => None
           end.

Definition with_in_heap (v : option positive) (nd : BinHeapNode) : BinHeapNode :=
  mkNode (value nd) v (parent nd) (left nd) (right nd).
Definition with_parent (v : option positive) (nd : BinHeapNode) : BinHeapNode :=
  mkNode (value nd) (in_heap nd) v (left nd) (right nd).
Definition with_left (v : option positive) (nd : BinHeapNode) : BinHeapNode :=
  mkNode (value nd) (in_heap nd) (parent nd) v (right nd).
Definition with_right (v : option positive) (nd : BinHeapNode) : BinHeapNode :=
  mkNode (value nd) (in_heap nd) (parent nd) (left nd) v.
Definition with_value (v : T) (nd : BinHeapNode) : BinHeapNode :=
  mkNode v (in_heap nd) (parent nd) (left nd) (right nd).

Definition get_value (p : option positive) : M T := do nd <- load p; ret (value nd).
Definition get_in_heap (p : option positive) : M (option positive) :=
  do nd <- load p; ret (in_heap nd).
Definition get_parent (p : option positive) : M (option positive) :=
  do nd <- load p; ret (parent nd).
Definition get_left (p : option positive) : M (option positive) :=
  do nd <- load p; ret (left nd).
Definition get_right (p : option positive) : M (option positive) :=
  do nd <- load p; ret (right nd).

Definition set_in_heap (p v : option positive) : M unit := modify p (with_in_heap v).
Definition set_parent (p v : option positive) : M unit := modify p (with_parent v).
Definition set_left (p v : option positive) : M unit := modify p (with_left v).
Definition set_right (p v : option positive) : M unit := modify p (with_right v).

Definition get_root : M (option positive) := fun s => Some (m_root s, s).
Definition set_root (v : option positive) : M unit :=
  fun s => Some (tt, mkState (nodes s) (this s) (m_size s) v).
Definition get_size : M Z := fun s => Some (m_size s, s).
Definition set_size (v : Z) : M unit :=
  fun s => Some (tt, mkState (nodes s) (this s) v (m_root s)).
Definition get_this : M positive := fun s => Some (this s, s).

(** [if (p) body]: a statement guarded by a null test. *)
Definition when_not_null (p : option positive) (body : M unit) : M unit :=
  match p with Some _ => body | None => ret tt end.

(** A [node_type **]: the address of the root pointer or of a child field. *)
Inductive slot : Type :=
| SlotRoot
| SlotLeft (p : option positive)
| SlotRight (p : option positive).

Definition read_slot (sl : slot) : M (option positive) :=
  match sl with
  | SlotRoot => get_root
  | SlotLeft p => get_left p
  | SlotRight p => get_right p
  end.

Definition write_slot (sl : slot) (v : option positive) : M unit :=
  match sl with
  | SlotRoot => set_root v
  | SlotLeft p => set_left p v
  | SlotRight p => set_right p v
  end.

(** [inHeap] *)
Definition inHeap (nd : BinHeapNode) : bool := bool_decide (in_heap nd <> None).

Definition size : M Z := get_size.
Definition empty : M bool := do n <- get_size; ret (n =? 0).
Definition top : M (option positive) := get_root.

(** [find_index], first loop: the bits of [index] below its leading
    one, reversed, under a marker bit.  A [size_t] has 64 bits, so 64
    turns are enough. *)
Fixpoint find_index_path (fuel : nat) (index path : Z) : option Z :=
  if 1 <? index then
    match fuel with
    | O => None
    | S fuel' =>
        find_index_path fuel' (Z.shiftr index 1)
          (Z.lor (wrap64 (Z.shiftl path 1)) (Z.land index 1))
    end
  else Some path.

(** [find_index], second loop: walk down from the root pointer. *)
Fixpoint find_index_walk (fuel : nat) (path : Z) (parent cursor : slot) : M (slot * slot) :=
  if 1 <? path then
    match fuel with
    | O => fail
    | S fuel' =>
        do c <- read_slot cursor;
        assert (bool_decide (c <> None)) ;;
        find_index_walk fuel' (Z.shiftr path 1) cursor
          (if Z.land path 1 =? 0 then SlotLeft c else SlotRight c)
    end
  else ret (parent, cursor).

Definition find_index (index : Z) : M (slot * slot) :=
  assert (0 <? index) ;;
  match find_index_path 64 index 1 with
  | Some path => find_index_walk 64 path SlotRoot SlotRoot
  | None => fail
  end.

Definition change_child (parent child newchild : option positive) : M unit :=
  match parent with
  | None =>
      do r <- get_root;
      assert (bool_decide (r = child)) ;;
      set_root newchild
  | Some _ =>
      do l <- get_left parent;
      if bool_decide (l = child) then set_left parent newchild
      else
        do r <- get_right parent;
        if bool_decide (r = child) then set_right parent newchild
        else fail
  end.

Definition change_parent (child parent newparent : option positive) : M unit :=
  match child with
  | None => ret tt
  | Some _ =>
      do p <- get_parent child;
      assert (bool_decide (p = parent)) ;;
      set_parent child newparent
  end.

Definition swap_left_child (parent child : option positive) : M unit :=
  do r <- get_right parent;
  do ll <- get_left child;
  do lr <- get_right child;
  do pp <- get_parent parent;
  change_child pp parent child ;;
  do pp <- get_parent parent;
  set_parent child pp ;;
  set_left child parent ;;
  set_right child r ;;
  set_parent parent child ;;
  set_left parent ll ;;
  set_right parent lr ;;
  when_not_null ll (set_parent ll parent) ;;
  when_not_null lr (set_parent lr parent) ;;
  when_not_null r (set_parent r child).

Definition swap_right_child (parent child : option positive) : M unit :=
  do l <- get_left parent;
  do rl <- get_left child;
  do rr <- get_right child;
  do pp <- get_parent parent;
  change_child pp parent child ;;
  do pp <- get_parent parent;
  set_parent child pp ;;
  set_left child l ;;
  set_right child parent ;;
  set_parent parent child ;;
  set_left parent rl ;;
  set_right parent rr ;;
  when_not_null rl (set_parent rl parent) ;;
  when_not_null rr (set_parent rr parent) ;;
  when_not_null l (set_parent l child).

Definition swap_same_parent (node1 node2 : option positive) : M unit :=
  do p1 <- get_parent node1;
  do p2 <- get_parent node2;
  assert (bool_decide (p1 = p2)) ;;
  let parent := p1 in
  do l <- get_left parent;
  do r <- get_right parent;
  set_left parent r ;;
  set_right parent l ;;
  do l1 <- get_left node1;
  do l2 <- get_left node2;
  set_left node1 l2 ;;
  set_left node2 l1 ;;
  do r1 <- get_right node1;
  do r2 <- get_right node2;
  set_right node1 r2 ;;
  set_right node2 r1.

Definition swap_distant (node1 node2 : option positive) : M unit :=
  do p1 <- get_parent node1;
  change_child p1 node1 node2 ;;
  do p2 <- get_parent node2;
  change_child p2 node2 node1 ;;
  do l1 <- get_left node1;
  change_parent l1 node1 node2 ;;
  do r1 <- get_right node1;
  change_parent r1 node1 node2 ;;
  do l2 <- get_left node2;
  change_parent l2 node2 node1 ;;
  do r2 <- get_right node2;
  change_parent r2 node2 node1 ;;
  do p1 <- get_parent node1;
  do p2 <- get_parent node2;
  set_parent node1 p2 ;;
  set_parent node2 p1 ;;
  do l1 <- get_left node1;
  do l2 <- get_left node2;
  set_left node1 l2 ;;
  set_left node2 l1 ;;
  do r1 <- get_right node1;
  do r2 <- get_right node2;
  set_right node1 r2 ;;
  set_right node2 r1.

Definition swap_nodes (node1 node2 : option positive) : M unit :=
  do p1 <- get_parent node1;
  do p2 <- get_parent node2;
  if bool_decide (p1 = p2) then swap_same_parent node1 node2
  else
    do l1 <- get_left node1;
    if bool_decide (l1 = node2) then swap_left_child node1 node2
    else
      do r1 <- get_right node1;
      if bool_decide (r1 = node2) then swap_right_child node1 node2
      else
        do l2 <- get_left node2;
        if bool_decide (l2 = node1) then swap_left_child node2 node1
        else
          do r2 <- get_right node2;
          if bool_decide (r2 = node1) then swap_right_child node2 node1
          else swap_distant node1 node2.

(** [sift_up]; one unit of fuel per turn of the loop. *)
Fixpoint sift_up (fuel : nat) (node : option positive) : M unit :=
  do p <- get_parent node;
  match p with
  | None => ret tt
  | Some _ =>
      do v <- get_value node;
      do pv <- get_value p;
      if is_less_than v pv then
        match fuel with
        | O => fail
        | S fuel' => swap_nodes p node ;; sift_up fuel' node
        end
      else ret tt
  end.

(** [sift_down] *)
Fixpoint sift_down (fuel : nat) (node : option positive) : M unit :=
  let new_min := node in
  do l <- get_left node;
  do new_min <-
    match l with
    | None => ret new_min
    | Some _ =>
        do lv <- get_value l;
        do mv <- get_value new_min;
        ret (if is_less_than lv mv then l else new_min)
    end;
  do r <- get_right node;
  do new_min <-
    match r with
    | None => ret new_min
    | Some _ =>
        do rv <- get_value r;
        do mv <- get_value new_min;
        ret (if is_less_than rv mv then r else new_min)
    end;
  if bool_decide (new_min = node) then ret tt
  else
    match fuel with
    | O => fail
    | S fuel' => swap_nodes new_min node ;; sift_down fuel' node
    end.

(** The loops of [sift_up] and [sift_down] move a node by one level
    per turn, and a tree of [size_t] many nodes has at most 64 levels. *)
Definition MAX_DEPTH : nat := 64.

(** [insert] *)
Definition insert (node : option positive) : M unit :=
  do h <- get_in_heap node;
  assert (bool_decide (h = None)) ;;
  do n <- get_size;
  do '(parent, cursor) <- find_index (wrap64 (n + 1));
  do c <- read_slot cursor;
  assert (bool_decide (c = None)) ;;
  do self <- get_this;
  set_in_heap node (Some self) ;;
  do p <- read_slot parent;
  set_parent node p ;;
  set_left node None ;;
  set_right node None ;;
  write_slot cursor node ;;
  do n <- get_size;
  set_size (wrap64 (n + 1)) ;;
  sift_up MAX_DEPTH node.

(** [remove] *)
Definition remove (node : option positive) : M unit :=
  do h <- get_in_heap node;
  do self <- get_this;
  assert (bool_decide (h = Some self)) ;;
  do n <- get_size;
  assert (0 <? n) ;;
  do '(parent, cursor) <- find_index n;
  do p <- read_slot parent;
  do terminal <- read_slot cursor;
  assert (bool_decide (p <> None) && bool_decide (terminal <> None)) ;;
  (if bool_decide (terminal <> node) then swap_nodes node terminal else ret tt) ;;
  do l <- get_left node;
  assert (bool_decide (l = None)) ;;
  do r <- get_right node;
  assert (bool_decide (r = None)) ;;
  do p <- get_parent node;
  change_child p node None ;;
  set_in_heap node None ;;
  do n <- get_size;
  set_size (wrap64 (n - 1)) ;;
  if bool_decide (terminal <> node) then
    sift_down MAX_DEPTH terminal ;;
    sift_up MAX_DEPTH terminal
  else ret tt.

(** [remove_recursively] and [clear] *)
Fixpoint remove_recursively (fuel : nat) (node : option positive) : M unit :=
  match node with
  | None => ret tt
  | Some _ =>
      match fuel with
      | O => fail
      | S fuel' =>
          set_in_heap node None ;;
          do l <- get_left node;
          remove_recursively fuel' l ;;
          do r <- get_right node;
          remove_recursively fuel' r
      end
  end.

Definition clear : M unit :=
  do r <- get_root;
  remove_recursively (S MAX_DEPTH) r ;;
  set_size 0.

(** [_validate]; the pair is [(count, depth)], and a failed
    [SANITY_CHECK] is a failure.  The recursion is cut off below the
    depth at which [validate] fails anyway. *)
Fixpoint _validate (fuel : nat) (base : option positive) : M (Z * Z) :=
  match base with
  | None => ret (0, 0)
  | Some _ =>
      match fuel with
      | O => fail
      | S fuel' =>
          do self <- get_this;
          do h <- get_in_heap base;
          assert (bool_decide (h = Some self)) ;;
          do bv <- get_value base;
          do l <- get_left base;
          when_not_null l (
            do lv <- get_value l;
            assert (negb (is_less_than lv bv)) ;;
            do lp <- get_parent l;
            assert (bool_decide (lp = base))) ;;
          do r <- get_right base;
          when_not_null r (
            do rv <- get_value r;
            assert (negb (is_less_than rv bv)) ;;
            do rp <- get_parent r;
            assert (bool_decide (rp = base))) ;;
          do '(leftcount, leftdepth) <- _validate fuel' l;
          do '(rightcount, rightdepth) <- _validate fuel' r;
          assert (rightcount <=? leftcount) ;;
          ret (wrap64 (1 + leftcount + rightcount), wrap64 (1 + Z.max leftdepth rightdepth))
      end
  end.

Definition validate : M unit :=
  do r <- get_root;
  do '(count, depth) <- _validate (S MAX_DEPTH) r;
  do n <- get_size;
  assert (count =? n) ;;
  assert (depth <? 64) ;;
  let fullTreeSize := wrap64 (wrap64 (Z.shiftl 1 depth) - 1) in
  assert ((fullTreeSize / 2 <=? n) && (n <=? fullTreeSize)).

End Heap.

Arguments BinHeapNode T : clear implicits.
Arguments state T : clear implicits.
Arguments M T A : clear implicits.

End BinHeap.

(** ** The heap as a complete tree of positions

    Position 1 is the root; position [k~0] is the left child of
    position [k] and [k~1] its right child.  A heap of [n] nodes fills
    the positions [1 .. n]. *)

Module BinHeapRep.
Import BinHeap.

(** The parent position. *)
Definition up (k : positive) : option positive :=
  match k with
  | xH => None
  | xO g | xI g => Some g
  end.

Section Rep.

Context {T : Type}.

Local Abbreviation state := (state T).
Local Abbreviation node := (BinHeapNode T).

(** The address at the parent position. *)
Definition at_up (m : gmap positive positive) (k : positive) : option positive :=
  up k ≫= (m !!.).

(** A resident node at position [k], with the links the tree asks for. *)
Definition resident_node (m : gmap positive positive) (h : positive) (k : positive) (v : T) : node :=
  mkNode v (Some h) (at_up m k) (m !! xO k) (m !! xI k).

(** [m] maps the positions to the addresses of the nodes placed there. *)
Record rep (s : state) (m : gmap positive positive) (n : Z) : Prop := mkRep {
  rep_size : m_size s = n;
  rep_dom : forall k, is_Some (m !! k) <-> Z.pos k <= n;
  rep_inj : forall k1 k2 a, m !! k1 = Some a -> m !! k2 = Some a -> k1 = k2;
  rep_root : m_root s = m !! 1%positive;
  rep_node : forall k a, m !! k = Some a ->
    exists v, nodes s !! a = Some (resident_node m (this s) k v);
  rep_resident : forall a nd, nodes s !! a = Some nd -> in_heap nd = Some (this s) ->
    exists k, m !! k = Some a
}.

(** Two positions exchanged. *)
Definition swapm (i j : positive) (a b : positive) (m : gmap positive positive)
  : gmap positive positive := <[i := b]> (<[j := a]> m).

(** A write to the node a pointer points to, if any. *)
Definition alter_at (o : option positive) (f : node -> node) (N : gmap positive node)
  : gmap positive node :=
  match o with
  | Some a => alter f a N
  | None => N
  end.

Lemma lookup_alter_at (o : option positive) (f : node -> node) (N : gmap positive node)
    (c : positive) :
  alter_at o f N !! c = if decide (o = Some c) then f <$> N !! c else N !! c.
Proof.
  destruct o as [a|]; cbn [alter_at]; [|by rewrite decide_False].
  rewrite lookup_alter. repeat case_decide; congruence.
Qed.

Lemma lookup_alter_at_is_Some (o : option positive) (f : node -> node)
    (N : gmap positive node) (c : positive) :
  is_Some (alter_at o f N !! c) <-> is_Some (N !! c).
Proof. rewrite lookup_alter_at. case_decide; [by rewrite fmap_is_Some|done]. Qed.

(** Addresses of positions are told apart by the positions. *)
Lemma lookup_alter_at_pos (m : gmap positive positive) (k1 k2 : positive)
    (o : option positive) (f : node -> node) (N : gmap positive node) (c : positive) :
  (forall k1 k2 a, m !! k1 = Some a -> m !! k2 = Some a -> k1 = k2) ->
  m !! k2 = Some c -> o = m !! k1 ->
  alter_at o f N !! c = if decide (k1 = k2) then f <$> N !! c else N !! c.
Proof.
  intros Hinj Hc ->. rewrite lookup_alter_at.
  destruct (decide (k1 = k2)) as [->|Hne].
  - by rewrite decide_True.
  - rewrite decide_False; [done|]. intros Heq. apply Hne. by eapply Hinj.
Qed.

(** *** Running the primitives *)

Lemma run_ret {A B : Type} (a : A) (k : A -> M T B) (s : state) :
  bind (ret a) k s = k a s.
Proof. done. Qed.

Lemma run_bind_assoc {A B C : Type} (m : M T A) (f : A -> M T B) (k : B -> M T C) (s : state) :
  bind (bind m f) k s = bind m (fun x => bind (f x) k) s.
Proof. unfold bind. by destruct (m s) as [[a s']|]. Qed.

Lemma run_assert {B : Type} (c : bool) (k : unit -> M T B) (s : state) :
  c = true -> bind (assert c) k s = k tt s.
Proof. by intros ->. Qed.

Lemma run_load {B : Type} (o : option positive) (a : positive) (nd : node)
    (k : node -> M T B) (s : state) :
  o = Some a -> nodes s !! a = Some nd -> bind (load o) k s = k nd s.
Proof. intros -> H. unfold bind, load. by rewrite H. Qed.

Lemma run_get_value {B : Type} (o : option positive) (a : positive) (nd : node)
    (k : T -> M T B) (s : state) :
  o = Some a -> nodes s !! a = Some nd -> bind (get_value o) k s = k (value nd) s.
Proof. intros -> H. unfold bind, get_value, bind, load. by rewrite H. Qed.

Lemma run_get_in_heap {B : Type} (o : option positive) (a : positive) (nd : node)
    (k : option positive -> M T B) (s : state) :
  o = Some a -> nodes s !! a = Some nd -> bind (get_in_heap o) k s = k (in_heap nd) s.
Proof. intros -> H. unfold bind, get_in_heap, bind, load. by rewrite H. Qed.

Lemma run_get_parent {B : Type} (o : option positive) (a : positive) (nd : node)
    (k : option positive -> M T B) (s : state) :
  o = Some a -> nodes s !! a = Some nd -> bind (get_parent o) k s = k (parent nd) s.
Proof. intros -> H. unfold bind, get_parent, bind, load. by rewrite H. Qed.

Lemma run_get_left {B : Type} (o : option positive) (a : positive) (nd : node)
    (k : option positive -> M T B) (s : state) :
  o = Some a -> nodes s !! a = Some nd -> bind (get_left o) k s = k (left nd) s.
Proof. intros -> H. unfold bind, get_left, bind, load. by rewrite H. Qed.

Lemma run_get_right {B : Type} (o : option positive) (a : positive) (nd : node)
    (k : option positive -> M T B) (s : state) :
  o = Some a -> nodes s !! a = Some nd -> bind (get_right o) k s = k (right nd) s.
Proof. intros -> H. unfold bind, get_right, bind, load. by rewrite H. Qed.

Lemma run_modify {B : Type} (o : option positive) (f : node -> node)
    (k : unit -> M T B) (s : state) :
  (exists a, o = Some a /\ is_Some (nodes s !! a)) ->
  bind (modify o f) k s
  = k tt (mkState (alter_at o f (nodes s)) (this s) (m_size s) (m_root s)).
Proof. intros (a & -> & [nd H]). unfold bind, modify. by rewrite H. Qed.

Lemma run_when_modify {B : Type} (o : option positive) (f : node -> node)
    (k : unit -> M T B) (s : state) :
  (forall a, o = Some a -> is_Some (nodes s !! a)) ->
  bind (when_not_null o (modify o f)) k s
  = k tt (mkState (alter_at o f (nodes s)) (this s) (m_size s) (m_root s)).
Proof.
  intros H. destruct o as [a|]; cbn [when_not_null alter_at].
  - apply run_modify. exists a. split; [done|]. by apply H.
  - unfold bind, ret. by destruct s.
Qed.

Lemma run_get_root {B : Type} (k : option positive -> M T B) (s : state) :
  bind get_root k s = k (m_root s) s.
Proof. done. Qed.

Lemma run_set_root {B : Type} (v : option positive) (k : unit -> M T B) (s : state) :
  bind (set_root v) k s = k tt (mkState (nodes s) (this s) (m_size s) v).
Proof. done. Qed.

Lemma run_get_size {B : Type} (k : Z -> M T B) (s : state) :
  bind get_size k s = k (m_size s) s.
Proof. done. Qed.

Lemma run_set_size {B : Type} (v : Z) (k : unit -> M T B) (s : state) :
  bind (set_size v) k s = k tt (mkState (nodes s) (this s) v (m_root s)).
Proof. done. Qed.

Lemma run_get_this {B : Type} (k : positive -> M T B) (s : state) :
  bind get_this k s = k (this s) s.
Proof. done. Qed.

Lemma tail_modify (o : option positive) (f : node -> node) (s : state) :
  (exists a, o = Some a /\ is_Some (nodes s !! a)) ->
  modify o f s = Some (tt, mkState (alter_at o f (nodes s)) (this s) (m_size s) (m_root s)).
Proof. intros (a & -> & [nd H]). unfold modify. by rewrite H. Qed.

Lemma tail_when_modify (o : option positive) (f : node -> node) (s : state) :
  (forall a, o = Some a -> is_Some (nodes s !! a)) ->
  when_not_null o (modify o f) s
  = Some (tt, mkState (alter_at o f (nodes s)) (this s) (m_size s) (m_root s)).
Proof.
  intros H. destruct o as [a|]; cbn [when_not_null alter_at].
  - apply tail_modify. exists a. split; [done|]. by apply H.
  - unfold ret. by destruct s.
Qed.

(** The effect of [change_child] on the parent of position [i]. *)
Definition relink_nodes (m : gmap positive positive) (i : positive) (new : option positive)
    (N : gmap positive node) : gmap positive node :=
  match i with
  | xH => N
  | xO g => alter_at (m !! g) (with_left new) N
  | xI g => alter_at (m !! g) (with_right new) N
  end.

Definition relink_root (i : positive) (new rt : option positive) : option positive :=
  match i with
  | xH => new
  | _ => rt
  end.

Lemma run_change_child {B : Type} (m : gmap positive positive) (i a : positive)
    (new : option positive) (k : unit -> M T B) (s : state) :
  (forall k1 k2 a, m !! k1 = Some a -> m !! k2 = Some a -> k1 = k2) ->
  m !! i = Some a ->
  (i = 1%positive -> m_root s = Some a) ->
  (forall g, up i = Some g ->
     exists G nd, m !! g = Some G /\ nodes s !! G = Some nd /\
                  left nd = m !! xO g /\ right nd = m !! xI g) ->
  bind (change_child (at_up m i) (Some a) new) k s
  = k tt (mkState (relink_nodes m i new (nodes s)) (this s) (m_size s)
                  (relink_root i new (m_root s))).
Proof.
  intros Hinj Hi Hroot Hup. unfold change_child.
  destruct i as [g|g|]; cbn [at_up up mbind option_bind relink_nodes relink_root].
  - destruct (Hup g eq_refl) as (G & nd & HG & Hnd & Hl & Hr). rewrite HG. cbv iota beta.
    rewrite run_bind_assoc. erewrite run_get_left; [|done|done]. rewrite Hl.
    rewrite bool_decide_eq_false_2.
    2:{ intros Heq. by pose proof (Hinj _ _ _ Heq Hi). }
    rewrite run_bind_assoc. erewrite run_get_right; [|done|done].
    rewrite Hr, Hi, bool_decide_eq_true_2 by done.
    unfold set_right. rewrite run_modify; [done|]. exists G. split; [done|]. by rewrite Hnd.
  - destruct (Hup g eq_refl) as (G & nd & HG & Hnd & Hl & Hr). rewrite HG. cbv iota beta.
    rewrite run_bind_assoc. erewrite run_get_left; [|done|done].
    rewrite Hl, Hi, bool_decide_eq_true_2 by done.
    unfold set_left. rewrite run_modify; [done|]. exists G. split; [done|]. by rewrite Hnd.
  - rewrite run_bind_assoc, run_get_root, Hroot by done.
    rewrite run_bind_assoc, run_assert by (by apply bool_decide_eq_true_2).
    by rewrite run_set_root.
Qed.

Lemma run_change_parent {B : Type} (o par new : option positive)
    (k : unit -> M T B) (s : state) :
  (forall a, o = Some a -> exists nd, nodes s !! a = Some nd /\ parent nd = par) ->
  bind (change_parent o par new) k s
  = k tt (mkState (alter_at o (with_parent new) (nodes s)) (this s) (m_size s) (m_root s)).
Proof.
  intros Ho. unfold change_parent. destruct o as [a|]; cbn [alter_at].
  - destruct (Ho a eq_refl) as (nd & Hnd & Hpar).
    rewrite run_bind_assoc. erewrite run_get_parent; [|done|done].
    rewrite run_bind_assoc, run_assert by (by apply bool_decide_eq_true_2).
    unfold set_parent. rewrite run_modify; [done|]. exists a. by rewrite Hnd.
  - unfold bind, ret. by destruct s.
Qed.

End Rep.
End BinHeapRep.

(** ** Exchanging two nodes *)

Module BinHeapSwap.
Import BinHeap BinHeapRep.

Section Swap.

Context {T : Type}.

Local Abbreviation state := (state T).
Local Abbreviation node := (BinHeapNode T).

(** A step changed nothing of a node but its links, and nothing of a
    node outside the heap at [h]. *)
Definition links_only (h : positive) (nd nd' : node) : Prop :=
  value nd' = value nd /\ in_heap nd' = in_heap nd /\
  (in_heap nd <> Some h -> nd' = nd).

Definition relinked (h : positive) (N N' : gmap positive node) : Prop :=
  forall c, option_Forall2 (links_only h) (N !! c) (N' !! c).

Definition frame (s s' : state) : Prop :=
  this s' = this s /\ relinked (this s) (nodes s) (nodes s').

Definition link_update (f : node -> node) : Prop :=
  forall nd, value (f nd) = value nd /\ in_heap (f nd) = in_heap nd.

Lemma link_update_with_parent (v : option positive) : link_update (with_parent v).
Proof. done. Qed.
Lemma link_update_with_left (v : option positive) : link_update (with_left v).
Proof. done. Qed.
Lemma link_update_with_right (v : option positive) : link_update (with_right v).
Proof. done. Qed.

Lemma relinked_refl (h : positive) (N : gmap positive node) : relinked h N N.
Proof. intros c. destruct (N !! c); by constructor. Qed.

Lemma relinked_trans (h : positive) (N1 N2 N3 : gmap positive node) :
  relinked h N1 N2 -> relinked h N2 N3 -> relinked h N1 N3.
Proof.
  intros H12 H23 c. specialize (H12 c). specialize (H23 c).
  destruct H12 as [x y (Hv & Hh & Hx)|]; inversion H23 as [y' z (Hv' & Hh' & Hy) |]; subst;
    constructor.
  split; [congruence|]. split; [congruence|].
  intros Hne. rewrite Hy by congruence. by apply Hx.
Qed.

Lemma relinked_alter_at (h : positive) (N N' : gmap positive node)
    (o : option positive) (f : node -> node) :
  relinked h N N' -> link_update f ->
  (forall a, o = Some a -> exists nd, N !! a = Some nd /\ in_heap nd = Some h) ->
  relinked h N (alter_at o f N').
Proof.
  intros Hrel Hf Ho c. rewrite lookup_alter_at. specialize (Hrel c).
  case_decide as Hc; [|done].
  destruct (Ho c Hc) as (nd & Hnd & Hin). rewrite Hnd in Hrel |- *.
  inversion Hrel as [x y (Hv & Hh & Hx) E1 E2|]; subst. cbn. constructor.
  destruct (Hf y) as [Hfv Hfh]. split; [congruence|]. split; [congruence|]. congruence.
Qed.

Lemma frame_refl (s : state) : frame s s.
Proof. split; [done|apply relinked_refl]. Qed.

Lemma frame_trans (s1 s2 s3 : state) : frame s1 s2 -> frame s2 s3 -> frame s1 s3.
Proof.
  intros [Ht1 H1] [Ht2 H2]. split; [congruence|].
  eapply relinked_trans; [exact H1|]. by rewrite <- Ht1.
Qed.

(** *** The position map after an exchange *)

Lemma swapm_lookup (i j a b k : positive) (m : gmap positive positive) :
  swapm i j a b m !! k
  = if decide (k = i) then Some b else if decide (k = j) then Some a else m !! k.
Proof.
  unfold swapm. rewrite !lookup_insert. repeat case_decide; congruence.
Qed.

Lemma swapm_comm (i j a b : positive) (m : gmap positive positive) :
  i <> j -> swapm i j a b m = swapm j i b a m.
Proof. intros Hne. unfold swapm. by apply insert_insert_ne. Qed.

Lemma swapm_dom (i j a b : positive) (m : gmap positive positive) (n : Z) :
  m !! i = Some a -> m !! j = Some b ->
  (forall k, is_Some (m !! k) <-> Z.pos k <= n) ->
  forall k, is_Some (swapm i j a b m !! k) <-> Z.pos k <= n.
Proof.
  intros Hi Hj Hdom k. rewrite swapm_lookup. rewrite <- Hdom.
  repeat case_decide; subst; rewrite ?Hi, ?Hj; split; eauto.
Qed.

Lemma swapm_inj (i j a b : positive) (m : gmap positive positive) :
  m !! i = Some a -> m !! j = Some b ->
  (forall k1 k2 c, m !! k1 = Some c -> m !! k2 = Some c -> k1 = k2) ->
  forall k1 k2 c, swapm i j a b m !! k1 = Some c -> swapm i j a b m !! k2 = Some c -> k1 = k2.
Proof.
  intros Hi Hj Hinj k1 k2 c. rewrite !swapm_lookup. intros Hk1 Hk2.
  assert (forall k, (if decide (k = i) then Some b else if decide (k = j) then Some a else m !! k)
                    = Some c ->
            (k = i /\ c = b) \/ (k = j /\ c = a) \/ (k <> i /\ k <> j /\ m !! k = Some c)) as Hcase.
  { intros k Hk. repeat case_decide; simplify_eq; eauto. }
  apply Hcase in Hk1 as [[-> ->]|[[-> ->]|(? & ? & Hk1)]];
    apply Hcase in Hk2 as [[-> E]|[[-> E]|(? & ? & Hk2)]]; subst; try done;
    repeat match goal with
           | H1 : m !! ?x = Some ?c, H2 : m !! ?y = Some ?c |- _ =>
               lazymatch x with
               | y => fail
               | _ => pose proof (Hinj _ _ _ H1 H2); clear H2; subst
               end
           end; done.
Qed.

(** The position at which an address sits after the exchange. *)
Lemma swapm_range (i j a b : positive) (m : gmap positive positive) (c : positive) :
  m !! i = Some a -> m !! j = Some b ->
  (exists k, m !! k = Some c) <-> (exists k, swapm i j a b m !! k = Some c).
Proof.
  intros Hi Hj. split.
  - intros [k Hk].
    destruct (decide (k = i)) as [->|Hki]; [exists j|destruct (decide (k = j)) as [->|Hkj];
      [exists i|exists k]]; rewrite swapm_lookup; repeat case_decide; congruence.
  - intros [k Hk]. rewrite swapm_lookup in Hk.
    repeat case_decide; simplify_eq; eauto.
Qed.

Lemma lookup_chain_step (m : gmap positive positive) (k1 k2 : positive)
    (o : option positive) (f : node -> node) (N : gmap positive node) (c : positive) (nd : node) :
  (forall k1 k2 a, m !! k1 = Some a -> m !! k2 = Some a -> k1 = k2) ->
  m !! k2 = Some c -> o = m !! k1 -> N !! c = Some nd ->
  alter_at o f N !! c = Some (if decide (k1 = k2) then f nd else nd).
Proof.
  intros Hinj Hc Ho HN. rewrite (lookup_alter_at_pos m k1 k2) by done.
  rewrite HN. by case_decide.
Qed.

Lemma rep_parent_Some (s : state) (m : gmap positive positive) (n : Z) (k g a : positive) :
  rep s m n -> m !! k = Some a -> up k = Some g -> exists G, m !! g = Some G.
Proof.
  intros Hrep Hk Hup. apply (rep_dom _ _ _ Hrep).
  assert (Z.pos k <= n) by (apply (rep_dom _ _ _ Hrep); eauto).
  destruct k; simplify_eq/=; lia.
Qed.

Lemma rep_up_node (s : state) (m : gmap positive positive) (n : Z) (i a : positive) :
  rep s m n -> m !! i = Some a ->
  forall g, up i = Some g ->
    exists G nd, m !! g = Some G /\ nodes s !! G = Some nd /\
                 left nd = m !! xO g /\ right nd = m !! xI g.
Proof.
  intros Hrep Hi g Hg. destruct (rep_parent_Some _ _ _ _ _ _ Hrep Hi Hg) as [G HG].
  destruct (rep_node _ _ _ Hrep _ _ HG) as [v Hv]. by exists G, (resident_node m (this s) g v).
Qed.

Lemma rep_swap_intro (s : state) (m : gmap positive positive) (n : Z)
    (i j a b : positive) (N' : gmap positive node) (rt' : option positive) :
  rep s m n -> m !! i = Some a -> m !! j = Some b ->
  relinked (this s) (nodes s) N' ->
  rt' = swapm i j a b m !! 1%positive ->
  (forall k c, swapm i j a b m !! k = Some c ->
     exists v, N' !! c = Some (resident_node (swapm i j a b m) (this s) k v)) ->
  rep (mkState N' (this s) (m_size s) rt') (swapm i j a b m) n /\
  frame s (mkState N' (this s) (m_size s) rt').
Proof.
  intros Hrep Hi Hj Hrel Hrt Hnode. split; [|by split].
  constructor; cbn [nodes this m_size m_root].
  - apply (rep_size _ _ _ Hrep).
  - apply swapm_dom; [done|done|apply (rep_dom _ _ _ Hrep)].
  - apply swapm_inj; [done|done|apply (rep_inj _ _ _ Hrep)].
  - done.
  - done.
  - intros c nd' Hc Hin. apply swapm_range; [done|done|].
    specialize (Hrel c). rewrite Hc in Hrel.
    inversion Hrel as [nd y (Hv & Hh & _) E1 E2|]; subst.
    apply (rep_resident _ _ _ Hrep c nd); [done|congruence].
Qed.

Ltac solve_ptr := first [reflexivity | eassumption | symmetry; eassumption].

Ltac lookup_chain Hinj :=
  cbn [nodes];
  repeat (eapply (lookup_chain_step _ _ _ _ _ _ _ _ Hinj); [eassumption|solve_ptr|]);
  eassumption.

Ltac simpl_pos_decide :=
  repeat first
    [ rewrite decide_True by (reflexivity || congruence)
    | rewrite decide_False by (discriminate || congruence || lia) ].

Ltac valid_ptr Hrep :=
  lazymatch goal with
  | |- exists a, _ = Some a /\ is_Some _ =>
      eexists; split; [solve_ptr|];
      cbn [nodes]; rewrite ?lookup_alter_at_is_Some; eauto
  | |- forall a, _ = Some a -> is_Some _ =>
      let a := fresh "a" in let Ha := fresh "Ha" in
      intros a Ha; cbn [nodes]; rewrite ?lookup_alter_at_is_Some;
      let v := fresh "v" in let Hv := fresh "Hv" in
      destruct (rep_node _ _ _ Hrep _ _ Ha) as [v Hv]; cbn [nodes] in Hv; eauto
  end.

Ltac step Hrep Hinj :=
  first
    [ erewrite run_get_parent; [|solve_ptr|lookup_chain Hinj]
    | erewrite run_get_left; [|solve_ptr|lookup_chain Hinj]
    | erewrite run_get_right; [|solve_ptr|lookup_chain Hinj]
    | erewrite run_get_value; [|solve_ptr|lookup_chain Hinj]
    | rewrite run_when_modify by valid_ptr Hrep
    | rewrite run_modify by valid_ptr Hrep
    | rewrite tail_when_modify by valid_ptr Hrep
    | rewrite tail_modify by valid_ptr Hrep ];
  cbn [resident_node right left parent with_parent with_left with_right value in_heap
       nodes this m_size m_root];
  simpl_pos_decide;
  cbn [resident_node right left parent with_parent with_left with_right value in_heap].

(** Every write of the chain went to a resident node and changed links only. *)
Ltac relinked_chain Hrep :=
  repeat (apply relinked_alter_at;
          [|done|
           let a := fresh "a" in let Ha := fresh "Ha" in
           intros a Ha;
           first [ injection Ha as <-; eexists; split; [eassumption|done]
                 | let v := fresh "v" in let Hv := fresh "Hv" in
                   destruct (rep_node _ _ _ Hrep _ _ Ha) as [v Hv];
                   eexists; split; [exact Hv|done] ]]);
  apply relinked_refl.

(** The node found at an address after the writes is the resident node
    of its new position. *)
Ltac node_goal Hinj :=
  eapply eq_trans; [lookup_chain Hinj|];
  simpl_pos_decide;
  unfold resident_node;
  cbn [with_parent with_left with_right value in_heap parent left right];
  repeat match goal with
         | |- context [at_up _ ?k] => is_var k; destruct k
         end;
  cbn [at_up up mbind option_bind];
  rewrite ?swapm_lookup; simpl_pos_decide;
  repeat match goal with
         | H : ?m !! ?q = _ |- context [?m !! ?q] => rewrite H
         end;
  try done.

Ltac node_case Hrep Hinj Hk :=
  let v := fresh "v" in let Hv := fresh "Hv" in
  destruct (rep_node _ _ _ Hrep _ _ Hk) as [v Hv]; cbn [nodes this] in Hv;
  exists v; node_goal Hinj.

Ltac split_pos k q tac := destruct (decide (k = q)) as [->|?]; [tac|].

(** Parent at [pp] and child at [cp] exchanged; [HP], [HC] place the
    two nodes, [others] splits off the remaining positions whose nodes
    were written. *)
Ltac swapped_nodes Hrep Hinj HP HC pp cp others :=
  let k := fresh "k" in let c := fresh "c" in let Hk := fresh "Hk" in
  intros k c Hk; rewrite swapm_lookup in Hk;
  split_pos k pp ltac:(simplify_eq; node_case Hrep Hinj HC);
  split_pos k cp ltac:(simplify_eq; node_case Hrep Hinj HP);
  others k Hk;
  node_case Hrep Hinj Hk.

Ltac finish_swap Hrep Hinj HP HC n nodes_tac :=
  eexists; split; [reflexivity|];
  apply (rep_swap_intro _ _ n _ _ _ _ _ _ Hrep HP HC); cbn [nodes this m_size m_root];
  [ relinked_chain Hrep
  | rewrite swapm_lookup; by simpl_pos_decide
  | nodes_tac ].

Lemma swap_left_child_rep (s : state) (m : gmap positive positive) (n : Z)
    (p P C : positive) :
  rep s m n -> m !! p = Some P -> m !! xO p = Some C ->
  exists s', swap_left_child (Some P) (Some C) s = Some (tt, s') /\
    rep s' (swapm p (xO p) P C m) n /\ frame s s'.
Proof.
  intros Hrep HP HC.
  pose proof (rep_inj _ _ _ Hrep) as Hinj.
  pose proof (rep_up_node _ _ _ _ _ Hrep HP) as Hup.
  pose proof (rep_root _ _ _ Hrep) as Hroot.
  destruct (rep_node _ _ _ Hrep _ _ HP) as [vP HnP].
  destruct (rep_node _ _ _ Hrep _ _ HC) as [vC HnC].
  destruct s as [N h sz rt]. cbn [nodes this m_size m_root] in *.
  unfold swap_left_child, set_parent, set_left, set_right.
  do 4 step Hrep Hinj.
  rewrite (run_change_child m p P) by (cbn [nodes m_root]; first [done | intros ->; congruence]).
  cbn [nodes this m_size m_root].
  destruct p as [g|g|]; cbn [relink_nodes relink_root at_up up mbind option_bind].
  - destruct (Hup g eq_refl) as (G & ndG & HG & HnG & HlG & HrG).
    destruct (rep_node _ _ _ Hrep _ _ HG) as [vG HnG']. cbn [nodes this] in HnG'.
    repeat step Hrep Hinj.
    finish_swap Hrep Hinj HP HC n
      ltac:(swapped_nodes Hrep Hinj HP HC (xI g) (xO (xI g))
              ltac:(fun k Hk =>
                split_pos k g ltac:(node_case Hrep Hinj Hk);
                split_pos k (xI (xI g)) ltac:(node_case Hrep Hinj Hk);
                split_pos k (xO (xO (xI g))) ltac:(node_case Hrep Hinj Hk);
                split_pos k (xI (xO (xI g))) ltac:(node_case Hrep Hinj Hk))).
  - destruct (Hup g eq_refl) as (G & ndG & HG & HnG & HlG & HrG).
    destruct (rep_node _ _ _ Hrep _ _ HG) as [vG HnG']. cbn [nodes this] in HnG'.
    repeat step Hrep Hinj.
    finish_swap Hrep Hinj HP HC n
      ltac:(swapped_nodes Hrep Hinj HP HC (xO g) (xO (xO g))
              ltac:(fun k Hk =>
                split_pos k g ltac:(node_case Hrep Hinj Hk);
                split_pos k (xI (xO g)) ltac:(node_case Hrep Hinj Hk);
                split_pos k (xO (xO (xO g))) ltac:(node_case Hrep Hinj Hk);
                split_pos k (xI (xO (xO g))) ltac:(node_case Hrep Hinj Hk))).
  - repeat step Hrep Hinj.
    finish_swap Hrep Hinj HP HC n
      ltac:(swapped_nodes Hrep Hinj HP HC xH (xO xH)
              ltac:(fun k Hk =>
                split_pos k (xI xH) ltac:(node_case Hrep Hinj Hk);
                split_pos k (xO (xO xH)) ltac:(node_case Hrep Hinj Hk);
                split_pos k (xI (xO xH)) ltac:(node_case Hrep Hinj Hk))).
Qed.

Lemma swap_right_child_rep (s : state) (m : gmap positive positive) (n : Z)
    (p P C : positive) :
  rep s m n -> m !! p = Some P -> m !! xI p = Some C ->
  exists s', swap_right_child (Some P) (Some C) s = Some (tt, s') /\
    rep s' (swapm p (xI p) P C m) n /\ frame s s'.
Proof.
  intros Hrep HP HC.
  pose proof (rep_inj _ _ _ Hrep) as Hinj.
  pose proof (rep_up_node _ _ _ _ _ Hrep HP) as Hup.
  pose proof (rep_root _ _ _ Hrep) as Hroot.
  destruct (rep_node _ _ _ Hrep _ _ HP) as [vP HnP].
  destruct (rep_node _ _ _ Hrep _ _ HC) as [vC HnC].
  destruct s as [N h sz rt]. cbn [nodes this m_size m_root] in *.
  unfold swap_right_child, set_parent, set_left, set_right.
  do 4 step Hrep Hinj.
  rewrite (run_change_child m p P) by (cbn [nodes m_root]; first [done | intros ->; congruence]).
  cbn [nodes this m_size m_root].
  destruct p as [g|g|]; cbn [relink_nodes relink_root at_up up mbind option_bind].
  - destruct (Hup g eq_refl) as (G & ndG & HG & HnG & HlG & HrG).
    destruct (rep_node _ _ _ Hrep _ _ HG) as [vG HnG']. cbn [nodes this] in HnG'.
    repeat step Hrep Hinj.
    finish_swap Hrep Hinj HP HC n
      ltac:(swapped_nodes Hrep Hinj HP HC (xI g) (xI (xI g))
              ltac:(fun k Hk =>
                split_pos k g ltac:(node_case Hrep Hinj Hk);
                split_pos k (xO (xI g)) ltac:(node_case Hrep Hinj Hk);
                split_pos k (xO (xI (xI g))) ltac:(node_case Hrep Hinj Hk);
                split_pos k (xI (xI (xI g))) ltac:(node_case Hrep Hinj Hk))).
  - destruct (Hup g eq_refl) as (G & ndG & HG & HnG & HlG & HrG).
    destruct (rep_node _ _ _ Hrep _ _ HG) as [vG HnG']. cbn [nodes this] in HnG'.
    repeat step Hrep Hinj.
    finish_swap Hrep Hinj HP HC n
      ltac:(swapped_nodes Hrep Hinj HP HC (xO g) (xI (xO g))
              ltac:(fun k Hk =>
                split_pos k g ltac:(node_case Hrep Hinj Hk);
                split_pos k (xO (xO g)) ltac:(node_case Hrep Hinj Hk);
                split_pos k (xO (xI (xO g))) ltac:(node_case Hrep Hinj Hk);
                split_pos k (xI (xI (xO g))) ltac:(node_case Hrep Hinj Hk))).
  - repeat step Hrep Hinj.
    finish_swap Hrep Hinj HP HC n
      ltac:(swapped_nodes Hrep Hinj HP HC xH (xI xH)
              ltac:(fun k Hk =>
                split_pos k (xO xH) ltac:(node_case Hrep Hinj Hk);
                split_pos k (xO (xI xH)) ltac:(node_case Hrep Hinj Hk);
                split_pos k (xI (xI xH)) ltac:(node_case Hrep Hinj Hk))).
Qed.

(** A position without left child has no right child either. *)
Lemma rep_no_right (s : state) (m : gmap positive positive) (n : Z) (k : positive) :
  rep s m n -> m !! xO k = None -> m !! xI k = None.
Proof.
  intros Hrep Hl. apply eq_None_not_Some. intros Hr.
  apply (rep_dom _ _ _ Hrep) in Hr.
  assert (is_Some (m !! xO k)) as [? ?] by (apply (rep_dom _ _ _ Hrep); lia). congruence.
Qed.

(** Two sibling leaves exchanged. *)
Lemma swap_same_parent_rep (s : state) (m : gmap positive positive) (n : Z)
    (i j g A B : positive) :
  rep s m n -> m !! i = Some A -> m !! j = Some B ->
  up i = Some g -> up j = Some g -> i <> j ->
  m !! xO i = None -> m !! xO j = None ->
  exists s', swap_same_parent (Some A) (Some B) s = Some (tt, s') /\
    rep s' (swapm i j A B m) n /\ frame s s'.
Proof.
  intros Hrep HA HB Hi Hj Hne Hli Hlj.
  pose proof (rep_no_right _ _ _ _ Hrep Hli) as Hri.
  pose proof (rep_no_right _ _ _ _ Hrep Hlj) as Hrj.
  pose proof (rep_inj _ _ _ Hrep) as Hinj.
  pose proof (rep_root _ _ _ Hrep) as Hroot.
  destruct (rep_parent_Some _ _ _ _ _ _ Hrep HA Hi) as [G HG].
  destruct (rep_node _ _ _ Hrep _ _ HA) as [vA HnA].
  destruct (rep_node _ _ _ Hrep _ _ HB) as [vB HnB].
  destruct (rep_node _ _ _ Hrep _ _ HG) as [vG HnG].
  destruct s as [N h sz rt]. cbn [nodes this m_size m_root] in *.
  unfold swap_same_parent, set_parent, set_left, set_right.
  destruct i as [gi|gi|]; destruct j as [gj|gj|]; simplify_eq/=.
  - do 2 step Hrep Hinj. cbn [at_up up mbind option_bind].
    rewrite run_assert by (by apply bool_decide_eq_true_2).
    repeat step Hrep Hinj.
    finish_swap Hrep Hinj HA HB n
      ltac:(swapped_nodes Hrep Hinj HA HB (xI g) (xO g)
              ltac:(fun k Hk =>
                split_pos k g ltac:(node_case Hrep Hinj Hk);
                split_pos k (xO (xI g)) ltac:(congruence);
                split_pos k (xI (xI g)) ltac:(congruence);
                split_pos k (xO (xO g)) ltac:(congruence);
                split_pos k (xI (xO g)) ltac:(congruence))).
  - do 2 step Hrep Hinj. cbn [at_up up mbind option_bind].
    rewrite run_assert by (by apply bool_decide_eq_true_2).
    repeat step Hrep Hinj.
    finish_swap Hrep Hinj HA HB n
      ltac:(swapped_nodes Hrep Hinj HA HB (xO g) (xI g)
              ltac:(fun k Hk =>
                split_pos k g ltac:(node_case Hrep Hinj Hk);
                split_pos k (xO (xI g)) ltac:(congruence);
                split_pos k (xI (xI g)) ltac:(congruence);
                split_pos k (xO (xO g)) ltac:(congruence);
                split_pos k (xI (xO g)) ltac:(congruence))).
Qed.

(** The premise of [run_change_child] about the parent, in a state
    whose nodes were written to already. *)
Ltac parent_links Hrep Hinj :=
  cbn [nodes m_root up]; intros ? [= <-];
  eexists _, _; split; [eassumption|];
  split; [lookup_chain Hinj|];
  simpl_pos_decide; cbn [resident_node left right with_left with_right with_parent]; done.

(** The premise of [run_change_parent]. *)
Ltac child_parent Hrep Hinj :=
  let a := fresh "a" in let Ha := fresh "Ha" in
  intros a Ha;
  first
    [ congruence
    | let v := fresh "v" in let Hv := fresh "Hv" in
      destruct (rep_node _ _ _ Hrep _ _ Ha) as [v Hv]; cbn [nodes this] in Hv;
      eexists; split; [lookup_chain Hinj|];
      simpl_pos_decide;
      cbn [resident_node parent with_left with_right with_parent at_up up mbind option_bind];
      done ].

Ltac distant_steps Hrep Hinj m ip jp A B :=
  step Hrep Hinj;
  rewrite (run_change_child m ip A)
    by (cbn [nodes m_root]; first [done | intros ?; congruence | discriminate]);
  cbn [nodes this m_size m_root relink_nodes relink_root at_up up mbind option_bind];
  step Hrep Hinj;
  rewrite (run_change_child m jp B)
    by first [ done | discriminate | parent_links Hrep Hinj ];
  cbn [nodes this m_size m_root relink_nodes relink_root at_up up mbind option_bind];
  step Hrep Hinj; rewrite run_change_parent by child_parent Hrep Hinj;
  cbn [nodes this m_size m_root];
  step Hrep Hinj; rewrite run_change_parent by child_parent Hrep Hinj;
  cbn [nodes this m_size m_root];
  step Hrep Hinj; rewrite run_change_parent by child_parent Hrep Hinj;
  cbn [nodes this m_size m_root];
  step Hrep Hinj; rewrite run_change_parent by child_parent Hrep Hinj;
  cbn [nodes this m_size m_root];
  repeat step Hrep Hinj.

Ltac distant_nodes Hrep Hinj HA HB ip jp others :=
  swapped_nodes Hrep Hinj HA HB ip jp
    ltac:(fun k Hk =>
      others k Hk;
      split_pos k (xO ip) ltac:(first [done | node_case Hrep Hinj Hk]);
      split_pos k (xI ip) ltac:(first [done | node_case Hrep Hinj Hk]);
      split_pos k (xO jp) ltac:(congruence);
      split_pos k (xI jp) ltac:(congruence)).

(** A node exchanged with a leaf that is neither its child nor its sibling. *)
Lemma swap_distant_rep (s : state) (m : gmap positive positive) (n : Z)
    (i j A B : positive) :
  rep s m n -> m !! i = Some A -> m !! j = Some B ->
  i <> j -> up i <> up j -> up j <> Some i -> m !! xO j = None ->
  exists s', swap_distant (Some A) (Some B) s = Some (tt, s') /\
    rep s' (swapm i j A B m) n /\ frame s s'.
Proof.
  intros Hrep HA HB Hne Hsib Hchild Hlj.
  pose proof (rep_no_right _ _ _ _ Hrep Hlj) as Hrj.
  pose proof (rep_inj _ _ _ Hrep) as Hinj.
  pose proof (rep_root _ _ _ Hrep) as Hroot.
  pose proof (rep_up_node _ _ _ _ _ Hrep HA) as Hupi.
  pose proof (rep_up_node _ _ _ _ _ Hrep HB) as Hupj.
  destruct (rep_node _ _ _ Hrep _ _ HA) as [vA HnA].
  destruct (rep_node _ _ _ Hrep _ _ HB) as [vB HnB].
  assert (up i <> Some j) as Hchild'.
  { intros Hup. destruct i as [gi|gi|]; simplify_eq/=; congruence. }
  assert (exists gj, up j = Some gj) as [gj Hgj].
  { destruct j as [gj|gj|]; [by eexists..|]. exfalso.
    assert (is_Some (m !! 2%positive)) as [x Hx]; [|congruence].
    apply (rep_dom _ _ _ Hrep).
    assert (Z.pos i <= n) by (apply (rep_dom _ _ _ Hrep); eauto). lia. }
  destruct (rep_parent_Some _ _ _ _ _ _ Hrep HB Hgj) as [Gj HGj].
  destruct (rep_node _ _ _ Hrep _ _ HGj) as [vGj HnGj].
  destruct s as [N h sz rt]. cbn [nodes this m_size m_root] in *.
  unfold swap_distant, set_parent, set_left, set_right.
  destruct (decide (gj = xO i)) as [->|Hov1]; [|destruct (decide (gj = xI i)) as [->|Hov2]].
  - (* the leaf is below the left child *)
    destruct i as [gi|gi|]; destruct j as [gj'|gj'|]; simplify_eq/=.
    + destruct (Hupi gi eq_refl) as (Gi & ndGi & HGi & _).
      destruct (rep_node _ _ _ Hrep _ _ HGi) as [vGi HnGi]. cbn [nodes this] in HnGi.
      distant_steps Hrep Hinj m (xI gi) (xI (xO (xI gi))) A B;
        finish_swap Hrep Hinj HA HB n
          ltac:(distant_nodes Hrep Hinj HA HB (xI gi) (xI (xO (xI gi)))
                  ltac:(fun k Hk => split_pos k (gi) ltac:(first [done | node_case Hrep Hinj Hk]))).
    + destruct (Hupi gi eq_refl) as (Gi & ndGi & HGi & _).
      destruct (rep_node _ _ _ Hrep _ _ HGi) as [vGi HnGi]. cbn [nodes this] in HnGi.
      distant_steps Hrep Hinj m (xI gi) (xO (xO (xI gi))) A B;
        finish_swap Hrep Hinj HA HB n
          ltac:(distant_nodes Hrep Hinj HA HB (xI gi) (xO (xO (xI gi)))
                  ltac:(fun k Hk => split_pos k (gi) ltac:(first [done | node_case Hrep Hinj Hk]))).
    + destruct (Hupi gi eq_refl) as (Gi & ndGi & HGi & _).
      destruct (rep_node _ _ _ Hrep _ _ HGi) as [vGi HnGi]. cbn [nodes this] in HnGi.
      distant_steps Hrep Hinj m (xO gi) (xI (xO (xO gi))) A B;
        finish_swap Hrep Hinj HA HB n
          ltac:(distant_nodes Hrep Hinj HA HB (xO gi) (xI (xO (xO gi)))
                  ltac:(fun k Hk => split_pos k (gi) ltac:(first [done | node_case Hrep Hinj Hk]))).
    + destruct (Hupi gi eq_refl) as (Gi & ndGi & HGi & _).
      destruct (rep_node _ _ _ Hrep _ _ HGi) as [vGi HnGi]. cbn [nodes this] in HnGi.
      distant_steps Hrep Hinj m (xO gi) (xO (xO (xO gi))) A B;
        finish_swap Hrep Hinj HA HB n
          ltac:(distant_nodes Hrep Hinj HA HB (xO gi) (xO (xO (xO gi)))
                  ltac:(fun k Hk => split_pos k (gi) ltac:(first [done | node_case Hrep Hinj Hk]))).
    + distant_steps Hrep Hinj m (xH) (xI (xO (xH))) A B;
        finish_swap Hrep Hinj HA HB n
          ltac:(distant_nodes Hrep Hinj HA HB (xH) (xI (xO (xH)))
                  ltac:(fun k Hk => idtac)).
    + distant_steps Hrep Hinj m (xH) (xO (xO (xH))) A B;
        finish_swap Hrep Hinj HA HB n
          ltac:(distant_nodes Hrep Hinj HA HB (xH) (xO (xO (xH)))
                  ltac:(fun k Hk => idtac)).
  - (* the leaf is below the right child *)
    destruct i as [gi|gi|]; destruct j as [gj'|gj'|]; simplify_eq/=.
    + destruct (Hupi gi eq_refl) as (Gi & ndGi & HGi & _).
      destruct (rep_node _ _ _ Hrep _ _ HGi) as [vGi HnGi]. cbn [nodes this] in HnGi.
      distant_steps Hrep Hinj m (xI gi) (xI (xI (xI gi))) A B;
        finish_swap Hrep Hinj HA HB n
          ltac:(distant_nodes Hrep Hinj HA HB (xI gi) (xI (xI (xI gi)))
                  ltac:(fun k Hk => split_pos k (gi) ltac:(first [done | node_case Hrep Hinj Hk]))).
    + destruct (Hupi gi eq_refl) as (Gi & ndGi & HGi & _).
      destruct (rep_node _ _ _ Hrep _ _ HGi) as [vGi HnGi]. cbn [nodes this] in HnGi.
      distant_steps Hrep Hinj m (xI gi) (xO (xI (xI gi))) A B;
        finish_swap Hrep Hinj HA HB n
          ltac:(distant_nodes Hrep Hinj HA HB (xI gi) (xO (xI (xI gi)))
                  ltac:(fun k Hk => split_pos k (gi) ltac:(first [done | node_case Hrep Hinj Hk]))).
    + destruct (Hupi gi eq_refl) as (Gi & ndGi & HGi & _).
      destruct (rep_node _ _ _ Hrep _ _ HGi) as [vGi HnGi]. cbn [nodes this] in HnGi.
      distant_steps Hrep Hinj m (xO gi) (xI (xI (xO gi))) A B;
        finish_swap Hrep Hinj HA HB n
          ltac:(distant_nodes Hrep Hinj HA HB (xO gi) (xI (xI (xO gi)))
                  ltac:(fun k Hk => split_pos k (gi) ltac:(first [done | node_case Hrep Hinj Hk]))).
    + destruct (Hupi gi eq_refl) as (Gi & ndGi & HGi & _).
      destruct (rep_node _ _ _ Hrep _ _ HGi) as [vGi HnGi]. cbn [nodes this] in HnGi.
      distant_steps Hrep Hinj m (xO gi) (xO (xI (xO gi))) A B;
        finish_swap Hrep Hinj HA HB n
          ltac:(distant_nodes Hrep Hinj HA HB (xO gi) (xO (xI (xO gi)))
                  ltac:(fun k Hk => split_pos k (gi) ltac:(first [done | node_case Hrep Hinj Hk]))).
    + distant_steps Hrep Hinj m (xH) (xI (xI (xH))) A B;
        finish_swap Hrep Hinj HA HB n
          ltac:(distant_nodes Hrep Hinj HA HB (xH) (xI (xI (xH)))
                  ltac:(fun k Hk => idtac)).
    + distant_steps Hrep Hinj m (xH) (xO (xI (xH))) A B;
        finish_swap Hrep Hinj HA HB n
          ltac:(distant_nodes Hrep Hinj HA HB (xH) (xO (xI (xH)))
                  ltac:(fun k Hk => idtac)).
  - destruct i as [gi|gi|]; destruct j as [gj'|gj'|]; simplify_eq/=.
    + destruct (Hupi gi eq_refl) as (Gi & ndGi & HGi & _).
      destruct (rep_node _ _ _ Hrep _ _ HGi) as [vGi HnGi]. cbn [nodes this] in HnGi.
      distant_steps Hrep Hinj m (xI gi) (xI gj) A B;
        finish_swap Hrep Hinj HA HB n
          ltac:(distant_nodes Hrep Hinj HA HB (xI gi) (xI gj)
                  ltac:(fun k Hk => split_pos k (gi) ltac:(first [done | node_case Hrep Hinj Hk]); split_pos k (gj) ltac:(first [done | node_case Hrep Hinj Hk]))).
    + destruct (Hupi gi eq_refl) as (Gi & ndGi & HGi & _).
      destruct (rep_node _ _ _ Hrep _ _ HGi) as [vGi HnGi]. cbn [nodes this] in HnGi.
      distant_steps Hrep Hinj m (xI gi) (xO gj) A B;
        finish_swap Hrep Hinj HA HB n
          ltac:(distant_nodes Hrep Hinj HA HB (xI gi) (xO gj)
                  ltac:(fun k Hk => split_pos k (gi) ltac:(first [done | node_case Hrep Hinj Hk]); split_pos k (gj) ltac:(first [done | node_case Hrep Hinj Hk]))).
    + destruct (Hupi gi eq_refl) as (Gi & ndGi & HGi & _).
      destruct (rep_node _ _ _ Hrep _ _ HGi) as [vGi HnGi]. cbn [nodes this] in HnGi.
      distant_steps Hrep Hinj m (xO gi) (xI gj) A B;
        finish_swap Hrep Hinj HA HB n
          ltac:(distant_nodes Hrep Hinj HA HB (xO gi) (xI gj)
                  ltac:(fun k Hk => split_pos k (gi) ltac:(first [done | node_case Hrep Hinj Hk]); split_pos k (gj) ltac:(first [done | node_case Hrep Hinj Hk]))).
    + destruct (Hupi gi eq_refl) as (Gi & ndGi & HGi & _).
      destruct (rep_node _ _ _ Hrep _ _ HGi) as [vGi HnGi]. cbn [nodes this] in HnGi.
      distant_steps Hrep Hinj m (xO gi) (xO gj) A B;
        finish_swap Hrep Hinj HA HB n
          ltac:(distant_nodes Hrep Hinj HA HB (xO gi) (xO gj)
                  ltac:(fun k Hk => split_pos k (gi) ltac:(first [done | node_case Hrep Hinj Hk]); split_pos k (gj) ltac:(first [done | node_case Hrep Hinj Hk]))).
    + distant_steps Hrep Hinj m (xH) (xI gj) A B;
        finish_swap Hrep Hinj HA HB n
          ltac:(distant_nodes Hrep Hinj HA HB (xH) (xI gj)
                  ltac:(fun k Hk => split_pos k (gj) ltac:(first [done | node_case Hrep Hinj Hk]))).
    + distant_steps Hrep Hinj m (xH) (xO gj) A B;
        finish_swap Hrep Hinj HA HB n
          ltac:(distant_nodes Hrep Hinj HA HB (xH) (xO gj)
                  ltac:(fun k Hk => split_pos k (gj) ltac:(first [done | node_case Hrep Hinj Hk]))).
Qed.

End Swap.
End BinHeapSwap.

(** ** Restoring the heap order *)

Module BinHeapSift.
Import BinHeap BinHeapRep BinHeapSwap.

Section Sift.

Context {T : Type}.
Variable is_less_than : T -> T -> bool.

(** The comparator is a strict weak ordering, as [Compare] has to be. *)
Record strict_weak_order : Prop := mkSWO {
  swo_irrefl : forall x, is_less_than x x = false;
  swo_trans : forall x y z,
    is_less_than x y = true -> is_less_than y z = true -> is_less_than x z = true;
  swo_incomp : forall x y z,
    is_less_than x y = false -> is_less_than y z = false -> is_less_than x z = false
}.

Hypothesis Hswo : strict_weak_order.

Local Abbreviation state := (state T).
Local Abbreviation node := (BinHeapNode T).
Local Abbreviation swap_nodes := (@swap_nodes T).
Local Abbreviation sift_up := (sift_up is_less_than).
Local Abbreviation sift_down := (sift_down is_less_than).

Lemma swo_asym (x y : T) : is_less_than x y = true -> is_less_than y x = false.
Proof.
  intros Hxy. destruct (is_less_than y x) eqn:Hyx; [|done].
  pose proof (swo_trans Hswo _ _ _ Hxy Hyx) as Hxx.
  by rewrite (swo_irrefl Hswo) in Hxx.
Qed.

(** The value of the node at an address, and at a position. *)
Definition keyof (s : state) (a : positive) : option T := value <$> nodes s !! a.
Definition pkey (s : state) (m : gmap positive positive) (k : positive) : option T :=
  m !! k ≫= keyof s.

(** The node at position [c] is not less than the node at position [k]. *)
Definition ple (s : state) (m : gmap positive positive) (k c : positive) : Prop :=
  forall x y, pkey s m k = Some x -> pkey s m c = Some y -> is_less_than y x = false.

(** Heap order: no child is less than its parent. *)
Definition heap_ord (s : state) (m : gmap positive positive) : Prop :=
  forall c k, up c = Some k -> ple s m k c.

(** Heap order everywhere but around position [h], whose children are
    not less than its parent. *)
Definition ord_except (s : state) (m : gmap positive positive) (h : positive) : Prop :=
  (forall c k, up c = Some k -> c <> h -> k <> h -> ple s m k c) /\
  (forall c g, up c = Some h -> up h = Some g -> ple s m g c).

Definition same_range (m m' : gmap positive positive) : Prop :=
  forall a, (exists k, m !! k = Some a) <-> (exists k, m' !! k = Some a).

Lemma frame_keyof (s s' : state) (a : positive) : frame s s' -> keyof s' a = keyof s a.
Proof.
  intros [_ Hrel]. unfold keyof. specialize (Hrel a).
  destruct Hrel as [x y (Hv & _)|]; cbn; congruence.
Qed.

Lemma rep_pkey (s : state) (m : gmap positive positive) (n : Z) (k a : positive) :
  rep s m n -> m !! k = Some a -> exists v, pkey s m k = Some v /\ keyof s a = Some v.
Proof.
  intros Hrep Hk. destruct (rep_node _ _ _ Hrep _ _ Hk) as [v Hv].
  exists v. unfold pkey, keyof. rewrite Hk. cbn. by rewrite Hv.
Qed.

(** The transposition of two positions. *)
Definition transp (i j k : positive) : positive :=
  if decide (k = i) then j else if decide (k = j) then i else k.

Lemma pkey_swapm (s s' : state) (m : gmap positive positive) (i j a b k : positive) :
  frame s s' -> m !! i = Some a -> m !! j = Some b ->
  pkey s' (swapm i j a b m) k = pkey s m (transp i j k).
Proof.
  intros Hfr Hi Hj. unfold pkey, transp. rewrite swapm_lookup.
  repeat case_decide; subst; rewrite ?Hi, ?Hj; cbn; try by apply frame_keyof.
  destruct (m !! k); cbn; [by apply frame_keyof|done].
Qed.

Lemma ple_swapm (s s' : state) (m : gmap positive positive) (i j a b k c : positive) :
  frame s s' -> m !! i = Some a -> m !! j = Some b ->
  ple s' (swapm i j a b m) k c <-> ple s m (transp i j k) (transp i j c).
Proof.
  intros Hfr Hi Hj. unfold ple.
  by rewrite !(pkey_swapm s s' m i j a b) by done.
Qed.

Lemma ple_frame (s s' : state) (m : gmap positive positive) (k c : positive) :
  frame s s' -> ple s' m k c <-> ple s m k c.
Proof.
  intros Hfr. unfold ple, pkey.
  destruct (m !! k) as [a|], (m !! c) as [b|]; cbn;
    rewrite ?(frame_keyof s s') by done; done.
Qed.

Lemma ple_trans (s : state) (m : gmap positive positive) (n : Z) (k1 k2 k3 : positive) :
  rep s m n -> is_Some (m !! k2) ->
  ple s m k1 k2 -> ple s m k2 k3 -> ple s m k1 k3.
Proof.
  intros Hrep [a Ha] H12 H23 x z Hx Hz.
  destruct (rep_pkey _ _ _ _ _ Hrep Ha) as (y & Hy & _).
  eapply (swo_incomp Hswo); [by eapply H23|by eapply H12].
Qed.

Lemma same_range_swapm (i j a b : positive) (m : gmap positive positive) :
  m !! i = Some a -> m !! j = Some b -> same_range m (swapm i j a b m).
Proof. intros Hi Hj c. by apply swapm_range. Qed.

Lemma same_range_trans (m1 m2 m3 : gmap positive positive) :
  same_range m1 m2 -> same_range m2 m3 -> same_range m1 m3.
Proof. intros H12 H23 a. by rewrite (H12 a). Qed.

(** *** How [swap_nodes] tells the cases apart *)

Lemma pos_addr_eq (m : gmap positive positive) (k1 k2 a : positive) :
  (forall k1 k2 a, m !! k1 = Some a -> m !! k2 = Some a -> k1 = k2) ->
  m !! k2 = Some a -> k1 <> k2 -> m !! k1 <> Some a.
Proof. intros Hinj H2 Hne H1. apply Hne. by eapply Hinj. Qed.

Lemma at_up_ne (s : state) (m : gmap positive positive) (n : Z) (k a : positive) :
  rep s m n -> m !! k = Some a -> at_up m k <> Some a.
Proof.
  intros Hrep Hk. unfold at_up. destruct k as [g|g|]; cbn; [| |done].
  - apply (pos_addr_eq m g (xI g) a (rep_inj _ _ _ Hrep) Hk). lia.
  - apply (pos_addr_eq m g (xO g) a (rep_inj _ _ _ Hrep) Hk). lia.
Qed.

Lemma at_up_child (m : gmap positive positive) (c p : positive) :
  up c = Some p -> at_up m c = m !! p.
Proof. unfold at_up. by intros ->. Qed.

(** A parent and its child, in this order. *)
Lemma swap_nodes_parent_child (s : state) (m : gmap positive positive) (n : Z)
    (p c P C : positive) :
  rep s m n -> m !! p = Some P -> m !! c = Some C -> up c = Some p ->
  exists s', swap_nodes (Some P) (Some C) s = Some (tt, s') /\
    rep s' (swapm p c P C m) n /\ frame s s'.
Proof.
  intros Hrep HP HC Hup.
  pose proof (rep_inj _ _ _ Hrep) as Hinj.
  destruct (rep_node _ _ _ Hrep _ _ HP) as [vP HnP].
  destruct (rep_node _ _ _ Hrep _ _ HC) as [vC HnC].
  unfold BinHeap.swap_nodes.
  erewrite run_get_parent; [|done|done]. erewrite run_get_parent; [|done|done].
  cbn [parent resident_node]. rewrite (at_up_child m c p Hup), HP.
  rewrite bool_decide_eq_false_2 by (by eapply at_up_ne).
  erewrite run_get_left; [|done|done]. cbn [left resident_node].
  destruct c as [g|g|]; simplify_eq/=.
  - rewrite bool_decide_eq_false_2
      by (apply (pos_addr_eq m _ _ C Hinj HC); lia).
    erewrite run_get_right; [|done|done]. cbn [right resident_node].
    rewrite HC, bool_decide_eq_true_2 by done.
    by apply swap_right_child_rep.
  - rewrite HC, bool_decide_eq_true_2 by done. by apply swap_left_child_rep.
Qed.

(** A child and its parent, in this order. *)
Lemma swap_nodes_child_parent (s : state) (m : gmap positive positive) (n : Z)
    (p c P C : positive) :
  rep s m n -> m !! p = Some P -> m !! c = Some C -> up c = Some p ->
  exists s', swap_nodes (Some C) (Some P) s = Some (tt, s') /\
    rep s' (swapm p c P C m) n /\ frame s s'.
Proof.
  intros Hrep HP HC Hup.
  pose proof (rep_inj _ _ _ Hrep) as Hinj.
  destruct (rep_node _ _ _ Hrep _ _ HP) as [vP HnP].
  destruct (rep_node _ _ _ Hrep _ _ HC) as [vC HnC].
  unfold BinHeap.swap_nodes.
  erewrite run_get_parent; [|done|done]. erewrite run_get_parent; [|done|done].
  cbn [parent resident_node]. rewrite (at_up_child m c p Hup), HP.
  rewrite bool_decide_eq_false_2.
  2:{ intros Heq. symmetry in Heq. exact (at_up_ne _ _ _ _ _ Hrep HP Heq). }
  erewrite run_get_left; [|done|done]. cbn [left resident_node].
  rewrite bool_decide_eq_false_2
    by (apply (pos_addr_eq m _ _ P Hinj HP); destruct c; simplify_eq/=; lia).
  erewrite run_get_right; [|done|done]. cbn [right resident_node].
  rewrite bool_decide_eq_false_2
    by (apply (pos_addr_eq m _ _ P Hinj HP); destruct c; simplify_eq/=; lia).
  erewrite run_get_left; [|done|done]. cbn [left resident_node].
  destruct c as [g|g|]; simplify_eq/=.
  - rewrite bool_decide_eq_false_2
      by (apply (pos_addr_eq m _ _ C Hinj HC); lia).
    erewrite run_get_right; [|done|done]. cbn [right resident_node].
    rewrite HC, bool_decide_eq_true_2 by done.
    by apply swap_right_child_rep.
  - rewrite HC, bool_decide_eq_true_2 by done. by apply swap_left_child_rep.
Qed.

Lemma run_bind_eq {A B : Type} (c : M T A) (k : A -> M T B) (s s' : state) (a : A) :
  c s = Some (a, s') -> bind c k s = k a s'.
Proof. unfold bind. by intros ->. Qed.

(** *** [sift_up] *)

Lemma transp_other (i j k : positive) : k <> i -> k <> j -> transp i j k = k.
Proof. intros. unfold transp. by rewrite !decide_False. Qed.

Lemma transp_l (i j : positive) : transp i j i = j.
Proof. unfold transp. by rewrite decide_True. Qed.

Lemma transp_r (i j : positive) : transp i j j = i.
Proof. unfold transp. case_decide; [done|]. by rewrite decide_True. Qed.

Lemma up_lt (c k : positive) : up c = Some k -> (k < c)%positive.
Proof. destruct c; intros; simplify_eq/=; lia. Qed.

(** The order around the hole after one step up: the node that was
    at [h] is now at its parent position [g]. *)
Lemma ord_except_up (s s1 : state) (m : gmap positive positive) (n : Z)
    (h g a G : positive) (va vg : T) :
  rep s m n -> frame s s1 ->
  m !! h = Some a -> m !! g = Some G -> up h = Some g ->
  keyof s a = Some va -> keyof s G = Some vg ->
  is_less_than va vg = true ->
  ord_except s m h -> (forall c, up c = Some h -> ple s m h c) ->
  ord_except s1 (swapm g h G a m) g /\
  (forall c, up c = Some g -> ple s1 (swapm g h G a m) g c).
Proof.
  intros Hrep Hfr Ha HG Hup Hva Hvg Hlt [Hex Hgr] Hch.
  pose proof (up_lt _ _ Hup) as Hgh.
  assert (Hpa : pkey s m h = Some va) by (unfold pkey; by rewrite Ha).
  assert (Hpg : pkey s m g = Some vg) by (unfold pkey; by rewrite HG).
  assert (Hhg : ple s m h g).
  { intros x y Hx Hy. simplify_eq. by apply swo_asym. }
  assert (Hsib : forall c, up c = Some g -> c <> h -> ple s m h c).
  { intros c Hc Hne x y Hx Hy. simplify_eq.
    destruct (is_less_than y va) eqn:Hy'; [|done].
    pose proof (swo_trans Hswo _ _ _ Hy' Hlt) as Hcg.
    by rewrite (Hex c g Hc Hne ltac:(lia) vg y Hpg Hy) in Hcg. }
  split; [split|].
  - intros c k Hc Hcg Hkg. rewrite (ple_swapm s s1 m g h G a) by done.
    pose proof (up_lt _ _ Hc) as Hkc.
    destruct (decide (k = h)) as [->|Hkh].
    + rewrite transp_r, transp_other by lia. by apply (Hgr c g).
    + destruct (decide (c = h)) as [->|Hch']; [congruence|].
      rewrite !transp_other by done. by apply Hex.
  - intros c gg Hc Hgg. rewrite (ple_swapm s s1 m g h G a) by done.
    pose proof (up_lt _ _ Hc) as Hkc. pose proof (up_lt _ _ Hgg) as Hkg.
    rewrite (transp_other g h gg) by lia.
    destruct (decide (c = h)) as [->|Hch'].
    + rewrite transp_r. apply Hex; [done|lia|lia].
    + rewrite transp_other by lia.
      apply (ple_trans s m n gg g c Hrep); [by eexists| |].
      * apply Hex; [done|lia|lia].
      * apply Hex; [done|done|lia].
  - intros c Hc. rewrite (ple_swapm s s1 m g h G a) by done.
    rewrite transp_l. destruct (decide (c = h)) as [->|Hch'].
    + by rewrite transp_r.
    + pose proof (up_lt _ _ Hc). rewrite transp_other by lia. by apply Hsib.
Qed.

Lemma heap_ord_intro (s : state) (m : gmap positive positive) (h : positive) :
  ord_except s m h -> (forall c, up c = Some h -> ple s m h c) ->
  (forall g, up h = Some g -> ple s m g h) -> heap_ord s m.
Proof.
  intros [Hex _] Hch Hpar c k Hc.
  destruct (decide (k = h)) as [->|Hk]; [by apply Hch|].
  destruct (decide (c = h)) as [->|Hc']; [by apply Hpar|]. by apply Hex.
Qed.

Lemma sift_up_rep (fuel : nat) (s : state) (m : gmap positive positive) (n : Z)
    (h a : positive) :
  rep s m n -> m !! h = Some a -> ord_except s m h ->
  (forall c, up c = Some h -> ple s m h c) ->
  (Pos.size_nat h <= S fuel)%nat ->
  exists s' m', sift_up fuel (Some a) s = Some (tt, s') /\
    rep s' m' n /\ heap_ord s' m' /\ frame s s' /\ same_range m m'.
Proof.
  revert s m h. induction fuel as [|fuel IH]; intros s m h Hrep Ha Hex Hch Hsz.
  all: pose proof (rep_inj _ _ _ Hrep) as Hinj.
  all: destruct (rep_node _ _ _ Hrep _ _ Ha) as [va Hna].
  all: cbn [BinHeap.sift_up]; erewrite run_get_parent; [|done|done].
  all: cbn [parent resident_node].
  all: destruct (up h) as [g|] eqn:Hup.
  all: unfold at_up; rewrite Hup; cbn [mbind option_bind].
  all: try (
    destruct (rep_parent_Some _ _ _ _ _ _ Hrep Ha Hup) as [G HG]; rewrite HG;
    destruct (rep_node _ _ _ Hrep _ _ HG) as [vg HnG];
    erewrite run_get_value; [|done|done]; erewrite run_get_value; [|done|done];
    cbn [value resident_node];
    destruct (is_less_than va vg) eqn:Hlt).
  all: try (exists s, m; split; [reflexivity|]; split; [done|];
    split; [|split; [apply frame_refl|done]];
    apply (heap_ord_intro s m h Hex Hch); intros g' Hg' x y Hx Hy;
    unfold pkey, keyof in Hx, Hy; simplify_eq/=;
    rewrite ?HG, ?Ha in *; simplify_eq/=; rewrite ?HnG, ?Hna in *; by simplify_eq/=).
  - destruct h as [[]|[]|]; simplify_eq/=; lia.
  - destruct (swap_nodes_parent_child s m n g h G a Hrep HG Ha Hup) as (s1 & Hrun & Hrep1 & Hfr1).
    rewrite (run_bind_eq _ _ _ _ _ Hrun).
    destruct (ord_except_up s s1 m n h g a G va vg) as [Hex1 Hch1]; try done.
    { unfold keyof. by rewrite Hna. } { unfold keyof. by rewrite HnG. }
    destruct (IH s1 (swapm g h G a m) g) as (s' & m' & Hrun' & Hrep' & Hord' & Hfr' & Hrg'); try done.
    { rewrite swapm_lookup. by rewrite decide_True. }
    { destruct h; simplify_eq/=; lia. }
    exists s', m'. split; [done|]. split; [done|]. split; [done|].
    split; [by eapply frame_trans|].
    eapply same_range_trans; [|done]. by apply same_range_swapm.
Qed.

(** *** [sift_down] *)

(** The order around the hole after one step down: the node that was
    at [h] is now at the position [c] of its least child. *)
Lemma ord_except_down (s s1 : state) (m : gmap positive positive)
    (h c a X : positive) :
  frame s s1 -> m !! h = Some a -> m !! c = Some X -> up c = Some h ->
  (forall c', up c' = Some h -> c' <> c -> ple s m c c') ->
  ord_except s m h ->
  ord_except s1 (swapm h c a X m) c.
Proof.
  intros Hfr Ha HX Hup Hsib [Hex Hgr].
  pose proof (up_lt _ _ Hup) as Hhc.
  split.
  - intros c' k Hc' Hne Hk. rewrite (ple_swapm s s1 m h c a X) by done.
    pose proof (up_lt _ _ Hc') as Hkc.
    destruct (decide (k = h)) as [->|Hkh].
    + rewrite transp_l, transp_other by lia. by apply Hsib.
    + rewrite (transp_other h c k) by done.
      destruct (decide (c' = h)) as [->|Hch'].
      * rewrite transp_l. by apply (Hgr c k).
      * rewrite transp_other by done. by apply Hex.
  - intros c' gg Hc' Hgg. rewrite (ple_swapm s s1 m h c a X) by done.
    pose proof (up_lt _ _ Hc') as Hkc. simplify_eq.
    rewrite transp_l, transp_other by lia. apply Hex; [done|lia|lia].
Qed.

Lemma ple_values (s : state) (m : gmap positive positive) (k c a b : positive)
    (nda ndb : node) :
  m !! k = Some a -> m !! c = Some b ->
  nodes s !! a = Some nda -> nodes s !! b = Some ndb ->
  is_less_than (value ndb) (value nda) = false -> ple s m k c.
Proof.
  intros Hk Hc Ha Hb Hlt x y. unfold pkey, keyof.
  rewrite Hk, Hc. cbn. rewrite Ha, Hb. cbn. congruence.
Qed.

Lemma ple_absent (s : state) (m : gmap positive positive) (k c : positive) :
  m !! c = None -> ple s m k c.
Proof. intros Hc x y _. unfold pkey. by rewrite Hc. Qed.

Ltac run_reads :=
  repeat first
    [ rewrite run_ret
    | rewrite run_bind_assoc
    | erewrite run_get_value; [|reflexivity|eassumption]
    | erewrite run_get_right; [|reflexivity|eassumption] ];
  cbn [value right resident_node];
  repeat match goal with H : ?m !! ?q = None |- context [?m !! ?q] => rewrite H end.

Lemma sift_down_rep (fuel : nat) (s : state) (m : gmap positive positive) (n : Z)
    (h a : positive) :
  rep s m n -> m !! h = Some a -> ord_except s m h ->
  n < 2 * Z.pos h * 2 ^ Z.of_nat fuel ->
  exists s' m' h', sift_down fuel (Some a) s = Some (tt, s') /\
    rep s' m' n /\ m' !! h' = Some a /\ ord_except s' m' h' /\
    (forall c, up c = Some h' -> ple s' m' h' c) /\
    frame s s' /\ same_range m m'.
Proof.
  revert s m h. induction fuel as [|fuel IH]; intros s m h Hrep Ha Hex Hfuel.
  all: pose proof (rep_inj _ _ _ Hrep) as Hinj.
  all: pose proof (rep_dom _ _ _ Hrep) as Hdom.
  all: destruct (rep_node _ _ _ Hrep _ _ Ha) as [va Hna].
  all: cbn [BinHeap.sift_down]; erewrite run_get_left; [|done|done].
  all: cbn [left resident_node].
  all: destruct (m !! xO h) as [L|] eqn:HL.
  all: try (pose proof (rep_no_right _ _ _ _ Hrep HL) as HR).
  all: try (destruct (rep_node _ _ _ Hrep _ _ HL) as [vl HnL]).
  all: run_reads; try destruct (is_less_than vl va) eqn:Hl.
  all: run_reads; try destruct (m !! xI h) as [R|] eqn:HR.
  all: try (destruct (rep_node _ _ _ Hrep _ _ HR) as [vr HnR]).
  all: run_reads.
  all: try match goal with
    | |- context [bool_decide ((if is_less_than ?y ?x then _ else _) = _)] =>
        destruct (is_less_than y x) eqn:Hr
    end.
  all: try (assert (is_less_than vl vr = false) as Hlr by
    first [ by apply swo_asym
          | destruct (is_less_than vl vr) eqn:E; [|done];
            pose proof (swo_trans Hswo _ _ _ E Hr); congruence ]).
  all: try (rewrite bool_decide_eq_true_2 by done;
    exists s, m, h; do 4 (split; [done|]); split; [|split; [apply frame_refl|done]];
    intros c Hc; destruct c; simplify_eq/=;
    first [by apply ple_absent | by eapply ple_values]).
  all: rewrite bool_decide_eq_false_2
    by (intros [= ->];
        match goal with H : _ !! ?c = Some _ |- _ =>
          pose proof (Hinj _ _ _ H Ha); lia end).
  all: try (exfalso; assert (Z.pos (xO h) <= n) by (apply Hdom; eauto);
    cbn in Hfuel; lia).
  all: match goal with
    | |- context [swap_nodes (Some ?X)] =>
        match goal with HX : _ !! ?c = Some X |- _ =>
          destruct (swap_nodes_child_parent s m n h c a X Hrep Ha HX eq_refl)
            as (s1 & Hrun & Hrep1 & Hfr1);
          rewrite (run_bind_eq _ _ _ _ _ Hrun);
          destruct (IH s1 (swapm h c a X m) c Hrep1)
            as (s' & m' & h' & Hrun' & Hrep' & Ha' & Hex' & Hch' & Hfr' & Hrg');
          [ rewrite swapm_lookup, decide_False, decide_True by (done || lia); done
          | apply (ord_except_down s s1 m h c a X); try done;
            intros c' Hc' Hne; destruct c'; simplify_eq/=;
            first [by apply ple_absent | by eapply ple_values]
          | rewrite Nat2Z.inj_succ, Z.pow_succ_r in Hfuel by lia; lia
          | exists s', m', h'; do 4 (split; [done|]); split; [done|];
            split; [by eapply frame_trans|];
            eapply same_range_trans; [|done]; by apply same_range_swapm ]
        end
    end.
Qed.

End Sift.
End BinHeapSift.

(** ** Finding a position from its index *)

Module BinHeapFind.
Import BinHeap BinHeapRep BinHeapSwap.

Section Find.

Context {T : Type}.

Local Abbreviation state := (state T).
Local Abbreviation node := (BinHeapNode T).
Local Abbreviation find_index := (@find_index T).
Local Abbreviation find_index_walk := (@find_index_walk T).

Lemma pos_lt_pow2_size (p : positive) : Z.pos p < 2 ^ Z.of_nat (Pos.size_nat p).
Proof.
  induction p as [p IH|p IH|]; cbn [Pos.size_nat];
    rewrite ?Nat2Z.inj_succ, ?Z.pow_succ_r by lia; lia.
Qed.

Lemma pos_ge_pow2_size (p : positive) : 2 ^ Z.of_nat (Pos.size_nat p) <= 2 * Z.pos p.
Proof.
  induction p as [p IH|p IH|]; cbn [Pos.size_nat];
    rewrite ?Nat2Z.inj_succ, ?Z.pow_succ_r by lia; lia.
Qed.

Lemma size_nat_bound (p : positive) (b : nat) :
  Z.pos p < 2 ^ Z.of_nat b -> (Pos.size_nat p <= b)%nat.
Proof.
  intros Hp. pose proof (pos_ge_pow2_size p) as Hge.
  destruct (decide (Pos.size_nat p <= b)%nat) as [|Hgt]; [done|].
  assert (2 ^ Z.of_nat (S b) <= 2 ^ Z.of_nat (Pos.size_nat p))
    by (apply Z.pow_le_mono_r; lia).
  rewrite Nat2Z.inj_succ, Z.pow_succ_r in * by lia. lia.
Qed.

Lemma size_nat_reverse_go (p acc : positive) :
  (Pos.size_nat (Pos.reverse_go acc p) + 1 = Pos.size_nat acc + Pos.size_nat p)%nat.
Proof.
  revert acc. induction p as [p IH|p IH|]; intros acc; cbn [Pos.reverse_go Pos.size_nat].
  - rewrite IH. cbn [Pos.size_nat]. lia.
  - rewrite IH. cbn [Pos.size_nat]. lia.
  - lia.
Qed.

Lemma reverse_go_ge (q k : positive) : (k <= Pos.reverse_go k q)%positive.
Proof.
  revert k. induction q as [q IH|q IH|]; intros k; cbn [Pos.reverse_go].
  - specialize (IH (xI k)). lia.
  - specialize (IH (xO k)). lia.
  - lia.
Qed.

(** The first loop computes the reversed index. *)
Lemma find_index_path_pos (p : positive) : forall (fuel : nat) (acc : positive),
  (Pos.size_nat p <= S fuel)%nat ->
  (Pos.size_nat acc + Pos.size_nat p <= 65)%nat ->
  find_index_path fuel (Z.pos p) (Z.pos acc) = Some (Z.pos (Pos.reverse_go acc p)).
Proof.
  assert (Hwrap : forall acc : positive, (Pos.size_nat acc <= 63)%nat ->
            wrap64 (Z.shiftl (Z.pos acc) 1) = Z.pos (xO acc)).
  { intros acc Hacc. change (Z.shiftl (Z.pos acc) 1) with (Z.pos (xO acc)).
    unfold wrap64. apply Z.mod_small. pose proof (pos_lt_pow2_size acc).
    assert (2 ^ Z.of_nat (Pos.size_nat acc) <= 2 ^ 63) by (apply Z.pow_le_mono_r; lia).
    lia. }
  induction p as [p IH|p IH|]; intros fuel acc Hfuel Hacc; cbn [Pos.size_nat] in *.
  - destruct fuel as [|fuel]; [pose proof (Pos.size_nat_monotone 1 p); destruct p; cbn in *; lia|].
    cbn [find_index_path]. change (1 <? Z.pos p~1) with true. cbv iota.
    rewrite Hwrap by (destruct p; cbn [Pos.size_nat] in *; lia).
    change (Z.shiftr (Z.pos p~1) 1) with (Z.pos p).
    change (Z.lor (Z.pos acc~0) (Z.land (Z.pos p~1) 1)) with (Z.pos acc~1).
    apply IH; cbn [Pos.size_nat]; lia.
  - destruct fuel as [|fuel]; [destruct p; cbn in *; lia|].
    cbn [find_index_path]. change (1 <? Z.pos p~0) with true. cbv iota.
    rewrite Hwrap by (destruct p; cbn [Pos.size_nat] in *; lia).
    change (Z.shiftr (Z.pos p~0) 1) with (Z.pos p).
    change (Z.lor (Z.pos acc~0) (Z.land (Z.pos p~0) 1)) with (Z.pos acc~0).
    apply IH; cbn [Pos.size_nat]; lia.
  - by destruct fuel.
Qed.

(** The slot whose content is the pointer to position [k]. *)
Definition slot_pos (m : gmap positive positive) (k : positive) : slot :=
  match k with
  | xH => SlotRoot
  | xO g => SlotLeft (m !! g)
  | xI g => SlotRight (m !! g)
  end.

Lemma read_slot_pos (s : state) (m : gmap positive positive) (n : Z) (k : positive) :
  rep s m n -> (forall g, up k = Some g -> is_Some (m !! g)) ->
  read_slot (slot_pos m k) s = Some (m !! k, s).
Proof.
  intros Hrep Hup. destruct k as [g|g|]; cbn [slot_pos read_slot].
  - destruct (Hup g eq_refl) as [G HG].
    destruct (rep_node _ _ _ Hrep _ _ HG) as [v Hv].
    unfold get_right, bind, load. by rewrite HG, Hv.
  - destruct (Hup g eq_refl) as [G HG].
    destruct (rep_node _ _ _ Hrep _ _ HG) as [v Hv].
    unfold get_left, bind, load. by rewrite HG, Hv.
  - unfold get_root. by rewrite (rep_root _ _ _ Hrep).
Qed.

(** The position above, the root being its own. *)
Definition above (k : positive) : positive := default 1%positive (up k).

(** The second loop walks from position [k] along the path [q]. *)
Lemma find_index_walk_pos (s : state) (m : gmap positive positive) (n : Z) (q : positive) :
  rep s m n ->
  forall (fuel : nat) (k : positive) (par : slot),
  (Pos.size_nat q <= S fuel)%nat ->
  (forall g, up k = Some g -> is_Some (m !! g)) ->
  (q <> 1%positive -> Z.pos (Pos.reverse_go k q) <= 2 * n + 1) ->
  find_index_walk fuel (Z.pos q) par (slot_pos m k) s
  = Some ((match q with
           | xH => par
           | _ => slot_pos m (above (Pos.reverse_go k q))
           end, slot_pos m (Pos.reverse_go k q)), s).
Proof.
  intros Hrep. pose proof (rep_dom _ _ _ Hrep) as Hdom.
  induction q as [q IH|q IH|]; intros fuel k par Hfuel Hup Hfin;
    cbn [Pos.size_nat Pos.reverse_go] in *.
  - destruct fuel as [|fuel]; [destruct q; cbn in *; lia|].
    specialize (Hfin ltac:(done)). pose proof (reverse_go_ge q (xI k)).
    assert (is_Some (m !! k)) as [K HK] by (apply Hdom; lia).
    cbn [BinHeap.find_index_walk]. change (1 <? Z.pos q~1) with true. cbv iota.
    unfold bind at 1. rewrite (read_slot_pos s m n k Hrep Hup), HK.
    rewrite bool_decide_eq_true_2 by done. cbn [assert bind ret].
    change (Z.shiftr (Z.pos q~1) 1) with (Z.pos q).
    change (Z.land (Z.pos q~1) 1 =? 0) with false. cbv iota.
    rewrite <- HK. change (SlotRight (m !! k)) with (slot_pos m (xI k)).
    rewrite IH; [|lia| |by intros _].
    + by destruct q.
    + intros g [= <-]. by eexists.
  - destruct fuel as [|fuel]; [destruct q; cbn in *; lia|].
    specialize (Hfin ltac:(done)). pose proof (reverse_go_ge q (xO k)).
    assert (is_Some (m !! k)) as [K HK] by (apply Hdom; lia).
    cbn [BinHeap.find_index_walk]. change (1 <? Z.pos q~0) with true. cbv iota.
    unfold bind at 1. rewrite (read_slot_pos s m n k Hrep Hup), HK.
    rewrite bool_decide_eq_true_2 by done. cbn [assert bind ret].
    change (Z.shiftr (Z.pos q~0) 1) with (Z.pos q).
    change (Z.land (Z.pos q~0) 1 =? 0) with true. cbv iota.
    rewrite <- HK. change (SlotLeft (m !! k)) with (slot_pos m (xO k)).
    rewrite IH; [|lia| |by intros _].
    + by destruct q.
    + intros g [= <-]. by eexists.
  - by destruct fuel.
Qed.

(** [find_index] of the index of a position whose parent is in the
    heap gives the slot of the position and the slot above it. *)
Lemma find_index_pos (s : state) (m : gmap positive positive) (n : Z) (p : positive) :
  rep s m n -> Z.pos p < 2 ^ 64 -> Z.pos p <= 2 * n + 1 ->
  find_index (Z.pos p) s = Some ((slot_pos m (above p), slot_pos m p), s).
Proof.
  intros Hrep Hp Hn. unfold BinHeap.find_index.
  pose proof (size_nat_bound p 64 Hp) as Hsz.
  rewrite run_assert by done.
  rewrite (find_index_path_pos p 64 1) by (cbn [Pos.size_nat]; lia).
  pose proof (size_nat_reverse_go p 1) as Hrev. cbn [Pos.size_nat] in Hrev.
  change SlotRoot with (slot_pos m 1) at 2.
  rewrite (find_index_walk_pos s m n _ Hrep); [| lia | done | ].
  - change (Pos.reverse_go 1 (Pos.reverse_go 1 p)) with (Pos.reverse (Pos.reverse p)).
    rewrite Pos.reverse_involutive.
    destruct (Pos.reverse_go 1 p) eqn:Hq; try done.
    assert (Pos.reverse (Pos.reverse p) = 1%positive) as Hp1
      by (unfold Pos.reverse at 1; fold (Pos.reverse p); unfold Pos.reverse in *; by rewrite Hq).
    rewrite Pos.reverse_involutive in Hp1. by subst.
  - intros _. change (Pos.reverse_go 1 (Pos.reverse_go 1 p)) with (Pos.reverse (Pos.reverse p)).
    by rewrite Pos.reverse_involutive.
Qed.

End Find.
End BinHeapFind.

(** ** [insert] and [remove] keep the tree and its order *)

Module BinHeapOps.
Import BinHeap BinHeapRep BinHeapSwap BinHeapSift BinHeapFind.

Section Ops.

Context {T : Type}.
Variable is_less_than : T -> T -> bool.
Hypothesis Hswo : strict_weak_order is_less_than.

Local Abbreviation state := (state T).
Local Abbreviation node := (BinHeapNode T).
Local Abbreviation insert := (insert is_less_than).
Local Abbreviation remove := (remove is_less_than).
Local Abbreviation sift_up := (sift_up is_less_than).
Local Abbreviation sift_down := (sift_down is_less_than).
Local Abbreviation ple := (ple is_less_than).
Local Abbreviation heap_ord := (heap_ord is_less_than).
Local Abbreviation ord_except := (ord_except is_less_than).

(** What an operation on the node at [a] leaves alone: the values, and
    the residency of every other node. *)
Definition kept (a c : positive) (nd nd' : node) : Prop :=
  value nd' = value nd /\ (c <> a -> in_heap nd' = in_heap nd).

Definition evolves (a : positive) (s s' : state) : Prop :=
  this s' = this s /\
  forall c, option_Forall2 (kept a c) (nodes s !! c) (nodes s' !! c).

Lemma frame_evolves (a : positive) (s s' : state) : frame s s' -> evolves a s s'.
Proof.
  intros [Hthis Hrel]. split; [done|]. intros c. specialize (Hrel c).
  destruct Hrel as [x y (Hv & Hh & _)|]; constructor. by split.
Qed.

Lemma evolves_trans (a : positive) (s1 s2 s3 : state) :
  evolves a s1 s2 -> evolves a s2 s3 -> evolves a s1 s3.
Proof.
  intros [Ht1 H1] [Ht2 H2]. split; [congruence|]. intros c.
  specialize (H1 c). specialize (H2 c).
  destruct H1 as [x y [Hv1 Hh1]|]; inversion H2 as [y' z [Hv2 Hh2]|]; subst; constructor.
  split; [congruence|]. intros Hc. rewrite Hh2, Hh1; done.
Qed.

Lemma evolves_keyof (a c : positive) (s s' : state) :
  evolves a s s' -> keyof s' c = keyof s c.
Proof.
  intros [_ H]. specialize (H c). unfold keyof.
  destruct H as [x y [Hv _]|]; cbn; congruence.
Qed.

Lemma evolves_ple (a : positive) (s s' : state) (m : gmap positive positive) (k c : positive) :
  evolves a s s' -> ple s' m k c <-> ple s m k c.
Proof.
  intros Hev. unfold BinHeapSift.ple, pkey.
  destruct (m !! k) as [x|], (m !! c) as [y|]; cbn;
    rewrite ?(evolves_keyof a _ s s') by done; done.
Qed.

(** The node above position [k] is there, with its links to below. *)
Definition up_linked (N : gmap positive node) (m : gmap positive positive) (k : positive) : Prop :=
  forall g, up k = Some g ->
    exists G nd, m !! g = Some G /\ N !! G = Some nd /\
                 left nd = m !! xO g /\ right nd = m !! xI g.

Lemma rep_up_linked (s : state) (m : gmap positive positive) (n : Z) (k : positive) :
  rep s m n -> Z.pos k <= 2 * n + 1 -> up_linked (nodes s) m k.
Proof.
  intros Hrep Hk g Hg. assert (is_Some (m !! g)) as [G HG].
  { apply (rep_dom _ _ _ Hrep). destruct k; simplify_eq/=; lia. }
  destruct (rep_node _ _ _ Hrep _ _ HG) as [v Hv]. by eexists _, _.
Qed.

Lemma rep_up_linked_Some (s : state) (m : gmap positive positive) (n : Z) (k a : positive) :
  rep s m n -> m !! k = Some a -> forall g, up k = Some g -> is_Some (m !! g).
Proof. intros Hrep Hk g Hg. by eapply rep_parent_Some. Qed.

Lemma up_linked_alter (N : gmap positive node) (m : gmap positive positive) (k a : positive)
    (f : node -> node) :
  (forall k, m !! k <> Some a) ->
  up_linked N m k -> up_linked (alter_at (Some a) f N) m k.
Proof.
  intros Hout Hup g Hg. destruct (Hup g Hg) as (G & nd & HG & Hnd & Hl & Hr).
  exists G, nd. split; [done|]. split; [|done].
  rewrite lookup_alter_at, decide_False; [done|]. intros [= ->]. by eapply Hout.
Qed.

Lemma read_slot_links (s : state) (m : gmap positive positive) (k : positive) :
  m_root s = m !! 1%positive -> up_linked (nodes s) m k ->
  read_slot (slot_pos m k) s = Some (m !! k, s).
Proof.
  intros Hroot Hup. destruct k as [g|g|]; cbn [slot_pos read_slot].
  - destruct (Hup g eq_refl) as (G & nd & HG & Hnd & _ & Hr).
    unfold get_right, bind, load. by rewrite HG, Hnd, <- Hr.
  - destruct (Hup g eq_refl) as (G & nd & HG & Hnd & Hl & _).
    unfold get_left, bind, load. by rewrite HG, Hnd, <- Hl.
  - unfold get_root. by rewrite Hroot.
Qed.

Lemma write_slot_pos (s : state) (m : gmap positive positive) (k : positive)
    (v : option positive) :
  (forall g, up k = Some g -> exists G, m !! g = Some G /\ is_Some (nodes s !! G)) ->
  write_slot (slot_pos m k) v s
  = Some (tt, mkState (relink_nodes m k v (nodes s)) (this s) (m_size s)
                      (relink_root k v (m_root s))).
Proof.
  intros Hup. destruct k as [g|g|]; cbn [slot_pos write_slot relink_nodes relink_root].
  - destruct (Hup g eq_refl) as (G & HG & HnG). unfold set_right.
    apply tail_modify. by exists G.
  - destruct (Hup g eq_refl) as (G & HG & HnG). unfold set_left.
    apply tail_modify. by exists G.
  - done.
Qed.

(** A node that is not resident is at no position. *)
Lemma rep_outside (s : state) (m : gmap positive positive) (n : Z) (a : positive) (nd : node) :
  rep s m n -> nodes s !! a = Some nd -> in_heap nd <> Some (this s) ->
  forall k, m !! k <> Some a.
Proof.
  intros Hrep Hnd Hin k Hk. destruct (rep_node _ _ _ Hrep _ _ Hk) as [v Hv].
  rewrite Hnd in Hv. by simplify_eq.
Qed.

(** *** [insert] *)

(** The fields [insert] gives the node it links in. *)
Definition linked_in (h : positive) (par : option positive) (nd : node) : node :=
  with_right None (with_left None (with_parent par (with_in_heap (Some h) nd))).

Lemma insert_links (s : state) (m : gmap positive positive) (n : Z) (a : positive) (nd : node) :
  rep s m n -> 0 <= n -> n + 1 < 2 ^ 64 ->
  nodes s !! a = Some nd -> in_heap nd = None ->
  let p := Z.to_pos (n + 1) in
  exists s1, insert (Some a) s = sift_up MAX_DEPTH (Some a) s1 /\
    rep s1 (<[p := a]> m) (n + 1) /\ evolves a s s1.
Proof.
  intros Hrep Hn Hmax Hnd Hin p.
  pose proof (rep_inj _ _ _ Hrep) as Hinj.
  pose proof (rep_dom _ _ _ Hrep) as Hdom.
  assert (Hp : Z.pos p = n + 1) by (unfold p; lia).
  assert (Hout : forall k, m !! k <> Some a).
  { apply (rep_outside s m n a nd Hrep Hnd). by rewrite Hin. }
  assert (Hmp : m !! p = None).
  { apply eq_None_not_Some. rewrite Hdom. lia. }
  pose proof (rep_up_linked s m n p Hrep ltac:(lia)) as Hupp.
  assert (Hupa : up_linked (nodes s) m (above p)).
  { apply (rep_up_linked s m n _ Hrep). unfold above. destruct p; cbn; lia. }
  assert (Habove : m !! above p = at_up m p).
  { unfold above, at_up. destruct (up p) eqn:Hup; cbn; [done|].
    destruct p; simplify_eq/=. done. }
  unfold BinHeap.insert.
  erewrite run_get_in_heap; [|done|done].
  rewrite Hin, run_assert by done.
  rewrite run_get_size, (rep_size _ _ _ Hrep).
  replace (wrap64 (n + 1)) with (Z.pos p) by (unfold wrap64; rewrite Z.mod_small; lia).
  rewrite (run_bind_eq _ _ _ _ _ (find_index_pos s m n p Hrep ltac:(lia) ltac:(lia))).
  cbv beta iota.
  rewrite (run_bind_eq _ _ _ _ _ (read_slot_links s m p (rep_root _ _ _ Hrep) Hupp)).
  rewrite Hmp, run_assert by done.
  rewrite run_get_this. unfold set_in_heap, set_parent, set_left, set_right.
  rewrite run_modify by (exists a; by rewrite Hnd).
  erewrite run_bind_eq;
    [|apply (read_slot_links _ m (above p));
      [apply (rep_root _ _ _ Hrep)|by apply up_linked_alter]].
  rewrite Habove.
  rewrite run_modify by (exists a; split; [done|]; cbn [nodes];
                         by rewrite !lookup_alter_at_is_Some, Hnd).
  rewrite run_modify by (exists a; split; [done|]; cbn [nodes];
                         by rewrite !lookup_alter_at_is_Some, Hnd).
  rewrite run_modify by (exists a; split; [done|]; cbn [nodes];
                         by rewrite !lookup_alter_at_is_Some, Hnd).
  erewrite run_bind_eq; [|apply (write_slot_pos _ m p)].
  2:{ intros g Hg. destruct (Hupp g Hg) as (G & ndG & HG & HnG & _).
      exists G. split; [done|]. cbn [nodes]. by rewrite !lookup_alter_at_is_Some, HnG. }
  rewrite run_get_size, run_set_size. cbn [nodes this m_size m_root].
  eexists. split; [reflexivity|].
  set (fp := match p with
             | xO _ => with_left (Some a) | xI _ => with_right (Some a) | xH => id
             end : node -> node).
  match goal with |- rep (mkState ?N _ _ _) _ _ /\ _ => set (N1 := N) end.
  assert (Hlook : forall c, N1 !! c =
            if decide (c = a) then Some (linked_in (this s) (at_up m p) nd)
            else if decide (at_up m p = Some c) then fp <$> nodes s !! c
            else nodes s !! c).
  { intros c. unfold N1, fp. clear N1 fp.
    destruct p; cbn [relink_nodes at_up up mbind option_bind];
      rewrite !lookup_alter_at; repeat case_decide; simplify_eq; try done;
      rewrite ?Hnd; try done; exfalso; by eapply Hout. }
  clearbody N1. clear Hupa Habove.
  split; [constructor; cbn [nodes this m_size m_root]|].
  - rewrite (rep_size _ _ _ Hrep). unfold wrap64. rewrite Z.mod_small; lia.
  - intros k. rewrite lookup_insert. case_decide; subst.
    + split; [lia|by eexists].
    + rewrite Hdom. lia.
  - intros k1 k2 c. rewrite !lookup_insert. repeat case_decide; subst; intros; simplify_eq.
    + done.
    + exfalso. by eapply Hout.
    + exfalso. by eapply Hout.
    + by eapply Hinj.
  - rewrite lookup_insert.
    destruct p; cbn [relink_root]; rewrite ?decide_False, ?decide_True by done;
      try done; apply (rep_root _ _ _ Hrep).
  - intros k c. rewrite lookup_insert. case_decide as Hk; [subst k|]; intros Hc.
    + assert (c = a) as -> by congruence.
      exists (value nd). rewrite Hlook, decide_True by done. f_equal.
      unfold linked_in, resident_node, with_right, with_left, with_parent, with_in_heap.
      cbn [value in_heap parent left right]. f_equal.
      * unfold at_up. destruct (up p) as [g|] eqn:Hg; cbn; [|done].
        rewrite lookup_insert_ne; [done|]. destruct p; simplify_eq/=; lia.
      * rewrite lookup_insert_ne by lia. symmetry. apply eq_None_not_Some. rewrite Hdom. lia.
      * rewrite lookup_insert_ne by lia. symmetry. apply eq_None_not_Some. rewrite Hdom. lia.
    + destruct (rep_node _ _ _ Hrep _ _ Hc) as [v Hv]. exists v.
      assert (Z.pos k <= n) by (apply Hdom; by eexists).
      assert (Hupk : at_up (<[p:=a]> m) k = at_up m k).
      { unfold at_up. destruct (up k) as [g|] eqn:Hg; cbn; [|done].
        rewrite lookup_insert_ne; [done|]. destruct k; simplify_eq/=; lia. }
      rewrite Hlook, decide_False by (intros ->; by eapply Hout).
      rewrite Hv. unfold resident_node. rewrite Hupk, !lookup_insert.
      case_decide as Hpk.
      * assert (up p = Some k) as Hup.
        { unfold at_up in Hpk. destruct (up p) as [g|]; cbn in Hpk; [|done].
          f_equal. by eapply Hinj. }
        unfold fp. destruct p; simplify_eq/=.
        -- by rewrite decide_True.
        -- by rewrite decide_True.
      * rewrite !decide_False; [done| |].
        -- intros ->. apply Hpk. unfold at_up. cbn. done.
        -- intros ->. apply Hpk. unfold at_up. cbn. done.
  - intros c nd' Hc Hin'. rewrite Hlook in Hc. case_decide as Hca.
    + subst c. exists p. by rewrite lookup_insert_eq.
    + assert (exists nd0, nodes s !! c = Some nd0 /\ in_heap nd0 = Some (this s))
        as (nd0 & Hnd0 & Hin0).
      { case_decide; [|by eexists]. destruct (nodes s !! c) as [nd0|]; simplify_eq/=.
        exists nd0. split; [done|]. unfold fp in Hin'. by destruct p. }
      destruct (rep_resident _ _ _ Hrep c nd0 Hnd0 Hin0) as [k Hk].
      exists k. rewrite lookup_insert_ne; [done|]. intros ->. congruence.
  - split; [done|]. cbn [nodes]. intros c. rewrite Hlook. case_decide as Hca.
    + subst c. rewrite Hnd. constructor. by split.
    + case_decide; [|destruct (nodes s !! c); constructor; by split].
      destruct (nodes s !! c); constructor. unfold fp. by destruct p.
Qed.

Lemma range_insert (m : gmap positive positive) (p a c : positive) :
  m !! p = None ->
  (exists k, <[p := a]> m !! k = Some c) <-> c = a \/ exists k, m !! k = Some c.
Proof.
  intros Hp. split.
  - intros [k Hk]. rewrite lookup_insert in Hk. case_decide; simplify_eq; eauto.
  - intros [->|[k Hk]].
    + exists p. by rewrite lookup_insert_eq.
    + exists k. rewrite lookup_insert_ne; [done|]. congruence.
Qed.

Lemma insert_rep (s : state) (m : gmap positive positive) (n : Z) (a : positive) (nd : node) :
  rep s m n -> heap_ord s m -> 0 <= n -> n + 1 < 2 ^ 64 ->
  nodes s !! a = Some nd -> in_heap nd = None ->
  exists s' m', insert (Some a) s = Some (tt, s') /\
    rep s' m' (n + 1) /\ heap_ord s' m' /\ evolves a s s' /\
    (forall c, (exists k, m' !! k = Some c) <-> c = a \/ exists k, m !! k = Some c).
Proof.
  intros Hrep Hord Hn Hmax Hnd Hin.
  destruct (insert_links s m n a nd Hrep Hn Hmax Hnd Hin) as (s1 & Hrun & Hrep1 & Hev1).
  set (p := Z.to_pos (n + 1)) in *.
  assert (Hp : Z.pos p = n + 1) by (unfold p; lia).
  pose proof (rep_dom _ _ _ Hrep) as Hdom.
  assert (Hmp : m !! p = None) by (apply eq_None_not_Some; rewrite Hdom; lia).
  assert (Hbelow : forall c, up c = Some p -> <[p := a]> m !! c = None).
  { intros c Hc. pose proof (up_lt _ _ Hc).
    rewrite lookup_insert_ne by lia. apply eq_None_not_Some. rewrite Hdom. lia. }
  destruct (sift_up_rep is_less_than Hswo 64 s1 (<[p := a]> m) (n + 1) p a)
    as (s' & m' & Hrun' & Hrep' & Hord' & Hfr' & Hrg'); try done.
  - by rewrite lookup_insert_eq.
  - split.
    + intros c k Hc Hcp Hkp. unfold BinHeapSift.ple, pkey.
      rewrite !lookup_insert_ne by done.
      apply (evolves_ple a s s1 m k c Hev1). by apply Hord.
    + intros c g Hc _. apply ple_absent. by apply Hbelow.
  - intros c Hc. apply ple_absent. by apply Hbelow.
  - pose proof (size_nat_bound p 64 ltac:(lia)). lia.
  - exists s', m'. rewrite Hrun. split; [done|]. split; [done|]. split; [done|].
    split; [eapply evolves_trans; [done|by apply frame_evolves]|].
    intros c. rewrite <- (Hrg' c). by apply range_insert.
Qed.

(** *** [remove] *)

(** A node and the node at the last position exchanged. *)
Lemma swap_nodes_terminal (s : state) (m : gmap positive positive) (n : Z)
    (i p a b : positive) :
  rep s m n -> Z.pos p = n -> m !! i = Some a -> m !! p = Some b -> i <> p ->
  exists s1, swap_nodes (Some a) (Some b) s = Some (tt, s1) /\
    rep s1 (swapm i p a b m) n /\ frame s s1.
Proof.
  intros Hrep Hp Ha Hb Hne.
  pose proof (rep_inj _ _ _ Hrep) as Hinj.
  pose proof (rep_dom _ _ _ Hrep) as Hdom.
  assert (Z.pos i <= n) by (apply Hdom; by eexists).
  assert (Hlp : m !! xO p = None) by (apply eq_None_not_Some; rewrite Hdom; lia).
  assert (Hrp : m !! xI p = None) by (apply eq_None_not_Some; rewrite Hdom; lia).
  destruct (decide (up p = Some i)) as [Hchild|Hchild].
  { by apply swap_nodes_parent_child. }
  destruct (rep_node _ _ _ Hrep _ _ Ha) as [va Hna].
  destruct (rep_node _ _ _ Hrep _ _ Hb) as [vb Hnb].
  unfold BinHeap.swap_nodes.
  erewrite run_get_parent; [|done|done]. erewrite run_get_parent; [|done|done].
  cbn [parent resident_node].
  destruct (decide (up i = up p)) as [Hsib|Hsib].
  - unfold at_up. rewrite Hsib, bool_decide_eq_true_2 by done.
    destruct (up p) as [g|] eqn:Hg; [|destruct i, p; simplify_eq/=].
    apply (swap_same_parent_rep s m n i p g a b); try done.
    apply eq_None_not_Some. rewrite Hdom. destruct i, p; simplify_eq/=; lia.
  - rewrite bool_decide_eq_false_2.
    2:{ unfold at_up. intros Heq. apply Hsib.
        destruct (up i) as [gi|] eqn:Hgi, (up p) as [gp|] eqn:Hgp; cbn in Heq; try done.
        - assert (is_Some (m !! gi)) as [Gi HGi]
            by (apply Hdom; pose proof (up_lt _ _ Hgi); lia).
          f_equal. apply (Hinj gi gp Gi); congruence.
        - assert (is_Some (m !! gi)) as [Gi HGi]
            by (apply Hdom; pose proof (up_lt _ _ Hgi); lia). congruence.
        - assert (is_Some (m !! gp)) as [Gp HGp]
            by (apply Hdom; pose proof (up_lt _ _ Hgp); lia). congruence. }
    erewrite run_get_left; [|done|done]. cbn [left resident_node].
    rewrite bool_decide_eq_false_2.
    2:{ apply (pos_addr_eq m _ _ b Hinj Hb). intros <-. by apply Hchild. }
    erewrite run_get_right; [|done|done]. cbn [right resident_node].
    rewrite bool_decide_eq_false_2.
    2:{ apply (pos_addr_eq m _ _ b Hinj Hb). intros <-. by apply Hchild. }
    erewrite run_get_left; [|done|done]. cbn [left resident_node].
    rewrite Hlp, bool_decide_eq_false_2 by done.
    erewrite run_get_right; [|done|done]. cbn [right resident_node].
    rewrite Hrp, bool_decide_eq_false_2 by done.
    by apply swap_distant_rep.
Qed.

(** The middle of [remove]: the node at the last position is taken
    out of the tree. *)
Lemma remove_unlinks {B : Type} (K : M T B) (s : state) (m : gmap positive positive)
    (n : Z) (p a : positive) :
  rep s m n -> Z.pos p = n -> n < 2 ^ 64 -> m !! p = Some a ->
  exists s2,
    bind (get_left (Some a)) (fun l =>
    bind (assert (bool_decide (l = None))) (fun _ =>
    bind (get_right (Some a)) (fun r =>
    bind (assert (bool_decide (r = None))) (fun _ =>
    bind (get_parent (Some a)) (fun p =>
    bind (change_child p (Some a) None) (fun _ =>
    bind (set_in_heap (Some a) None) (fun _ =>
    bind get_size (fun n =>
    bind (set_size (wrap64 (n - 1))) (fun _ => K))))))))) s = K s2 /\
    rep s2 (delete p m) (n - 1) /\ evolves a s s2 /\
    (exists nd, nodes s2 !! a = Some nd /\ in_heap nd = None).
Proof.
  intros Hrep Hp Hmax Ha.
  pose proof (rep_inj _ _ _ Hrep) as Hinj.
  pose proof (rep_dom _ _ _ Hrep) as Hdom.
  destruct (rep_node _ _ _ Hrep _ _ Ha) as [va Hna].
  assert (Hlp : m !! xO p = None) by (apply eq_None_not_Some; rewrite Hdom; lia).
  assert (Hrp : m !! xI p = None) by (apply eq_None_not_Some; rewrite Hdom; lia).
  erewrite run_get_left; [|done|done]. cbn [left resident_node].
  rewrite Hlp, run_assert by done.
  erewrite run_get_right; [|done|done]. cbn [right resident_node].
  rewrite Hrp, run_assert by done.
  erewrite run_get_parent; [|done|done]. cbn [parent resident_node].
  rewrite (run_change_child m p a); [|done|done| |].
  2:{ intros ->. by rewrite (rep_root _ _ _ Hrep). }
  2:{ by apply (rep_up_node s m n p a). }
  unfold set_in_heap. rewrite run_modify.
  2:{ exists a. split; [done|]. cbn [nodes].
      destruct p; cbn [relink_nodes]; rewrite ?lookup_alter_at_is_Some, Hna; done. }
  rewrite run_get_size, run_set_size. cbn [nodes this m_size m_root].
  eexists. split; [reflexivity|].
  set (fp := match p with
             | xO _ => with_left None | xI _ => with_right None | xH => id
             end : node -> node).
  match goal with |- rep (mkState ?N _ _ _) _ _ /\ _ => set (N2 := N) end.
  assert (Hlook : forall c, N2 !! c =
            if decide (c = a) then Some (with_in_heap None (resident_node m (this s) p va))
            else if decide (at_up m p = Some c) then fp <$> nodes s !! c
            else nodes s !! c).
  { intros c. unfold N2, fp. clear N2 fp.
    destruct p; cbn [relink_nodes at_up up mbind option_bind];
      rewrite !lookup_alter_at; repeat case_decide; simplify_eq; try done;
      rewrite ?Hna; try done; exfalso;
      match goal with H : m !! ?g = Some a |- _ =>
        pose proof (Hinj _ _ _ H Ha); lia end. }
  clearbody N2.
  split; [constructor; cbn [nodes this m_size m_root]|split].
  - rewrite (rep_size _ _ _ Hrep). unfold wrap64. rewrite Z.mod_small; lia.
  - intros k. rewrite lookup_delete. case_decide; subst.
    + split; [by intros [? ?]|lia].
    + rewrite Hdom. lia.
  - intros k1 k2 c. rewrite !lookup_delete. repeat case_decide; subst; intros; simplify_eq.
    by eapply Hinj.
  - rewrite lookup_delete.
    destruct p; cbn [relink_root]; rewrite ?decide_False, ?decide_True by done;
      try done; apply (rep_root _ _ _ Hrep).
  - intros k c. rewrite lookup_delete. case_decide as Hk; [done|]. intros Hc.
    destruct (rep_node _ _ _ Hrep _ _ Hc) as [v Hv]. exists v.
    assert (Z.pos k <= n) by (apply Hdom; by eexists).
    assert (Hupk : at_up (delete p m) k = at_up m k).
    { unfold at_up. destruct (up k) as [g|] eqn:Hg; cbn; [|done].
      rewrite lookup_delete_ne; [done|]. pose proof (up_lt _ _ Hg). lia. }
    rewrite Hlook, decide_False by (intros ->; apply Hk; by eapply Hinj).
    rewrite Hv. unfold resident_node. rewrite Hupk, !lookup_delete.
    case_decide as Hpk.
    + assert (up p = Some k) as Hup.
      { unfold at_up in Hpk. destruct (up p) as [g|]; cbn in Hpk; [|done].
        f_equal. by eapply Hinj. }
      unfold fp. destruct p; simplify_eq/=.
      * by rewrite decide_True.
      * by rewrite decide_True.
    + rewrite !decide_False; [done| |].
      * intros ->. apply Hpk. unfold at_up. cbn. done.
      * intros ->. apply Hpk. unfold at_up. cbn. done.
  - intros c nd' Hc Hin'. rewrite Hlook in Hc. case_decide as Hca.
    + by simplify_eq.
    + assert (exists nd0, nodes s !! c = Some nd0 /\ in_heap nd0 = Some (this s))
        as (nd0 & Hnd0 & Hin0).
      { case_decide; [|by eexists]. destruct (nodes s !! c) as [nd0|]; simplify_eq/=.
        exists nd0. split; [done|]. unfold fp in Hin'. by destruct p. }
      destruct (rep_resident _ _ _ Hrep c nd0 Hnd0 Hin0) as [k Hk].
      exists k. rewrite lookup_delete_ne; [done|]. intros ->. congruence.
  - split; [done|]. cbn [nodes]. intros c. rewrite Hlook. case_decide as Hca.
    + subst c. rewrite Hna. constructor. by split.
    + case_decide; [|destruct (nodes s !! c); constructor; by split].
      destruct (nodes s !! c); constructor. unfold fp. by destruct p.
  - cbn [nodes]. eexists. rewrite Hlook, decide_True by done. done.
Qed.

Lemma range_delete (m : gmap positive positive) (p a c : positive) :
  (forall k1 k2 a, m !! k1 = Some a -> m !! k2 = Some a -> k1 = k2) ->
  m !! p = Some a ->
  (exists k, delete p m !! k = Some c) <-> c <> a /\ exists k, m !! k = Some c.
Proof.
  intros Hinj Hp. split.
  - intros [k Hk]. rewrite lookup_delete in Hk. case_decide as Hpk; [done|].
    split; [|by eexists]. intros ->. apply Hpk. by eapply Hinj.
  - intros [Hne [k Hk]]. exists k. rewrite lookup_delete_ne; [done|]. congruence.
Qed.

Lemma frame_in_heap (s s' : state) (a : positive) (nd : node) :
  frame s s' -> nodes s !! a = Some nd ->
  exists nd', nodes s' !! a = Some nd' /\ in_heap nd' = in_heap nd.
Proof.
  intros [_ Hrel] Hnd. specialize (Hrel a). rewrite Hnd in Hrel.
  inversion Hrel as [x y (Hv & Hh & _) E1 E2|]; subst. by eexists.
Qed.

Lemma heap_ord_delete (s s' : state) (m : gmap positive positive) (p a : positive) :
  evolves a s s' -> heap_ord s m -> heap_ord s' (delete p m).
Proof.
  intros Hev Hord c k Hc x y. unfold pkey. rewrite !lookup_delete.
  repeat case_decide; cbn; try done.
  intros Hx Hy. apply (Hord c k Hc); unfold pkey.
  - destruct (m !! k); cbn in *; [|done]. by rewrite <- (evolves_keyof a _ s s').
  - destruct (m !! c); cbn in *; [|done]. by rewrite <- (evolves_keyof a _ s s').
Qed.

Lemma remove_rep (s : state) (m : gmap positive positive) (n : Z) (i a : positive) :
  rep s m n -> heap_ord s m -> m !! i = Some a -> n < 2 ^ 64 ->
  exists s' m', remove (Some a) s = Some (tt, s') /\
    rep s' m' (n - 1) /\ heap_ord s' m' /\ evolves a s s' /\
    (exists nd, nodes s' !! a = Some nd /\ in_heap nd = None) /\
    (forall c, (exists k, m' !! k = Some c) <-> c <> a /\ exists k, m !! k = Some c).
Proof.
  intros Hrep Hord Ha Hmax.
  pose proof (rep_inj _ _ _ Hrep) as Hinj.
  pose proof (rep_dom _ _ _ Hrep) as Hdom.
  assert (Hin : Z.pos i <= n) by (apply Hdom; by eexists).
  set (p := Z.to_pos n).
  assert (Hp : Z.pos p = n) by (unfold p; lia).
  assert (is_Some (m !! p)) as [b Hb] by (apply Hdom; lia).
  assert (is_Some (m !! above p)) as [pa Hpa].
  { apply Hdom. unfold above. destruct p; cbn; lia. }
  destruct (rep_node _ _ _ Hrep _ _ Ha) as [va Hna].
  unfold BinHeap.remove.
  erewrite run_get_in_heap; [|done|done]. cbn [in_heap resident_node].
  rewrite run_get_this, run_assert by (by apply bool_decide_eq_true_2).
  rewrite run_get_size, (rep_size _ _ _ Hrep).
  rewrite run_assert by (apply Z.ltb_lt; lia).
  replace (find_index n) with (find_index (T:=T) (Z.pos p)) by (by rewrite Hp).
  rewrite (run_bind_eq _ _ _ _ _ (find_index_pos s m n p Hrep ltac:(lia) ltac:(lia))).
  cbv beta iota.
  rewrite (run_bind_eq _ _ _ _ _ (read_slot_pos s m n (above p) Hrep
    (rep_up_linked_Some s m n (above p) pa Hrep Hpa))).
  rewrite (run_bind_eq _ _ _ _ _ (read_slot_pos s m n p Hrep
    (rep_up_linked_Some s m n p b Hrep Hb))).
  rewrite Hpa, Hb.
  rewrite run_assert by (by rewrite !bool_decide_eq_true_2).
  destruct (decide (b = a)) as [->|Hba].
  - assert (i = p) as -> by (by eapply Hinj).
    rewrite !bool_decide_eq_false_2 by (by intros []). rewrite run_ret.
    destruct (remove_unlinks (ret tt) s m n p a Hrep Hp Hmax Ha)
      as (s2 & Hrun2 & Hrep2 & Hev2 & Hnd2).
    rewrite Hrun2. exists s2, (delete p m).
    split; [done|]. split; [done|]. split; [by eapply heap_ord_delete|].
    split; [done|]. split; [done|]. intros c. by apply range_delete.
  - assert (i <> p) as Hip by (intros ->; congruence).
    rewrite !bool_decide_eq_true_2 by congruence.
    destruct (swap_nodes_terminal s m n i p a b Hrep Hp Ha Hb Hip)
      as (s1 & Hrun1 & Hrep1 & Hfr1).
    rewrite (run_bind_eq _ _ _ _ _ Hrun1).
    assert (Ha1 : swapm i p a b m !! p = Some a).
    { rewrite swapm_lookup, decide_False, decide_True by done. done. }
    destruct (remove_unlinks (bind (sift_down MAX_DEPTH (Some b))
                (fun _ => sift_up MAX_DEPTH (Some b)))
                s1 (swapm i p a b m) n p a Hrep1 Hp Hmax Ha1)
      as (s2 & Hrun2 & Hrep2 & Hev2 & Hnd2).
    rewrite Hrun2.
    set (m2 := delete p (swapm i p a b m)) in *.
    assert (Hb2 : m2 !! i = Some b).
    { unfold m2. rewrite lookup_delete_ne by done.
      rewrite swapm_lookup, decide_True by done. done. }
    assert (Hev02 : evolves a s s2).
    { eapply evolves_trans; [by apply frame_evolves|done]. }
    assert (Hkey : forall k, k <> i -> k <> p -> pkey s2 m2 k = pkey s m k).
    { intros k Hki Hkp. unfold pkey, m2. rewrite lookup_delete_ne by done.
      rewrite swapm_lookup, !decide_False by done.
      destruct (m !! k); cbn; [|done]. by apply (evolves_keyof a). }
    assert (Hgone : forall k, (p <= k)%positive -> pkey s2 m2 k = None).
    { intros k Hk. unfold pkey, m2. rewrite lookup_delete. case_decide; [done|].
      rewrite swapm_lookup, !decide_False by lia.
      replace (m !! k) with (@None positive); [done|].
      symmetry. apply eq_None_not_Some. rewrite Hdom. lia. }
    assert (Hple : forall k c, k <> i -> c <> i -> ple s m k c -> ple s2 m2 k c).
    { intros k c Hk Hc H x y Hx Hy.
      destruct (decide (p <= k)%positive); [by rewrite Hgone in Hx|].
      destruct (decide (p <= c)%positive); [by rewrite Hgone in Hy|].
      rewrite Hkey in Hx, Hy by lia. by apply H. }
    assert (Hex2 : ord_except s2 m2 i).
    { split.
      - intros c k Hc Hci Hki. apply Hple; [done|done|]. by apply Hord.
      - intros c g Hc Hg. pose proof (up_lt _ _ Hc). pose proof (up_lt _ _ Hg).
        apply Hple; [lia|lia|].
        apply (ple_trans is_less_than Hswo s m n g i c Hrep); [by eexists| |];
          by apply Hord. }
    destruct (sift_down_rep is_less_than Hswo 64 s2 m2 (n - 1) i b Hrep2 Hb2 Hex2)
      as (s3 & m3 & h' & Hrun3 & Hrep3 & Hb3 & Hex3 & Hch3 & Hfr3 & Hrg3).
    { change (2 ^ Z.of_nat 64) with (2 ^ 64). lia. }
    rewrite (run_bind_eq _ _ _ _ _ Hrun3).
    destruct (sift_up_rep is_less_than Hswo 64 s3 m3 (n - 1) h' b Hrep3 Hb3 Hex3 Hch3)
      as (s4 & m4 & Hrun4 & Hrep4 & Hord4 & Hfr4 & Hrg4).
    { assert (Z.pos h' <= n - 1) by (apply (rep_dom _ _ _ Hrep3); by eexists).
      pose proof (size_nat_bound h' 64 ltac:(lia)). lia. }
    exists s4, m4. split; [done|]. split; [done|]. split; [done|].
    split; [|split].
    + eapply evolves_trans; [done|]. apply frame_evolves. by eapply frame_trans.
    + destruct Hnd2 as (nd2 & Hnd2 & Hin2).
      destruct (frame_in_heap s2 s4 a nd2) as (nd4 & Hnd4 & Hin4); [by eapply frame_trans|done|].
      exists nd4. split; [done|congruence].
    + intros c. rewrite <- (Hrg4 c), <- (Hrg3 c). unfold m2.
      rewrite (range_delete (swapm i p a b m) p a c); [|by apply swapm_inj|done].
      by rewrite <- (swapm_range i p a b m c).
Qed.

End Ops.
End BinHeapOps.

(** ** The validation predicate *)

Module BinHeapValid.
Import BinHeap BinHeapRep BinHeapSwap BinHeapSift BinHeapFind BinHeapOps.

(** *** Counting the positions of a complete tree *)

Section Shape.

Variable n : Z.
Hypothesis Hn : 0 <= n.

(** The number of positions up to [n] below position [k], [k]
    included, on [fuel] levels; and the number of such levels. *)
Fixpoint cnt (fuel : nat) (k : positive) : Z :=
  match fuel with
  | O => 0
  | S fuel' =>
      if Z.pos k <=? n then 1 + cnt fuel' (xO k) + cnt fuel' (xI k) else 0
  end.

Fixpoint dep (fuel : nat) (k : positive) : Z :=
  match fuel with
  | O => 0
  | S fuel' =>
      if Z.pos k <=? n then 1 + Z.max (dep fuel' (xO k)) (dep fuel' (xI k)) else 0
  end.

(** The positions up to [n] on level [j] below [k]. *)
Definition lvl (k : positive) (j : Z) : Z :=
  Z.max 0 (Z.min (2 ^ j) (n + 1 - Z.pos k * 2 ^ j)).

Fixpoint sum_lvl (fuel : nat) (k : positive) : Z :=
  match fuel with
  | O => 0
  | S fuel' => sum_lvl fuel' k + lvl k (Z.of_nat fuel')
  end.

Lemma lvl_split (k : positive) (j : Z) :
  0 <= j -> lvl k (j + 1) = lvl (xO k) j + lvl (xI k) j.
Proof.
  intros Hj. unfold lvl. rewrite Z.pow_add_r by lia. change (2 ^ 1) with 2.
  assert (0 < 2 ^ j) by (apply Z.pow_pos_nonneg; lia).
  rewrite Pos2Z.inj_xO, Pos2Z.inj_xI.
  generalize dependent (2 ^ j). intros P HP. nia.
Qed.

Lemma sum_lvl_step (fuel : nat) (k : positive) :
  sum_lvl (S fuel) k = lvl k 0 + sum_lvl fuel (xO k) + sum_lvl fuel (xI k).
Proof.
  induction fuel as [|fuel IH]; [cbn [sum_lvl]; change (Z.of_nat 0) with 0; lia|].
  change (sum_lvl (S (S fuel)) k) with (sum_lvl (S fuel) k + lvl k (Z.of_nat (S fuel))).
  rewrite IH. cbn [sum_lvl]. rewrite Nat2Z.inj_succ, <- Z.add_1_r, lvl_split by lia. lia.
Qed.

Lemma lvl_0 (k : positive) : lvl k 0 = if Z.pos k <=? n then 1 else 0.
Proof. unfold lvl. change (2 ^ 0) with 1. destruct (Z.leb_spec (Z.pos k) n); lia. Qed.

Lemma lvl_beyond (k : positive) (j : Z) : 0 <= j -> n < Z.pos k -> lvl k j = 0.
Proof.
  intros Hj Hk. unfold lvl. assert (0 < 2 ^ j) by (apply Z.pow_pos_nonneg; lia). nia.
Qed.

Lemma sum_lvl_beyond (fuel : nat) (k : positive) : n < Z.pos k -> sum_lvl fuel k = 0.
Proof.
  intros Hk. induction fuel as [|fuel IH]; [done|].
  cbn [sum_lvl]. rewrite IH, lvl_beyond by lia. done.
Qed.

Lemma cnt_sum_lvl (fuel : nat) (k : positive) : cnt fuel k = sum_lvl fuel k.
Proof.
  revert k. induction fuel as [|fuel IH]; intros k; [done|].
  rewrite sum_lvl_step, lvl_0. cbn [cnt].
  destruct (Z.leb_spec (Z.pos k) n).
  - rewrite !IH. lia.
  - rewrite !sum_lvl_beyond by lia. lia.
Qed.

Lemma cnt_root (fuel : nat) : cnt fuel 1 = Z.min n (2 ^ Z.of_nat fuel - 1).
Proof.
  rewrite cnt_sum_lvl. induction fuel as [|fuel IH]; [cbn; lia|].
  cbn [sum_lvl]. rewrite IH, Nat2Z.inj_succ, Z.pow_succ_r by lia.
  unfold lvl. assert (0 < 2 ^ Z.of_nat fuel) by (apply Z.pow_pos_nonneg; lia). lia.
Qed.

Lemma cnt_mono (fuel : nat) (k k' : positive) :
  (k <= k')%positive -> cnt fuel k' <= cnt fuel k.
Proof.
  revert k k'. induction fuel as [|fuel IH]; intros k k' Hk; [done|].
  cbn [cnt]. pose proof (IH (xO k) (xO k') ltac:(lia)).
  pose proof (IH (xI k) (xI k') ltac:(lia)).
  assert (0 <= cnt fuel (xO k) /\ 0 <= cnt fuel (xI k)) as [? ?].
  { rewrite !cnt_sum_lvl. clear. split.
    - induction fuel; cbn [sum_lvl]; unfold lvl in *; lia.
    - induction fuel; cbn [sum_lvl]; unfold lvl in *; lia. }
  destruct (Z.leb_spec (Z.pos k') n), (Z.leb_spec (Z.pos k) n); lia.
Qed.

Lemma cnt_bounds (fuel : nat) (k : positive) : 0 <= cnt fuel k <= n.
Proof.
  split.
  - rewrite cnt_sum_lvl. induction fuel; cbn [sum_lvl]; unfold lvl in *; lia.
  - pose proof (cnt_mono fuel 1 k ltac:(lia)). rewrite cnt_root in *. lia.
Qed.

Lemma dep_mono (fuel : nat) (k k' : positive) :
  (k <= k')%positive -> dep fuel k' <= dep fuel k.
Proof.
  revert k k'. induction fuel as [|fuel IH]; intros k k' Hk; [done|].
  cbn [dep]. pose proof (IH (xO k) (xO k') ltac:(lia)).
  pose proof (IH (xI k) (xI k') ltac:(lia)).
  assert (Hnn : forall f q, 0 <= dep f q).
  { clear. intros f. induction f as [|f IHf]; intros q; cbn [dep]; [done|].
    pose proof (IHf (xO q)). destruct (Z.pos q <=? n); lia. }
  pose proof (Hnn fuel (xO k)).
  destruct (Z.leb_spec (Z.pos k') n), (Z.leb_spec (Z.pos k) n); lia.
Qed.

Lemma dep_spec (fuel : nat) (k : positive) :
  0 <= dep fuel k <= Z.of_nat fuel /\
  (0 < dep fuel k -> Z.pos k * 2 ^ (dep fuel k - 1) <= n) /\
  (dep fuel k < Z.of_nat fuel -> n < Z.pos k * 2 ^ dep fuel k).
Proof.
  revert k. induction fuel as [|fuel IH]; intros k; [cbn [dep]; lia|].
  cbn [dep]. pose proof (dep_mono fuel (xO k) (xI k) ltac:(lia)).
  destruct (IH (xO k)) as (Hb & Hlo & Hhi).
  destruct (Z.leb_spec (Z.pos k) n); [|change (2 ^ 0) with 1; lia].
  rewrite Z.max_l by lia. split; [lia|]. split.
  - intros _. replace (1 + dep fuel (xO k) - 1) with (dep fuel (xO k)) by lia.
    destruct (decide (dep fuel (xO k) = 0)) as [->|]; [change (2 ^ 0) with 1; lia|].
    specialize (Hlo ltac:(lia)).
    replace (dep fuel (xO k)) with (Z.succ (dep fuel (xO k) - 1)) at 1 by lia.
    rewrite Z.pow_succ_r by lia. rewrite Pos2Z.inj_xO in Hlo. lia.
  - intros Hlt. specialize (Hhi ltac:(lia)).
    replace (1 + dep fuel (xO k)) with (Z.succ (dep fuel (xO k))) by lia.
    rewrite Z.pow_succ_r by lia. rewrite Pos2Z.inj_xO in Hhi. lia.
Qed.

End Shape.

(** *** [validate] accepts a tree in heap order *)

Section Valid.

Context {T : Type}.
Variable is_less_than : T -> T -> bool.

Local Abbreviation state := (state T).
Local Abbreviation node := (BinHeapNode T).
Local Abbreviation _validate := (_validate is_less_than).
Local Abbreviation validate := (validate is_less_than).
Local Abbreviation heap_ord := (heap_ord is_less_than).

(** The checks [_validate] makes on a child pointer. *)
Lemma run_child_check {B : Type} (K : unit -> M T B) (s : state) (m : gmap positive positive)
    (n : Z) (k q c : positive) (v : T) :
  rep s m n -> heap_ord s m -> m !! k = Some c -> up q = Some k ->
  nodes s !! c = Some (resident_node m (this s) k v) ->
  bind (when_not_null (m !! q)
          (bind (get_value (m !! q)) (fun lv =>
           bind (assert (negb (is_less_than lv v))) (fun _ =>
           bind (get_parent (m !! q)) (fun lp =>
           assert (bool_decide (lp = Some c))))))) K s
  = K tt s.
Proof.
  intros Hrep Hord Hk Hq Hc.
  destruct (m !! q) as [L|] eqn:HL; cbn [when_not_null]; [|done].
  destruct (rep_node _ _ _ Hrep _ _ HL) as [vl HnL].
  rewrite run_bind_assoc. erewrite run_get_value; [|done|done]. cbn [value resident_node].
  rewrite run_bind_assoc, run_assert.
  2:{ apply negb_true_iff. apply (Hord q k Hq); unfold pkey, keyof.
      - by rewrite Hk; cbn; rewrite Hc.
      - by rewrite HL; cbn; rewrite HnL. }
  rewrite run_bind_assoc. erewrite run_get_parent; [|done|done]. cbn [parent resident_node].
  rewrite (at_up_child m q k Hq), Hk.
  by rewrite run_assert by (by apply bool_decide_eq_true_2).
Qed.

Lemma _validate_pos (s : state) (m : gmap positive positive) (n : Z) :
  rep s m n -> heap_ord s m -> 0 <= n < 2 ^ 64 ->
  forall (fuel : nat) (k : positive),
  n < Z.pos k * 2 ^ Z.of_nat fuel ->
  _validate fuel (m !! k) s = Some ((cnt n fuel k, dep n fuel k), s).
Proof.
  intros Hrep Hord Hn fuel. pose proof (rep_dom _ _ _ Hrep) as Hdom.
  induction fuel as [|fuel IH]; intros k Hfuel.
  - change (2 ^ Z.of_nat 0) with 1 in Hfuel.
    replace (m !! k) with (@None positive); [done|].
    symmetry. apply eq_None_not_Some. rewrite Hdom. lia.
  - rewrite Nat2Z.inj_succ, Z.pow_succ_r in Hfuel by lia.
    cbn [cnt dep]. destruct (Z.leb_spec (Z.pos k) n) as [Hk|Hk].
    2:{ replace (m !! k) with (@None positive); [done|].
        symmetry. apply eq_None_not_Some. rewrite Hdom. lia. }
    assert (is_Some (m !! k)) as [c Hc] by (by apply Hdom).
    destruct (rep_node _ _ _ Hrep _ _ Hc) as [v Hv].
    rewrite Hc. cbn [BinHeap._validate]. rewrite run_get_this.
    erewrite run_get_in_heap; [|done|done]. cbn [in_heap resident_node].
    rewrite run_assert by (by apply bool_decide_eq_true_2).
    erewrite run_get_value; [|done|done]. cbn [value resident_node].
    erewrite run_get_left; [|done|done]. cbn [left resident_node].
    rewrite (run_child_check _ s m n k (xO k) c v) by done.
    erewrite run_get_right; [|done|done]. cbn [right resident_node].
    rewrite (run_child_check _ s m n k (xI k) c v) by done.
    rewrite (run_bind_eq _ _ _ _ _ (IH (xO k) ltac:(lia))). cbv beta iota.
    rewrite (run_bind_eq _ _ _ _ _ (IH (xI k) ltac:(lia))). cbv beta iota.
    pose proof (cnt_mono n ltac:(lia) fuel (xO k) (xI k) ltac:(lia)).
    rewrite run_assert by (apply Z.leb_le; lia).
    pose proof (cnt_bounds n ltac:(lia) (S fuel) k) as Hcb. cbn [cnt] in Hcb.
    destruct (dep_spec n (S fuel) k) as (Hdb & Hlo & _). cbn [dep] in Hdb, Hlo.
    destruct (Z.leb_spec (Z.pos k) n); [|lia].
    unfold ret, wrap64. rewrite !Z.mod_small; [done| |lia].
    destruct (dep_spec n fuel (xO k)) as ((Hd0 & _) & _).
    set (d := 1 + Z.max (dep n fuel (xO k)) (dep n fuel (xI k))) in *.
    specialize (Hlo ltac:(lia)).
    assert (d - 1 < 64); [|lia].
    apply (Z.pow_lt_mono_r_iff 2); [lia|lia|].
    assert (0 < 2 ^ (d - 1)) by (apply Z.pow_pos_nonneg; lia). nia.
Qed.

(** A tree in heap order with fewer than [2 ^ 63] nodes passes
    [validate], which changes nothing. *)
Lemma validate_rep (s : state) (m : gmap positive positive) (n : Z) :
  rep s m n -> heap_ord s m -> 0 <= n < 2 ^ 63 ->
  validate s = Some (tt, s).
Proof.
  intros Hrep Hord Hn. unfold BinHeap.validate.
  rewrite run_get_root, (rep_root _ _ _ Hrep).
  assert (Hfuel : n < 1 * 2 ^ Z.of_nat (S MAX_DEPTH)).
  { change (2 ^ Z.of_nat (S MAX_DEPTH)) with (2 ^ 65). lia. }
  rewrite (run_bind_eq _ _ _ _ _
             (_validate_pos s m n Hrep Hord ltac:(lia) (S MAX_DEPTH) 1 Hfuel)).
  cbv beta iota.
  rewrite run_get_size, (rep_size _ _ _ Hrep).
  rewrite (cnt_root n ltac:(lia)).
  change (2 ^ Z.of_nat (S MAX_DEPTH)) with (2 ^ 65).
  rewrite run_assert by (apply Z.eqb_eq; lia).
  destruct (dep_spec n (S MAX_DEPTH) 1) as ((Hd0 & Hd1) & Hlo & Hhi).
  set (d := dep n (S MAX_DEPTH) 1) in *. clearbody d.
  change (Z.of_nat (S MAX_DEPTH)) with 65 in *.
  assert (Hd : d < 64).
  { destruct (decide (d = 0)) as [->|]; [lia|]. specialize (Hlo ltac:(lia)).
    assert (d - 1 < 63); [|lia].
    apply (Z.pow_lt_mono_r_iff 2); [lia|lia|]. lia. }
  rewrite run_assert by (apply Z.ltb_lt; lia).
  specialize (Hhi ltac:(lia)).
  rewrite Z.shiftl_1_l.
  assert (0 < 2 ^ d < 2 ^ 64) as Hpow.
  { split; [apply Z.pow_pos_nonneg; lia|]. apply Z.pow_lt_mono_r; lia. }
  unfold wrap64. rewrite (Z.mod_small (2 ^ d)) by lia.
  rewrite (Z.mod_small (2 ^ d - 1)) by lia.
  unfold assert. rewrite andb_true_intro; [done|]. split; apply Z.leb_le; [|lia].
  destruct (decide (d = 0)) as [->|];
    [change (2 ^ 0) with 1; apply Z.div_le_upper_bound; lia|].
  specialize (Hlo ltac:(lia)).
  replace d with (Z.succ (d - 1)) by lia. rewrite Z.pow_succ_r by lia.
  assert (0 < 2 ^ (d - 1)) by (apply Z.pow_pos_nonneg; lia).
  apply Z.div_le_upper_bound; lia.
Qed.

End Valid.

End BinHeapValid.

(** ** A heap stays valid under [insert] and [remove] *)

Module BinHeapFacts.
Import BinHeap BinHeapRep BinHeapSwap BinHeapSift BinHeapFind BinHeapOps BinHeapValid.

(** An operation on the heap, on the node at an address. *)
Inductive op : Type :=
| Insert (a : positive)
| Remove (a : positive).

(** Whether each [Insert] is on a node of the memory outside the heap
    and each [Remove] on a node inside it, [R] being the addresses
    inside it at the start. *)
Fixpoint admissible (D R : gset positive) (ops : list op) : bool :=
  match ops with
  | [] => true
  | Insert a :: ops' =>
      bool_decide (a ∈ D) && bool_decide (a ∉ R) && admissible D (R ∪ {[a]}) ops'
  | Remove a :: ops' =>
      bool_decide (a ∈ R) && admissible D (R ∖ {[a]}) ops'
  end.

Section Facts.

Context {T : Type}.
Variable is_less_than : T -> T -> bool.

Local Abbreviation state := (state T).
Local Abbreviation node := (BinHeapNode T).
Local Abbreviation insert := (insert is_less_than).
Local Abbreviation remove := (remove is_less_than).
Local Abbreviation validate := (validate is_less_than).
Local Abbreviation heap_ord := (heap_ord is_less_than).

Definition exec (o : op) : M T unit :=
  match o with
  | Insert a => insert (Some a)
  | Remove a => remove (Some a)
  end.

Fixpoint run (ops : list op) : M T unit :=
  match ops with
  | [] => ret tt
  | o :: ops' => bind (exec o) (fun _ => run ops')
  end.

(** No node of the memory is in a heap. *)
Definition fresh (mem : gmap positive node) : bool :=
  bool_decide (map_Forall (fun _ nd => in_heap nd = None) mem).

(** The heap holds the nodes at the addresses [R], in heap order. *)
Definition inv (D R : gset positive) (s : state) : Prop :=
  exists m n, rep s m n /\ heap_ord s m /\ n = Z.of_nat (base.size R) /\
    (forall c, c ∈ R <-> exists k, m !! k = Some c) /\
    R ⊆ D /\
    (forall c, c ∈ D -> exists nd, nodes s !! c = Some nd /\ (c ∉ R -> in_heap nd = None)).

Hypothesis Hswo : strict_weak_order is_less_than.

Lemma inv_new_heap (h : positive) (mem : gmap positive node) :
  fresh mem = true -> inv (dom mem) ∅ (new_heap h mem).
Proof.
  intros Hfresh. apply bool_decide_eq_true in Hfresh.
  exists ∅, 0. split; [|split; [|split; [|split; [|split]]]].
  - constructor; cbn [new_heap nodes this m_size m_root].
    + done.
    + intros k. rewrite lookup_empty. split; [by intros [? ?]|lia].
    + intros k1 k2 a. by rewrite lookup_empty.
    + by rewrite lookup_empty.
    + intros k a. by rewrite lookup_empty.
    + intros a nd Hnd Hin. by rewrite (Hfresh a nd Hnd) in Hin.
  - intros c k _ x y. unfold pkey. by rewrite lookup_empty.
  - by rewrite size_empty.
  - intros c. split; [by intros ?%not_elem_of_empty|].
    intros [k Hk]. by rewrite lookup_empty in Hk.
  - apply empty_subseteq.
  - intros c Hc. apply elem_of_dom in Hc as [nd Hnd]. exists nd.
    split; [done|]. intros _. by apply (Hfresh c nd).
Qed.

Lemma evolves_lookup (a c : positive) (s s' : state) (nd : node) :
  evolves a s s' -> nodes s !! c = Some nd ->
  exists nd', nodes s' !! c = Some nd' /\ (c <> a -> in_heap nd' = in_heap nd).
Proof.
  intros [_ H] Hnd. specialize (H c). rewrite Hnd in H.
  inversion H as [x y [Hv Hh] E1 E2|]; subst. by eexists.
Qed.

Lemma inv_insert (D R : gset positive) (s : state) (a : positive) :
  inv D R s -> Z.of_nat (base.size D) < 2 ^ 63 -> a ∈ D -> a ∉ R ->
  exists s', insert (Some a) s = Some (tt, s') /\ inv D (R ∪ {[a]}) s' /\ evolves a s s'.
Proof.
  intros (m & n & Hrep & Hord & Hn & Hrange & Hsub & Hmem) Hsize HaD HaR.
  pose proof (subseteq_size R D Hsub) as Hle.
  destruct (Hmem a HaD) as (nd & Hnd & Hin). specialize (Hin HaR).
  destruct (insert_rep is_less_than Hswo s m n a nd Hrep Hord ltac:(lia) ltac:(lia) Hnd Hin)
    as (s' & m' & Hrun & Hrep' & Hord' & Hev & Hrange').
  exists s'. split; [done|]. split; [|done]. exists m', (n + 1).
  split; [done|]. split; [done|]. split; [|split; [|split]].
  - rewrite size_union by (by apply disjoint_singleton_r).
    rewrite size_singleton. lia.
  - intros c. rewrite Hrange', <- Hrange, elem_of_union, elem_of_singleton. tauto.
  - apply union_subseteq. split; [done|]. by apply singleton_subseteq_l.
  - intros c Hc. destruct (Hmem c Hc) as (ndc & Hndc & Hinc).
    destruct (evolves_lookup a c s s' ndc Hev Hndc) as (nd' & Hnd' & Hin').
    exists nd'. split; [done|]. intros Hout.
    rewrite Hin'.
    + apply Hinc. intros HcR. apply Hout, elem_of_union. by left.
    + intros ->. apply Hout, elem_of_union. right. by apply elem_of_singleton.
Qed.

Lemma inv_remove (D R : gset positive) (s : state) (a : positive) :
  inv D R s -> Z.of_nat (base.size D) < 2 ^ 63 -> a ∈ R ->
  exists s', remove (Some a) s = Some (tt, s') /\ inv D (R ∖ {[a]}) s' /\ evolves a s s'.
Proof.
  intros (m & n & Hrep & Hord & Hn & Hrange & Hsub & Hmem) Hsize HaR.
  pose proof (subseteq_size R D Hsub) as Hle.
  destruct (proj1 (Hrange a) HaR) as [i Hi].
  destruct (remove_rep is_less_than Hswo s m n i a Hrep Hord Hi ltac:(lia))
    as (s' & m' & Hrun & Hrep' & Hord' & Hev & (nda & Hnda & Hina) & Hrange').
  exists s'. split; [done|]. split; [|done]. exists m', (n - 1).
  split; [done|]. split; [done|]. split; [|split; [|split]].
  - assert ({[a]} ⊆ R) as Hsing by (by apply singleton_subseteq_l).
    pose proof (subseteq_size _ _ Hsing) as Hone.
    rewrite size_difference by done. rewrite size_singleton in *. lia.
  - intros c. rewrite Hrange', <- Hrange, elem_of_difference, elem_of_singleton. tauto.
  - intros c Hc. apply Hsub. by apply elem_of_difference in Hc as [? _].
  - intros c Hc. destruct (decide (c = a)) as [->|Hca].
    + exists nda. by split.
    + destruct (Hmem c Hc) as (ndc & Hndc & Hinc).
      destruct (evolves_lookup a c s s' ndc Hev Hndc) as (nd' & Hnd' & Hin').
      exists nd'. split; [done|]. intros Hout.
      rewrite Hin' by done. apply Hinc. intros HcR.
      apply Hout, elem_of_difference. split; [done|]. by rewrite elem_of_singleton.
Qed.

Lemma inv_validate (D R : gset positive) (s : state) :
  inv D R s -> Z.of_nat (base.size D) < 2 ^ 63 -> validate s = Some (tt, s).
Proof.
  intros (m & n & Hrep & Hord & Hn & Hrange & Hsub & Hmem) Hsize.
  pose proof (subseteq_size R D Hsub) as Hle.
  apply (validate_rep is_less_than s m n Hrep Hord). lia.
Qed.

Lemma run_valid (D : gset positive) (ops : list op) :
  Z.of_nat (base.size D) < 2 ^ 63 ->
  forall (R : gset positive) (s : state) (k : nat),
  inv D R s -> admissible D R ops = true ->
  exists s', run (take k ops) s = Some (tt, s') /\ validate s' = Some (tt, s').
Proof.
  intros Hsize. induction ops as [|o ops IH]; intros R s k Hinv Hadm.
  - rewrite take_nil. exists s. split; [done|]. by eapply inv_validate.
  - destruct k as [|k]; [exists s; split; [done|]; by eapply inv_validate|].
    cbn [take run]. destruct o as [a|a]; cbn [admissible exec] in *.
    + apply andb_true_iff in Hadm as [Hadm Hrest].
      apply andb_true_iff in Hadm as [HaD HaR].
      apply bool_decide_eq_true in HaD, HaR.
      destruct (inv_insert D R s a Hinv Hsize HaD HaR) as (s1 & Hrun & Hinv1 & _).
      rewrite (run_bind_eq _ _ _ _ _ Hrun). by eapply IH.
    + apply andb_true_iff in Hadm as [HaR Hrest].
      apply bool_decide_eq_true in HaR.
      destruct (inv_remove D R s a Hinv Hsize HaR) as (s1 & Hrun & Hinv1 & _).
      rewrite (run_bind_eq _ _ _ _ _ Hrun). by eapply IH.
Qed.

End Facts.

(** C10: starting from an empty heap over a memory of fewer than
    [2 ^ 63] nodes, none of them in a heap, and with a comparator that
    is a strict weak ordering, every [insert] of a node outside the
    heap and every [remove] of a node inside it (the top or not)
    returns, and after each of them [validate] passes all its checks:
    no child's value is less than its parent's, the parent pointers
    match, the back-pointers are the heap, the count is the recorded
    size, no right subtree has more nodes than the left one, and the
    depth is below 64. *)
Theorem binheap_valid_after_every_operation {T : Type} (is_less_than : T -> T -> bool)
    (h : positive) (mem : gmap positive (BinHeapNode T)) (ops : list op) (k : nat) :
  strict_weak_order is_less_than ->
  fresh mem = true ->
  Z.of_nat (base.size mem) < 2 ^ 63 ->
  admissible (dom mem) ∅ ops = true ->
  exists s', run is_less_than (take k ops) (new_heap h mem) = Some (tt, s') /\
             validate is_less_than s' = Some (tt, s').
Proof.
  intros Hswo Hfresh Hsize Hadm.
  assert (Z.of_nat (base.size (dom mem)) < 2 ^ 63) as HD by (by rewrite size_dom).
  apply (run_valid is_less_than Hswo (dom mem) ops HD ∅); [|done].
  by apply inv_new_heap.
Qed.

(** Four nodes keyed by integers, inserted, and two of them removed
    again: first one that is not the top, then the top. *)
Lemma Z_ltb_strict_weak_order : strict_weak_order Z.ltb.
Proof.
  constructor.
  - intros x. apply Z.ltb_irrefl.
  - intros x y z Hxy Hyz. apply Z.ltb_lt in Hxy, Hyz. apply Z.ltb_lt. lia.
  - intros x y z Hxy Hyz. apply Z.ltb_ge in Hxy, Hyz. apply Z.ltb_ge. lia.
Qed.

Definition example_mem : gmap positive (BinHeapNode Z) :=
  list_to_map [(1%positive, new_node 40); (2%positive, new_node 10);
               (3%positive, new_node 30); (4%positive, new_node 20)].

Definition example_ops : list op :=
  [Insert 1; Insert 2; Insert 3; Insert 4; Remove 3; Remove 2; Insert 3].

Lemma binheap_valid_after_every_operation_witness :
  exists s', run Z.ltb (take 6 example_ops) (new_heap 9 example_mem) = Some (tt, s') /\
             validate Z.ltb s' = Some (tt, s').
Proof.
  apply binheap_valid_after_every_operation.
  - exact Z_ltb_strict_weak_order.
  - vm_compute. reflexivity.
  - vm_compute. reflexivity.
  - vm_compute. reflexivity.
Defined.

End BinHeapFacts.

(** ** The heap seen from outside: the resident nodes and the least one *)

Module BinHeapView.
Import BinHeap BinHeapRep BinHeapSwap BinHeapSift BinHeapFind BinHeapOps BinHeapFacts.

Section View.

Context {T : Type}.
Variable is_less_than : T -> T -> bool.
Hypothesis Hswo : strict_weak_order is_less_than.

Local Abbreviation state := (state T).
Local Abbreviation node := (BinHeapNode T).
Local Abbreviation inv := (inv is_less_than).
Local Abbreviation ple := (ple is_less_than).
Local Abbreviation heap_ord := (heap_ord is_less_than).

(** A write to the value of the node at [c]. *)
Definition revalue (f : T -> T) (c : positive) (s : state) : state :=
  mkState (alter (fun nd => with_value (f (value nd)) nd) c (nodes s))
          (this s) (m_size s) (m_root s).

Lemma lookup_revalue (f : T -> T) (c a : positive) (s : state) :
  nodes (revalue f c s) !! a
  = if decide (a = c) then (fun nd => with_value (f (value nd)) nd) <$> nodes s !! a
    else nodes s !! a.
Proof.
  unfold revalue. cbn [nodes]. rewrite lookup_alter.
  destruct (decide (c = a)) as [->|Hne].
  - by rewrite decide_True.
  - by rewrite decide_False by done.
Qed.

Lemma keyof_revalue (f : T -> T) (c a : positive) (s : state) :
  keyof (revalue f c s) a = if decide (a = c) then f <$> keyof s a else keyof s a.
Proof.
  unfold keyof. rewrite lookup_revalue. case_decide; [|done].
  by destruct (nodes s !! a).
Qed.

Lemma rep_revalue (f : T -> T) (c : positive) (s : state) (m : gmap positive positive) (n : Z) :
  rep s m n -> rep (revalue f c s) m n.
Proof.
  intros Hrep. constructor; try apply Hrep.
  - intros k a Hk. destruct (rep_node _ _ _ Hrep _ _ Hk) as [v Hv].
    rewrite lookup_revalue. case_decide; [subst a|].
    + rewrite Hv. by eexists.
    + by eexists.
  - intros a nd. rewrite lookup_revalue. case_decide; [subst a|].
    + destruct (nodes s !! c) as [nd0|] eqn:Hnd0; [|done]. intros [= <-] Hin.
      by apply (rep_resident _ _ _ Hrep c nd0).
    + apply (rep_resident _ _ _ Hrep).
Qed.

(** A write that the comparator does not see keeps the heap. *)
Lemma inv_revalue_same_order (f : T -> T) (c : positive) (D R : gset positive) (s : state) :
  (forall v x, is_less_than (f v) x = is_less_than v x /\
               is_less_than x (f v) = is_less_than x v) ->
  inv D R s -> inv D R (revalue f c s).
Proof.
  intros Hf (m & n & Hrep & Hord & Hn & Hrange & Hsub & Hmem).
  exists m, n. split; [by apply rep_revalue|]. split; [|split; [done|split; [done|split; [done|]]]].
  - intros q k Hq x y. unfold pkey.
    destruct (m !! k) as [a|] eqn:Ha; [|done].
    destruct (m !! q) as [b|] eqn:Hb; [|done]. cbn.
    rewrite !keyof_revalue.
    destruct (keyof s a) as [x0|] eqn:Hx0; [|by destruct (decide (a = c))].
    destruct (keyof s b) as [y0|] eqn:Hy0; [|by destruct (decide (b = c))].
    intros Hx Hy.
    assert (is_less_than y0 x0 = false) as Hlt.
    { apply (Hord q k Hq); unfold pkey; by rewrite ?Ha, ?Hb. }
    destruct (decide (a = c)), (decide (b = c)); simplify_eq/=;
      rewrite ?(proj1 (Hf _ _)), ?(proj2 (Hf _ _)); done.
  - intros a Ha. destruct (Hmem a Ha) as (nd & Hnd & Hin).
    rewrite lookup_revalue. case_decide; [subst a|].
    + rewrite Hnd. by eexists.
    + by eexists.
Qed.

(** Any write to the value of a node outside the heap keeps it. *)
Lemma inv_revalue_outside (f : T -> T) (c : positive) (D R : gset positive) (s : state) :
  c ∉ R -> inv D R s -> inv D R (revalue f c s).
Proof.
  intros Hc (m & n & Hrep & Hord & Hn & Hrange & Hsub & Hmem).
  exists m, n. split; [by apply rep_revalue|]. split; [|split; [done|split; [done|split; [done|]]]].
  - intros q k Hq x y. unfold pkey.
    destruct (m !! k) as [a|] eqn:Ha; [|done].
    destruct (m !! q) as [b|] eqn:Hb; [|done]. cbn.
    rewrite !keyof_revalue.
    rewrite !decide_False.
    + intros Hx Hy. apply (Hord q k Hq); unfold pkey; by rewrite ?Ha, ?Hb.
    + intros ->. apply Hc, Hrange. by eexists.
    + intros ->. apply Hc, Hrange. by eexists.
  - intros a Ha. destruct (Hmem a Ha) as (nd & Hnd & Hin).
    rewrite lookup_revalue. case_decide; [subst a|].
    + rewrite Hnd. by eexists.
    + by eexists.
Qed.

Lemma inv_size (D R : gset positive) (s : state) :
  inv D R s -> m_size s = Z.of_nat (base.size R).
Proof. intros (m & n & Hrep & _ & Hn & _). by rewrite (rep_size _ _ _ Hrep). Qed.

Lemma inv_resident (D R : gset positive) (s : state) (c : positive) :
  inv D R s -> c ∈ R ->
  exists nd, nodes s !! c = Some nd /\ in_heap nd = Some (this s).
Proof.
  intros (m & n & Hrep & _ & _ & Hrange & _) Hc.
  destruct (proj1 (Hrange c) Hc) as [k Hk].
  destruct (rep_node _ _ _ Hrep _ _ Hk) as [v Hv]. by eexists.
Qed.

Lemma inv_outside (D R : gset positive) (s : state) (c : positive) :
  inv D R s -> c ∈ D -> c ∉ R ->
  exists nd, nodes s !! c = Some nd /\ in_heap nd = None.
Proof.
  intros (m & n & _ & _ & _ & _ & _ & Hmem) Hc Hout.
  destruct (Hmem c Hc) as (nd & Hnd & Hin). exists nd. split; [done|]. by apply Hin.
Qed.

(** The root is a least node. *)
Lemma inv_root (D R : gset positive) (s : state) :
  inv D R s -> R <> ∅ ->
  exists r, m_root s = Some r /\ r ∈ R /\
    forall c vr vc, c ∈ R -> keyof s r = Some vr -> keyof s c = Some vc ->
      is_less_than vc vr = false.
Proof.
  intros (m & n & Hrep & Hord & Hn & Hrange & _) Hne.
  pose proof (rep_dom _ _ _ Hrep) as Hdom.
  assert (1 <= n) as Hn1.
  { destruct (decide (base.size R = 0)%nat) as [Hz|]; [|lia].
    apply size_empty_inv in Hz. exfalso. apply Hne. by apply leibniz_equiv. }
  assert (is_Some (m !! 1%positive)) as [r Hr] by (apply Hdom; lia).
  exists r. split; [by rewrite (rep_root _ _ _ Hrep)|].
  split; [apply Hrange; by eexists|].
  assert (Hmin : forall k, is_Some (m !! k) -> ple s m 1 k).
  { intros k. induction k as [g IH|g IH|]; intros Hk.
    - assert (is_Some (m !! g)) as Hg by (apply Hdom; apply Hdom in Hk; lia).
      apply (ple_trans is_less_than Hswo s m n 1 g (xI g) Hrep Hg); [by apply IH|].
      by apply Hord.
    - assert (is_Some (m !! g)) as Hg by (apply Hdom; apply Hdom in Hk; lia).
      apply (ple_trans is_less_than Hswo s m n 1 g (xO g) Hrep Hg); [by apply IH|].
      by apply Hord.
    - intros x y Hx Hy. simplify_eq. apply (swo_irrefl _ Hswo). }
  intros c vr vc Hc Hvr Hvc. destruct (proj1 (Hrange c) Hc) as [k Hk].
  apply (Hmin k ltac:(by eexists)); unfold pkey; by rewrite ?Hr, ?Hk.
Qed.

(** The memory of a node outside the heap given back, and the memory
    of a new node obtained. *)
Definition free_node (c : positive) (s : state) : state :=
  mkState (delete c (nodes s)) (this s) (m_size s) (m_root s).

Definition alloc_node (c : positive) (v : T) (s : state) : state :=
  mkState (<[c := new_node v]> (nodes s)) (this s) (m_size s) (m_root s).

Lemma inv_free_node (c : positive) (D R : gset positive) (s : state) :
  c ∉ R -> inv D R s -> inv (D ∖ {[c]}) R (free_node c s).
Proof.
  intros Hc (m & n & Hrep & Hord & Hn & Hrange & Hsub & Hmem).
  assert (Hout : forall k, m !! k <> Some c).
  { intros k Hk. apply Hc, Hrange. by eexists. }
  exists m, n. split; [|split; [|split; [done|split; [done|split]]]].
  - constructor; cbn [free_node nodes this m_size m_root]; try apply Hrep.
    + intros k a Hk. destruct (rep_node _ _ _ Hrep _ _ Hk) as [v Hv].
      exists v. rewrite lookup_delete_ne; [done|]. intros ->. by eapply Hout.
    + intros a nd Hnd. apply lookup_delete_Some in Hnd as [_ Hnd].
      by apply (rep_resident _ _ _ Hrep).
  - intros q k Hq x y. unfold pkey, keyof. cbn [free_node nodes].
    destruct (m !! k) as [a|] eqn:Ha; [|done].
    destruct (m !! q) as [b|] eqn:Hb; [|done]. cbn.
    rewrite !lookup_delete_ne by (intros ->; by eapply Hout).
    intros Hx Hy. apply (Hord q k Hq); unfold pkey, keyof; by rewrite ?Ha, ?Hb.
  - intros a Ha. apply elem_of_difference. split; [by apply Hsub|].
    rewrite elem_of_singleton. by intros ->.
  - intros a Ha. apply elem_of_difference in Ha as [Ha Hne].
    rewrite elem_of_singleton in Hne.
    destruct (Hmem a Ha) as (nd & Hnd & Hin). exists nd.
    cbn [free_node nodes]. by rewrite lookup_delete_ne.
Qed.

Lemma inv_alloc_node (c : positive) (v : T) (D R : gset positive) (s : state) :
  c ∉ D -> inv D R s -> nodes s !! c = None ->
  inv ({[c]} ∪ D) R (alloc_node c v s).
Proof.
  intros Hc (m & n & Hrep & Hord & Hn & Hrange & Hsub & Hmem) Hfree.
  assert (Hout : forall k, m !! k <> Some c).
  { intros k Hk. destruct (rep_node _ _ _ Hrep _ _ Hk) as [x Hx]. congruence. }
  exists m, n. split; [|split; [|split; [done|split; [done|split]]]].
  - constructor; cbn [alloc_node nodes this m_size m_root]; try apply Hrep.
    + intros k a Hk. destruct (rep_node _ _ _ Hrep _ _ Hk) as [x Hx].
      exists x. rewrite lookup_insert_ne; [done|]. intros ->. by eapply Hout.
    + intros a nd Hnd. apply lookup_insert_Some in Hnd as [[<- <-]|[_ Hnd]]; [done|].
      by apply (rep_resident _ _ _ Hrep).
  - intros q k Hq x y. unfold pkey, keyof. cbn [alloc_node nodes].
    destruct (m !! k) as [a|] eqn:Ha; [|done].
    destruct (m !! q) as [b|] eqn:Hb; [|done]. cbn.
    rewrite !lookup_insert_ne by (intros ->; by eapply Hout).
    intros Hx Hy. apply (Hord q k Hq); unfold pkey, keyof; by rewrite ?Ha, ?Hb.
  - intros a Ha. apply elem_of_union. right. by apply Hsub.
  - intros a Ha. cbn [alloc_node nodes].
    destruct (decide (a = c)) as [->|Hne].
    + rewrite lookup_insert_eq. by eexists.
    + rewrite lookup_insert_ne by done. apply Hmem.
      apply elem_of_union in Ha as [Ha|Ha]; [|done].
      by apply elem_of_singleton in Ha.
Qed.

End View.
End BinHeapView.

(** * Timeout queue (src/util/timeout_queue.h) *)

Module TimeoutQueue.
Import BinHeap.

Section Queue.

(** The closures given as callbacks, and what the callbacks act on
    besides the queue. *)
Context {CB U : Type}.

Record TimeoutRecord : Type := mkRecord {
  expiration : Z;
  callback : option CB
}.

(** [TimeoutRecord::operator<] *)
Definition record_lt (a b : TimeoutRecord) : bool := expiration a <? expiration b.

Definition with_expiration (e : Z) (r : TimeoutRecord) : TimeoutRecord :=
  mkRecord e (callback r).
Definition with_callback (c : option CB) (r : TimeoutRecord) : TimeoutRecord :=
  mkRecord (expiration r) c.

(** [TimeoutHeap]: the heap object and the memory of the nodes, which
    are members of the handles. *)
Local Abbreviation TimeoutHeap := (state TimeoutRecord).
Local Abbreviation H := (M TimeoutRecord).

Definition set_record (p : option positive) (f : TimeoutRecord -> TimeoutRecord) : H unit :=
  modify p (fun nd => with_value (f (value nd)) nd).

(** [TimeoutQueue::empty] *)
Definition queue_empty : H bool := empty.

(** [TimeoutQueue::nextTimeoutMs], the clock reading [now]. *)
Definition nextTimeoutMs (now : Z) : H Z :=
  bind empty (fun e =>
  bind (assert (negb e)) (fun _ =>
  bind top (fun node =>
  bind (get_value node) (fun v =>
  if expiration v <=? now then ret 0 else ret (wrap64 (expiration v - now)))))).

(** *** [TimeoutHandle], at the address of its node *)

(** [TimeoutHandle(tq)]: the node is built from no arguments. *)
Definition new_handle (h : positive) : H unit :=
  fun s => match nodes s !! h with
           | None => Some (tt, mkState (<[h := new_node (mkRecord 0 None)]> (nodes s))
                                       (this s) (m_size s) (m_root s))
           | Some _ => None
           end.

(** [isActive] *)
Definition isActive (h : positive) : H bool :=
  bind (load (Some h)) (fun nd => ret (inHeap nd)).

(** [clearTimeout] *)
Definition clearTimeout (h : positive) : H unit :=
  bind (load (Some h)) (fun nd =>
  if inHeap nd then
    bind (remove record_lt (Some h)) (fun _ =>
    set_record (Some h) (with_callback None))
  else ret tt).

(** [setTimeout], the clock reading [now]; [sanity_check(callback)]
    fails on an empty [std::function]. *)
Definition setTimeout (h : positive) (now delayMs : Z) (cb : option CB) : H unit :=
  bind (assert (bool_decide (is_Some cb))) (fun _ =>
  bind (clearTimeout h) (fun _ =>
  bind (set_record (Some h) (with_expiration (wrap64 (now + delayMs)))) (fun _ =>
  bind (set_record (Some h) (with_callback cb)) (fun _ =>
  insert record_lt (Some h))))).

(** [~TimeoutHandle], after which the memory of the node is gone. *)
Definition delete_handle (h : positive) : H unit :=
  bind (clearTimeout h) (fun _ s =>
  Some (tt, mkState (delete h (nodes s)) (this s) (m_size s) (m_root s))).

(** *** The queue among the things its callbacks act on *)

(** [calls] records the callbacks run, each with the node it was
    scheduled on. *)
Record world : Type := mkWorld {
  tq : TimeoutHeap;
  calls : list (positive * CB);
  user : U
}.

Definition W (A : Type) : Type := world -> option (A * world).

Definition wret {A : Type} (a : A) : W A := fun w => Some (a, w).
Definition wfail {A : Type} : W A := fun _ => None.
Definition wbind {A B : Type} (m : W A) (k : A -> W B) : W B :=
  fun w => match m w with
           | Some (a, w') => k a w'
           | None => None
           end.

(** A method of the queue or of a handle, run in the world. *)
Definition lift {A : Type} (m : H A) : W A :=
  fun w => match m (tq w) with
           | Some (a, s') => Some (a, mkWorld s' (calls w) (user w))
           | None => None
           end.

(** What running a closure does. *)
Variable fire : CB -> world -> option world.

(** [callback()]; an empty [std::function] throws. *)
Definition invoke (node : option positive) (cb : option CB) : W unit :=
  fun w => match node, cb with
           | Some a, Some c =>
               match fire c (mkWorld (tq w) (calls w ++ [(a, c)]) (user w)) with
               | Some w' => Some (tt, w')
               | None => None
               end
           | _, _ => None
           end.

(** The loop of [processTimeouts], one unit of fuel per turn; the
    callback is moved out of the node, which leaves the node's
    [std::function] empty. *)
Fixpoint process_loop (fuel : nat) (now : Z) : W unit :=
  wbind (lift empty) (fun e =>
  if e then wret tt
  else
    wbind (lift top) (fun node =>
    wbind (lift (get_value node)) (fun v =>
    if expiration v <? now then
      match fuel with
      | O => wfail
      | S fuel' =>
          wbind (lift (set_record node (with_callback None))) (fun _ =>
          wbind (lift (remove record_lt node)) (fun _ =>
          wbind (invoke node (callback v)) (fun _ =>
          process_loop fuel' now)))
      end
    else wret tt))).

(** [TimeoutQueue::processTimeouts], the clock reading [now]. *)
Definition processTimeouts (fuel : nat) (now : Z) : W unit :=
  wbind (lift empty) (fun e =>
  if e then wret tt else process_loop fuel now).

End Queue.

Arguments TimeoutRecord CB : clear implicits.
Arguments world CB U : clear implicits.
Arguments W CB U A : clear implicits.

End TimeoutQueue.

(** ** The queue as a set of armed timers *)

Module TimeoutFacts.
Import BinHeap BinHeapRep BinHeapSift BinHeapOps BinHeapFacts BinHeapView TimeoutQueue.

Lemma dom_delete_insert (h : positive) (R : gset positive) : R ∖ {[h]} ∪ {[h]} = {[h]} ∪ R.
Proof.
  apply set_eq. intros x.
  rewrite !elem_of_union, elem_of_difference, elem_of_singleton.
  destruct (decide (x = h)); tauto.
Qed.

Section Facts.

Context {CB : Type}.

Local Abbreviation TimeoutRecord := (TimeoutRecord CB).
Local Abbreviation TimeoutHeap := (state TimeoutRecord).
Local Abbreviation record_lt := (@record_lt CB).
Local Abbreviation inv := (inv record_lt).

Lemma record_lt_swo : strict_weak_order record_lt.
Proof.
  constructor; unfold TimeoutQueue.record_lt.
  - intros x. apply Z.ltb_irrefl.
  - intros x y z Hxy Hyz. apply Z.ltb_lt in Hxy, Hyz. apply Z.ltb_lt. lia.
  - intros x y z Hxy Hyz. apply Z.ltb_ge in Hxy, Hyz. apply Z.ltb_ge. lia.
Qed.

(** The nodes in the heap of [s] are those of the timers [A], with
    their records; and the memory holds fewer than [2 ^ 63] nodes. *)
Definition armed (s : TimeoutHeap) (A : gmap positive TimeoutRecord) : Prop :=
  Z.of_nat (base.size (dom (nodes s))) < 2 ^ 63 /\
  inv (dom (nodes s)) (dom A) s /\
  forall c v, A !! c = Some v -> keyof s c = Some v /\ is_Some (callback v).

Lemma evolves_dom (a : positive) (s s' : TimeoutHeap) :
  evolves a s s' -> dom (nodes s') = dom (nodes s).
Proof.
  intros [_ H]. apply set_eq. intros c. rewrite !elem_of_dom. specialize (H c).
  destruct H; split; intros [? ?]; done.
Qed.

Lemma dom_revalue (f : TimeoutRecord -> TimeoutRecord) (c : positive) (s : TimeoutHeap) :
  dom (nodes (revalue f c s)) = dom (nodes s).
Proof.
  apply set_eq. intros a. rewrite !elem_of_dom, lookup_revalue.
  case_decide; [|done]. by rewrite fmap_is_Some.
Qed.

Lemma run_set_record (f : TimeoutRecord -> TimeoutRecord) (c : positive) (s : TimeoutHeap) :
  is_Some (nodes s !! c) ->
  set_record (Some c) f s = Some (tt, revalue f c s).
Proof. intros [nd Hnd]. unfold set_record, modify. by rewrite Hnd. Qed.

(** [clearTimeout] disarms the timer of the handle. *)
Lemma clearTimeout_armed (s : TimeoutHeap) (A : gmap positive TimeoutRecord) (h : positive) :
  armed s A -> h ∈ dom (nodes s) ->
  exists s', clearTimeout h s = Some (tt, s') /\ armed s' (delete h A) /\
    dom (nodes s') = dom (nodes s) /\ this s' = this s.
Proof.
  intros (Hsize & Hinv & Hval) Hh. unfold clearTimeout.
  destruct (decide (h ∈ dom A)) as [HhA|HhA].
  - destruct (inv_resident record_lt _ _ s h Hinv HhA) as (nd & Hnd & Hin).
    unfold bind at 1, load. rewrite Hnd. unfold inHeap.
    rewrite Hin, bool_decide_eq_true_2 by done.
    destruct (inv_remove record_lt record_lt_swo _ _ s h Hinv Hsize HhA)
      as (s1 & Hrun & Hinv1 & Hev).
    rewrite (run_bind_eq _ _ _ _ _ Hrun).
    pose proof (evolves_dom h s s1 Hev) as Hdom1.
    rewrite run_set_record by (apply elem_of_dom; by rewrite Hdom1).
    eexists. split; [done|]. split; [|split].
    + split; [by rewrite dom_revalue, Hdom1|]. split.
      * rewrite dom_revalue, Hdom1, dom_delete_L.
        apply inv_revalue_outside; [|done].
        rewrite elem_of_difference, elem_of_singleton. tauto.
      * intros c v Hc. apply lookup_delete_Some in Hc as [Hne Hc].
        destruct (Hval c v Hc) as [Hk Hcb]. split; [|done].
        rewrite keyof_revalue, decide_False by done.
        by rewrite (evolves_keyof h c s s1 Hev).
    + by rewrite dom_revalue.
    + cbn. apply Hev.
  - destruct (inv_outside record_lt _ _ s h Hinv Hh HhA) as (nd & Hnd & Hin).
    unfold bind at 1, load. rewrite Hnd. unfold inHeap.
    rewrite Hin, bool_decide_eq_false_2 by (by intros []).
    exists s. split; [done|]. split; [|done].
    rewrite delete_id by (by apply not_elem_of_dom). done.
Qed.

(** [setTimeout] arms it anew. *)
Lemma setTimeout_armed (s : TimeoutHeap) (A : gmap positive TimeoutRecord)
    (h : positive) (now d : Z) (cb : CB) :
  armed s A -> h ∈ dom (nodes s) -> 0 <= now + d < 2 ^ 64 ->
  exists s', setTimeout h now d (Some cb) s = Some (tt, s') /\
    armed s' (<[h := mkRecord (now + d) (Some cb)]> A) /\
    dom (nodes s') = dom (nodes s) /\ this s' = this s.
Proof.
  intros Harm Hh Hnow. unfold setTimeout.
  rewrite run_assert by (by apply bool_decide_eq_true_2).
  destruct (clearTimeout_armed s A h Harm Hh) as (s1 & Hrun1 & (Hsize1 & Hinv1 & Hval1) & Hdom1 & Hthis1).
  rewrite (run_bind_eq _ _ _ _ _ Hrun1).
  assert (HhA : h ∉ dom (delete h A)).
  { rewrite dom_delete_L, elem_of_difference, elem_of_singleton. tauto. }
  unfold wrap64. rewrite Z.mod_small by done.
  unfold bind at 1.
  rewrite run_set_record by (apply elem_of_dom; by rewrite Hdom1).
  set (s2 := revalue (with_expiration (now + d)) h s1).
  unfold bind at 1.
  rewrite run_set_record by (apply elem_of_dom; unfold s2; by rewrite dom_revalue, Hdom1).
  set (s3 := revalue (with_callback (Some cb)) h s2).
  assert (Hdom3 : dom (nodes s3) = dom (nodes s)).
  { unfold s3, s2. by rewrite !dom_revalue. }
  assert (Hinv3 : inv (dom (nodes s3)) (dom (delete h A)) s3).
  { rewrite Hdom3, <- Hdom1. unfold s3, s2.
    apply inv_revalue_outside; [done|]. by apply inv_revalue_outside. }
  destruct (inv_insert record_lt record_lt_swo _ _ s3 h Hinv3) as (s4 & Hrun4 & Hinv4 & Hev4).
  { by rewrite Hdom3, <- Hdom1. } { by rewrite Hdom3. } { done. }
  pose proof (evolves_dom h s3 s4 Hev4) as Hdom4.
  exists s4. split; [done|]. split; [|split].
  - split; [by rewrite Hdom4, Hdom3, <- Hdom1|]. split.
    + rewrite Hdom4, dom_insert_L. rewrite dom_delete_L, dom_delete_insert in Hinv4. done.
    + intros c v Hc. rewrite (evolves_keyof h c s3 s4 Hev4).
      unfold s3, s2. rewrite !keyof_revalue.
      apply lookup_insert_Some in Hc as [[<- <-]|[Hne Hc]].
      * rewrite !decide_True by done. split; [|by eexists].
        assert (is_Some (nodes s1 !! h)) as [nd Hnd]
          by (apply elem_of_dom; by rewrite Hdom1).
        unfold keyof. rewrite Hnd. done.
      * rewrite !decide_False by done. apply Hval1.
        rewrite lookup_delete_ne by done. done.
  - by rewrite Hdom4.
  - rewrite (proj1 Hev4). cbn. done.
Qed.

(** A handle destroyed is disarmed, and its node is gone. *)
Lemma delete_handle_armed (s : TimeoutHeap) (A : gmap positive TimeoutRecord) (h : positive) :
  armed s A -> h ∈ dom (nodes s) ->
  exists s', delete_handle h s = Some (tt, s') /\ armed s' (delete h A) /\
    dom (nodes s') = dom (nodes s) ∖ {[h]} /\ this s' = this s.
Proof.
  intros Harm Hh. unfold delete_handle.
  destruct (clearTimeout_armed s A h Harm Hh)
    as (s1 & Hrun1 & (Hsize1 & Hinv1 & Hval1) & Hdom1 & Hthis1).
  rewrite (run_bind_eq _ _ _ _ _ Hrun1).
  assert (HhA : h ∉ dom (delete h A)).
  { rewrite dom_delete_L, elem_of_difference, elem_of_singleton. tauto. }
  exists (free_node h s1). split; [done|].
  assert (Hdom : dom (nodes (free_node h s1)) = dom (nodes s) ∖ {[h]}).
  { cbn [free_node nodes]. by rewrite dom_delete_L, Hdom1. }
  split; [|done]. split; [|split].
  - rewrite Hdom.
    pose proof (subseteq_size (dom (nodes s) ∖ {[h]}) (dom (nodes s))
                  ltac:(apply subseteq_difference_l; done)).
    rewrite Hdom1 in Hsize1. lia.
  - rewrite Hdom, <- Hdom1. by apply inv_free_node.
  - intros c v Hc. destruct (Hval1 c v Hc) as [Hk Hcb]. split; [|done].
    unfold keyof in *. cbn [free_node nodes]. rewrite lookup_delete_ne; [done|].
    intros ->. apply HhA. apply elem_of_dom. by eexists.
Qed.

(** A handle made is not armed. *)
Lemma new_handle_armed (s : TimeoutHeap) (A : gmap positive TimeoutRecord) (h : positive) :
  armed s A -> h ∉ dom (nodes s) ->
  Z.of_nat (base.size (dom (nodes s))) + 1 < 2 ^ 63 ->
  exists s', new_handle h s = Some (tt, s') /\ armed s' A /\
    dom (nodes s') = {[h]} ∪ dom (nodes s) /\ this s' = this s.
Proof.
  intros (Hsize & Hinv & Hval) Hh Hroom. unfold new_handle.
  assert (Hfree : nodes s !! h = None) by (by apply not_elem_of_dom).
  rewrite Hfree. exists (alloc_node h (mkRecord 0 None) s). split; [done|].
  assert (Hdom : dom (nodes (alloc_node h (mkRecord 0 (@None CB)) s))
                 = {[h]} ∪ dom (nodes s))
    by (cbn [alloc_node nodes]; by rewrite dom_insert_L).
  split; [|done]. split; [|split].
  - rewrite Hdom, size_union by (by apply disjoint_singleton_l).
    rewrite size_singleton. lia.
  - rewrite Hdom. by apply inv_alloc_node.
  - intros c v Hc. destruct (Hval c v Hc) as [Hk Hcb]. split; [|done].
    unfold keyof in *. cbn [alloc_node nodes]. rewrite lookup_insert_ne; [done|].
    intros ->. rewrite Hfree in Hk. done.
Qed.

End Facts.

(** *** [processTimeouts] *)

(** The callbacks run on the node [h], in the order they ran. *)
Definition calls_of {CB : Type} (h : positive) (cs : list (positive * CB)) : list CB :=
  omap (fun p => if decide (p.1 = h) then Some p.2 else None) cs.

(** What a timer gives to a [processTimeouts] at time [now]: its
    callback, if it is overdue. *)
Definition fired_of {CB : Type} (now : Z) (o : option (TimeoutRecord CB)) : list CB :=
  match o with
  | Some v => if expiration v <? now then option_list (callback v) else []
  | None => []
  end.

(** The timers that are not overdue at time [now]. *)
Definition pending {CB : Type} (now : Z) (A : gmap positive (TimeoutRecord CB))
  : gmap positive (TimeoutRecord CB) :=
  filter (fun kv => now <= expiration kv.2) A.

Lemma calls_of_app {CB : Type} (h : positive) (cs1 cs2 : list (positive * CB)) :
  calls_of h (cs1 ++ cs2) = calls_of h cs1 ++ calls_of h cs2.
Proof. apply omap_app. Qed.

Section Process.

Context {CB U : Type}.
Variable fire : CB -> world CB U -> option (world CB U).

Local Abbreviation TimeoutRecord := (TimeoutRecord CB).
Local Abbreviation TimeoutHeap := (state TimeoutRecord).
Local Abbreviation world := (world CB U).
Local Abbreviation record_lt := (@record_lt CB).
Local Abbreviation process_loop := (process_loop fire).
Local Abbreviation processTimeouts := (processTimeouts fire).

(** What holds of the world between the calls, for the timers [A];
    and that every callback, run after its node has left the queue,
    brings it about again. *)
Variable Good : gmap positive TimeoutRecord -> world -> Prop.
Hypothesis Good_armed : forall A w, Good A w -> armed (tq w) A.
Hypothesis Good_fire : forall A w c v cb s1,
  Good A w -> A !! c = Some v -> callback v = Some cb ->
  armed s1 (delete c A) -> this s1 = this (tq w) ->
  dom (nodes s1) = dom (nodes (tq w)) ->
  exists w', fire cb (mkWorld s1 (calls w ++ [(c, cb)]) (user w)) = Some w' /\
    Good (delete c A) w' /\ calls w' = calls w ++ [(c, cb)].

Lemma run_lift {A B : Type} (m : M TimeoutRecord A) (k : A -> W CB U B) (w : world)
    (a : A) (s' : TimeoutHeap) :
  m (tq w) = Some (a, s') ->
  wbind (lift m) k w = k a (mkWorld s' (calls w) (user w)).
Proof. intros Hm. unfold wbind, lift. by rewrite Hm. Qed.

Lemma run_get_record (s : TimeoutHeap) (c : positive) (v : TimeoutRecord) :
  keyof s c = Some v -> get_value (Some c) s = Some (v, s).
Proof.
  unfold keyof, get_value, bind, load. destruct (nodes s !! c); intros; by simplify_eq/=.
Qed.

Lemma with_callback_same_order (c : option CB) (v x : TimeoutRecord) :
  record_lt (with_callback c v) x = record_lt v x /\
  record_lt x (with_callback c v) = record_lt x v.
Proof. done. Qed.

Lemma process_loop_spec (fuel : nat) (now : Z) :
  forall (A : gmap positive TimeoutRecord) (w : world),
  Good A w -> (base.size A <= fuel)%nat ->
  exists w' F, process_loop fuel now w = Some (tt, w') /\
    Good (pending now A) w' /\
    calls w' = calls w ++ F /\
    forall h, calls_of h F = fired_of now (A !! h).
Proof.
  induction fuel as [|fuel IH]; intros A [s cs u] HGood Hfuel.
  all: destruct (Good_armed _ _ HGood) as (Hsize & Hinv & Hval); cbn [tq] in *.
  all: pose proof (inv_size record_lt _ _ s Hinv) as Hn; rewrite size_dom in Hn.
  all: cbn [TimeoutQueue.process_loop].
  all: rewrite (run_lift empty _ _ (m_size s =? 0) s) by done; cbn [tq calls user].
  all: destruct (decide (A = ∅)) as [->|Hne].
  all: try (rewrite map_size_empty in Hn; rewrite Hn; cbn [Z.eqb];
    exists (mkWorld s cs u), []; split; [done|];
    unfold pending; rewrite map_filter_empty; split; [done|];
    split; [by rewrite app_nil_r|]; intros h; by rewrite lookup_empty).
  all: assert (base.size A <> 0%nat) as Hsz by (by apply map_size_non_empty_iff).
  all: rewrite (proj2 (Z.eqb_neq _ _)) by lia.
  all: destruct (inv_root record_lt record_lt_swo _ _ s Hinv) as (r & Hroot & Hr & Hmin);
    [by rewrite dom_empty_iff_L|].
  all: apply elem_of_dom in Hr as [v Hv]; destruct (Hval r v Hv) as [Hkv [cb Hcb]].
  all: rewrite (run_lift top _ _ (m_root s) s) by done; cbn [tq calls user]; rewrite Hroot.
  all: rewrite (run_lift (get_value (Some r)) _ _ v s) by (by apply run_get_record);
    cbn [tq calls user].
  all: destruct (Z.ltb_spec (expiration v) now) as [Hdue|Hnot].
  all: try lia.
  all: try (exists (mkWorld s cs u), []; split; [done|];
    assert (Hall : forall c vc, A !! c = Some vc -> now <= expiration vc);
    [ intros c vc Hc; destruct (Hval c vc Hc) as [Hkc _];
      pose proof (Hmin c v vc ltac:(apply elem_of_dom; by eexists) Hkv Hkc) as Hlt;
      apply Z.ltb_ge in Hlt; lia
    | unfold pending; rewrite map_filter_id by (intros c vc Hc; by apply (Hall c vc));
      split; [done|]; split; [by rewrite app_nil_r|];
      intros h; unfold fired_of; destruct (A !! h) as [vh|] eqn:Hh; [|done];
      specialize (Hall h vh Hh);
      by rewrite (proj2 (Z.ltb_ge _ _)) by lia ]).
  (* the root is overdue *)
  assert (is_Some (nodes s !! r)) as Hnr.
  { unfold keyof in Hkv. destruct (nodes s !! r); [by eexists|done]. }
  rewrite (run_lift (set_record (Some r) (with_callback None)) _ _ tt
             (revalue (with_callback None) r s)) by (by apply run_set_record).
  cbn [tq calls user].
  set (sa := revalue (with_callback None) r s).
  assert (Hinva : inv record_lt (dom (nodes sa)) (dom A) sa).
  { unfold sa. rewrite dom_revalue. apply inv_revalue_same_order; [|done].
    intros; apply with_callback_same_order. }
  destruct (inv_remove record_lt record_lt_swo _ _ sa r Hinva) as (s1 & Hrun1 & Hinv1 & Hev1).
  { unfold sa. by rewrite dom_revalue. } { apply elem_of_dom. by eexists. }
  pose proof (evolves_dom r sa s1 Hev1) as Hdom1.
  rewrite (run_lift (remove record_lt (Some r)) _ _ tt s1) by done.
  cbn [tq calls user].
  assert (Harm1 : armed s1 (delete r A)).
  { split; [unfold sa in Hdom1; by rewrite Hdom1, dom_revalue|]. split.
    - rewrite Hdom1, dom_delete_L. done.
    - intros c vc Hc. apply lookup_delete_Some in Hc as [Hne' Hc].
      destruct (Hval c vc Hc) as [Hkc Hcbc]. split; [|done].
      rewrite (evolves_keyof r c sa s1 Hev1). unfold sa.
      by rewrite keyof_revalue, decide_False by done. }
  destruct (Good_fire A (mkWorld s cs u) r v cb s1 HGood Hv Hcb Harm1)
    as (w1 & Hfire & HGood1 & Hcalls1).
  { rewrite (proj1 Hev1). done. }
  { unfold sa in Hdom1. by rewrite Hdom1, dom_revalue. }
  cbn [tq calls user] in Hfire.
  unfold wbind at 1, invoke. cbn [tq calls user]. rewrite Hcb, Hfire.
  destruct (IH (delete r A) w1 HGood1) as (w' & F & Hrun' & HGood' & Hcalls' & HF).
  { rewrite map_size_delete_Some by (by eexists). lia. }
  exists w', ((r, cb) :: F). split; [done|]. split; [|split].
  - unfold pending in *. rewrite map_filter_delete_not in HGood'; [done|].
    intros y Hy. cbn. simplify_eq. lia.
  - rewrite Hcalls', Hcalls1. cbn [calls]. by rewrite <- app_assoc.
  - intros h. change ((r, cb) :: F) with ([(r, cb)] ++ F).
    rewrite calls_of_app, HF. unfold calls_of at 1. cbn.
    destruct (decide (r = h)) as [->|Hrh].
    + rewrite lookup_delete_eq, Hv. cbn.
      rewrite (proj2 (Z.ltb_lt _ _)) by done. by rewrite Hcb.
    + by rewrite lookup_delete_ne by done.
Qed.

Lemma processTimeouts_loop (fuel : nat) (now : Z) (w : world) :
  processTimeouts fuel now w = process_loop fuel now w.
Proof.
  destruct w as [s cs u]. unfold TimeoutQueue.processTimeouts.
  destruct fuel; cbn [TimeoutQueue.process_loop];
    unfold wbind at 1, lift at 1, empty, bind, get_size, ret; cbn [tq calls user];
    (destruct (m_size s =? 0) eqn:E; [|reflexivity]);
    unfold wbind at 1, lift at 1; cbn [tq calls user]; by rewrite E.
Qed.

Lemma processTimeouts_spec (fuel : nat) (now : Z)
    (A : gmap positive TimeoutRecord) (w : world) :
  Good A w -> (base.size A <= fuel)%nat ->
  exists w' F, processTimeouts fuel now w = Some (tt, w') /\
    Good (pending now A) w' /\
    calls w' = calls w ++ F /\
    forall h, calls_of h F = fired_of now (A !! h).
Proof. rewrite processTimeouts_loop. apply process_loop_spec. Qed.

End Process.

End TimeoutFacts.

(** ** Handles behave as timers *)

Module TimeoutSpec.
Import BinHeap BinHeapRep BinHeapSift BinHeapOps BinHeapFacts BinHeapView.
Import TimeoutQueue TimeoutFacts.

(** What is done to the handles and the queue: [setTimeout] with the
    clock reading [now], [clearTimeout], the end of a handle, and
    [processTimeouts] with the clock reading [now]. *)
Inductive event {CB : Type} : Type :=
| EvSet (h : positive) (now delayMs : Z) (cb : CB)
| EvClear (h : positive)
| EvDestroy (h : positive)
| EvProcess (now : Z).
Arguments event CB : clear implicits.

(** The handles are among those of [L] and are not used after their
    end, and no expiration time is beyond a [u64]. *)
Fixpoint wf_events {CB : Type} (L : gset positive) (es : list (event CB)) : bool :=
  match es with
  | [] => true
  | EvSet h now d _ :: es' =>
      bool_decide (h ∈ L) && (0 <=? now + d) && (now + d <? 2 ^ 64) && wf_events L es'
  | EvClear h :: es' => bool_decide (h ∈ L) && wf_events L es'
  | EvDestroy h :: es' => bool_decide (h ∈ L) && wf_events (L ∖ {[h]}) es'
  | EvProcess _ :: es' => wf_events L es'
  end.

(** *** The timers the design document describes

    A timer is armed with an expiration time and a callback.  Setting
    it arms it anew, clearing it or ending its handle disarms it, and
    processing the timeouts runs the callback of every timer that is
    overdue and disarms it. *)
Definition timers_step {CB : Type} (e : event CB) (A : gmap positive (TimeoutRecord CB))
  : gmap positive (TimeoutRecord CB) :=
  match e with
  | EvSet h now d cb => <[h := mkRecord (now + d) (Some cb)]> A
  | EvClear h | EvDestroy h => delete h A
  | EvProcess now => pending now A
  end.

Definition timers_run {CB : Type} (es : list (event CB)) (A : gmap positive (TimeoutRecord CB))
  : gmap positive (TimeoutRecord CB) :=
  foldl (fun A e => timers_step e A) A es.

(** The callbacks the timer of [h] runs. *)
Fixpoint expected_calls {CB : Type} (h : positive) (es : list (event CB))
    (A : gmap positive (TimeoutRecord CB)) : list CB :=
  match es with
  | [] => []
  | e :: es' =>
      match e with
      | EvProcess now => fired_of now (A !! h)
      | _ => []
      end ++ expected_calls h es' (timers_step e A)
  end.

Section Run.

Context {CB U : Type}.
Variable fire : CB -> world CB U -> option (world CB U).

Local Abbreviation TimeoutRecord := (TimeoutRecord CB).
Local Abbreviation world := (world CB U).

Definition run_event (fuel : nat) (e : event CB) : W CB U unit :=
  match e with
  | EvSet h now d cb => lift (setTimeout h now d (Some cb))
  | EvClear h => lift (clearTimeout h)
  | EvDestroy h => lift (delete_handle h)
  | EvProcess now => processTimeouts fire fuel now
  end.

Fixpoint run_events (fuel : nat) (es : list (event CB)) : W CB U unit :=
  match es with
  | [] => wret tt
  | e :: es' => wbind (run_event fuel e) (fun _ => run_events fuel es')
  end.

(** The callbacks leave the queue alone. *)
Definition aside : Prop :=
  forall cb w, exists w', fire cb w = Some w' /\ tq w' = tq w /\ calls w' = calls w.

Lemma armed_size (s : state TimeoutRecord) (A : gmap positive TimeoutRecord) :
  armed s A -> (base.size A <= base.size (dom (nodes s)))%nat.
Proof.
  intros (_ & (m & n & _ & _ & _ & _ & Hsub & _) & _).
  rewrite <- (size_dom A). by apply subseteq_size.
Qed.

(** The timers are [A], and the nodes are at the addresses [L]. *)
Definition armed_at (L : gset positive) (A : gmap positive TimeoutRecord) (w : world) : Prop :=
  armed (tq w) A /\ dom (nodes (tq w)) = L.

Lemma aside_fire (L : gset positive) :
  aside ->
  forall (A : gmap positive TimeoutRecord) (w : world) c v cb s1,
  armed_at L A w -> A !! c = Some v -> callback v = Some cb ->
  armed s1 (delete c A) -> this s1 = this (tq w) ->
  dom (nodes s1) = dom (nodes (tq w)) ->
  exists w', fire cb (mkWorld s1 (calls w ++ [(c, cb)]) (user w)) = Some w' /\
    armed_at L (delete c A) w' /\ calls w' = calls w ++ [(c, cb)].
Proof.
  intros Haside A w c v cb s1 [_ HL] _ _ Harm1 _ Hdom.
  destruct (Haside cb (mkWorld s1 (calls w ++ [(c, cb)]) (user w)))
    as (w' & Hfire & Htq & Hcalls).
  exists w'. split; [done|]. unfold armed_at. rewrite Htq, Hcalls. cbn [tq calls].
  by rewrite Hdom.
Qed.

Lemma run_events_spec (fuel : nat) (es : list (event CB)) :
  aside ->
  forall (A : gmap positive TimeoutRecord) (w : world),
  armed (tq w) A ->
  wf_events (dom (nodes (tq w))) es = true ->
  (base.size (dom (nodes (tq w))) <= fuel)%nat ->
  exists w', run_events fuel es w = Some (tt, w') /\
    armed (tq w') (timers_run es A) /\
    forall h, calls_of h (calls w') = calls_of h (calls w) ++ expected_calls h es A.
Proof.
  intros Haside. induction es as [|e es IH]; intros A [s cs u] Harm Hwf Hfuel;
    cbn [tq calls] in *.
  { exists (mkWorld s cs u). split; [done|]. split; [done|].
    intros h. cbn. by rewrite app_nil_r. }
  cbn [run_events expected_calls wf_events] in *.
  unfold timers_run. cbn [foldl]. fold (timers_run es (timers_step e A)).
  destruct e as [h now d cb|h|h|now]; cbn [run_event timers_step].
  - apply andb_true_iff in Hwf as [Hwf Hrest].
    apply andb_true_iff in Hwf as [Hwf Hhi]. apply andb_true_iff in Hwf as [Hh Hlo].
    apply bool_decide_eq_true in Hh. apply Z.leb_le in Hlo. apply Z.ltb_lt in Hhi.
    destruct (setTimeout_armed s A h now d cb Harm Hh ltac:(lia))
      as (s' & Hrun & Harm' & Hdom' & _).
    unfold wbind at 1, lift. cbn [tq calls user]. rewrite Hrun.
    destruct (IH _ (mkWorld s' cs u) Harm') as (w' & Hrun' & Harm'' & Hcalls);
      cbn [tq calls user]; rewrite ?Hdom'; try done.
    by exists w'.
  - apply andb_true_iff in Hwf as [Hh Hrest]. apply bool_decide_eq_true in Hh.
    destruct (clearTimeout_armed s A h Harm Hh) as (s' & Hrun & Harm' & Hdom' & _).
    unfold wbind at 1, lift. cbn [tq calls user]. rewrite Hrun.
    destruct (IH _ (mkWorld s' cs u) Harm') as (w' & Hrun' & Harm'' & Hcalls);
      cbn [tq calls user]; rewrite ?Hdom'; try done.
    by exists w'.
  - apply andb_true_iff in Hwf as [Hh Hrest]. apply bool_decide_eq_true in Hh.
    destruct (delete_handle_armed s A h Harm Hh) as (s' & Hrun & Harm' & Hdom' & _).
    unfold wbind at 1, lift. cbn [tq calls user]. rewrite Hrun.
    destruct (IH _ (mkWorld s' cs u) Harm') as (w' & Hrun' & Harm'' & Hcalls);
      cbn [tq calls user]; rewrite ?Hdom'; try done.
    { pose proof (subseteq_size (dom (nodes s) ∖ {[h]}) (dom (nodes s))
                    ltac:(apply subseteq_difference_l; done)). lia. }
    by exists w'.
  - destruct (processTimeouts_spec fire (armed_at (dom (nodes s)))
                ltac:(by intros ? ? [? _]) (aside_fire (dom (nodes s)) Haside)
                fuel now A (mkWorld s cs u) ltac:(done))
      as (w1 & F & Hrun & [Harm1 Hdom1] & Hcalls1 & HF).
    { pose proof (armed_size s A Harm). lia. }
    unfold wbind at 1. rewrite Hrun.
    destruct (IH _ w1 Harm1) as (w' & Hrun' & Harm'' & Hcalls);
      rewrite ?Hdom1; try done.
    exists w'. split; [done|]. split; [done|]. intros h.
    rewrite Hcalls, Hcalls1. cbn [calls]. by rewrite calls_of_app, HF, app_assoc.
Qed.

(** What the new queue and handles are. *)
Lemma armed_new_heap (h : positive) (mem : gmap positive (BinHeapNode TimeoutRecord)) :
  fresh mem = true -> Z.of_nat (base.size mem) < 2 ^ 63 ->
  armed (new_heap h mem) ∅.
Proof.
  intros Hfresh Hsize. split; [|split].
  - cbn [new_heap nodes]. by rewrite size_dom.
  - cbn [new_heap nodes]. rewrite dom_empty_L. by apply inv_new_heap.
  - intros c v. by rewrite lookup_empty.
Qed.

End Run.


(** Two handles, and numbers for callbacks that do nothing. *)
Definition example_world : world Z unit :=
  mkWorld (new_heap 9 (list_to_map [(1%positive, new_node (mkRecord 0 None));
                                    (2%positive, new_node (mkRecord 0 None))]))
          [] tt.

Definition no_effect (cb : Z) (w : world Z unit) : option (world Z unit) := Some w.

Definition example_events : list (event Z) :=
  [EvSet 1 100 5 7; EvProcess 105; EvProcess 106; EvProcess 107;
   EvSet 1 200 5 8; EvSet 1 201 10 9; EvProcess 207; EvProcess 212;
   EvSet 2 300 1 10; EvClear 2; EvProcess 400;
   EvSet 2 500 1 11; EvDestroy 2; EvProcess 600].



End TimeoutSpec.

(** * Reassembly of split packets (src/network/split.h, split.cpp) *)

Module Split.
Import BinHeap TimeoutQueue.

Definition SPLIT_TIMEOUT_MS : Z := 30.

(** [std::map<u16, ReceivedPacketPtr>]: the entries in ascending order
    of the keys. *)
Fixpoint map_find (k : Z) (l : list (Z * ReceivedPacket)) : option ReceivedPacket :=
  match l with
  | [] => None
  | (k', v) :: l' => if k' =? k then Some v else map_find k l'
  end.

Fixpoint map_emplace (k : Z) (v : ReceivedPacket) (l : list (Z * ReceivedPacket))
  : list (Z * ReceivedPacket) :=
  match l with
  | [] => [(k, v)]
  | (k', v') :: l' =>
      if k <? k' then (k, v) :: l
      else if k' =? k then l
      else (k', v') :: map_emplace k v l'
  end.

(** [struct IncomingSplitPacket].  Its [m_parent] is the one buffer
    there is here, and its [m_timeout_handle] is the member at its own
    address. *)
Record IncomingSplitPacket : Type := mkSplitPacket {
  m_seqnum : Z;
  m_chunks : list (Z * ReceivedPacket);
  m_chunk_count : Z;
  m_reliable : bool
}.

(** [class IncomingSplitBuffer], with the memory of the groups it
    allocates; [received] records what [m_data_received] was called
    with. *)
Record IncomingSplitBuffer : Type := mkSplitBuffer {
  m_buf : gmap Z positive;
  groups : gmap positive IncomingSplitPacket;
  received : list (list Z)
}.

Section Buffer.

(** The closures of the other users of the timeout queue. *)
Context {X : Type}.

(** The closures on the queue: [[this]() { m_parent->handleTimeout(this); }]
    of the group at [sp], or one of another user. *)
Inductive closure : Type :=
| OnSplitTimeout (sp : positive)
| Foreign (x : X).

Local Abbreviation world := (world closure IncomingSplitBuffer).
Local Abbreviation W := (W closure IncomingSplitBuffer).

Definition sanity_check (c : bool) : W unit := if c then wret tt else wfail.

Definition with_buffer (f : IncomingSplitBuffer -> IncomingSplitBuffer) : W unit :=
  fun w => Some (tt, mkWorld (tq w) (calls w) (f (user w))).

Definition load_group (sp : positive) : W IncomingSplitPacket :=
  fun w => match groups (user w) !! sp with
           | Some g => Some (g, w)
           | None => None
           end.

Definition store_group (sp : positive) (g : IncomingSplitPacket) : W unit :=
  with_buffer (fun b => mkSplitBuffer (m_buf b) (<[sp := g]> (groups b)) (received b)).

(** [operator new]: an address in use by nothing. *)
Definition alloc_group : W positive :=
  fun w => Some (fresh (dom (groups (user w)) ∪ dom (nodes (tq w)) ∪ {[this (tq w)]}), w).

Definition free_group (sp : positive) : W unit :=
  with_buffer (fun b => mkSplitBuffer (m_buf b) (delete sp (groups b)) (received b)).

(** [m_data_received(std::move(full_contents))] *)
Definition data_received (full : list Z) : W unit :=
  with_buffer (fun b => mkSplitBuffer (m_buf b) (groups b) (received b ++ [full])).

(** *** [IncomingSplitPacket] *)

(** [resetTimeout], the clock reading [now]. *)
Definition resetTimeout (sp : positive) (now : Z) : W unit :=
  wbind (load_group sp) (fun g =>
  if negb (m_reliable g) then
    lift (setTimeout sp now SPLIT_TIMEOUT_MS (Some (OnSplitTimeout sp)))
  else wret tt).

(** The constructor, at the address [sp]. *)
Definition new_group (sp : positive) (seqnum chunk_count : Z) (reliable : bool) (now : Z)
  : W unit :=
  wbind (store_group sp (mkSplitPacket seqnum [] chunk_count reliable)) (fun _ =>
  wbind (lift (new_handle sp)) (fun _ =>
  resetTimeout sp now)).

(** The destructor and [operator delete]. *)
Definition delete_group (sp : positive) : W unit :=
  wbind (lift (delete_handle sp)) (fun _ => free_group sp).

Definition allReceived (g : IncomingSplitPacket) : bool :=
  Z.of_nat (length (m_chunks g)) =? m_chunk_count g.

(** [IncomingSplitPacket::insert], the clock reading [now]. *)
Definition IncomingSplitPacket_insert (sp : positive) (rpkt : ReceivedPacket) (now : Z)
  : W unit :=
  wbind (load_group sp) (fun g =>
  let chunk_num := split_chunk_num rpkt in
  let chunk_count := split_chunk_count rpkt in
  wbind (sanity_check (chunk_num <? m_chunk_count g)) (fun _ =>
  if negb (m_chunk_count g =? chunk_count) then wret tt
  else
    match map_find chunk_num (m_chunks g) with
    | Some _ => wret tt
    | None =>
        wbind (store_group sp
                 (mkSplitPacket (m_seqnum g) (map_emplace chunk_num rpkt (m_chunks g))
                                (m_chunk_count g) (m_reliable g))) (fun _ =>
        resetTimeout sp now)
    end)).

(** [reassemble] *)
Definition reassemble (g : IncomingSplitPacket) : W (list Z) :=
  wbind (sanity_check (allReceived g)) (fun _ =>
  wret (concat (map (fun chunk => contents_bytes chunk.2) (m_chunks g)))).

(** *** [IncomingSplitBuffer] *)

(** [IncomingSplitBuffer::insert], the clock reading [now]. *)
Definition IncomingSplitBuffer_insert (rpkt : ReceivedPacket) (now : Z) : W unit :=
  wbind (sanity_check (bool_decide (type rpkt = RPT_SPLIT))) (fun _ =>
  let seqnum := split_seqnum rpkt in
  let chunk_count := split_chunk_count rpkt in
  wbind (fun w => Some (m_buf (user w) !! seqnum, w)) (fun it =>
  wbind (match it with
         | None =>
             wbind alloc_group (fun sp =>
             wbind (new_group sp seqnum chunk_count (is_reliable rpkt) now) (fun _ =>
             wbind (with_buffer (fun b =>
                      mkSplitBuffer (<[seqnum := sp]> (m_buf b)) (groups b) (received b)))
                   (fun _ => wret sp)))
         | Some sp => wret sp
         end) (fun sp =>
  wbind (IncomingSplitPacket_insert sp rpkt now) (fun _ =>
  wbind (load_group sp) (fun g =>
  if allReceived g then
    wbind (with_buffer (fun b =>
             mkSplitBuffer (delete seqnum (m_buf b)) (groups b) (received b))) (fun _ =>
    wbind (reassemble g) (fun full_contents =>
    wbind (delete_group sp) (fun _ =>
    data_received full_contents)))
  else wret tt))))).

(** [IncomingSplitBuffer::handleTimeout] *)
Definition handleTimeout (sp : positive) : W unit :=
  wbind (load_group sp) (fun g =>
  wbind (fun w => Some (m_buf (user w) !! m_seqnum g, w)) (fun it =>
  wbind (sanity_check (bool_decide (is_Some it))) (fun _ =>
  wbind (sanity_check (bool_decide (it = Some sp))) (fun _ =>
  wbind (with_buffer (fun b =>
           mkSplitBuffer (delete (m_seqnum g) (m_buf b)) (groups b) (received b))) (fun _ =>
  delete_group sp))))).

(** Running a closure; what those of the other users do is a
    parameter. *)
Variable foreign : X -> world -> option world.

Definition fire (cb : closure) (w : world) : option world :=
  match cb with
  | OnSplitTimeout sp => snd <$> handleTimeout sp w
  | Foreign x => foreign x w
  end.

End Buffer.

Arguments closure X : clear implicits.

End Split.

(** ** What the split buffer does to a packet *)

Module SplitFacts.
Import BinHeap BinHeapRep BinHeapSift BinHeapOps BinHeapFacts BinHeapView.
Import TimeoutQueue TimeoutFacts Split.

(** *** Chunk numbers in ascending order *)

(** A chunk number put in its place among others in ascending order. *)
Fixpoint place (k : Z) (ks : list Z) : list Z :=
  match ks with
  | [] => [k]
  | k' :: ks' =>
      if k <? k' then k :: ks
      else if k' =? k then ks
      else k' :: place k ks'
  end.

Lemma elem_of_place (k j : Z) (ks : list Z) : j ∈ place k ks <-> j = k \/ j ∈ ks.
Proof.
  induction ks as [|k' ks IH]; cbn [place].
  - rewrite list_elem_of_singleton, elem_of_nil. tauto.
  - destruct (Z.ltb_spec k k'); [rewrite !elem_of_cons; tauto|].
    destruct (Z.eqb_spec k' k) as [->|Hne]; [rewrite !elem_of_cons; tauto|].
    rewrite !elem_of_cons, IH. tauto.
Qed.

Lemma place_sorted (k : Z) (ks : list Z) :
  StronglySorted Z.lt ks -> StronglySorted Z.lt (place k ks).
Proof.
  induction ks as [|k' ks IH]; intros Hs; cbn [place].
  - repeat constructor.
  - inversion_clear Hs as [|? ? Hs' Hall].
    destruct (Z.ltb_spec k k').
    + constructor; [by constructor|]. constructor; [done|].
      eapply Forall_impl; [done|]. cbn. lia.
    + destruct (Z.eqb_spec k' k) as [->|Hne]; [by constructor|].
      constructor; [by apply IH|].
      apply Forall_forall. intros j Hj. apply elem_of_place in Hj as [->|Hj]; [lia|].
      by apply (proj1 (Forall_forall _ _) Hall).
Qed.

Lemma place_elem (k : Z) (ks : list Z) :
  StronglySorted Z.lt ks -> k ∈ ks -> place k ks = ks.
Proof.
  induction ks as [|k' ks IH]; intros Hs Hk; [by apply elem_of_nil in Hk|].
  inversion_clear Hs as [|? ? Hs' Hall]. cbn [place].
  apply elem_of_cons in Hk as [->|Hk].
  - by rewrite Z.ltb_irrefl, Z.eqb_refl.
  - pose proof (proj1 (Forall_forall _ _) Hall k Hk).
    rewrite (proj2 (Z.ltb_ge _ _)) by lia. rewrite (proj2 (Z.eqb_neq _ _)) by lia.
    by rewrite IH.
Qed.

Lemma place_length (k : Z) (ks : list Z) :
  k ∉ ks -> length (place k ks) = S (length ks).
Proof.
  induction ks as [|k' ks IH]; intros Hk; [done|]. cbn [place].
  apply not_elem_of_cons in Hk as [Hne Hk].
  destruct (Z.ltb_spec k k'); [done|].
  rewrite (proj2 (Z.eqb_neq _ _)) by done. cbn [length]. by rewrite IH.
Qed.

Lemma sorted_range_length (a b : Z) (ks : list Z) :
  a <= b -> StronglySorted Z.lt ks -> Forall (fun x => a <= x < b) ks ->
  Z.of_nat (length ks) <= b - a /\
  (Z.of_nat (length ks) = b - a -> ks = seqZ a (b - a)).
Proof.
  revert a. induction ks as [|k ks IH]; intros a Hab Hs Hr.
  - cbn [length]. split; [lia|]. intros Hl.
    replace (b - a) with 0 by lia. done.
  - inversion_clear Hs as [|? ? Hs' Hall]. inversion_clear Hr as [|? ? Hk Hr'].
    destruct (IH (k + 1) ltac:(lia) Hs') as [Hlen Hfull].
    { apply Forall_forall. intros x Hx.
      pose proof (proj1 (Forall_forall _ _) Hall x Hx).
      pose proof (proj1 (Forall_forall _ _) Hr' x Hx). cbn in *. lia. }
    cbn [length]. split; [lia|]. intros Hl.
    assert (k = a) as -> by lia.
    rewrite (seqZ_cons a (b - a)) by lia.
    f_equal. replace (Z.succ a) with (a + 1) by lia.
    replace (Z.pred (b - a)) with (b - (a + 1)) by lia. apply Hfull. lia.
Qed.

Lemma sorted_range_missing (a b y : Z) (ks : list Z) :
  StronglySorted Z.lt ks -> Forall (fun x => a <= x < b) ks ->
  a <= y < b -> y ∉ ks -> Z.of_nat (length ks) < b - a.
Proof.
  intros Hs Hr Hy Hno.
  destruct (sorted_range_length a b ks ltac:(lia) Hs Hr) as [Hlen Hfull].
  destruct (decide (Z.of_nat (length ks) = b - a)) as [Heq|]; [|lia].
  exfalso. apply Hno. rewrite (Hfull Heq). apply elem_of_seqZ. lia.
Qed.

(** The chunks of a group whose chunk numbers are [ks]. *)
Definition chunks_at (chunk : Z -> ReceivedPacket) (ks : list Z) : list (Z * ReceivedPacket) :=
  (fun i => (i, chunk i)) <$> ks.

Lemma map_find_chunks_at (chunk : Z -> ReceivedPacket) (k : Z) (ks : list Z) :
  map_find k (chunks_at chunk ks) = if bool_decide (k ∈ ks) then Some (chunk k) else None.
Proof.
  induction ks as [|k' ks IH]; cbn [chunks_at fmap list_fmap map_find]; [done|].
  destruct (Z.eqb_spec k' k) as [->|Hne].
  - by rewrite bool_decide_eq_true_2 by (by left).
  - fold (chunks_at chunk ks). rewrite IH.
    destruct (decide (k ∈ ks)).
    + by rewrite !bool_decide_eq_true_2 by (done || by right).
    + rewrite (bool_decide_eq_false_2 (k ∈ ks)) by done.
      rewrite bool_decide_eq_false_2; [done|].
      intros [?|?]%elem_of_cons; congruence.
Qed.

Lemma map_emplace_chunks_at (chunk : Z -> ReceivedPacket) (k : Z) (ks : list Z) :
  map_emplace k (chunk k) (chunks_at chunk ks) = chunks_at chunk (place k ks).
Proof.
  induction ks as [|k' ks IH]; cbn [chunks_at fmap list_fmap map_emplace place]; [done|].
  destruct (k <? k'); [done|]. destruct (k' =? k); [done|].
  fold (chunks_at chunk ks). by rewrite IH.
Qed.

Lemma contents_of_chunks_at (chunk : Z -> ReceivedPacket) (ks : list Z) :
  map (fun c : Z * ReceivedPacket => contents_bytes c.2) (chunks_at chunk ks)
  = map (fun j => contents_bytes (chunk j)) ks.
Proof. induction ks as [|k ks IH]; [done|]. cbn. by rewrite <- IH. Qed.

Lemma chunks_at_length (chunk : Z -> ReceivedPacket) (ks : list Z) :
  length (chunks_at chunk ks) = length ks.
Proof. apply length_fmap. Qed.

(** *** The buffer and the timers of its groups *)

Section Steps.

Context {X : Type}.

Local Abbreviation closure := (closure X).
Local Abbreviation TimeoutRecord := (TimeoutRecord closure).
Local Abbreviation world := (world closure IncomingSplitBuffer).
Local Abbreviation W := (W closure IncomingSplitBuffer).

(** The timer of the group at [sp]. *)
Definition timer_of (sp : positive) (e : Z) : TimeoutRecord :=
  mkRecord e (Some (OnSplitTimeout sp)).

(** Every group is in [m_buf] under its [seqnum], the groups that are
    not reliable are those with a timer, and the timers of the queue
    that run [handleTimeout] are theirs. *)
Record split_ok (A : gmap positive TimeoutRecord) (w : world) : Prop := mkSplitOk {
  ok_armed : armed (tq w) A;
  ok_group : forall sp g, groups (user w) !! sp = Some g ->
    sp ∈ dom (nodes (tq w)) /\ m_buf (user w) !! m_seqnum g = Some sp /\
    if m_reliable g then A !! sp = None else exists e, A !! sp = Some (timer_of sp e);
  ok_buf : forall q sp, m_buf (user w) !! q = Some sp ->
    exists g, groups (user w) !! sp = Some g /\ m_seqnum g = q;
  ok_timer : forall c v sp, A !! c = Some v -> callback v = Some (OnSplitTimeout sp) ->
    sp = c /\ is_Some (groups (user w) !! sp)
}.

(** [p] is chunk [i] of the group [q] of [C] chunks. *)
Definition chunk_of (q C : Z) (rel : bool) (i : Z) (p : ReceivedPacket) : Prop :=
  type p = RPT_SPLIT /\ split_seqnum p = q /\ split_chunk_count p = C /\
  split_chunk_num p = i /\ is_reliable p = rel.

Lemma wbind_assoc {A B C : Type} (m : W A) (f : A -> W B) (k : B -> W C) (w : world) :
  wbind (wbind m f) k w = wbind m (fun x => wbind (f x) k) w.
Proof. unfold wbind. by destruct (m w) as [[a w']|]. Qed.

Lemma wbind_ext {A B : Type} (m : W A) (f g : A -> W B) (w : world) :
  (forall a w', f a w' = g a w') -> wbind m f w = wbind m g w.
Proof. intros Hfg. unfold wbind. destruct (m w) as [[a w']|]; [apply Hfg|done]. Qed.

Lemma run_wret {A B : Type} (a : A) (k : A -> W B) (w : world) :
  wbind (wret a) k w = k a w.
Proof. done. Qed.

Lemma run_sanity {B : Type} (c : bool) (k : unit -> W B) (w : world) :
  c = true -> wbind (sanity_check c) k w = k tt w.
Proof. by intros ->. Qed.

Lemma run_load_group {B : Type} (sp : positive) (g : IncomingSplitPacket)
    (k : IncomingSplitPacket -> W B) (w : world) :
  groups (user w) !! sp = Some g -> wbind (load_group sp) k w = k g w.
Proof. intros Hg. unfold wbind, load_group. by rewrite Hg. Qed.

Lemma run_lift_at {A B : Type} (m : M TimeoutRecord A) (k : A -> W B) (w : world)
    (a : A) (s' : state TimeoutRecord) :
  m (tq w) = Some (a, s') ->
  wbind (lift m) k w = k a (mkWorld s' (calls w) (user w)).
Proof. intros Hm. unfold wbind, lift. by rewrite Hm. Qed.

(** [resetTimeout] arms the timer of a group that is not reliable. *)
Definition rearmed (rel : bool) (sp : positive) (t : Z) (A : gmap positive TimeoutRecord)
  : gmap positive TimeoutRecord :=
  if rel then A else <[sp := timer_of sp (t + SPLIT_TIMEOUT_MS)]> A.

Lemma resetTimeout_armed (A : gmap positive TimeoutRecord)
    (s : state TimeoutRecord) (cs : list (positive * closure)) (b : IncomingSplitBuffer)
    (sp : positive) (g : IncomingSplitPacket) (t : Z) :
  armed s A -> sp ∈ dom (nodes s) -> groups b !! sp = Some g ->
  0 <= t + SPLIT_TIMEOUT_MS < 2 ^ 64 ->
  exists s',
    (forall (B : Type) (k : unit -> W B),
       wbind (resetTimeout sp t) k (mkWorld s cs b) = k tt (mkWorld s' cs b)) /\
    armed s' (rearmed (m_reliable g) sp t A) /\
    dom (nodes s') = dom (nodes s) /\ this s' = this s.
Proof.
  intros Harm Hsp Hg Ht. unfold resetTimeout, rearmed.
  destruct (m_reliable g) eqn:Hrel.
  - exists s. split; [|done]. intros B k.
    rewrite wbind_assoc. rewrite (run_load_group sp g) by done.
    rewrite Hrel. cbn [negb]. by rewrite run_wret.
  - destruct (setTimeout_armed s A sp t SPLIT_TIMEOUT_MS (OnSplitTimeout sp) Harm Hsp Ht)
      as (s' & Hrun & Harm' & Hdom & Hthis).
    exists s'. split; [|done]. intros B k.
    rewrite wbind_assoc. rewrite (run_load_group sp g) by done.
    rewrite Hrel. cbn [negb]. by rewrite (run_lift_at _ _ _ tt s').
Qed.

Lemma run_with_buffer {B : Type} (f : IncomingSplitBuffer -> IncomingSplitBuffer)
    (k : unit -> W B) (w : world) :
  wbind (with_buffer f) k w = k tt (mkWorld (tq w) (calls w) (f (user w))).
Proof. done. Qed.

(** What [IncomingSplitBuffer::insert] does once it has the group. *)
Definition insert_tail (sp : positive) (rpkt : ReceivedPacket) (now : Z) : W unit :=
  wbind (IncomingSplitPacket_insert sp rpkt now) (fun _ =>
  wbind (load_group sp) (fun g =>
  if allReceived g then
    wbind (with_buffer (fun b =>
             mkSplitBuffer (delete (split_seqnum rpkt) (m_buf b)) (groups b) (received b)))
          (fun _ =>
    wbind (reassemble g) (fun full_contents =>
    wbind (delete_group sp) (fun _ =>
    data_received full_contents)))
  else wret tt)).

(** The outcome for the group [q]: reassembled and gone, or there with
    the chunks it has and, if it is not reliable and the chunk was
    accepted at time [t], with its timer set from then. *)
Definition outcome (chunk : Z -> ReceivedPacket) (q C : Z) (rel : bool) (ks : list Z)
    (rc : list (list Z)) (accepted : Prop) (t : Z)
    (A' : gmap positive TimeoutRecord) (w' : world) : Prop :=
  if Z.of_nat (length ks) =? C then
    m_buf (user w') !! q = None /\
    received (user w') = rc ++ [concat (map (fun j => contents_bytes (chunk j)) ks)]
  else
    received (user w') = rc /\
    exists sp, m_buf (user w') !! q = Some sp /\
      groups (user w') !! sp = Some (mkSplitPacket q (chunks_at chunk ks) C rel) /\
      (rel = true -> A' !! sp = None) /\
      (rel = false -> accepted -> A' !! sp = Some (timer_of sp (t + SPLIT_TIMEOUT_MS))).

Lemma insert_tail_spec (A : gmap positive TimeoutRecord) (s : state TimeoutRecord)
    (cs : list (positive * closure)) (mb : gmap Z positive)
    (gs : gmap positive IncomingSplitPacket) (rc : list (list Z))
    (q C : Z) (rel : bool) (sp : positive) (chunk : Z -> ReceivedPacket)
    (ks : list Z) (i t : Z) :
  split_ok A (mkWorld s cs (mkSplitBuffer mb gs rc)) ->
  mb !! q = Some sp ->
  gs !! sp = Some (mkSplitPacket q (chunks_at chunk ks) C rel) ->
  StronglySorted Z.lt ks -> Z.of_nat (length ks) < C ->
  chunk_of q C rel i (chunk i) -> 0 <= i < C ->
  0 <= t + SPLIT_TIMEOUT_MS < 2 ^ 64 ->
  exists w' A', insert_tail sp (chunk i) t (mkWorld s cs (mkSplitBuffer mb gs rc))
                = Some (tt, w') /\
    split_ok A' w' /\ dom (nodes (tq w')) ⊆ dom (nodes s) /\ calls w' = cs /\
    outcome chunk q C rel (place i ks) rc (i ∉ ks) t A' w'.
Proof.
  intros [Harm Hgroup Hbuf Htimer] Hmb Hg Hs Hlen (Hty & Hq & HC & Hi & Hrel) Hir Ht.
  cbn [tq user m_buf groups] in *.
  destruct (Hgroup sp _ Hg) as (Hsp & _ & Htm). cbn [m_reliable] in Htm.
  unfold insert_tail, IncomingSplitPacket_insert.
  rewrite wbind_assoc. rewrite (run_load_group sp _) by done.
  cbn [m_chunk_count m_chunks m_seqnum m_reliable].
  rewrite Hi, HC.
  rewrite wbind_assoc, run_sanity by (apply Z.ltb_lt; lia).
  rewrite Z.eqb_refl. cbn [negb].
  rewrite map_find_chunks_at.
  destruct (decide (i ∈ ks)) as [Hin|Hin].
  - rewrite bool_decide_eq_true_2 by done. rewrite run_wret.
    rewrite (run_load_group sp _) by done. unfold allReceived.
    cbn [m_chunk_count m_chunks]. rewrite chunks_at_length.
    rewrite (proj2 (Z.eqb_neq _ _)) by lia.
    eexists _, A. split; [reflexivity|]. split; [by constructor|].
    split; [done|]. split; [done|].
    unfold outcome. rewrite place_elem by done.
    rewrite (proj2 (Z.eqb_neq _ _)) by lia. cbn [user m_buf groups received].
    split; [done|]. exists sp. split; [done|]. split; [done|].
    split; [by intros ->|done].
  - rewrite bool_decide_eq_false_2 by done.
    rewrite wbind_assoc. unfold store_group. rewrite run_with_buffer.
    cbn [tq calls user m_buf groups received].
    rewrite map_emplace_chunks_at.
    set (g' := mkSplitPacket q (chunks_at chunk (place i ks)) C rel).
    destruct (resetTimeout_armed A s cs (mkSplitBuffer mb (<[sp := g']> gs) rc) sp g' t
                Harm Hsp ltac:(apply lookup_insert_eq) Ht)
      as (s' & Hrun & Harm' & Hdom' & Hthis').
    rewrite Hrun. cbn [m_reliable g'] in Harm'.
    rewrite (run_load_group sp g') by apply lookup_insert_eq.
    unfold allReceived. cbn [m_chunk_count m_chunks g'].
    rewrite chunks_at_length.
    assert (Hgs : forall sp0 g0, sp <> sp0 -> gs !! sp0 = Some g0 ->
              m_seqnum g0 <> q).
    { intros sp0 g0 Hne Hg0 Heq. destruct (Hgroup sp0 g0 Hg0) as (_ & Hmb0 & _).
      rewrite Heq in Hmb0. congruence. }
    assert (HA' : forall c, sp <> c -> rearmed rel sp t A !! c = A !! c).
    { intros c Hc. unfold rearmed. destruct rel; [done|]. by rewrite lookup_insert_ne. }
    destruct (Z.eqb_spec (Z.of_nat (length (place i ks))) C) as [Hfull|Hnot].
    + rewrite run_with_buffer. cbn [tq calls user m_buf groups received].
      unfold reassemble. rewrite wbind_assoc, run_sanity.
      2:{ unfold allReceived. cbn [m_chunk_count m_chunks g'].
          rewrite chunks_at_length. by apply Z.eqb_eq. }
      rewrite run_wret. unfold delete_group. rewrite wbind_assoc.
      destruct (delete_handle_armed s' _ sp Harm' ltac:(by rewrite Hdom'))
        as (s'' & Hrun'' & Harm'' & Hdom'' & Hthis'').
      rewrite (run_lift_at _ _ _ tt s'') by done.
      cbn [tq calls user m_buf groups received].
      unfold free_group. rewrite run_with_buffer.
      cbn [tq calls user m_buf groups received].
      eexists _, _. split; [reflexivity|].
      cbn [tq calls user m_buf groups received g' m_chunks].
      rewrite delete_insert_eq, Hq.
      split; [|split; [|split; [done|]]].
      * constructor; cbn [tq calls user m_buf groups received].
        -- done.
        -- intros sp0 g0 Hg0. apply lookup_delete_Some in Hg0 as [Hne Hg0].
           destruct (Hgroup sp0 g0 Hg0) as (Hsp0 & Hmb0 & Htm0).
           split; [|split].
           ++ rewrite Hdom'', Hdom', elem_of_difference, elem_of_singleton. done.
           ++ rewrite lookup_delete_ne; [done|]. intros Heq.
              by apply (Hgs sp0 g0 Hne Hg0).
           ++ by rewrite lookup_delete_ne, HA' by done.
        -- intros q0 sp0 Hq0. apply lookup_delete_Some in Hq0 as [Hne Hq0].
           destruct (Hbuf q0 sp0 Hq0) as (g0 & Hg0 & Hseq).
           exists g0. split; [|done]. rewrite lookup_delete_ne; [done|].
           intros ->. rewrite Hg in Hg0. by simplify_eq.
        -- intros c v sp1 Hc Hcb. apply lookup_delete_Some in Hc as [Hne Hc].
           rewrite HA' in Hc by done. destruct (Htimer c v sp1 Hc Hcb) as [-> Hsome].
           split; [done|]. by rewrite lookup_delete_ne.
      * rewrite Hdom'', Hdom'. apply subseteq_difference_l. done.
      * unfold outcome. rewrite (proj2 (Z.eqb_eq _ _)) by done.
        cbn [tq calls user m_buf groups received].
        split; [by rewrite lookup_delete_eq|].
        by rewrite contents_of_chunks_at.
    + eexists _, (rearmed rel sp t A). split; [reflexivity|].
      cbn [tq calls user m_buf groups received].
      assert (Hsp' : rearmed rel sp t A !! sp
                = if rel then None else Some (timer_of sp (t + SPLIT_TIMEOUT_MS))).
      { unfold rearmed. destruct rel; [done|]. by rewrite lookup_insert_eq. }
      split; [|split; [|split; [done|]]].
      * constructor; cbn [tq calls user m_buf groups received].
        -- done.
        -- intros sp0 g0 Hg0. apply lookup_insert_Some in Hg0 as [[<- <-]|[Hne Hg0]].
           ++ cbn [g' m_seqnum m_reliable]. rewrite Hdom', Hsp'.
              split; [done|]. split; [done|]. destruct rel; [done|by eexists].
           ++ destruct (Hgroup sp0 g0 Hg0) as (Hsp0 & Hmb0 & Htm0).
              rewrite Hdom', HA' by done. done.
        -- intros q0 sp0 Hq0. destruct (Hbuf q0 sp0 Hq0) as (g0 & Hg0 & Hseq).
           destruct (decide (sp = sp0)) as [<-|Hne].
           ++ exists g'. rewrite lookup_insert_eq. split; [done|].
              rewrite Hg in Hg0. by simplify_eq.
           ++ exists g0. by rewrite lookup_insert_ne.
        -- intros c v sp1 Hc Hcb. destruct (decide (sp = c)) as [<-|Hne].
           ++ rewrite Hsp' in Hc. destruct rel; simplify_eq. cbn in Hcb. simplify_eq.
              split; [done|]. rewrite lookup_insert_eq. by eexists.
           ++ rewrite HA' in Hc by done. destruct (Htimer c v sp1 Hc Hcb) as [-> Hsome].
              split; [done|]. by rewrite lookup_insert_ne.
      * by rewrite Hdom'.
      * unfold outcome. rewrite (proj2 (Z.eqb_neq _ _)) by done.
        cbn [tq calls user m_buf groups received].
        split; [done|]. exists sp. split; [done|]. split; [by rewrite lookup_insert_eq|].
        split; [intros ->; by rewrite Hsp'|intros -> _; by rewrite Hsp'].
Qed.

Lemma insert_unfold (rpkt : ReceivedPacket) (now : Z) (w : world) :
  type rpkt = RPT_SPLIT ->
  IncomingSplitBuffer_insert rpkt now w
  = match m_buf (user w) !! split_seqnum rpkt with
    | Some sp => insert_tail sp rpkt now w
    | None =>
        wbind alloc_group (fun sp =>
        wbind (new_group sp (split_seqnum rpkt) (split_chunk_count rpkt)
                 (is_reliable rpkt) now) (fun _ =>
        wbind (with_buffer (fun b =>
                 mkSplitBuffer (<[split_seqnum rpkt := sp]> (m_buf b)) (groups b)
                               (received b))) (fun _ =>
        insert_tail sp rpkt now))) w
    end.
Proof.
  intros Hty. unfold IncomingSplitBuffer_insert.
  rewrite run_sanity by (by apply bool_decide_eq_true_2).
  unfold wbind at 1. destruct (m_buf (user w) !! split_seqnum rpkt) as [sp|]; [done|].
  rewrite wbind_assoc. apply wbind_ext. intros sp w1.
  rewrite wbind_assoc. apply wbind_ext. intros [] w2.
  rewrite wbind_assoc. apply wbind_ext. intros [] w3.
  by rewrite run_wret.
Qed.

(** A packet of a group that is there. *)
Lemma insert_present (A : gmap positive TimeoutRecord) (w : world)
    (q C : Z) (rel : bool) (sp : positive) (chunk : Z -> ReceivedPacket)
    (ks : list Z) (i t : Z) :
  split_ok A w ->
  m_buf (user w) !! q = Some sp ->
  groups (user w) !! sp = Some (mkSplitPacket q (chunks_at chunk ks) C rel) ->
  StronglySorted Z.lt ks -> Z.of_nat (length ks) < C ->
  chunk_of q C rel i (chunk i) -> 0 <= i < C ->
  0 <= t + SPLIT_TIMEOUT_MS < 2 ^ 64 ->
  exists w' A', IncomingSplitBuffer_insert (chunk i) t w = Some (tt, w') /\
    split_ok A' w' /\ dom (nodes (tq w')) ⊆ dom (nodes (tq w)) /\ calls w' = calls w /\
    outcome chunk q C rel (place i ks) (received (user w)) (i ∉ ks) t A' w'.
Proof.
  intros Hok Hmb Hg Hs Hlen Hchunk Hi Ht. destruct w as [s cs [mb gs rc]].
  cbn [tq calls user m_buf groups received] in *.
  rewrite insert_unfold by apply Hchunk. cbn [tq calls user m_buf groups received].
  rewrite (proj1 (proj2 Hchunk)), Hmb.
  by apply (insert_tail_spec A s cs mb gs rc q C rel sp chunk ks i t).
Qed.

(** The first packet of a group. *)
Lemma insert_absent (A : gmap positive TimeoutRecord) (w : world)
    (q C : Z) (rel : bool) (chunk : Z -> ReceivedPacket) (i t : Z) :
  split_ok A w ->
  m_buf (user w) !! q = None ->
  chunk_of q C rel i (chunk i) -> 0 <= i < C ->
  0 <= t + SPLIT_TIMEOUT_MS < 2 ^ 64 ->
  Z.of_nat (base.size (dom (nodes (tq w)))) + 1 < 2 ^ 63 ->
  exists w' A', IncomingSplitBuffer_insert (chunk i) t w = Some (tt, w') /\
    split_ok A' w' /\
    (base.size (dom (nodes (tq w'))) <= S (base.size (dom (nodes (tq w)))))%nat /\
    calls w' = calls w /\
    outcome chunk q C rel [i] (received (user w)) True t A' w'.
Proof.
  intros [Harm Hgroup Hbuf Htimer] Hmb Hchunk Hi Ht Hroom.
  destruct w as [s cs [mb gs rc]]. cbn [tq calls user m_buf groups received] in *.
  rewrite insert_unfold by apply Hchunk. cbn [tq calls user m_buf groups received].
  destruct Hchunk as (Hty & Hq & HC & Hnum & Hrel).
  rewrite Hq, HC, Hrel, Hmb.
  unfold wbind at 1, alloc_group. cbn [tq calls user m_buf groups received].
  set (sp := base.fresh (dom gs ∪ dom (nodes s) ∪ {[this s]})).
  assert ((sp ∉ dom gs) /\ (sp ∉ dom (nodes s))) as [Hsp_gs Hsp_s].
  { pose proof (is_fresh (dom gs ∪ dom (nodes s) ∪ {[this s]})) as Hf. fold sp in Hf.
    rewrite !elem_of_union in Hf. tauto. }
  set (g0 := mkSplitPacket q [] C rel).
  unfold new_group. rewrite !wbind_assoc. unfold store_group. rewrite run_with_buffer.
  cbn [tq calls user m_buf groups received].
  destruct (new_handle_armed s A sp Harm Hsp_s Hroom) as (s1 & Hrun1 & Harm1 & Hdom1 & Hthis1).
  rewrite !wbind_assoc. rewrite (run_lift_at _ _ _ tt s1) by done.
  cbn [tq calls user m_buf groups received].
  destruct (resetTimeout_armed A s1 cs (mkSplitBuffer mb (<[sp := g0]> gs) rc) sp g0 t
              Harm1 ltac:(rewrite Hdom1; apply elem_of_union; left; by apply elem_of_singleton)
              ltac:(apply lookup_insert_eq) Ht)
    as (s2 & Hrun2 & Harm2 & Hdom2 & Hthis2).
  rewrite Hrun2, run_with_buffer. cbn [tq calls user m_buf groups received m_reliable g0] in *.
  assert (HA1 : forall c, sp <> c -> rearmed rel sp t A !! c = A !! c).
  { intros c Hc. unfold rearmed. destruct rel; [done|]. by rewrite lookup_insert_ne. }
  assert (Hsp1 : rearmed rel sp t A !! sp
            = if rel then A !! sp else Some (timer_of sp (t + SPLIT_TIMEOUT_MS))).
  { unfold rearmed. destruct rel; [done|]. by rewrite lookup_insert_eq. }
  assert (HspA : A !! sp = None).
  { apply not_elem_of_dom. intros HA. apply Hsp_s.
    destruct Harm as (_ & (m & n & _ & _ & _ & _ & Hsub & _) & _). by apply Hsub. }
  destruct (insert_tail_spec (rearmed rel sp t A) s2 cs (<[q := sp]> mb) (<[sp := g0]> gs) rc
              q C rel sp chunk [] i t)
    as (w' & A' & Hrun & Hok' & Hdom' & Hcalls & Hout);
    try done; try lia; try apply lookup_insert_eq; try constructor;
    cbn [tq calls user m_buf groups received].
  - done.
  - intros sp0 g1 Hg1. apply lookup_insert_Some in Hg1 as [[<- <-]|[Hne Hg1]].
    + cbn [g0 m_seqnum m_reliable]. rewrite Hdom2, Hdom1, Hsp1, HspA, lookup_insert_eq.
      split; [apply elem_of_union; left; by apply elem_of_singleton|].
      split; [done|]. destruct rel; [done|by eexists].
    + destruct (Hgroup sp0 g1 Hg1) as (Hsp0 & Hmb0 & Htm0).
      rewrite Hdom2, Hdom1, HA1 by done.
      split; [apply elem_of_union; by right|]. split; [|done].
      rewrite lookup_insert_ne; [done|]. intros Heq. rewrite <- Heq in Hmb0. congruence.
  - intros q0 sp0 Hq0. apply lookup_insert_Some in Hq0 as [[<- <-]|[Hne Hq0]].
    + exists g0. by rewrite lookup_insert_eq.
    + destruct (Hbuf q0 sp0 Hq0) as (g1 & Hg1 & Hseq). exists g1. split; [|done].
      rewrite lookup_insert_ne; [done|]. intros <-. apply Hsp_gs.
      apply elem_of_dom. by eexists.
  - intros c v sp1 Hc Hcb. destruct (decide (sp = c)) as [<-|Hne].
    + rewrite Hsp1, HspA in Hc. destruct rel; simplify_eq. cbn in Hcb. simplify_eq.
      split; [done|]. rewrite lookup_insert_eq. by eexists.
    + rewrite HA1 in Hc by done. destruct (Htimer c v sp1 Hc Hcb) as [-> Hsome].
      split; [done|]. by rewrite lookup_insert_ne.
  - cbn [length]. lia.
  - exists w', A'. split; [done|]. split; [done|]. split; [|split; [done|]].
    + pose proof (subseteq_size _ _ Hdom') as Hle. rewrite Hdom2, Hdom1 in Hle.
      rewrite size_union in Hle by (by apply disjoint_singleton_l).
      rewrite size_singleton in Hle. lia.
    + cbn [place] in Hout. unfold outcome in *.
      destruct (Z.of_nat (length [i]) =? C); [done|].
      destruct Hout as (Hrc & sp' & Hmb' & Hg' & Hrel' & Harm').
      split; [done|]. exists sp'. split; [done|]. split; [done|]. split; [done|].
      intros Hr _. apply Harm'; [done|]. apply not_elem_of_nil.
Qed.

End Steps.

End SplitFacts.

(** ** Reassembly *)

Module SplitSpec.
Import BinHeap BinHeapRep BinHeapSift BinHeapOps BinHeapFacts BinHeapView.
Import TimeoutQueue TimeoutFacts Split SplitFacts.

Section Reassembly.

Context {X : Type}.

Local Abbreviation closure := (closure X).
Local Abbreviation TimeoutRecord := (TimeoutRecord closure).
Local Abbreviation world := (world closure IncomingSplitBuffer).
Local Abbreviation W := (W closure IncomingSplitBuffer).

(** Packets passed to [IncomingSplitBuffer::insert] one after the
    other, each with the reading of the clock. *)
Fixpoint insert_all (ps : list (ReceivedPacket * Z)) : W unit :=
  match ps with
  | [] => wret tt
  | (p, t) :: ps' => wbind (IncomingSplitBuffer_insert p t) (fun _ => insert_all ps')
  end.

(** The chunks of one group, by their numbers, as they arrive. *)
Definition arrivals (chunk : Z -> ReceivedPacket) (l : list (Z * Z))
  : list (ReceivedPacket * Z) :=
  (fun it => (chunk it.1, it.2)) <$> l.

Definition arrival_ok (C : Z) (it : Z * Z) : Prop :=
  0 <= it.1 < C /\ 0 <= it.2 + SPLIT_TIMEOUT_MS < 2 ^ 64.

Variable chunk : Z -> ReceivedPacket.
Variables (q C : Z) (rel : bool).
Hypothesis Hchunk : forall i, 0 <= i < C -> chunk_of q C rel i (chunk i).

(** The group is there, with the chunks of the numbers [ks], and
    chunk [last] is not among them. *)
Definition partial (last : Z) (ks : list Z) (rc : list (list Z)) (w : world) : Prop :=
  StronglySorted Z.lt ks /\ Forall (fun x => 0 <= x < C) ks /\ (last ∉ ks) /\
  received (user w) = rc /\
  exists sp, m_buf (user w) !! q = Some sp /\
    groups (user w) !! sp = Some (mkSplitPacket q (chunks_at chunk ks) C rel).

Lemma place_range (i : Z) (ks : list Z) :
  0 <= i < C -> Forall (fun x => 0 <= x < C) ks -> Forall (fun x => 0 <= x < C) (place i ks).
Proof.
  intros Hi Hks. apply Forall_forall. intros x Hx.
  apply elem_of_place in Hx as [->|Hx]; [done|].
  by apply (proj1 (Forall_forall _ _) Hks).
Qed.

(** Chunks that come while chunk [last] is missing are kept, or
    dropped if they are there already. *)
Lemma insert_all_partial (last : Z) (pre : list (Z * Z)) :
  0 <= last < C -> last ∉ pre.*1 -> Forall (arrival_ok C) pre ->
  forall (ks : list Z) (A : gmap positive TimeoutRecord) (w : world),
  split_ok A w -> partial last ks (received (user w)) w ->
  exists w' A' ks', insert_all (arrivals chunk pre) w = Some (tt, w') /\
    split_ok A' w' /\ partial last ks' (received (user w)) w' /\
    dom (nodes (tq w')) ⊆ dom (nodes (tq w)) /\
    (forall j, j ∈ ks' <-> j ∈ ks \/ j ∈ pre.*1).
Proof.
  intros Hlast. induction pre as [|[i t] pre IH]; intros Hno Hpre ks A w Hok Hpart.
  - exists w, A, ks. split; [done|]. split; [done|]. split; [done|]. split; [done|].
    intros j. cbn. rewrite elem_of_nil. tauto.
  - cbn [fmap list_fmap fst] in Hno. apply not_elem_of_cons in Hno as [Hne Hno].
    inversion_clear Hpre as [|? ? [Hi Ht] Hpre']. cbn [fst snd] in Hi, Ht.
    destruct Hpart as (Hs & Hr & Hmiss & Hrc & sp & Hmb & Hg).
    destruct (insert_present A w q C rel sp chunk ks i t Hok Hmb Hg Hs)
      as (w1 & A1 & Hrun1 & Hok1 & Hdom1 & Hcalls1 & Hout1); try done.
    { by apply (sorted_range_missing 0 C last ks) in Hmiss; [lia|..]. }
    { by apply Hchunk. }
    assert (Hmiss1 : last ∉ place i ks).
    { intros [?|?]%elem_of_place; [lia|done]. }
    assert (Hlen1 : Z.of_nat (length (place i ks)) < C).
    { apply (sorted_range_missing 0 C last) in Hmiss1; [lia|by apply place_sorted| |done].
      by apply place_range. }
    unfold outcome in Hout1. rewrite (proj2 (Z.eqb_neq _ _)) in Hout1 by lia.
    destruct Hout1 as (Hrc1 & sp1 & Hmb1 & Hg1 & _).
    destruct (IH Hno Hpre' (place i ks) A1 w1 Hok1) as (w' & A' & ks' & Hrun & Hok' & Hpart' & Hdom' & Hks').
    { split; [by apply place_sorted|]. split; [by apply place_range|].
      split; [done|]. split; [done|]. by exists sp1. }
    exists w', A', ks'. cbn [arrivals fmap list_fmap insert_all fst snd].
    unfold wbind at 1. rewrite Hrun1. fold (arrivals chunk pre).
    split; [done|]. split; [done|]. split; [by rewrite <- Hrc1|].
    split; [by etrans|].
    intros j. rewrite Hks', elem_of_place. cbn [fmap list_fmap fst].
    rewrite elem_of_cons. tauto.
Qed.

Lemma all_chunks (ks : list Z) :
  StronglySorted Z.lt ks -> Forall (fun x => 0 <= x < C) ks -> 0 <= C ->
  (forall i, 0 <= i < C -> i ∈ ks) ->
  Z.of_nat (length ks) = C /\ ks = seqZ 0 C.
Proof.
  intros Hs Hr HC Hall.
  destruct (sorted_range_length 0 C ks HC Hs Hr) as [Hle Hfull].
  assert (seqZ 0 C ⊆+ ks) as Hsub.
  { apply NoDup_submseteq; [apply NoDup_seqZ|]. intros x Hx.
    apply elem_of_seqZ in Hx. apply Hall. lia. }
  apply submseteq_length in Hsub. rewrite length_seqZ in Hsub.
  assert (Z.of_nat (length ks) = C) as Hlen by lia.
  split; [done|]. rewrite Z.sub_0_r in Hfull. by apply Hfull.
Qed.

(** The chunk that was missing completes the group. *)
Lemma insert_last (last t : Z) (ks : list Z) (A : gmap positive TimeoutRecord) (w : world) :
  split_ok A w -> partial last ks (received (user w)) w ->
  (forall i, 0 <= i < C -> i = last \/ i ∈ ks) ->
  arrival_ok C (last, t) ->
  exists w' A', IncomingSplitBuffer_insert (chunk last) t w = Some (tt, w') /\
    split_ok A' w' /\
    received (user w')
    = received (user w) ++ [concat (map (fun j => contents_bytes (chunk j)) (seqZ 0 C))] /\
    m_buf (user w') !! q = None.
Proof.
  intros Hok (Hs & Hr & Hmiss & _ & sp & Hmb & Hg) Hall [Hlast Ht]. cbn [fst snd] in *.
  destruct (insert_present A w q C rel sp chunk ks last t Hok Hmb Hg Hs)
    as (w' & A' & Hrun & Hok' & _ & _ & Hout); try done.
  { by apply (sorted_range_missing 0 C last ks) in Hmiss; [lia|..]. }
  { by apply Hchunk. }
  destruct (all_chunks (place last ks)) as [Hlen Hseq].
  { by apply place_sorted. } { by apply place_range. } { lia. }
  { intros i Hi. apply elem_of_place. by apply Hall. }
  unfold outcome in Hout. rewrite (proj2 (Z.eqb_eq _ _)) in Hout by done.
  rewrite Hseq in Hout. destruct Hout as [Hmb' Hrc'].
  by exists w', A'.
Qed.

Lemma insert_all_app (ps1 ps2 : list (ReceivedPacket * Z)) (w : world) :
  insert_all (ps1 ++ ps2) w = wbind (insert_all ps1) (fun _ => insert_all ps2) w.
Proof.
  revert w. induction ps1 as [|[p t] ps1 IH]; intros w; [done|].
  cbn [app insert_all]. rewrite wbind_assoc. apply wbind_ext. intros [] w'. apply IH.
Qed.

End Reassembly.

(** A buffer with no group in it, on a new queue. *)
Lemma split_ok_new_heap {X : Type} (h : positive)
    (mem : gmap positive (BinHeapNode (TimeoutRecord (closure X))))
    (cs : list (positive * closure X)) (rc : list (list Z)) :
  fresh mem = true -> Z.of_nat (base.size mem) < 2 ^ 63 ->
  split_ok ∅ (mkWorld (new_heap h mem) cs (mkSplitBuffer ∅ ∅ rc)).
Proof.
  intros Hfresh Hsize. split; cbn [tq user groups m_buf].
  - by apply TimeoutSpec.armed_new_heap.
  - intros sp g. by rewrite lookup_empty.
  - intros q sp. by rewrite lookup_empty.
  - intros c v sp. by rewrite lookup_empty.
Qed.


(** A group of three chunks of two bytes each, not reliable. *)
Definition example_chunk (i : Z) : ReceivedPacket :=
  mkReceivedPacket 0 [10 + i; 20 + i] 2 0 0 0 RPT_SPLIT false 0 0 0 0 7 3 i 0 2.

Definition example_buffer : world (closure Empty_set) IncomingSplitBuffer :=
  mkWorld (new_heap 1 ∅) [] (mkSplitBuffer ∅ ∅ []).


(** The one chunk of a group of one chunk. *)
Definition single_chunk : ReceivedPacket :=
  mkReceivedPacket 0 [42] 1 0 0 0 RPT_SPLIT false 0 0 0 0 7 1 0 0 1.


End SplitSpec.

(** ** A chunk whose [chunk_count] is not that of its group *)

Module SplitMismatch.
Import BinHeap TimeoutQueue Split SplitFacts SplitSpec.

(** C8.  A split packet comes for a group that is in the buffer, and
    its [chunk_count] is not that of the group.  When its [chunk_num]
    is below the [chunk_count] of the group, [IncomingSplitBuffer::insert]
    returns and leaves everything as it was: the buffer, the group, the
    queue of timeouts and the calls made.  When its [chunk_num] is not
    below the [chunk_count] of the group, the [sanity_check] at the
    start of [IncomingSplitPacket::insert] fails before the two counts
    are compared. *)
Theorem chunk_count_mismatch_ignored_or_fatal {X : Type} (rpkt : ReceivedPacket) (now : Z)
    (w : world (closure X) IncomingSplitBuffer) (sp : positive) (g : IncomingSplitPacket) :
  type rpkt = RPT_SPLIT ->
  m_buf (user w) !! split_seqnum rpkt = Some sp ->
  groups (user w) !! sp = Some g ->
  allReceived g = false ->
  split_chunk_count rpkt <> m_chunk_count g ->
  IncomingSplitBuffer_insert rpkt now w
  = if split_chunk_num rpkt <? m_chunk_count g then Some (tt, w) else None.
Proof.
  intros Hty Hmb Hg Hall Hne.
  unfold IncomingSplitBuffer_insert, IncomingSplitPacket_insert.
  rewrite (bool_decide_eq_true_2 _ Hty).
  unfold sanity_check at 1. rewrite run_wret.
  unfold wbind at 1. rewrite Hmb. rewrite run_wret.
  unfold wbind at 1. unfold wbind at 1. unfold load_group at 1. rewrite Hg.
  destruct (split_chunk_num rpkt <? m_chunk_count g); unfold sanity_check at 1.
  - rewrite run_wret.
    rewrite (proj2 (Z.eqb_neq (m_chunk_count g) (split_chunk_count rpkt))) by congruence.
    cbn [negb]. unfold wret at 1. unfold wbind at 1, load_group at 1. rewrite Hg, Hall.
    destruct w. reflexivity.
  - reflexivity.
Qed.

(** The first chunk of a group of two chunks, and the buffer that has
    taken it. *)
Definition first_of_two : ReceivedPacket :=
  mkReceivedPacket 0 [42] 1 0 0 0 RPT_SPLIT false 0 0 0 0 7 2 0 0 1.

Definition resident_world : world (closure Empty_set) IncomingSplitBuffer :=
  default example_buffer (snd <$> IncomingSplitBuffer_insert first_of_two 100 example_buffer).

(** A chunk for the same [seqnum] that says the group has five chunks
    and is the fourth of them. *)
Definition fourth_of_five : ReceivedPacket :=
  mkReceivedPacket 0 [43] 1 0 0 0 RPT_SPLIT false 0 0 0 0 7 5 3 0 1.

Lemma chunk_count_mismatch_ignored_or_fatal_witness :
  m_buf (user resident_world) !! 7 = Some 2%positive /\
  IncomingSplitBuffer_insert fourth_of_five 101 resident_world = None.
Proof.
  split; [vm_compute; reflexivity|].
  rewrite (chunk_count_mismatch_ignored_or_fatal fourth_of_five 101 resident_world 2
             (mkSplitPacket 7 [(0, first_of_two)] 2 false)).
  - reflexivity.
  - reflexivity.
  - vm_compute. reflexivity.
  - vm_compute. reflexivity.
  - reflexivity.
  - vm_compute. congruence.
Defined.

End SplitMismatch.

(** ** Groups that time out *)

Module SplitTimeout.
Import BinHeap BinHeapRep BinHeapSift BinHeapOps BinHeapFacts BinHeapView.
Import TimeoutQueue TimeoutFacts Split SplitFacts SplitSpec.

Section Timeout.

Context {X : Type}.

Local Abbreviation closure := (closure X).
Local Abbreviation TimeoutRecord := (TimeoutRecord closure).
Local Abbreviation world := (world closure IncomingSplitBuffer).
Local Abbreviation W := (W closure IncomingSplitBuffer).

Variable foreign : X -> world -> option world.

(** The closures of the other users of the queue return and leave the
    queue and the buffer as they are. *)
Definition quiet : Prop := forall x w, foreign x w = Some w.

(** A chunk that the group has already changes nothing. *)
Lemma insert_again (w : world) (q C : Z) (rel : bool) (sp : positive)
    (chunk : Z -> ReceivedPacket) (ks : list Z) (j t : Z) :
  m_buf (user w) !! q = Some sp ->
  groups (user w) !! sp = Some (mkSplitPacket q (chunks_at chunk ks) C rel) ->
  Z.of_nat (length ks) < C -> chunk_of q C rel j (chunk j) -> j ∈ ks -> j < C ->
  IncomingSplitBuffer_insert (chunk j) t w = Some (tt, w).
Proof.
  intros Hmb Hg Hlen (Hty & Hq & HC & Hj & Hrel) Hin HjC.
  rewrite insert_unfold by done. rewrite Hq, Hmb.
  unfold insert_tail, IncomingSplitPacket_insert.
  rewrite wbind_assoc. rewrite (run_load_group sp _) by done.
  cbn [m_chunk_count m_chunks m_seqnum m_reliable].
  rewrite Hj, HC.
  rewrite wbind_assoc, run_sanity by (apply Z.ltb_lt; lia).
  rewrite Z.eqb_refl. cbn [negb].
  rewrite map_find_chunks_at. rewrite bool_decide_eq_true_2 by done. rewrite run_wret.
  rewrite (run_load_group sp _) by done. unfold allReceived.
  cbn [m_chunk_count m_chunks]. rewrite chunks_at_length.
  by rewrite (proj2 (Z.eqb_neq _ _)) by lia.
Qed.

Lemma insert_all_again (w : world) (q C : Z) (rel : bool) (sp : positive)
    (chunk : Z -> ReceivedPacket) (ks : list Z) (dups : list (Z * Z)) :
  m_buf (user w) !! q = Some sp ->
  groups (user w) !! sp = Some (mkSplitPacket q (chunks_at chunk ks) C rel) ->
  Z.of_nat (length ks) < C ->
  (forall j, 0 <= j < C -> chunk_of q C rel j (chunk j)) ->
  Forall (fun x => 0 <= x < C) ks ->
  Forall (fun d => d.1 ∈ ks) dups ->
  insert_all (arrivals chunk dups) w = Some (tt, w).
Proof.
  intros Hmb Hg Hlen Hchunk Hr. induction 1 as [|[j t] dups Hj _ IH]; [done|].
  cbn [arrivals fmap list_fmap insert_all fst snd] in *.
  assert (0 <= j < C) as HjC by by apply (proj1 (Forall_forall _ _) Hr).
  unfold wbind.
  rewrite (insert_again w q C rel sp chunk ks j t) by (try apply Hchunk; done || lia).
  apply IH.
Qed.

(** A handle with no timer is not active. *)
Lemma isActive_unarmed (s : state TimeoutRecord) (A : gmap positive TimeoutRecord)
    (h : positive) :
  armed s A -> h ∈ dom (nodes s) -> A !! h = None -> isActive h s = Some (false, s).
Proof.
  intros (_ & Hinv & _) Hh HA.
  destruct (inv_outside _ _ _ _ h Hinv Hh) as (nd & Hnd & Hin).
  { by apply not_elem_of_dom. }
  unfold isActive, bind, load, ret, inHeap. rewrite Hnd, Hin.
  by rewrite bool_decide_eq_false_2 by (by intros []).
Qed.

(** [handleTimeout], run from the queue: the node of the group has
    left the queue, and the group is taken out of the buffer and
    deleted. *)
Lemma handleTimeout_spec (A : gmap positive TimeoutRecord) (w : world)
    (c sp : positive) (v : TimeoutRecord) (s1 : state TimeoutRecord)
    (cs : list (positive * closure)) :
  split_ok A w -> A !! c = Some v -> callback v = Some (OnSplitTimeout sp) ->
  armed s1 (delete c A) -> dom (nodes s1) = dom (nodes (tq w)) ->
  exists g s2, sp = c /\ groups (user w) !! c = Some g /\ m_reliable g = false /\
    m_buf (user w) !! m_seqnum g = Some c /\
    let w' := mkWorld s2 cs (mkSplitBuffer (delete (m_seqnum g) (m_buf (user w)))
                                           (delete c (groups (user w)))
                                           (received (user w))) in
    handleTimeout sp (mkWorld s1 cs (user w)) = Some (tt, w') /\
    split_ok (delete c A) w'.
Proof.
  intros [Harm Hgroup Hbuf Htimer] Hc Hcb Harm1 Hdom1.
  destruct (Htimer c v sp Hc Hcb) as [-> [g Hg]].
  destruct (Hgroup c g Hg) as (Hcn & Hmb & Htm).
  assert (Hrel : m_reliable g = false).
  { destruct (m_reliable g); [|done]. congruence. }
  destruct (delete_handle_armed s1 _ c Harm1 ltac:(by rewrite Hdom1))
    as (s2 & Hrun2 & Harm2 & Hdom2 & Hthis2).
  rewrite delete_delete_eq in Harm2.
  exists g, s2. split; [done|]. split; [done|]. split; [done|]. split; [done|].
  cbn zeta. split.
  - unfold handleTimeout. rewrite (run_load_group c g) by done.
    unfold wbind at 1. cbn [user]. rewrite Hmb.
    rewrite run_sanity by (apply bool_decide_eq_true_2; by eexists).
    rewrite run_sanity by (by apply bool_decide_eq_true_2).
    rewrite run_with_buffer. cbn [tq calls user m_buf groups received].
    unfold delete_group. rewrite (run_lift_at _ _ _ tt s2) by done.
    reflexivity.
  - constructor; cbn [tq calls user m_buf groups received].
    + done.
    + intros sp0 g0 Hg0. apply lookup_delete_Some in Hg0 as [Hne Hg0].
      destruct (Hgroup sp0 g0 Hg0) as (Hsp0 & Hmb0 & Htm0).
      split; [|split].
      * rewrite Hdom2, Hdom1, elem_of_difference, elem_of_singleton. done.
      * rewrite lookup_delete_ne; [done|]. intros Heq.
        rewrite Heq in Hmb. congruence.
      * by rewrite lookup_delete_ne by done.
    + intros q0 sp0 Hq0. apply lookup_delete_Some in Hq0 as [Hne Hq0].
      destruct (Hbuf q0 sp0 Hq0) as (g0 & Hg0 & Hseq).
      exists g0. split; [|done]. rewrite lookup_delete_ne; [done|].
      intros ->. rewrite Hg in Hg0. by simplify_eq.
    + intros c0 v0 sp1 Hc0 Hcb0. apply lookup_delete_Some in Hc0 as [Hne Hc0].
      destruct (Htimer c0 v0 sp1 Hc0 Hcb0) as [-> Hsome].
      split; [done|]. by rewrite lookup_delete_ne.
Qed.

(** What holds between the callbacks of a [processTimeouts] that
    starts with the groups [gs1] under the keys [mb1]: nothing is
    received, no group comes, and the reliable groups stay. *)
Definition kept (rc : list (list Z)) (gs1 : gmap positive IncomingSplitPacket)
    (mb1 : gmap Z positive) (A : gmap positive TimeoutRecord) (w : world) : Prop :=
  split_ok A w /\ received (user w) = rc /\
  groups (user w) ⊆ gs1 /\ m_buf (user w) ⊆ mb1 /\
  forall sp g, gs1 !! sp = Some g -> m_reliable g = true ->
    groups (user w) !! sp = Some g /\ m_buf (user w) !! m_seqnum g = Some sp.

Lemma kept_armed rc gs1 mb1 (A : gmap positive TimeoutRecord) (w : world) :
  kept rc gs1 mb1 A w -> armed (tq w) A.
Proof. intros [[] _]. done. Qed.

Lemma kept_fire rc gs1 mb1 (A : gmap positive TimeoutRecord) (w : world)
    (c : positive) (v : TimeoutRecord) (cb : closure) (s1 : state TimeoutRecord) :
  quiet ->
  kept rc gs1 mb1 A w -> A !! c = Some v -> callback v = Some cb ->
  armed s1 (delete c A) -> this s1 = this (tq w) ->
  dom (nodes s1) = dom (nodes (tq w)) ->
  exists w', fire foreign cb (mkWorld s1 (calls w ++ [(c, cb)]) (user w)) = Some w' /\
    kept rc gs1 mb1 (delete c A) w' /\ calls w' = calls w ++ [(c, cb)].
Proof.
  intros Hquiet (Hok & Hrc & Hgs & Hmb & Hrel) Hc Hcb Harm1 _ Hdom1.
  destruct cb as [sp|x].
  - destruct (handleTimeout_spec A w c sp v s1 (calls w ++ [(c, OnSplitTimeout sp)])
                Hok Hc Hcb Harm1 Hdom1)
      as (g & s2 & -> & Hg & Hun & Hmbg & Hrun & Hok').
    cbn zeta in Hrun, Hok'. eexists. cbn [fire]. rewrite Hrun. cbn [fmap option_fmap option_map snd].
    split; [reflexivity|]. split; [|done].
    split; [done|]. cbn [user received groups m_buf].
    split; [done|]. split; [by etrans; [apply delete_subseteq|]|].
    split; [by etrans; [apply delete_subseteq|]|].
    intros sp0 g0 Hg0 Hrel0. destruct (Hrel sp0 g0 Hg0 Hrel0) as [Hg0' Hmb0].
    assert (sp0 <> c) as Hne by (intros ->; congruence).
    split; [by rewrite lookup_delete_ne|].
    rewrite lookup_delete_ne; [done|]. intros Heq. rewrite Heq in Hmbg. congruence.
  - cbn [fire]. rewrite Hquiet. eexists. split; [reflexivity|]. split; [|done].
    destruct Hok as [Harm Hgroup Hbuf Htimer].
    split; [|done]. constructor; cbn [tq calls user].
    + done.
    + intros sp0 g0 Hg0. destruct (Hgroup sp0 g0 Hg0) as (Hsp0 & Hmb0 & Htm0).
      rewrite Hdom1. split; [done|]. split; [done|].
      destruct (m_reliable g0).
      * by apply lookup_delete_None; right.
      * destruct Htm0 as [e He]. exists e. rewrite lookup_delete_ne; [done|].
        intros ->. rewrite Hc in He. by simplify_eq/=.
    + done.
    + intros c0 v0 sp1 Hc0 Hcb0. apply lookup_delete_Some in Hc0 as [Hne Hc0].
      by apply (Htimer c0 v0 sp1).
Qed.

End Timeout.

(** The group [q] has the chunks of the numbers [ks]; with none, it is
    not in the buffer. *)
Definition group_is {X : Type} (chunk : Z -> ReceivedPacket) (q C : Z) (rel : bool)
    (ks : list Z) (w : world (closure X) IncomingSplitBuffer) : Prop :=
  match ks with
  | [] => m_buf (user w) !! q = None
  | _ :: _ => exists sp, m_buf (user w) !! q = Some sp /\
      groups (user w) !! sp = Some (mkSplitPacket q (chunks_at chunk ks) C rel)
  end.


(** No other user of the queue. *)
Definition no_foreign (x : Empty_set) (w : world (closure Empty_set) IncomingSplitBuffer)
  : option (world (closure Empty_set) IncomingSplitBuffer) :=
  match x with end.


End SplitTimeout.

(** ** More on the reliable receive buffer *)

Module ReliableMore.
Import Reliable ReliableFacts.

Local Abbreviation full := reliable_full_seqnum (only parsing).

(** [compute_full_seqnum] gives the number with the low 16 bits
    [seqnum] that is nearest to [base] among those that are not
    negative (the one ahead of [base] when two are as near). *)
Theorem compute_full_seqnum_nearest (base seqnum g : Z) :
  0 <= base -> base + 65535 < 2 ^ 64 -> 0 <= seqnum < 2 ^ 16 ->
  0 <= compute_full_seqnum base seqnum /\
  compute_full_seqnum base seqnum mod 2 ^ 16 = seqnum /\
  (0 <= g -> g mod 2 ^ 16 = seqnum ->
   Z.abs (compute_full_seqnum base seqnum - base) <= Z.abs (g - base)).
Proof.
  intros Hb Hmax Hs. unfold compute_full_seqnum, wrap16, wrap64.
  rewrite land_0xFFFF.
  change (2 ^ 16) with 65536 in *. change (2 ^ 64) with 18446744073709551616 in *.
  pose proof (Z.div_mod base 65536 ltac:(lia)) as Hbase.
  pose proof (Z.mod_pos_bound base 65536 ltac:(lia)) as Hbm.
  set (bm := base mod 65536) in *. set (qb := base / 65536) in *.
  pose proof (Z.div_mod (seqnum - bm) 65536 ltac:(lia)) as Hfd.
  pose proof (Z.mod_pos_bound (seqnum - bm) 65536 ltac:(lia)) as Hfdb.
  set (fd := (seqnum - bm) mod 65536) in *. set (qf := (seqnum - bm) / 65536) in *.
  pose proof (Z.div_mod (bm - seqnum) 65536 ltac:(lia)) as Hbd.
  pose proof (Z.mod_pos_bound (bm - seqnum) 65536 ltac:(lia)) as Hbdb.
  set (bd := (bm - seqnum) mod 65536) in *. set (qd := (bm - seqnum) / 65536) in *.
  assert (Hg : 0 <= g -> g mod 65536 = seqnum -> exists k, 0 <= k /\ g = 65536 * k + seqnum).
  { intros Hg0 Hgm. exists (g / 65536). split; [apply Z.div_pos; lia|].
    rewrite <- Hgm. apply Z.div_mod. lia. }
  assert (Hmod : forall x q, x = 65536 * q + seqnum -> x mod 65536 = seqnum).
  { intros x q ->. rewrite Z.add_comm, Z.mul_comm, Z.mod_add by lia.
    apply Z.mod_small. lia. }
  destruct (Z.leb_spec fd 32768) as [Hf|Hf]; cbn [orb].
  - rewrite (Z.mod_small (base + fd)) by lia.
    split; [lia|]. split; [apply (Hmod _ (qb - qf)); lia|].
    intros Hg0 Hgm. destruct (Hg Hg0 Hgm) as (k & Hk & ->). lia.
  - destruct (Z.ltb_spec base bd) as [Hd|Hd].
    + rewrite (Z.mod_small (base + fd)) by lia.
      split; [lia|]. split; [apply (Hmod _ (qb - qf)); lia|].
      intros Hg0 Hgm. destruct (Hg Hg0 Hgm) as (k & Hk & ->). lia.
    + rewrite (Z.mod_small (base - bd)) by lia.
      split; [lia|]. split; [apply (Hmod _ (qb + qd)); lia|].
      intros Hg0 Hgm. destruct (Hg Hg0 Hgm) as (k & Hk & ->). lia.
Qed.

Lemma compute_full_seqnum_nearest_witness :
  compute_full_seqnum 70000 65535 = 65535 /\
  Z.abs (compute_full_seqnum 70000 65535 - 70000) <= Z.abs (131071 - 70000).
Proof.
  destruct (compute_full_seqnum_nearest 70000 65535 131071) as (_ & _ & Hnear);
    [lia|vm_compute; reflexivity|lia|].
  split; [vm_compute; reflexivity|]. apply Hnear; [lia|vm_compute; reflexivity].
Defined.

Section More.

Context {U : Type}.
Variable sendAck : ReceivedPacket -> U -> U.
Variable processPacket : ReceivedPacket -> U -> bool * U.

Local Abbreviation env := (@env U).
Local Abbreviation flush := (flush processPacket).
Local Abbreviation insert := (insert sendAck processPacket).
Local Abbreviation call_processPacket := (call_processPacket processPacket).

(** A call of [processPacket] that returned stop is the last call. *)
Definition stop_is_last (cs : list call) : Prop :=
  forall cs1 c cs2, cs = cs1 ++ c :: cs2 -> stopped c = true -> cs2 = [].

Lemma stop_is_last_nil : stop_is_last [].
Proof. intros cs1 c cs2 H. by destruct cs1. Qed.

Lemma stop_is_last_singleton (c : call) : stop_is_last [c].
Proof.
  intros cs1 c' cs2 H _. destruct cs1 as [|? cs1]; cbn in H.
  - by injection H.
  - injection H as _ H. by destruct cs1.
Qed.

Lemma stop_is_last_cons (c : call) (cs : list call) :
  stopped c = false -> stop_is_last cs -> stop_is_last (c :: cs).
Proof.
  intros Hc Hcs cs1 c' cs2 H Hstop. destruct cs1 as [|? cs1]; cbn in H.
  - injection H as -> _. congruence.
  - injection H as _ H. by apply (Hcs cs1 c' cs2).
Qed.

(** What [flush] hands out, it takes from the queue, and after a stop
    it makes no call. *)
Lemma flush_takes (q : list ReceivedPacket) (next : Z) (e : env) :
  exists cs : list call,
    calls (flush q next e).2 = calls e ++ cs /\
    stop_is_last cs /\
    processed_packets cs ++ m_queue (flush q next e).1 ⊆+ q.
Proof.
  revert next e. induction q as [|rpkt q IH]; intros next e; cbn [Reliable.flush].
  - exists []. rewrite app_nil_r. split; [done|]. split; [apply stop_is_last_nil|done].
  - destruct (full rpkt <=? next).
    + destruct (full rpkt <? next).
      * destruct (IH next e) as (cs & H1 & H2 & H3).
        exists cs. split; [done|]. split; [done|]. by apply submseteq_cons.
      * destruct (call_processPacket rpkt e) as [c e'] eqn:Hcall.
        apply call_processPacket_calls in Hcall.
        destruct c; cbn [negb].
        -- destruct (IH (wrap64 (next + 1)) e') as (cs & H1 & H2 & H3).
           exists (CallProcessPacket rpkt true :: cs).
           split; [by rewrite H1, Hcall, <- app_assoc|].
           split; [by apply stop_is_last_cons|].
           cbn. fold (processed_packets cs). by apply submseteq_skip.
        -- exists [CallProcessPacket rpkt false]. cbn.
           split; [done|]. split; [apply stop_is_last_singleton|done].
    + exists []. rewrite app_nil_r. split; [done|]. split; [apply stop_is_last_nil|done].
Qed.

Lemma push_Permutation (rpkt : ReceivedPacket) (q : list ReceivedPacket) :
  push rpkt q ≡ₚ rpkt :: q.
Proof.
  induction q as [|x q IH]; cbn [push]; [done|].
  destruct (full rpkt <? full x); [done|]. rewrite IH. apply Permutation_swap.
Qed.

(** Once [processPacket] has returned stop, [insert] calls neither
    callback again before it returns. *)
Theorem insert_stops_at_stop (rpkt : ReceivedPacket)
    (b b' : ReliableReceivedPacketBuffer) (e e' : env) :
  insert rpkt b e = Some (b', e') ->
  exists cs, calls e' = calls e ++ cs /\ stop_is_last cs.
Proof.
  unfold Reliable.insert.
  destruct (is_reliable rpkt); cbn [negb]; [|done].
  set (next := next_incoming_seqnum b).
  set (rpkt' := set_reliable_full_seqnum _ rpkt).
  destruct (_ <? _).
  { intros [= <- <-]. exists []. rewrite app_nil_r. split; [done|apply stop_is_last_nil]. }
  destruct (_ <? _).
  { intros [= <- <-]. exists [CallSendAck rpkt']. split; [done|apply stop_is_last_singleton]. }
  destruct (_ =? _).
  - destruct (call_processPacket rpkt' (call_sendAck sendAck rpkt' e)) as [c e1] eqn:Hcall.
    apply call_processPacket_calls in Hcall. cbn [calls call_sendAck] in Hcall.
    destruct c; cbn [negb].
    + destruct (flush_takes (m_queue b) (wrap64 (next + 1)) e1) as (cs & H1 & H2 & _).
      destruct (flush (m_queue b) (wrap64 (next + 1)) e1) as [b1 e2].
      cbn [fst snd] in *. intros [= <- <-].
      exists (CallSendAck rpkt' :: CallProcessPacket rpkt' true :: cs).
      split; [by rewrite H1, Hcall, <- !app_assoc|].
      by do 2 (apply stop_is_last_cons; [done|]).
    + intros [= <- <-]. exists [CallSendAck rpkt'; CallProcessPacket rpkt' false].
      split; [by rewrite Hcall, <- app_assoc|].
      apply stop_is_last_cons; [done|apply stop_is_last_singleton].
  - intros [= <- <-]. exists [CallSendAck rpkt']. split; [done|apply stop_is_last_singleton].
Qed.

(** [insert] hands to [processPacket] only the packet it was given and
    packets of the queue, each at most as often as it is there, and a
    packet it hands out is in the queue no more. *)
Theorem insert_hands_out_what_it_got (rpkt : ReceivedPacket)
    (b b' : ReliableReceivedPacketBuffer) (e e' : env) :
  insert rpkt b e = Some (b', e') ->
  let rpkt' := set_reliable_full_seqnum
                 (compute_full_seqnum (next_incoming_seqnum b) (reliable_seqnum rpkt)) rpkt in
  exists cs, calls e' = calls e ++ cs /\
    processed_packets cs ++ m_queue b' ⊆+ rpkt' :: m_queue b.
Proof.
  unfold Reliable.insert.
  destruct (is_reliable rpkt); cbn [negb]; [|done].
  set (next := next_incoming_seqnum b).
  set (rpkt' := set_reliable_full_seqnum _ rpkt).
  destruct (_ <? _).
  { intros [= <- <-]. exists []. rewrite app_nil_r. split; [done|].
    by apply submseteq_cons. }
  destruct (_ <? _).
  { intros [= <- <-]. exists [CallSendAck rpkt']. split; [done|].
    by apply submseteq_cons. }
  destruct (_ =? _).
  - destruct (call_processPacket rpkt' (call_sendAck sendAck rpkt' e)) as [c e1] eqn:Hcall.
    apply call_processPacket_calls in Hcall. cbn [calls call_sendAck] in Hcall.
    destruct c; cbn [negb].
    + destruct (flush_takes (m_queue b) (wrap64 (next + 1)) e1) as (cs & H1 & _ & H3).
      destruct (flush (m_queue b) (wrap64 (next + 1)) e1) as [b1 e2].
      cbn [fst snd] in *. intros [= <- <-].
      exists (CallSendAck rpkt' :: CallProcessPacket rpkt' true :: cs).
      split; [by rewrite H1, Hcall, <- !app_assoc|].
      cbn. fold (processed_packets cs). by apply submseteq_skip.
    + intros [= <- <-]. exists [CallSendAck rpkt'; CallProcessPacket rpkt' false].
      split; [by rewrite Hcall, <- app_assoc|]. done.
  - intros [= <- <-]. exists [CallSendAck rpkt']. split; [done|].
    cbn. by rewrite push_Permutation.
Qed.

End More.

(** Positions 65501, 65502 and 65503 are queued, 65500 arrives, and
    [processPacket] returns stop at 65502. *)
Definition stop_at (n : Z) (p : ReceivedPacket) (u : unit) : bool * unit :=
  (negb (reliable_full_seqnum p =? n), u).

Definition queued (l : list Z) : list ReceivedPacket :=
  (fun n => set_reliable_full_seqnum n (reliable_packet n)) <$> l.

Lemma insert_stops_at_stop_witness :
  exists b' e' cs,
    insert ack_nothing (stop_at 65502) (reliable_packet 65500)
      (mkBuffer 65500 (queued [65501; 65502; 65503])) env0 = Some (b', e') /\
    calls e' = calls env0 ++ cs /\ stop_is_last cs /\ m_queue b' = queued [65503].
Proof.
  assert (exists b' e',
            insert ack_nothing (stop_at 65502) (reliable_packet 65500)
              (mkBuffer 65500 (queued [65501; 65502; 65503])) env0 = Some (b', e') /\
            m_queue b' = queued [65503]) as (b' & e' & H & Hq).
  { do 2 eexists. split; vm_compute; reflexivity. }
  destruct (insert_stops_at_stop ack_nothing (stop_at 65502) _ _ b' env0 e' H)
    as (cs & Hc & Hl).
  by exists b', e', cs.
Defined.

Lemma insert_hands_out_what_it_got_witness :
  exists b' e' cs,
    insert ack_nothing always_continue (reliable_packet 65500)
      (mkBuffer 65500 (queued [65500; 65501; 65501; 65503])) env0 = Some (b', e') /\
    calls e' = calls env0 ++ cs /\
    processed_packets cs ++ m_queue b' ⊆+ queued [65500; 65500; 65501; 65501; 65503] /\
    processed_seqnums cs = [65500; 65501].
Proof.
  assert (exists b' e',
            insert ack_nothing always_continue (reliable_packet 65500)
              (mkBuffer 65500 (queued [65500; 65501; 65501; 65503])) env0 = Some (b', e') /\
            processed_seqnums (calls e') = [65500; 65501]) as (b' & e' & H & Hp).
  { do 2 eexists. split; vm_compute; reflexivity. }
  destruct (insert_hands_out_what_it_got ack_nothing always_continue _ _ b' env0 e' H)
    as (cs & Hc & Hsub).
  exists b', e', cs. split; [exact H|]. split; [exact Hc|]. split; [exact Hsub|].
  rewrite Hc in Hp. exact Hp.
Defined.

End ReliableMore.

(** ** Logging tags (util/uuid.cpp) *)

Module Uuid.

Section Uuid.

(** [RandState], the generator of the C++ library behind it kept abstract. *)
Variable RandState : Type.
Variable rand : RandState -> Z * RandState.

(** [hex_chars] of util/hex.h, which is not among the sources. *)
Variable hex_chars : list Z.

(** [dest[i] = v], on the buffer that [dest] points to; writing
    outside the buffer is a failure. *)
Definition store (dest : list Z) (i v : Z) : option (list Z) :=
  if (0 <=? i) && (i <? Z.of_nat (length dest))
  then Some (<[Z.to_nat i := v]> dest) else None.

(** The loop of [genHexUUID], with [n] rounds to go. *)
Fixpoint genHexUUID_loop (n : nat) (i : Z) (dest : list Z) (state : RandState)
  : option (list Z * RandState) :=
  match n with
  | O => Some (dest, state)
  | S n' =>
      let '(r, state) := rand state in
      c ← hex_chars !! Z.to_nat (Z.land r 0xF) ;
      dest ← store dest i c ;
      genHexUUID_loop n' (i + 1) dest state
  end.

Definition genHexUUID (dest : list Z) (dest_size : Z) (state : RandState)
  : option (list Z * RandState) :=
  if 0 <? dest_size then
    '(dest, state) ← genHexUUID_loop (Z.to_nat (dest_size - 1)) 0 dest state ;
    dest ← store dest (dest_size - 1) 0 ;
    Some (dest, state)
  else None.

(** The loop of [genRawUUID]. *)
Fixpoint genRawUUID_loop (n : nat) (i : Z) (dest : list Z) (state : RandState)
  : option (list Z * RandState) :=
  match n with
  | O => Some (dest, state)
  | S n' =>
      let '(r, state) := rand state in
      dest ← store dest i (Z.land r 0xFF) ;
      genRawUUID_loop n' (i + 1) dest state
  end.

Definition genRawUUID (dest : list Z) (dest_size : Z) (state : RandState)
  : option (list Z * RandState) :=
  genRawUUID_loop (Z.to_nat dest_size) 0 dest state.

(** The generator after [n] numbers were drawn. *)
Definition drawn (n : nat) (state : RandState) : RandState :=
  Nat.iter n (fun st => snd (rand st)) state.

Lemma drawn_S (n : nat) (state : RandState) :
  drawn (S n) state = drawn n (snd (rand state)).
Proof. unfold drawn. by rewrite Nat.iter_succ_r. Qed.

Lemma store_Some (dest : list Z) (i : nat) (v : Z) :
  (i < length dest)%nat -> store dest (Z.of_nat i) v = Some (<[i := v]> dest).
Proof.
  intros Hi. unfold store.
  destruct (Z.leb_spec 0 (Z.of_nat i)); [|lia].
  destruct (Z.ltb_spec (Z.of_nat i) (Z.of_nat (length dest))); [|lia].
  cbn [andb]. by rewrite Nat2Z.id.
Qed.

Lemma store_length (dest dest' : list Z) (i v : Z) :
  store dest i v = Some dest' -> length dest' = length dest /\ 0 <= i < Z.of_nat (length dest).
Proof.
  unfold store. destruct (Z.leb_spec 0 i), (Z.ltb_spec i (Z.of_nat (length dest)));
    cbn [andb]; intros [= <-]. rewrite length_insert. lia.
Qed.

Lemma land_small (r : Z) (k : nat) : (Z.to_nat (Z.land r (Z.ones (Z.of_nat k))) < 2 ^ k)%nat.
Proof.
  rewrite Z.land_ones by lia.
  pose proof (Z.mod_pos_bound r (2 ^ Z.of_nat k) ltac:(lia)) as Hb.
  apply Nat2Z.inj_lt. rewrite Z2Nat.id by lia.
  rewrite Nat2Z.inj_pow. apply Hb.
Qed.

Lemma genHexUUID_loop_spec (n : nat) :
  (16 <= length hex_chars)%nat ->
  forall (i : nat) (dest : list Z) (state : RandState),
  (i + n <= length dest)%nat ->
  exists dest',
    genHexUUID_loop n (Z.of_nat i) dest state = Some (dest', drawn n state) /\
    length dest' = length dest /\
    take i dest' = take i dest /\ drop (i + n) dest' = drop (i + n) dest /\
    forall j, (i <= j < i + n)%nat ->
      exists c, dest' !! j = Some c /\ c ∈ take 16 hex_chars.
Proof.
  intros Hhex. induction n as [|n IH]; intros i dest state Hlen.
  - exists dest. split; [done|]. split; [done|]. split; [done|]. split; [done|].
    intros j Hj. lia.
  - cbn [genHexUUID_loop]. rewrite drawn_S. destruct (rand state) as [r state1]. cbn [snd].
    pose proof (land_small r 4) as Hr. change (Z.ones (Z.of_nat 4)) with 0xF in Hr.
    change (2 ^ 4)%nat with 16%nat in Hr.
    destruct (lookup_lt_is_Some_2 hex_chars (Z.to_nat (Z.land r 0xF)) ltac:(lia)) as [c Hc].
    rewrite Hc. cbn [mbind option_bind].
    rewrite store_Some by lia. cbn [mbind option_bind].
    replace (Z.of_nat i + 1) with (Z.of_nat (S i)) by lia.
    destruct (IH (S i) (<[i := c]> dest) state1 ltac:(rewrite length_insert; lia))
      as (dest' & Hrun & Hl & Htake & Hdrop & Hin).
    exists dest'. split; [done|]. rewrite length_insert in Hl. split; [done|].
    split; [|split].
    + apply (f_equal (take i)) in Htake. rewrite !take_take in Htake.
      rewrite Nat.min_l in Htake by lia. rewrite Htake. by rewrite take_insert_ge.
    + replace (i + S n)%nat with (S i + n)%nat by lia. rewrite Hdrop.
      by rewrite drop_insert_lt by lia.
    + intros j Hj. destruct (decide (j = i)) as [->|Hne].
      * exists c. split.
        -- apply (f_equal (fun l => l !! i)) in Htake.
           rewrite !lookup_take_lt in Htake by lia. rewrite Htake.
           apply list_lookup_insert_eq. lia.
        -- apply list_elem_of_lookup. exists (Z.to_nat (Z.land r 0xF)).
           by rewrite lookup_take_lt by lia.
      * apply Hin. lia.
Qed.

Lemma genHexUUID_loop_length (n : nat) (i : Z) (dest dest' : list Z) (state state' : RandState) :
  genHexUUID_loop n i dest state = Some (dest', state') -> length dest' = length dest.
Proof.
  revert i dest state. induction n as [|n IH]; intros i dest state; cbn [genHexUUID_loop].
  - by intros [= <- _].
  - destruct (rand state) as [r state1].
    destruct (hex_chars !! _) as [c|]; [|done]. cbn [mbind option_bind].
    destruct (store dest i c) as [dest1|] eqn:Hst; [|done]. cbn [mbind option_bind].
    intros Hrun. rewrite (IH _ _ _ Hrun). by apply store_length in Hst as [? _].
Qed.

Lemma genRawUUID_loop_spec (n : nat) :
  forall (i : nat) (dest : list Z) (state : RandState),
  (i + n <= length dest)%nat ->
  exists dest',
    genRawUUID_loop n (Z.of_nat i) dest state = Some (dest', drawn n state) /\
    length dest' = length dest /\
    take i dest' = take i dest /\ drop (i + n) dest' = drop (i + n) dest /\
    forall j, (i <= j < i + n)%nat -> exists c, dest' !! j = Some c /\ 0 <= c < 256.
Proof.
  induction n as [|n IH]; intros i dest state Hlen.
  - exists dest. split; [done|]. split; [done|]. split; [done|]. split; [done|].
    intros j Hj. lia.
  - cbn [genRawUUID_loop]. rewrite drawn_S. destruct (rand state) as [r state1]. cbn [snd].
    rewrite store_Some by lia. cbn [mbind option_bind].
    replace (Z.of_nat i + 1) with (Z.of_nat (S i)) by lia.
    destruct (IH (S i) (<[i := Z.land r 0xFF]> dest) state1 ltac:(rewrite length_insert; lia))
      as (dest' & Hrun & Hl & Htake & Hdrop & Hin).
    exists dest'. split; [done|]. rewrite length_insert in Hl. split; [done|].
    split; [|split].
    + apply (f_equal (take i)) in Htake. rewrite !take_take in Htake.
      rewrite Nat.min_l in Htake by lia. rewrite Htake. by rewrite take_insert_ge.
    + replace (i + S n)%nat with (S i + n)%nat by lia. rewrite Hdrop.
      by rewrite drop_insert_lt by lia.
    + intros j Hj. destruct (decide (j = i)) as [->|Hne].
      * exists (Z.land r 0xFF). split.
        -- apply (f_equal (fun l => l !! i)) in Htake.
           rewrite !lookup_take_lt in Htake by lia. rewrite Htake.
           apply list_lookup_insert_eq. lia.
        -- change 0xFF with (Z.ones 8). rewrite Z.land_ones by lia.
           apply (Z.mod_pos_bound r (2 ^ 8)). lia.
      * apply Hin. lia.
Qed.

Lemma genRawUUID_loop_fits (n : nat) (i : Z) (dest dest' : list Z) (state state' : RandState) :
  0 <= i ->
  genRawUUID_loop n i dest state = Some (dest', state') ->
  i + Z.of_nat n <= Z.of_nat (length dest) \/ n = O.
Proof.
  revert i dest state. induction n as [|n IH]; intros i dest state Hi; cbn [genRawUUID_loop].
  - by right.
  - destruct (rand state) as [r state1].
    destruct (store dest i _) as [dest1|] eqn:Hst; [|done]. cbn [mbind option_bind].
    intros Hrun. apply store_length in Hst as [Hl Hb]. left.
    apply IH in Hrun; [|lia]. destruct Hrun as [H | ->]; lia.
Qed.

End Uuid.

(** [genHexUUID] returns when [dest_size] is not 0 and the buffer has
    [dest_size] bytes, and only then.  It writes [dest_size - 1]
    characters out of the first 16 of [hex_chars] and a 0 after them,
    leaves the bytes behind these as they were, and has drawn
    [dest_size - 1] random numbers. *)
Theorem genHexUUID_writes_a_terminated_string {RandState : Type}
    (rand : RandState -> Z * RandState) (hex_chars : list Z)
    (dest : list Z) (dest_size : Z) (state : RandState) :
  (16 <= length hex_chars)%nat ->
  (is_Some (genHexUUID RandState rand hex_chars dest dest_size state)
   <-> 0 < dest_size <= Z.of_nat (length dest)) /\
  forall dest' state',
    genHexUUID RandState rand hex_chars dest dest_size state = Some (dest', state') ->
    length dest' = length dest /\
    (forall i, (Z.of_nat i < dest_size - 1) ->
       exists c, dest' !! i = Some c /\ c ∈ take 16 hex_chars) /\
    dest' !! Z.to_nat (dest_size - 1) = Some 0 /\
    drop (Z.to_nat dest_size) dest' = drop (Z.to_nat dest_size) dest /\
    state' = drawn RandState rand (Z.to_nat (dest_size - 1)) state.
Proof.
  intros Hhex.
  assert (Hgood : 0 < dest_size <= Z.of_nat (length dest) ->
    exists dest', genHexUUID RandState rand hex_chars dest dest_size state
                  = Some (dest', drawn RandState rand (Z.to_nat (dest_size - 1)) state) /\
      length dest' = length dest /\
      (forall i, (Z.of_nat i < dest_size - 1) ->
         exists c, dest' !! i = Some c /\ c ∈ take 16 hex_chars) /\
      dest' !! Z.to_nat (dest_size - 1) = Some 0 /\
      drop (Z.to_nat dest_size) dest' = drop (Z.to_nat dest_size) dest).
  { intros Hsz. unfold genHexUUID.
    destruct (Z.ltb_spec 0 dest_size); [|lia].
    destruct (genHexUUID_loop_spec RandState rand hex_chars (Z.to_nat (dest_size - 1)) Hhex
                0 dest state ltac:(lia)) as (dest1 & Hrun & Hl & _ & Hdrop & Hin).
    change (Z.of_nat 0) with 0 in Hrun. rewrite Hrun. cbn [mbind option_bind].
    assert (store dest1 (dest_size - 1) 0 = Some (<[Z.to_nat (dest_size - 1) := 0]> dest1)) as ->.
    { rewrite <- (store_Some dest1 (Z.to_nat (dest_size - 1)) 0) by lia.
      by rewrite Z2Nat.id by lia. }
    cbn [mbind option_bind].
    eexists. split; [reflexivity|]. rewrite length_insert. split; [done|].
    split; [|split].
    - intros i Hi. rewrite list_lookup_insert_ne by lia. apply Hin. lia.
    - apply list_lookup_insert_eq. lia.
    - rewrite drop_insert_lt by lia.
      replace (Z.to_nat dest_size) with (0 + Z.to_nat (dest_size - 1) + 1)%nat by lia.
      rewrite <- (drop_drop dest1), <- (drop_drop dest). by rewrite Hdrop. }
  split.
  - split.
    + intros [[dest' state'] Hrun]. unfold genHexUUID in Hrun.
      destruct (Z.ltb_spec 0 dest_size); [|done]. split; [done|].
      destruct (genHexUUID_loop _ _ _ _ _ _ _) as [[dest1 state1]|] eqn:Hloop; [|done].
      cbn [mbind option_bind] in Hrun.
      destruct (store dest1 (dest_size - 1) 0) as [dest2|] eqn:Hst; [|done].
      apply store_length in Hst as [_ Hb].
      apply genHexUUID_loop_length in Hloop. lia.
    + intros Hsz. destruct (Hgood Hsz) as (dest' & Hrun & _). by eexists.
  - intros dest' state' Hrun.
    assert (0 < dest_size <= Z.of_nat (length dest)) as Hsz.
    { unfold genHexUUID in Hrun.
      destruct (Z.ltb_spec 0 dest_size); [|done]. split; [done|].
      destruct (genHexUUID_loop _ _ _ _ _ _ _) as [[dest1 state1]|] eqn:Hloop; [|done].
      cbn [mbind option_bind] in Hrun.
      destruct (store dest1 (dest_size - 1) 0) as [dest2|] eqn:Hst; [|done].
      apply store_length in Hst as [_ Hb].
      apply genHexUUID_loop_length in Hloop. lia. }
    destruct (Hgood Hsz) as (dest1 & Hrun1 & Hl & Hin & Hz & Hdrop).
    rewrite Hrun1 in Hrun. injection Hrun as <- <-. done.
Qed.

(** [genRawUUID] returns when the buffer has [dest_size] bytes, and
    only then.  It writes [dest_size] bytes, leaves the bytes behind
    them as they were, and has drawn [dest_size] random numbers. *)
Theorem genRawUUID_fills_the_buffer {RandState : Type}
    (rand : RandState -> Z * RandState)
    (dest : list Z) (dest_size : Z) (state : RandState) :
  0 <= dest_size ->
  (is_Some (genRawUUID RandState rand dest dest_size state)
   <-> dest_size <= Z.of_nat (length dest)) /\
  forall dest' state',
    genRawUUID RandState rand dest dest_size state = Some (dest', state') ->
    length dest' = length dest /\
    (forall i, (Z.of_nat i < dest_size) -> exists c, dest' !! i = Some c /\ 0 <= c < 256) /\
    drop (Z.to_nat dest_size) dest' = drop (Z.to_nat dest_size) dest /\
    state' = drawn RandState rand (Z.to_nat dest_size) state.
Proof.
  intros Hpos.
  assert (Hfits : forall dest' state',
    genRawUUID RandState rand dest dest_size state = Some (dest', state') ->
    dest_size <= Z.of_nat (length dest)).
  { intros dest' state' Hrun. unfold genRawUUID in Hrun.
    apply genRawUUID_loop_fits in Hrun as [H|H]; lia. }
  split.
  - split.
    + intros [[dest' state'] Hrun]. by eapply Hfits.
    + intros Hsz.
      destruct (genRawUUID_loop_spec RandState rand (Z.to_nat dest_size) 0 dest state
                  ltac:(lia)) as (dest1 & Hrun & _).
      unfold genRawUUID. change (Z.of_nat 0) with 0 in Hrun. by eexists.
  - intros dest' state' Hrun. pose proof (Hfits _ _ Hrun) as Hsz.
    destruct (genRawUUID_loop_spec RandState rand (Z.to_nat dest_size) 0 dest state
                ltac:(lia)) as (dest1 & Hrun1 & Hl & _ & Hdrop & Hin).
    change (Z.of_nat 0) with 0 in Hrun1. unfold genRawUUID in Hrun.
    rewrite Hrun1 in Hrun. injection Hrun as <- <-.
    split; [done|]. split; [|split; [done|done]].
    intros i Hi. apply Hin. lia.
Qed.

(** A generator that counts up, and the digits of util/hex.h. *)
Definition counter (n : Z) : Z * Z := (n, n + 1).
Definition hex_digits : list Z :=
  [48; 49; 50; 51; 52; 53; 54; 55; 56; 57; 97; 98; 99; 100; 101; 102].

Lemma genHexUUID_writes_a_terminated_string_witness :
  genHexUUID Z counter hex_digits [1; 1; 1; 1; 1; 1] 4 9 = Some ([57; 97; 98; 0; 1; 1], 12) /\
  genHexUUID Z counter hex_digits [1; 1; 1; 1; 1; 1] 0 9 = None /\
  genHexUUID Z counter hex_digits [1; 1; 1; 1; 1; 1] 7 9 = None.
Proof.
  split; [vm_compute; reflexivity|].
  split.
  - destruct (genHexUUID_writes_a_terminated_string counter hex_digits [1; 1; 1; 1; 1; 1] 0 9
                ltac:(vm_compute; lia)) as [Hiff _].
    destruct (genHexUUID Z counter hex_digits [1; 1; 1; 1; 1; 1] 0 9) eqn:E; [|reflexivity].
    exfalso. destruct (proj1 Hiff ltac:(by eexists)). lia.
  - vm_compute. reflexivity.
Defined.

Lemma genRawUUID_fills_the_buffer_witness :
  genRawUUID Z counter [1; 1; 1; 1] 3 254 = Some ([254; 255; 0; 1], 257) /\
  genRawUUID Z counter [1; 1; 1; 1] 5 254 = None.
Proof.
  split; [vm_compute; reflexivity|].
  destruct (genRawUUID_fills_the_buffer counter [1; 1; 1; 1] 5 254 ltac:(lia)) as [Hiff _].
  destruct (genRawUUID Z counter [1; 1; 1; 1] 5 254) eqn:E; [|reflexivity].
  exfalso. pose proof (proj1 Hiff ltac:(by eexists)) as H. cbn in H. lia.
Defined.

End Uuid.

(** ** What a user of the heap sees *)

Module BinHeapMore.
Import BinHeap BinHeapRep BinHeapSift BinHeapOps BinHeapFacts BinHeapView.

(** The addresses in the heap after the operations [ops], [R] being
    those in it before. *)
Fixpoint resident (R : gset positive) (ops : list op) : gset positive :=
  match ops with
  | [] => R
  | Insert a :: ops' => resident (R ∪ {[a]}) ops'
  | Remove a :: ops' => resident (R ∖ {[a]}) ops'
  end.

Section More.

Context {T : Type}.
Variable is_less_than : T -> T -> bool.
Hypothesis Hswo : strict_weak_order is_less_than.

Local Abbreviation state := (state T).
Local Abbreviation node := (BinHeapNode T).
Local Abbreviation inv := (inv is_less_than).
Local Abbreviation run := (run is_less_than).

(** The nodes are where they were, with the values they had. *)
Definition same_values (s s' : state) : Prop :=
  forall c, option_Forall2 (fun nd nd' : node => value nd' = value nd)
              (nodes s !! c) (nodes s' !! c).

Lemma same_values_refl (s : state) : same_values s s.
Proof. intros c. by destruct (nodes s !! c); constructor. Qed.

Lemma same_values_trans (s1 s2 s3 : state) :
  same_values s1 s2 -> same_values s2 s3 -> same_values s1 s3.
Proof.
  intros H12 H23 c. specialize (H12 c). specialize (H23 c).
  destruct H12 as [x y Hxy|]; inversion H23; subst; constructor. congruence.
Qed.

Lemma evolves_same_values (a : positive) (s s' : state) :
  evolves a s s' -> same_values s s'.
Proof.
  intros [_ H] c. specialize (H c). destruct H as [x y [Hv _]|]; by constructor.
Qed.

Lemma run_inv (D : gset positive) (ops : list op) :
  Z.of_nat (base.size D) < 2 ^ 63 ->
  forall (R : gset positive) (s : state),
  inv D R s -> admissible D R ops = true ->
  exists s', run ops s = Some (tt, s') /\ inv D (resident R ops) s' /\ same_values s s'.
Proof.
  intros Hsize. induction ops as [|o ops IH]; intros R s Hinv Hadm.
  - exists s. split; [done|]. split; [done|]. apply same_values_refl.
  - cbn [BinHeapFacts.run]. destruct o as [a|a]; cbn [admissible exec resident] in *.
    + apply andb_true_iff in Hadm as [Hadm Hrest].
      apply andb_true_iff in Hadm as [HaD HaR].
      apply bool_decide_eq_true in HaD, HaR.
      destruct (inv_insert is_less_than Hswo D R s a Hinv Hsize HaD HaR)
        as (s1 & Hrun & Hinv1 & Hev).
      rewrite (run_bind_eq _ _ _ _ _ Hrun).
      destruct (IH _ s1 Hinv1 Hrest) as (s' & Hrun' & Hinv' & Hsame).
      exists s'. split; [done|]. split; [done|].
      eapply same_values_trans; [by eapply evolves_same_values|done].
    + apply andb_true_iff in Hadm as [HaR Hrest].
      apply bool_decide_eq_true in HaR.
      destruct (inv_remove is_less_than Hswo D R s a Hinv Hsize HaR)
        as (s1 & Hrun & Hinv1 & Hev).
      rewrite (run_bind_eq _ _ _ _ _ Hrun).
      destruct (IH _ s1 Hinv1 Hrest) as (s' & Hrun' & Hinv' & Hsame).
      exists s'. split; [done|]. split; [done|].
      eapply same_values_trans; [by eapply evolves_same_values|done].
Qed.

Lemma inv_empty_root (D : gset positive) (s : state) : inv D ∅ s -> m_root s = None.
Proof.
  intros (m & n & Hrep & _ & Hn & _). rewrite size_empty in Hn.
  rewrite (rep_root _ _ _ Hrep).
  destruct (m !! 1%positive) eqn:H1; [|done].
  assert (is_Some (m !! 1%positive)) as Hs by (by eexists).
  apply (rep_dom _ _ _ Hrep) in Hs. lia.
Qed.

Lemma inv_inHeap (D R : gset positive) (s : state) (c : positive) :
  inv D R s -> c ∈ D ->
  exists nd, nodes s !! c = Some nd /\ inHeap nd = bool_decide (c ∈ R).
Proof.
  intros Hinv Hc. destruct (decide (c ∈ R)) as [HR|HR].
  - destruct (inv_resident is_less_than D R s c Hinv HR) as (nd & Hnd & Hin).
    exists nd. split; [done|]. unfold inHeap. rewrite Hin.
    rewrite bool_decide_eq_true_2 by done. by rewrite bool_decide_eq_true_2.
  - destruct (inv_outside is_less_than D R s c Hinv Hc HR) as (nd & Hnd & Hin).
    exists nd. split; [done|]. unfold inHeap. rewrite Hin.
    rewrite bool_decide_eq_false_2 by (by intros []). by rewrite bool_decide_eq_false_2.
Qed.

End More.

(** After any run of [insert]s of nodes outside the heap and
    [remove]s of nodes inside it, on a heap that was empty: [size] is
    the number of nodes inserted and not removed since, [empty] tells
    whether there is none, [inHeap] of a node tells whether it is one
    of them, and every node has the value it had. *)
Theorem heap_tracks_its_nodes {T : Type} (is_less_than : T -> T -> bool)
    (h : positive) (mem : gmap positive (BinHeapNode T)) (ops : list op) :
  strict_weak_order is_less_than ->
  fresh mem = true ->
  Z.of_nat (base.size mem) < 2 ^ 63 ->
  admissible (dom mem) ∅ ops = true ->
  exists s', run is_less_than ops (new_heap h mem) = Some (tt, s') /\
    size s' = Some (Z.of_nat (base.size (resident ∅ ops)), s') /\
    empty s' = Some (bool_decide (resident ∅ ops = ∅), s') /\
    forall c nd, mem !! c = Some nd ->
      exists nd', nodes s' !! c = Some nd' /\ value nd' = value nd /\
        inHeap nd' = bool_decide (c ∈ resident ∅ ops).
Proof.
  intros Hswo Hfresh Hsize Hadm.
  assert (Z.of_nat (base.size (dom mem)) < 2 ^ 63) as HD by (by rewrite size_dom).
  destruct (run_inv is_less_than Hswo (dom mem) ops HD ∅ (new_heap h mem)
              (inv_new_heap is_less_than h mem Hfresh) Hadm) as (s' & Hrun & Hinv & Hsame).
  exists s'. split; [done|].
  pose proof (inv_size is_less_than _ _ _ Hinv) as Hsz.
  split; [by unfold size, get_size; rewrite Hsz|].
  split.
  - unfold empty, bind, get_size, ret. rewrite Hsz. do 2 f_equal.
    destruct (decide (resident ∅ ops = ∅)) as [He|Hne].
    + rewrite He, size_empty. by rewrite bool_decide_eq_true_2.
    + rewrite bool_decide_eq_false_2 by done. apply Z.eqb_neq.
      intros Hz. apply Hne. apply leibniz_equiv, size_empty_inv. lia.
  - intros c nd Hc.
    destruct (inv_inHeap is_less_than (dom mem) _ s' c Hinv ltac:(by apply elem_of_dom_2 in Hc))
      as (nd' & Hnd' & Hin).
    exists nd'. split; [done|]. split; [|done].
    specialize (Hsame c). cbn [new_heap nodes] in Hsame. rewrite Hc, Hnd' in Hsame.
    by inversion Hsame.
Qed.

(** After such a run, [top] is null if no node is in the heap;
    otherwise it is a node of the heap, and no node of the heap has a
    value less than its value. *)
Theorem heap_top_is_least {T : Type} (is_less_than : T -> T -> bool)
    (h : positive) (mem : gmap positive (BinHeapNode T)) (ops : list op) :
  strict_weak_order is_less_than ->
  fresh mem = true ->
  Z.of_nat (base.size mem) < 2 ^ 63 ->
  admissible (dom mem) ∅ ops = true ->
  exists s' r, run is_less_than ops (new_heap h mem) = Some (tt, s') /\
    top s' = Some (r, s') /\
    match r with
    | None => resident ∅ ops = ∅
    | Some a => a ∈ resident ∅ ops /\
        forall c x y, c ∈ resident ∅ ops ->
          value <$> mem !! a = Some x -> value <$> mem !! c = Some y ->
          is_less_than y x = false
    end.
Proof.
  intros Hswo Hfresh Hsize Hadm.
  assert (Z.of_nat (base.size (dom mem)) < 2 ^ 63) as HD by (by rewrite size_dom).
  destruct (run_inv is_less_than Hswo (dom mem) ops HD ∅ (new_heap h mem)
              (inv_new_heap is_less_than h mem Hfresh) Hadm) as (s' & Hrun & Hinv & Hsame).
  assert (Hval : forall c x, value <$> mem !! c = Some x -> keyof s' c = Some x).
  { intros c x Hx. specialize (Hsame c). cbn [new_heap nodes] in Hsame. unfold keyof.
    destruct (mem !! c) as [nd|]; [|done]. inversion Hsame as [? nd' Hv|]; subst.
    cbn in *. congruence. }
  destruct (decide (resident ∅ ops = ∅)) as [He|Hne].
  - exists s', None. split; [done|]. split; [|done].
    rewrite He in Hinv. unfold top, get_root.
    by rewrite (inv_empty_root is_less_than _ _ Hinv).
  - destruct (inv_root is_less_than Hswo _ _ s' Hinv Hne) as (r & Hr & HrR & Hleast).
    exists s', (Some r). split; [done|]. split; [by unfold top, get_root; rewrite Hr|].
    split; [done|]. intros c x y Hc Hx Hy. apply (Hleast c x y Hc); by apply Hval.
Qed.

(** Five nodes keyed by integers; three are in the heap at the end,
    and the top is the one with the key 20. *)
Definition five_nodes : gmap positive (BinHeapNode Z) :=
  list_to_map [(1%positive, new_node 40); (2%positive, new_node 10);
               (3%positive, new_node 30); (4%positive, new_node 20);
               (5%positive, new_node 20)].

Definition nine_steps : list op :=
  [Insert 1; Insert 2; Insert 3; Insert 4; Remove 3; Insert 5; Remove 2; Remove 1; Insert 3].

Lemma heap_tracks_its_nodes_witness :
  exists s', run Z.ltb nine_steps (new_heap 9 five_nodes) = Some (tt, s') /\
    size s' = Some (3, s') /\ empty s' = Some (false, s') /\
    (inHeap <$> nodes s' !! 2%positive) = Some false /\
    (inHeap <$> nodes s' !! 3%positive) = Some true.
Proof.
  destruct (heap_tracks_its_nodes Z.ltb 9 five_nodes nine_steps)
    as (s' & Hrun & Hsize & Hempty & Hnodes).
  - exact Z_ltb_strict_weak_order.
  - vm_compute. reflexivity.
  - vm_compute. reflexivity.
  - vm_compute. reflexivity.
  - exists s'. split; [exact Hrun|]. split; [exact Hsize|]. split; [exact Hempty|].
    destruct (Hnodes 2%positive (new_node 10) eq_refl) as (nd2 & H2 & _ & Hin2).
    destruct (Hnodes 3%positive (new_node 30) eq_refl) as (nd3 & H3 & _ & Hin3).
    rewrite H2, H3. cbn [fmap option_fmap option_map]. rewrite Hin2, Hin3.
    split; reflexivity.
Defined.

Lemma heap_top_is_least_witness :
  exists s' a, run Z.ltb nine_steps (new_heap 9 five_nodes) = Some (tt, s') /\
    top s' = Some (Some a, s') /\ value <$> five_nodes !! a = Some 20.
Proof.
  destruct (heap_top_is_least Z.ltb 9 five_nodes nine_steps)
    as (s' & r & Hrun & Htop & Hr).
  - exact Z_ltb_strict_weak_order.
  - vm_compute. reflexivity.
  - vm_compute. reflexivity.
  - vm_compute. reflexivity.
  - destruct r as [a|]; [|exfalso; apply (f_equal (fun X => bool_decide (4%positive ∈ X))) in Hr;
                           vm_compute in Hr; discriminate].
    exists s', a. split; [exact Hrun|]. split; [exact Htop|].
    destruct Hr as [Ha Hleast].
    assert (a = 3 \/ a = 4 \/ a = 5)%positive as Hcases.
    { assert (a ∈ ({[3; 4; 5]} : gset positive))%positive as Hin.
      { replace ({[3; 4; 5]} : gset positive)%positive with (resident ∅ nine_steps); [done|].
        symmetry. apply (bool_decide_unpack _). vm_compute. exact I. }
      rewrite !elem_of_union, !elem_of_singleton in Hin. tauto. }
    destruct Hcases as [-> | [-> | ->]]; [|reflexivity|reflexivity].
    exfalso.
    assert (4%positive ∈ resident ∅ nine_steps) as H4
      by (apply (bool_decide_unpack _); vm_compute; exact I).
    specialize (Hleast 4%positive 30 20 H4 eq_refl eq_refl). vm_compute in Hleast. discriminate.
Defined.

End BinHeapMore.

(** ** [clear] *)

Module BinHeapClear.
Import BinHeap BinHeapRep BinHeapFind BinHeapSift BinHeapOps BinHeapFacts BinHeapView BinHeapMore.

(** Position [p] is in the subtree at position [k]. *)
Inductive below : positive -> positive -> Prop :=
| below_here (k : positive) : below k k
| below_left (k p : positive) : below (xO k) p -> below k p
| below_right (k p : positive) : below (xI k) p -> below k p.

Lemma below_le (k p : positive) : below k p -> (k <= p)%positive.
Proof. induction 1; lia. Qed.

Lemma below_down (k p : positive) : below k p -> below k (xO p) /\ below k (xI p).
Proof.
  induction 1 as [k|k p _ [IH0 IH1]|k p _ [IH0 IH1]].
  - split; [apply below_left|apply below_right]; apply below_here.
  - split; by apply below_left.
  - split; by apply below_right.
Qed.

Lemma below_root (p : positive) : below 1 p.
Proof.
  induction p as [p IH|p IH|]; [by apply below_down|by apply below_down|apply below_here].
Qed.

Section Clear.

Context {T : Type}.

Local Abbreviation state := (state T).
Local Abbreviation node := (BinHeapNode T).

(** The child pointers of the nodes are those of the tree [m]. *)
Definition linked (m : gmap positive positive) (s : state) : Prop :=
  forall p a, m !! p = Some a ->
    exists nd, nodes s !! a = Some nd /\ left nd = m !! xO p /\ right nd = m !! xI p.

(** Nodes are taken out of the heap, and nothing else is written. *)
Definition unlinks (s s' : state) : Prop :=
  this s' = this s /\ m_size s' = m_size s /\ m_root s' = m_root s /\
  forall c, option_Forall2
              (fun nd nd' : node =>
                 value nd' = value nd /\ left nd' = left nd /\ right nd' = right nd /\
                 (in_heap nd' = in_heap nd \/ in_heap nd' = None))
              (nodes s !! c) (nodes s' !! c).

Lemma unlinks_refl (s : state) : unlinks s s.
Proof.
  repeat split. intros c. destruct (nodes s !! c); constructor. tauto.
Qed.

Lemma unlinks_trans (s1 s2 s3 : state) : unlinks s1 s2 -> unlinks s2 s3 -> unlinks s1 s3.
Proof.
  intros (Ha & Hb & Hc & H12) (Ha' & Hb' & Hc' & H23).
  split; [congruence|]. split; [congruence|]. split; [congruence|].
  intros c. specialize (H12 c). specialize (H23 c).
  destruct H12 as [x y (Hv & Hl & Hr & Hh)|]; inversion H23 as [? z (Hv' & Hl' & Hr' & Hh')|];
    subst; constructor.
  repeat split; try congruence.
  destruct Hh' as [Hh'|Hh']; [|by right]. rewrite Hh'. done.
Qed.

Lemma unlinks_linked (m : gmap positive positive) (s s' : state) :
  linked m s -> unlinks s s' -> linked m s'.
Proof.
  intros Hl (_ & _ & _ & H) p a Hp. destruct (Hl p a Hp) as (nd & Hnd & Hleft & Hright).
  specialize (H a). rewrite Hnd in H. inversion H as [? nd' (Hv & Hl' & Hr' & _)|]; subst.
  exists nd'. split; [done|]. split; congruence.
Qed.

Lemma unlinks_out (s s' : state) (c : positive) (nd : node) :
  unlinks s s' -> nodes s !! c = Some nd -> in_heap nd = None ->
  exists nd', nodes s' !! c = Some nd' /\ in_heap nd' = None.
Proof.
  intros (_ & _ & _ & H) Hnd Hin. specialize (H c). rewrite Hnd in H.
  inversion H as [? nd' (_ & _ & _ & Hh)|]; subst. exists nd'. split; [done|].
  destruct Hh; congruence.
Qed.

Lemma unlinks_value (s s' : state) (c : positive) (nd : node) :
  unlinks s s' -> nodes s !! c = Some nd ->
  exists nd', nodes s' !! c = Some nd' /\ value nd' = value nd.
Proof.
  intros (_ & _ & _ & H) Hnd. specialize (H c). rewrite Hnd in H.
  inversion H as [? nd' (Hv & _)|]; subst. by exists nd'.
Qed.

(** [remove_recursively] on the subtree at position [k]. *)
Lemma remove_recursively_spec (m : gmap positive positive) (n : Z) :
  n < 2 ^ 64 -> (forall p, is_Some (m !! p) <-> Z.pos p <= n) ->
  forall (fuel : nat) (k : positive) (s : state),
  linked m s -> (66 <= fuel + Pos.size_nat k)%nat ->
  exists s', remove_recursively fuel (m !! k) s = Some (tt, s') /\ unlinks s s' /\
    forall p c, below k p -> m !! p = Some c ->
      exists nd, nodes s' !! c = Some nd /\ in_heap nd = None.
Proof.
  intros Hn Hdom fuel. induction fuel as [|fuel IH]; intros k s Hl Hfuel.
  - destruct (m !! k) as [a|] eqn:Hk.
    + assert (Z.pos k <= n) as Hkn by (apply Hdom; by eexists).
      pose proof (size_nat_bound k 64 ltac:(lia)). lia.
    + exists s. split; [done|]. split; [apply unlinks_refl|].
      intros p c Hp Hc. apply below_le in Hp.
      assert (Z.pos p <= n) as Hpn by (apply Hdom; by eexists).
      assert (is_Some (m !! k)) as [? ?] by (apply Hdom; lia). congruence.
  - destruct (m !! k) as [a|] eqn:Hk.
    + cbn [remove_recursively].
      destruct (Hl k a Hk) as (nd & Hnd & Hleft & Hright).
      unfold set_in_heap. rewrite run_modify by (exists a; split; [done|by eexists]).
      set (s1 := mkState _ _ _ _).
      assert (Hnd1 : nodes s1 !! a = Some (with_in_heap None nd)).
      { unfold s1. cbn [nodes alter_at]. by rewrite lookup_alter_eq, Hnd. }
      assert (H01 : unlinks s s1).
      { repeat split. intros c. unfold s1. cbn [nodes alter_at].
        destruct (decide (c = a)) as [->|Hne].
        - rewrite lookup_alter_eq, Hnd. constructor. cbn. tauto.
        - rewrite lookup_alter_ne by done. destruct (nodes s !! c); constructor. tauto. }
      pose proof (unlinks_linked m s s1 Hl H01) as Hl1.
      rewrite (run_get_left _ a _ _ s1 eq_refl Hnd1). cbn [left with_in_heap]. rewrite Hleft.
      destruct (IH (xO k) s1 Hl1 ltac:(cbn [Pos.size_nat]; lia))
        as (s2 & Hrun2 & H12 & Hpost2).
      rewrite (run_bind_eq _ _ _ _ _ Hrun2).
      pose proof (unlinks_linked m s1 s2 Hl1 H12) as Hl2.
      destruct (Hl2 k a Hk) as (nd2 & Hnd2 & _ & Hright2).
      rewrite (run_get_right _ a _ _ s2 eq_refl Hnd2). rewrite Hright2.
      destruct (IH (xI k) s2 Hl2 ltac:(cbn [Pos.size_nat]; lia))
        as (s3 & Hrun3 & H23 & Hpost3).
      exists s3. split; [done|].
      split; [eapply unlinks_trans; [done|]; by eapply unlinks_trans|].
      intros p c Hp Hc. inversion Hp as [k'|k' p' Hp'|k' p' Hp']; subst.
      * assert (c = a) as -> by congruence.
        apply (unlinks_out s1 s3 a (with_in_heap None nd)); [|done|done].
        by eapply unlinks_trans.
      * destruct (Hpost2 p c Hp' Hc) as (x & Hx & Hxin).
        by apply (unlinks_out s2 s3 c x).
      * by apply (Hpost3 p c).
    + exists s. split; [done|]. split; [apply unlinks_refl|].
      intros p c Hp Hc. apply below_le in Hp.
      assert (Z.pos p <= n) as Hpn by (apply Hdom; by eexists).
      assert (is_Some (m !! k)) as [? ?] by (apply Hdom; lia). congruence.
Qed.

Variable is_less_than : T -> T -> bool.

Local Abbreviation inv := (inv is_less_than).

(** [clear] on a heap with the nodes [R]. *)
Lemma clear_inv (D R : gset positive) (s : state) :
  inv D R s -> Z.of_nat (base.size D) < 2 ^ 63 ->
  exists s', clear s = Some (tt, s') /\
    this s' = this s /\ m_size s' = 0 /\ m_root s' = m_root s /\
    forall c, c ∈ D ->
      exists nd nd', nodes s !! c = Some nd /\ nodes s' !! c = Some nd' /\
        value nd' = value nd /\ in_heap nd' = None.
Proof.
  intros (m & n & Hrep & _ & Hn & Hrange & Hsub & Hmem) Hsize.
  pose proof (subseteq_size R D Hsub) as Hle.
  assert (Hl : linked m s).
  { intros p a Hp. destruct (rep_node _ _ _ Hrep p a Hp) as [v Hv]. by eexists. }
  destruct (remove_recursively_spec m n ltac:(lia) (rep_dom _ _ _ Hrep) 65 1 s Hl
              ltac:(cbn [Pos.size_nat]; lia)) as (s1 & Hrun & H01 & Hpost).
  pose proof H01 as (Ha & Hb & Hc & Hrel).
  rewrite <- (rep_root _ _ _ Hrep) in Hrun.
  unfold clear. rewrite run_get_root.
  change (S MAX_DEPTH) with 65%nat. rewrite (run_bind_eq _ _ _ _ _ Hrun).
  eexists. split; [reflexivity|]. cbn [this m_size m_root nodes].
  split; [done|]. split; [done|]. split; [done|].
  intros c HcD. destruct (Hmem c HcD) as (nd & Hnd & Hin).
  destruct (unlinks_value s s1 c nd H01 Hnd) as (nd' & Hnd' & Hv).
  exists nd, nd'. split; [done|]. split; [done|]. split; [done|].
  destruct (decide (c ∈ R)) as [HR|HR].
  - destruct (proj1 (Hrange c) HR) as [p Hp].
    destruct (Hpost p c (below_root p) Hp) as (x & Hx & Hxin). congruence.
  - destruct (unlinks_out s s1 c nd H01 Hnd (Hin HR)) as (x & Hx & Hxin). congruence.
Qed.

End Clear.

(** [clear], after any run of [insert]s and [remove]s on a heap that
    was empty, returns; then [size] is 0, [empty] is true, no node is
    in the heap, and every node has the value it had. *)
Theorem clear_takes_every_node_out {T : Type} (is_less_than : T -> T -> bool)
    (h : positive) (mem : gmap positive (BinHeapNode T)) (ops : list op) :
  strict_weak_order is_less_than ->
  fresh mem = true ->
  Z.of_nat (base.size mem) < 2 ^ 63 ->
  admissible (dom mem) ∅ ops = true ->
  exists s', bind (run is_less_than ops) (fun _ => clear) (new_heap h mem) = Some (tt, s') /\
    size s' = Some (0, s') /\ empty s' = Some (true, s') /\
    forall c nd, mem !! c = Some nd ->
      exists nd', nodes s' !! c = Some nd' /\ value nd' = value nd /\ inHeap nd' = false.
Proof.
  intros Hswo Hfresh Hsize Hadm.
  assert (Z.of_nat (base.size (dom mem)) < 2 ^ 63) as HD by (by rewrite size_dom).
  destruct (run_inv is_less_than Hswo (dom mem) ops HD ∅ (new_heap h mem)
              (inv_new_heap is_less_than h mem Hfresh) Hadm) as (s1 & Hrun & Hinv & Hsame).
  destruct (clear_inv is_less_than _ _ s1 Hinv HD) as (s' & Hclear & _ & Hsz & _ & Hnodes).
  exists s'. rewrite (run_bind_eq _ _ _ _ _ Hrun).
  split; [done|]. split; [by unfold size, get_size; rewrite Hsz|].
  split; [by unfold empty, bind, get_size, ret; rewrite Hsz|].
  intros c nd Hc.
  destruct (Hnodes c ltac:(by apply elem_of_dom_2 in Hc)) as (nd1 & nd' & Hnd1 & Hnd' & Hv & Hin).
  exists nd'. split; [done|]. split.
  - specialize (Hsame c). cbn [new_heap nodes] in Hsame. rewrite Hc, Hnd1 in Hsame.
    inversion Hsame. congruence.
  - unfold inHeap. rewrite Hin. by apply bool_decide_eq_false_2; intros [].
Qed.

(** [clear] leaves the root pointer as it is.  After [clear] on a
    heap that had nodes, [top] is still the node that was the top, and
    an [insert] fails: the place for the first node is not null. *)
Theorem clear_keeps_root_pointer {T : Type} (is_less_than : T -> T -> bool)
    (h : positive) (mem : gmap positive (BinHeapNode T)) (ops : list op) (a : positive) :
  strict_weak_order is_less_than ->
  fresh mem = true ->
  Z.of_nat (base.size mem) < 2 ^ 63 ->
  admissible (dom mem) ∅ ops = true ->
  resident ∅ ops <> ∅ ->
  exists s1 s' r, run is_less_than ops (new_heap h mem) = Some (tt, s1) /\
    top s1 = Some (Some r, s1) /\
    clear s1 = Some (tt, s') /\
    top s' = Some (Some r, s') /\
    insert is_less_than (Some a) s' = None.
Proof.
  intros Hswo Hfresh Hsize Hadm Hne.
  assert (Z.of_nat (base.size (dom mem)) < 2 ^ 63) as HD by (by rewrite size_dom).
  destruct (run_inv is_less_than Hswo (dom mem) ops HD ∅ (new_heap h mem)
              (inv_new_heap is_less_than h mem Hfresh) Hadm) as (s1 & Hrun & Hinv & Hsame).
  destruct (inv_root is_less_than Hswo _ _ s1 Hinv Hne) as (r & Hr & _).
  destruct (clear_inv is_less_than _ _ s1 Hinv HD) as (s' & Hclear & _ & Hsz & Hroot & Hnodes).
  exists s1, s', r. split; [done|]. split; [by unfold top, get_root; rewrite Hr|].
  split; [done|]. split; [by unfold top, get_root; rewrite Hroot, Hr|].
  unfold insert. unfold get_in_heap at 1. rewrite run_bind_assoc.
  unfold bind at 1, load.
  destruct (nodes s' !! a) as [nd|] eqn:Hnd; [|done].
  rewrite run_ret.
  destruct (bool_decide (in_heap nd = None)); [|done].
  rewrite run_assert by done. rewrite run_get_size, Hsz.
  change (wrap64 (0 + 1)) with 1.
  unfold find_index. rewrite run_bind_assoc, run_assert by done.
  cbn [find_index_path find_index_walk Z.ltb Z.compare Pos.compare Pos.compare_cont].
  rewrite run_ret. cbn [read_slot]. rewrite run_get_root, Hroot, Hr.
  by rewrite bool_decide_eq_false_2.
Qed.

Lemma clear_takes_every_node_out_witness :
  exists s', bind (run Z.ltb nine_steps) (fun _ => clear) (new_heap 9 five_nodes)
             = Some (tt, s') /\
    size s' = Some (0, s') /\
    (inHeap <$> nodes s' !! 4%positive) = Some false.
Proof.
  destruct (clear_takes_every_node_out Z.ltb 9 five_nodes nine_steps)
    as (s' & Hrun & Hsize & _ & Hnodes).
  - exact Z_ltb_strict_weak_order.
  - vm_compute. reflexivity.
  - vm_compute. reflexivity.
  - vm_compute. reflexivity.
  - exists s'. split; [exact Hrun|]. split; [exact Hsize|].
    destruct (Hnodes 4%positive (new_node 20) eq_refl) as (nd & Hnd & _ & Hin).
    rewrite Hnd. cbn [fmap option_fmap option_map]. by rewrite Hin.
Defined.

Lemma clear_keeps_root_pointer_witness :
  exists s1 s' r, run Z.ltb nine_steps (new_heap 9 five_nodes) = Some (tt, s1) /\
    top s1 = Some (Some r, s1) /\
    clear s1 = Some (tt, s') /\
    top s' = Some (Some r, s') /\
    insert Z.ltb (Some 1%positive) s' = None.
Proof.
  apply clear_keeps_root_pointer.
  - exact Z_ltb_strict_weak_order.
  - vm_compute. reflexivity.
  - vm_compute. reflexivity.
  - vm_compute. reflexivity.
  - intros He. apply (f_equal (fun X => bool_decide (4%positive ∈ X))) in He.
    vm_compute in He. discriminate.
Defined.

End BinHeapClear.

(** ** More on the timeout queue *)

Module TimeoutMore.
Import BinHeap BinHeapRep BinHeapSift BinHeapOps BinHeapFacts BinHeapView BinHeapMore.
Import TimeoutQueue TimeoutFacts TimeoutSpec.

(** The handles of [L] that have not come to their end. *)
Fixpoint alive {CB : Type} (L : gset positive) (es : list (event CB)) : gset positive :=
  match es with
  | [] => L
  | EvDestroy h :: es' => alive (L ∖ {[h]}) es'
  | _ :: es' => alive L es'
  end.

(** The expiration times of the timers are those of a [u64]. *)
Definition in_u64 {CB : Type} (A : gmap positive (TimeoutRecord CB)) : Prop :=
  map_Forall (fun _ v => 0 <= expiration v < 2 ^ 64) A.

Lemma timers_run_in_u64 {CB : Type} (L : gset positive) (es : list (event CB))
    (A : gmap positive (TimeoutRecord CB)) :
  wf_events L es = true -> in_u64 A -> in_u64 (timers_run es A).
Proof.
  revert L A. induction es as [|e es IH]; intros L A Hwf HA; [done|].
  unfold timers_run. cbn [foldl]. fold (timers_run es (timers_step e A)).
  cbn [wf_events] in Hwf. destruct e as [h now d cb|h|h|now]; cbn [timers_step].
  - apply andb_true_iff in Hwf as [Hwf Hrest].
    apply andb_true_iff in Hwf as [Hwf Hhi]. apply andb_true_iff in Hwf as [_ Hlo].
    apply Z.leb_le in Hlo. apply Z.ltb_lt in Hhi.
    apply (IH L); [done|]. apply map_Forall_insert_2; [cbn; lia|done].
  - apply andb_true_iff in Hwf as [_ Hrest]. apply (IH L); [done|].
    by apply map_Forall_delete.
  - apply andb_true_iff in Hwf as [_ Hrest]. apply (IH (L ∖ {[h]})); [done|].
    by apply map_Forall_delete.
  - apply (IH L); [done|]. intros c v Hc. apply map_lookup_filter_Some in Hc as [Hc _].
    by apply (HA c v).
Qed.

Section More.

Context {CB U : Type}.
Variable fire : CB -> world CB U -> option (world CB U).

Local Abbreviation TimeoutRecord := (TimeoutRecord CB).
Local Abbreviation TimeoutHeap := (state TimeoutRecord).
Local Abbreviation world := (world CB U).
Local Abbreviation record_lt := (@record_lt CB).

(** What [isActive] returns. *)
Lemma isActive_armed (s : TimeoutHeap) (A : gmap positive TimeoutRecord) (h : positive) :
  armed s A -> h ∈ dom (nodes s) ->
  isActive h s = Some (bool_decide (is_Some (A !! h)), s).
Proof.
  intros (_ & Hinv & _) Hh.
  destruct (inv_inHeap record_lt _ _ s h Hinv Hh) as (nd & Hnd & Hin).
  unfold isActive, bind, load, ret. rewrite Hnd, Hin. do 2 f_equal.
  apply bool_decide_ext. apply elem_of_dom.
Qed.

(** The events, with the handles that are left. *)
Lemma run_events_alive (fuel : nat) (es : list (event CB)) :
  aside fire ->
  forall (A : gmap positive TimeoutRecord) (w : world),
  armed (tq w) A ->
  wf_events (dom (nodes (tq w))) es = true ->
  (base.size (dom (nodes (tq w))) <= fuel)%nat ->
  exists w', run_events fire fuel es w = Some (tt, w') /\
    armed (tq w') (timers_run es A) /\
    dom (nodes (tq w')) = alive (dom (nodes (tq w))) es /\
    (base.size (dom (nodes (tq w'))) <= fuel)%nat.
Proof.
  intros Haside. induction es as [|e es IH]; intros A [s cs u] Harm Hwf Hfuel;
    cbn [tq calls] in *.
  { by exists (mkWorld s cs u). }
  cbn [run_events wf_events alive] in *.
  unfold timers_run. cbn [foldl]. fold (timers_run es (timers_step e A)).
  destruct e as [h now d cb|h|h|now]; cbn [run_event timers_step].
  - apply andb_true_iff in Hwf as [Hwf Hrest].
    apply andb_true_iff in Hwf as [Hwf Hhi]. apply andb_true_iff in Hwf as [Hh Hlo].
    apply bool_decide_eq_true in Hh. apply Z.leb_le in Hlo. apply Z.ltb_lt in Hhi.
    destruct (setTimeout_armed s A h now d cb Harm Hh ltac:(lia))
      as (s' & Hrun & Harm' & Hdom' & _).
    unfold wbind at 1, lift. cbn [tq calls user]. rewrite Hrun.
    destruct (IH _ (mkWorld s' cs u) Harm') as (w' & Hrun' & Harm'' & Hdom'' & Hsz);
      cbn [tq calls user] in *; rewrite ?Hdom'; try done.
    exists w'. by rewrite <- Hdom'.
  - apply andb_true_iff in Hwf as [Hh Hrest]. apply bool_decide_eq_true in Hh.
    destruct (clearTimeout_armed s A h Harm Hh) as (s' & Hrun & Harm' & Hdom' & _).
    unfold wbind at 1, lift. cbn [tq calls user]. rewrite Hrun.
    destruct (IH _ (mkWorld s' cs u) Harm') as (w' & Hrun' & Harm'' & Hdom'' & Hsz);
      cbn [tq calls user] in *; rewrite ?Hdom'; try done.
    exists w'. by rewrite <- Hdom'.
  - apply andb_true_iff in Hwf as [Hh Hrest]. apply bool_decide_eq_true in Hh.
    destruct (delete_handle_armed s A h Harm Hh) as (s' & Hrun & Harm' & Hdom' & _).
    unfold wbind at 1, lift. cbn [tq calls user]. rewrite Hrun.
    destruct (IH _ (mkWorld s' cs u) Harm') as (w' & Hrun' & Harm'' & Hdom'' & Hsz);
      cbn [tq calls user] in *; rewrite ?Hdom'; try done.
    { pose proof (subseteq_size (dom (nodes s) ∖ {[h]}) (dom (nodes s))
                    ltac:(apply subseteq_difference_l; done)). lia. }
    exists w'. by rewrite <- Hdom'.
  - destruct (processTimeouts_spec fire (armed_at (dom (nodes s)))
                ltac:(by intros ? ? [? _]) (aside_fire fire (dom (nodes s)) Haside)
                fuel now A (mkWorld s cs u) ltac:(done))
      as (w1 & F & Hrun & [Harm1 Hdom1] & Hcalls1 & HF).
    { pose proof (armed_size s A Harm). lia. }
    unfold wbind at 1. rewrite Hrun.
    destruct (IH _ w1 Harm1) as (w' & Hrun' & Harm'' & Hdom'' & Hsz);
      rewrite ?Hdom1; try done.
    exists w'. by rewrite <- Hdom1.
Qed.

(** [nextTimeoutMs] with the timers [A]. *)
Lemma nextTimeoutMs_armed (s : TimeoutHeap) (A : gmap positive TimeoutRecord) (now : Z) :
  armed s A -> in_u64 A -> 0 <= now ->
  (A = ∅ -> nextTimeoutMs now s = None) /\
  (A <> ∅ -> exists h v, A !! h = Some v /\
     (forall h' v', A !! h' = Some v' -> expiration v <= expiration v') /\
     nextTimeoutMs now s = Some (Z.max 0 (expiration v - now), s)).
Proof.
  intros (Hsize & Hinv & Hval) Hu Hnow.
  pose proof (inv_size record_lt _ _ s Hinv) as Hn. rewrite size_dom in Hn.
  unfold nextTimeoutMs, empty. rewrite run_bind_assoc, run_get_size, run_ret.
  split.
  - intros ->. rewrite map_size_empty in Hn. by rewrite Hn.
  - intros Hne.
    assert (base.size A <> 0%nat) as Hsz by (by apply map_size_non_empty_iff).
    rewrite (proj2 (Z.eqb_neq _ _)) by lia. cbn [negb]. rewrite run_assert by done.
    destruct (inv_root record_lt record_lt_swo _ _ s Hinv) as (r & Hroot & Hr & Hmin);
      [by rewrite dom_empty_iff_L|].
    apply elem_of_dom in Hr as [v Hv]. destruct (Hval r v Hv) as [Hkv _].
    unfold top. rewrite run_get_root, Hroot.
    rewrite (run_bind_eq _ _ _ _ _ (run_get_record _ _ _ Hkv)).
    exists r, v. split; [done|]. split.
    + intros h' v' Hh'. destruct (Hval h' v' Hh') as [Hk' _].
      pose proof (Hmin h' v v' ltac:(apply elem_of_dom; by eexists) Hkv Hk') as Hlt.
      apply Z.ltb_ge in Hlt. lia.
    + pose proof (Hu r v Hv) as Hb. cbn in Hb.
      destruct (Z.leb_spec (expiration v) now); unfold ret; do 2 f_equal; [lia|].
      unfold wrap64. rewrite Z.mod_small by lia. lia.
Qed.

End More.


(** The expiration times of the timers whose callbacks were run. *)
Definition times {CB : Type} (A : gmap positive (TimeoutRecord CB))
    (F : list (positive * CB)) : list Z :=
  (fun p => default 0 (expiration <$> A !! p.1)) <$> F.

Section Order.

Context {CB U : Type}.
Variable fire : CB -> world CB U -> option (world CB U).

Local Abbreviation TimeoutRecord := (TimeoutRecord CB).
Local Abbreviation TimeoutHeap := (state TimeoutRecord).
Local Abbreviation world := (world CB U).
Local Abbreviation record_lt := (@record_lt CB).
Local Abbreviation process_loop := (process_loop fire).
Local Abbreviation processTimeouts := (processTimeouts fire).

Variable Good : gmap positive TimeoutRecord -> world -> Prop.
Hypothesis Good_armed : forall A w, Good A w -> armed (tq w) A.
Hypothesis Good_fire : forall A w c v cb s1,
  Good A w -> A !! c = Some v -> callback v = Some cb ->
  armed s1 (delete c A) -> this s1 = this (tq w) ->
  dom (nodes s1) = dom (nodes (tq w)) ->
  exists w', fire cb (mkWorld s1 (calls w ++ [(c, cb)]) (user w)) = Some w' /\
    Good (delete c A) w' /\ calls w' = calls w ++ [(c, cb)].

Lemma times_delete (A : gmap positive TimeoutRecord) (r : positive)
    (F : list (positive * CB)) :
  Forall (fun p => is_Some (delete r A !! p.1)) F -> times (delete r A) F = times A F.
Proof.
  intros HF. unfold times. apply list_fmap_ext. intros i p Hp.
  apply (proj1 (Forall_lookup _ _) HF) in Hp as [v Hv].
  apply lookup_delete_Some in Hv as [Hne Hv]. by rewrite lookup_delete_ne.
Qed.

(** The loop runs the callbacks by ascending expiration time. *)
Lemma process_loop_sorted (fuel : nat) (now : Z) :
  forall (A : gmap positive TimeoutRecord) (w : world),
  Good A w -> (base.size A <= fuel)%nat ->
  exists w' F, process_loop fuel now w = Some (tt, w') /\
    calls w' = calls w ++ F /\
    Forall (fun p => exists v, A !! p.1 = Some v /\ expiration v < now) F /\
    StronglySorted Z.le (times A F).
Proof.
  induction fuel as [|fuel IH]; intros A [s cs u] HGood Hfuel.
  all: destruct (Good_armed _ _ HGood) as (Hsize & Hinv & Hval); cbn [tq] in *.
  all: pose proof (inv_size record_lt _ _ s Hinv) as Hn; rewrite size_dom in Hn.
  all: cbn [TimeoutQueue.process_loop].
  all: rewrite (run_lift empty _ _ (m_size s =? 0) s) by done; cbn [tq calls user].
  all: destruct (decide (A = ∅)) as [->|Hne].
  all: try (rewrite map_size_empty in Hn; rewrite Hn; cbn [Z.eqb];
    exists (mkWorld s cs u), []; split; [done|];
    split; [by rewrite app_nil_r|]; split; constructor).
  all: assert (base.size A <> 0%nat) as Hsz by (by apply map_size_non_empty_iff).
  all: rewrite (proj2 (Z.eqb_neq _ _)) by lia.
  all: destruct (inv_root record_lt record_lt_swo _ _ s Hinv) as (r & Hroot & Hr & Hmin);
    [by rewrite dom_empty_iff_L|].
  all: apply elem_of_dom in Hr as [v Hv]; destruct (Hval r v Hv) as [Hkv [cb Hcb]].
  all: rewrite (run_lift top _ _ (m_root s) s) by done; cbn [tq calls user]; rewrite Hroot.
  all: rewrite (run_lift (get_value (Some r)) _ _ v s) by (by apply run_get_record);
    cbn [tq calls user].
  all: destruct (Z.ltb_spec (expiration v) now) as [Hdue|Hnot].
  all: try lia.
  all: try (exists (mkWorld s cs u), []; split; [done|];
    split; [by rewrite app_nil_r|]; split; constructor).
  assert (is_Some (nodes s !! r)) as Hnr.
  { unfold keyof in Hkv. destruct (nodes s !! r); [by eexists|done]. }
  rewrite (run_lift (set_record (Some r) (with_callback None)) _ _ tt
             (revalue (with_callback None) r s)) by (by apply run_set_record).
  cbn [tq calls user].
  set (sa := revalue (with_callback None) r s).
  assert (Hinva : inv record_lt (dom (nodes sa)) (dom A) sa).
  { unfold sa. rewrite dom_revalue. apply inv_revalue_same_order; [|done].
    intros; apply with_callback_same_order. }
  destruct (inv_remove record_lt record_lt_swo _ _ sa r Hinva) as (s1 & Hrun1 & Hinv1 & Hev1).
  { unfold sa. by rewrite dom_revalue. } { apply elem_of_dom. by eexists. }
  pose proof (evolves_dom r sa s1 Hev1) as Hdom1.
  rewrite (run_lift (remove record_lt (Some r)) _ _ tt s1) by done.
  cbn [tq calls user].
  assert (Harm1 : armed s1 (delete r A)).
  { split; [unfold sa in Hdom1; by rewrite Hdom1, dom_revalue|]. split.
    - rewrite Hdom1, dom_delete_L. done.
    - intros c vc Hc. apply lookup_delete_Some in Hc as [Hne' Hc].
      destruct (Hval c vc Hc) as [Hkc Hcbc]. split; [|done].
      rewrite (evolves_keyof r c sa s1 Hev1). unfold sa.
      by rewrite keyof_revalue, decide_False by done. }
  destruct (Good_fire A (mkWorld s cs u) r v cb s1 HGood Hv Hcb Harm1)
    as (w1 & Hfire & HGood1 & Hcalls1).
  { rewrite (proj1 Hev1). done. }
  { unfold sa in Hdom1. by rewrite Hdom1, dom_revalue. }
  cbn [tq calls user] in Hfire.
  unfold wbind at 1, invoke. cbn [tq calls user]. rewrite Hcb, Hfire.
  destruct (IH (delete r A) w1 HGood1) as (w' & F & Hrun' & Hcalls' & HF & Hsorted).
  { rewrite map_size_delete_Some by (by eexists). lia. }
  assert (HF' : Forall (fun p => is_Some (delete r A !! p.1)) F).
  { eapply Forall_impl; [exact HF|]. intros p (x & Hx & _). by eexists. }
  exists w', ((r, cb) :: F). split; [done|]. split; [|split].
  - rewrite Hcalls', Hcalls1. cbn [calls]. by rewrite <- app_assoc.
  - constructor; [by exists v|]. eapply Forall_impl; [exact HF|].
    intros p (x & Hx & Hdx). apply lookup_delete_Some in Hx as [_ Hx]. by exists x.
  - rewrite (times_delete A r F HF') in Hsorted.
    cbn [times fmap list_fmap fst]. fold (times A F). rewrite Hv. cbn [fmap option_fmap option_map default].
    constructor; [done|].
    unfold times. apply Forall_fmap. eapply Forall_impl; [exact HF'|].
    intros p [x Hx]. apply lookup_delete_Some in Hx as [_ Hx]. cbn. rewrite Hx. cbn.
    destruct (Hval p.1 x Hx) as [Hkx _].
    pose proof (Hmin p.1 v x ltac:(apply elem_of_dom; by eexists) Hkv Hkx) as Hlt.
    apply Z.ltb_ge in Hlt. lia.
Qed.

Lemma processTimeouts_sorted (fuel : nat) (now : Z)
    (A : gmap positive TimeoutRecord) (w : world) :
  Good A w -> (base.size A <= fuel)%nat ->
  exists w' F, processTimeouts fuel now w = Some (tt, w') /\
    calls w' = calls w ++ F /\
    Forall (fun p => exists v, A !! p.1 = Some v /\ expiration v < now) F /\
    StronglySorted Z.le (times A F).
Proof. rewrite processTimeouts_loop. apply process_loop_sorted. Qed.

End Order.




(** Two handles, and callbacks that do nothing. *)
Definition two_handles : gmap positive (BinHeapNode (TimeoutRecord Z)) :=
  list_to_map [(1%positive, new_node (mkRecord 0 None));
               (2%positive, new_node (mkRecord 0 None))].

Definition idle (cb : Z) (w : world Z unit) : option (world Z unit) := Some w.

Lemma idle_aside : aside idle.
Proof. intros cb w. by exists w. Qed.





End TimeoutMore.

(** ** The window of sequence numbers (connection.h) *)

Module Window.

(** [seqnum_in_window]; the sum is an [int], and the remainder fits a [u16]. *)
Definition seqnum_in_window (seqnum next window_size : Z) : bool :=
  let window_start := next in
  let window_end := wrap16 ((next + window_size) mod (SEQNUM_MAX + 1)) in
  if window_start <? window_end then
    (window_start <=? seqnum) && (seqnum <? window_end)
  else
    (seqnum <? window_end) || (window_start <=? seqnum).

(** A sequence number is in the window when it is fewer than
    [window_size] steps ahead of [next], counting modulo 65536; and a
    window of size 0 holds every sequence number. *)
Theorem seqnum_in_window_counts_ahead (seqnum next window_size : Z) :
  is_u16 seqnum -> is_u16 next -> is_u16 window_size ->
  seqnum_in_window seqnum next window_size
  = bool_decide (window_size = 0 \/ (seqnum - next) mod 2 ^ 16 < window_size).
Proof.
  unfold is_u16, seqnum_in_window, wrap16, SEQNUM_MAX.
  change (65535 + 1) with 65536. change (2 ^ 16) with 65536.
  intros Hs Hn Hw. rewrite Z.mod_mod by lia.
  pose proof (Z.div_mod (next + window_size) 65536 ltac:(lia)) as He.
  pose proof (Z.mod_pos_bound (next + window_size) 65536 ltac:(lia)) as Heb.
  set (e := (next + window_size) mod 65536) in *.
  set (qe := (next + window_size) / 65536) in *.
  pose proof (Z.div_mod (seqnum - next) 65536 ltac:(lia)) as Hd.
  pose proof (Z.mod_pos_bound (seqnum - next) 65536 ltac:(lia)) as Hdb.
  set (d := (seqnum - next) mod 65536) in *.
  set (qd := (seqnum - next) / 65536) in *.
  assert (qe = 0 \/ qe = 1) as Hqe by lia.
  assert (qd = 0 \/ qd = -1) as Hqd by lia.
  destruct (Z.ltb_spec next e); destruct (Z.leb_spec next seqnum);
    destruct (Z.ltb_spec seqnum e); cbn [andb orb]; symmetry;
    (apply bool_decide_eq_true_2 || apply bool_decide_eq_false_2); lia.
Qed.

Lemma seqnum_in_window_counts_ahead_witness :
  seqnum_in_window 3 65530 64 = true /\ seqnum_in_window 58 65530 64 = false /\
  seqnum_in_window 12345 7 0 = true.
Proof.
  rewrite !seqnum_in_window_counts_ahead by (unfold is_u16; lia).
  repeat split; vm_compute; reflexivity.
Defined.

End Window.

(** ** The buffer under any split packets *)

Module SplitGeneral.
Import BinHeap BinHeapRep BinHeapSift BinHeapOps BinHeapFacts BinHeapView.
Import TimeoutQueue TimeoutFacts Split SplitFacts SplitSpec SplitTimeout.

Lemma map_find_keys (k : Z) (l : list (Z * ReceivedPacket)) :
  is_Some (map_find k l) <-> k ∈ l.*1.
Proof.
  induction l as [|[k' v] l IH]; cbn [map_find fmap list_fmap fst].
  - rewrite elem_of_nil. split; [by intros []|done].
  - rewrite elem_of_cons. destruct (Z.eqb_spec k' k) as [->|Hne].
    + split; [by left|by eexists].
    + rewrite IH. split; [by right|]. intros [?|?]; [congruence|done].
Qed.

Lemma map_emplace_keys (k : Z) (v : ReceivedPacket) (l : list (Z * ReceivedPacket)) :
  (map_emplace k v l).*1 = place k l.*1.
Proof.
  induction l as [|[k' v'] l IH]; cbn [map_emplace place fmap list_fmap fst]; [done|].
  destruct (k <? k'); [done|]. destruct (k' =? k); [done|].
  cbn [fmap list_fmap fst]. by rewrite <- IH.
Qed.

Section General.

Context {X : Type}.

Local Abbreviation closure := (closure X).
Local Abbreviation TimeoutRecord := (TimeoutRecord closure).
Local Abbreviation world := (world closure IncomingSplitBuffer).
Local Abbreviation W := (W closure IncomingSplitBuffer).

(** The chunks of a group are in ascending order of their numbers,
    which are below the count of the group, and one is missing. *)
Definition chunks_ok (g : IncomingSplitPacket) : Prop :=
  StronglySorted Z.lt (m_chunks g).*1 /\
  Forall (fun k => 0 <= k < m_chunk_count g) (m_chunks g).*1 /\
  Z.of_nat (length (m_chunks g)) < m_chunk_count g.

(** The buffer between two calls: every entry of [m_buf] is a group
    with that [seqnum], every group is an entry of [m_buf], the groups
    that are not reliable are those with a timer, and every group has
    a chunk missing. *)
Definition buffer_ok (A : gmap positive TimeoutRecord) (w : world) : Prop :=
  split_ok A w /\ forall sp g, groups (user w) !! sp = Some g -> chunks_ok g.

(** A split packet as the parser lets it through. *)
Definition valid_split (rpkt : ReceivedPacket) : Prop :=
  type rpkt = RPT_SPLIT /\ 0 <= split_chunk_num rpkt < split_chunk_count rpkt.

(** What an [insert] for the group at [sp], of the [seqnum] [q],
    leaves alone, and what it passes on. *)
Definition step_of (q : Z) (sp : positive) (A A' : gmap positive TimeoutRecord)
    (w w' : world) : Prop :=
  calls w' = calls w /\
  (forall q', q' <> q -> m_buf (user w') !! q' = m_buf (user w) !! q') /\
  (forall c, c <> sp -> groups (user w') !! c = groups (user w) !! c /\ A' !! c = A !! c) /\
  (received (user w') = received (user w) \/
   m_buf (user w') !! q = None /\ groups (user w') !! sp = None /\
   exists x, received (user w') = received (user w) ++ [x]).

Lemma insert_tail_general (A : gmap positive TimeoutRecord) (s : state TimeoutRecord)
    (cs : list (positive * closure)) (mb : gmap Z positive)
    (gs : gmap positive IncomingSplitPacket) (rc : list (list Z))
    (sp : positive) (g : IncomingSplitPacket) (rpkt : ReceivedPacket) (t : Z) :
  let w := mkWorld s cs (mkSplitBuffer mb gs rc) in
  buffer_ok A w ->
  mb !! split_seqnum rpkt = Some sp -> gs !! sp = Some g ->
  0 <= split_chunk_num rpkt ->
  0 <= t + SPLIT_TIMEOUT_MS < 2 ^ 64 ->
  if split_chunk_num rpkt <? m_chunk_count g then
    exists w' A', insert_tail sp rpkt t w = Some (tt, w') /\
      buffer_ok A' w' /\ dom (nodes (tq w')) ⊆ dom (nodes s) /\
      step_of (split_seqnum rpkt) sp A A' w w'
  else insert_tail sp rpkt t w = None.
Proof.
  intros w [[Harm Hgroup Hbuf Htimer] Hchunks] Hmb Hg Hnum Ht.
  cbn [tq user m_buf groups w] in *.
  destruct (Hgroup sp _ Hg) as (Hsp & Hmbg & Htm).
  destruct (Hbuf _ sp Hmb) as (g' & Hg' & Hq).
  assert (g' = g) as -> by congruence.
  destruct (Hchunks sp g Hg) as (Hsorted & Hrange & Hlen).
  unfold insert_tail, IncomingSplitPacket_insert, w.
  rewrite wbind_assoc. rewrite (run_load_group sp g) by done.
  destruct (Z.ltb_spec (split_chunk_num rpkt) (m_chunk_count g)) as [Hlt|Hge]; [|done].
  rewrite wbind_assoc, run_sanity by done.
  assert (Hsame : forall A0 w0, A0 = A -> w0 = mkWorld s cs (mkSplitBuffer mb gs rc) ->
            buffer_ok A0 w0 /\ dom (nodes (tq w0)) ⊆ dom (nodes s) /\
            step_of (split_seqnum rpkt) sp A A0 (mkWorld s cs (mkSplitBuffer mb gs rc)) w0).
  { intros A0 w0 -> ->. split; [by split|]. split; [done|]. split; [done|].
    split; [done|]. split; [done|]. by left. }
  assert (Hnot : (Z.of_nat (length (m_chunks g)) =? m_chunk_count g) = false)
    by (apply Z.eqb_neq; lia).
  destruct (m_chunk_count g =? split_chunk_count rpkt); cbn [negb].
  2:{ rewrite run_wret, (run_load_group sp g) by done. unfold allReceived. rewrite Hnot.
      eexists _, A. split; [reflexivity|]. by apply Hsame. }
  destruct (map_find (split_chunk_num rpkt) (m_chunks g)) as [old|] eqn:Hfind.
  { rewrite run_wret, (run_load_group sp g) by done. unfold allReceived. rewrite Hnot.
    eexists _, A. split; [reflexivity|]. by apply Hsame. }
  assert (Hnew : split_chunk_num rpkt ∉ (m_chunks g).*1).
  { intros Hin. apply map_find_keys in Hin as [? ?]. congruence. }
  rewrite wbind_assoc. unfold store_group. rewrite run_with_buffer.
  cbn [tq calls user m_buf groups received].
  set (g1 := mkSplitPacket (m_seqnum g)
               (map_emplace (split_chunk_num rpkt) rpkt (m_chunks g))
               (m_chunk_count g) (m_reliable g)).
  assert (Hlen1 : length (m_chunks g1) = S (length (m_chunks g))).
  { cbn [g1 m_chunks]. rewrite <- (length_fmap fst), map_emplace_keys.
    rewrite place_length by done. by rewrite length_fmap. }
  destruct (resetTimeout_armed A s cs (mkSplitBuffer mb (<[sp := g1]> gs) rc) sp g1 t
              Harm Hsp ltac:(apply lookup_insert_eq) Ht)
    as (s' & Hrun & Harm' & Hdom' & Hthis').
  rewrite Hrun. cbn [m_reliable g1] in Harm'.
  rewrite (run_load_group sp g1) by apply lookup_insert_eq.
  assert (Hgs : forall sp0 g0, sp <> sp0 -> gs !! sp0 = Some g0 ->
            m_seqnum g0 <> split_seqnum rpkt).
  { intros sp0 g0 Hne Hg0 Heq. destruct (Hgroup sp0 g0 Hg0) as (_ & Hmb0 & _).
    rewrite Heq in Hmb0. congruence. }
  assert (HA' : forall c, sp <> c -> rearmed (m_reliable g) sp t A !! c = A !! c).
  { intros c Hc. unfold rearmed. destruct (m_reliable g); [done|].
    by rewrite lookup_insert_ne. }
  destruct (allReceived g1) eqn:Hall.
  - rewrite run_with_buffer. cbn [tq calls user m_buf groups received].
    unfold reassemble. rewrite wbind_assoc, run_sanity by done.
    rewrite run_wret. unfold delete_group. rewrite wbind_assoc.
    destruct (delete_handle_armed s' _ sp Harm' ltac:(by rewrite Hdom'))
      as (s'' & Hrun'' & Harm'' & Hdom'' & Hthis'').
    rewrite (run_lift_at _ _ _ tt s'') by done.
    cbn [tq calls user m_buf groups received].
    unfold free_group. rewrite run_with_buffer.
    cbn [tq calls user m_buf groups received].
    eexists _, _. split; [reflexivity|].
    cbn [tq calls user m_buf groups received].
    rewrite delete_insert_eq.
    split; [split|split].
    + constructor; cbn [tq calls user m_buf groups received].
      * done.
      * intros sp0 g0 Hg0. apply lookup_delete_Some in Hg0 as [Hne Hg0].
        destruct (Hgroup sp0 g0 Hg0) as (Hsp0 & Hmb0 & Htm0).
        split; [|split].
        -- rewrite Hdom'', Hdom', elem_of_difference, elem_of_singleton. done.
        -- rewrite lookup_delete_ne; [done|]. intros Heq.
           by apply (Hgs sp0 g0 Hne Hg0).
        -- by rewrite lookup_delete_ne, HA' by done.
      * intros q0 sp0 Hq0. apply lookup_delete_Some in Hq0 as [Hne Hq0].
        destruct (Hbuf q0 sp0 Hq0) as (g0 & Hg0 & Hseq).
        exists g0. split; [|done]. rewrite lookup_delete_ne; [done|].
        intros ->. rewrite Hg in Hg0. by simplify_eq.
      * intros c v sp1 Hc Hcb. apply lookup_delete_Some in Hc as [Hne Hc].
        rewrite HA' in Hc by done. destruct (Htimer c v sp1 Hc Hcb) as [-> Hsome].
        split; [done|]. by rewrite lookup_delete_ne.
    + cbn [user groups]. intros sp0 g0 Hg0. apply lookup_delete_Some in Hg0 as [_ Hg0].
      by apply (Hchunks sp0 g0).
    + rewrite Hdom'', Hdom'. apply subseteq_difference_l. done.
    + split; [done|]. cbn [user m_buf groups received]. split; [|split].
      * intros q' Hq'. by rewrite lookup_delete_ne.
      * intros c Hc. by rewrite !lookup_delete_ne, HA' by done.
      * right. rewrite !lookup_delete_eq. split; [done|]. split; [done|]. by eexists.
  - eexists _, (rearmed (m_reliable g) sp t A). split; [reflexivity|].
    cbn [tq calls user m_buf groups received].
    assert (Hsp' : rearmed (m_reliable g) sp t A !! sp
              = if m_reliable g then None else Some (timer_of sp (t + SPLIT_TIMEOUT_MS))).
    { unfold rearmed. destruct (m_reliable g); [done|]. by rewrite lookup_insert_eq. }
    split; [split|split].
    + constructor; cbn [tq calls user m_buf groups received].
      * done.
      * intros sp0 g0 Hg0. apply lookup_insert_Some in Hg0 as [[<- <-]|[Hne Hg0]].
        -- cbn [g1 m_seqnum m_reliable]. rewrite Hdom', Hsp'.
           split; [done|]. split; [done|]. destruct (m_reliable g); [done|by eexists].
        -- destruct (Hgroup sp0 g0 Hg0) as (Hsp0 & Hmb0 & Htm0).
           rewrite Hdom', HA' by done. done.
      * intros q0 sp0 Hq0. destruct (Hbuf q0 sp0 Hq0) as (g0 & Hg0 & Hseq).
        destruct (decide (sp = sp0)) as [<-|Hne].
        -- exists g1. rewrite lookup_insert_eq. split; [done|].
           rewrite Hg in Hg0. by simplify_eq.
        -- exists g0. by rewrite lookup_insert_ne.
      * intros c v sp1 Hc Hcb. destruct (decide (sp = c)) as [<-|Hne].
        -- rewrite Hsp' in Hc. destruct (m_reliable g); simplify_eq. cbn in Hcb. simplify_eq.
           split; [done|]. rewrite lookup_insert_eq. by eexists.
        -- rewrite HA' in Hc by done. destruct (Htimer c v sp1 Hc Hcb) as [-> Hsome].
           split; [done|]. by rewrite lookup_insert_ne.
    + cbn [user groups]. intros sp0 g0 Hg0.
      apply lookup_insert_Some in Hg0 as [[<- <-]|[Hne Hg0]]; [|by apply (Hchunks sp0 g0)].
      unfold chunks_ok. cbn [g1 m_chunks m_chunk_count]. rewrite map_emplace_keys.
      split; [by apply place_sorted|]. split.
      * apply Forall_forall. intros x Hx. apply elem_of_place in Hx as [->|Hx]; [lia|].
        by apply (proj1 (Forall_forall _ _) Hrange).
      * unfold allReceived in Hall. apply Z.eqb_neq in Hall.
        cbn [g1 m_chunks m_chunk_count] in Hall, Hlen1. lia.
    + by rewrite Hdom'.
    + split; [done|]. cbn [user m_buf groups received]. split; [done|]. split; [|by left].
      intros c Hc. by rewrite lookup_insert_ne, HA' by done.
Qed.

(** [IncomingSplitBuffer::insert] of any split packet the parser lets
    through. *)
Lemma insert_general (A : gmap positive TimeoutRecord) (w : world)
    (rpkt : ReceivedPacket) (t : Z) :
  buffer_ok A w -> valid_split rpkt ->
  0 <= t + SPLIT_TIMEOUT_MS < 2 ^ 64 ->
  Z.of_nat (base.size (dom (nodes (tq w)))) + 1 < 2 ^ 63 ->
  match m_buf (user w) !! split_seqnum rpkt with
  | Some sp =>
      exists g, groups (user w) !! sp = Some g /\
        if split_chunk_num rpkt <? m_chunk_count g then
          exists w' A', IncomingSplitBuffer_insert rpkt t w = Some (tt, w') /\
            buffer_ok A' w' /\ dom (nodes (tq w')) ⊆ dom (nodes (tq w)) /\
            step_of (split_seqnum rpkt) sp A A' w w'
        else IncomingSplitBuffer_insert rpkt t w = None
  | None =>
      exists w' A' sp, IncomingSplitBuffer_insert rpkt t w = Some (tt, w') /\
        buffer_ok A' w' /\
        (base.size (dom (nodes (tq w'))) <= S (base.size (dom (nodes (tq w)))))%nat /\
        groups (user w) !! sp = None /\
        step_of (split_seqnum rpkt) sp A A' w w'
  end.
Proof.
  intros Hok [Hty Hnum] Ht Hroom. destruct w as [s cs [mb gs rc]].
  cbn [tq calls user m_buf groups received] in *.
  rewrite insert_unfold by done. cbn [tq calls user m_buf groups received].
  destruct (mb !! split_seqnum rpkt) as [sp|] eqn:Hmb.
  - destruct Hok as [Hsplit Hchunks].
    destruct (ok_buf _ _ Hsplit _ sp Hmb) as (g & Hg & Hq).
    cbn [user groups] in Hg. exists g. split; [done|].
    by apply (insert_tail_general A s cs mb gs rc sp g rpkt t); [split| | |lia|].
  - destruct Hok as [[Harm Hgroup Hbuf Htimer] Hchunks].
    cbn [tq calls user m_buf groups received] in *.
    set (q := split_seqnum rpkt) in *. set (C := split_chunk_count rpkt) in *.
    set (rel := is_reliable rpkt).
    unfold wbind at 1, alloc_group. cbn [tq calls user m_buf groups received].
    set (sp := base.fresh (dom gs ∪ dom (nodes s) ∪ {[this s]})).
    assert ((sp ∉ dom gs) /\ (sp ∉ dom (nodes s))) as [Hsp_gs Hsp_s].
    { pose proof (is_fresh (dom gs ∪ dom (nodes s) ∪ {[this s]})) as Hf. fold sp in Hf.
      rewrite !elem_of_union in Hf. tauto. }
    set (g0 := mkSplitPacket q [] C rel).
    unfold new_group. rewrite !wbind_assoc. unfold store_group. rewrite run_with_buffer.
    cbn [tq calls user m_buf groups received].
    destruct (new_handle_armed s A sp Harm Hsp_s Hroom)
      as (s1 & Hrun1 & Harm1 & Hdom1 & Hthis1).
    rewrite !wbind_assoc. rewrite (run_lift_at _ _ _ tt s1) by done.
    cbn [tq calls user m_buf groups received].
    destruct (resetTimeout_armed A s1 cs (mkSplitBuffer mb (<[sp := g0]> gs) rc) sp g0 t
                Harm1 ltac:(rewrite Hdom1; apply elem_of_union; left; by apply elem_of_singleton)
                ltac:(apply lookup_insert_eq) Ht)
      as (s2 & Hrun2 & Harm2 & Hdom2 & Hthis2).
    rewrite Hrun2, run_with_buffer. cbn [tq calls user m_buf groups received m_reliable g0] in *.
    assert (HA1 : forall c, sp <> c -> rearmed rel sp t A !! c = A !! c).
    { intros c Hc. unfold rearmed. destruct rel; [done|]. by rewrite lookup_insert_ne. }
    assert (Hsp1 : rearmed rel sp t A !! sp
              = if rel then A !! sp else Some (timer_of sp (t + SPLIT_TIMEOUT_MS))).
    { unfold rearmed. destruct rel; [done|]. by rewrite lookup_insert_eq. }
    assert (HspA : A !! sp = None).
    { apply not_elem_of_dom. intros HA. apply Hsp_s.
      destruct Harm as (_ & (m & n & _ & _ & _ & _ & Hsub & _) & _). by apply Hsub. }
    assert (Hgs_sp : gs !! sp = None) by (by apply not_elem_of_dom).
    pose proof (insert_tail_general (rearmed rel sp t A) s2 cs (<[q := sp]> mb)
                  (<[sp := g0]> gs) rc sp g0 rpkt t) as Htail.
    cbn zeta in Htail. fold q in Htail. cbn [g0 m_chunk_count] in Htail. fold g0 in Htail.
    rewrite (proj2 (Z.ltb_lt _ _)) in Htail by (unfold C; lia).
    destruct Htail as (w' & A' & Hrun & Hok' & Hdom' & Hcalls & Hmbs & Hothers & Hrc);
      try done; try lia; try apply lookup_insert_eq.
    { split.
      - constructor; cbn [tq calls user m_buf groups received].
        + done.
        + intros sp0 g1 Hg1. apply lookup_insert_Some in Hg1 as [[<- <-]|[Hne Hg1]].
          * cbn [g0 m_seqnum m_reliable]. rewrite Hdom2, Hdom1, Hsp1, HspA, lookup_insert_eq.
            split; [apply elem_of_union; left; by apply elem_of_singleton|].
            split; [done|]. destruct rel; [done|by eexists].
          * destruct (Hgroup sp0 g1 Hg1) as (Hsp0 & Hmb0 & Htm0).
            rewrite Hdom2, Hdom1, HA1 by done.
            split; [apply elem_of_union; by right|]. split; [|done].
            rewrite lookup_insert_ne; [done|]. intros Heq. rewrite <- Heq in Hmb0. congruence.
        + intros q0 sp0 Hq0. apply lookup_insert_Some in Hq0 as [[<- <-]|[Hne Hq0]].
          * exists g0. by rewrite lookup_insert_eq.
          * destruct (Hbuf q0 sp0 Hq0) as (g1 & Hg1 & Hseq). exists g1. split; [|done].
            rewrite lookup_insert_ne; [done|]. intros <-. congruence.
        + intros c v sp1 Hc Hcb. destruct (decide (sp = c)) as [<-|Hne].
          * rewrite Hsp1, HspA in Hc. destruct rel; simplify_eq. cbn in Hcb. simplify_eq.
            split; [done|]. rewrite lookup_insert_eq. by eexists.
          * rewrite HA1 in Hc by done. destruct (Htimer c v sp1 Hc Hcb) as [-> Hsome].
            split; [done|]. by rewrite lookup_insert_ne.
      - cbn [user groups]. intros sp0 g1 Hg1.
        apply lookup_insert_Some in Hg1 as [[<- <-]|[Hne Hg1]]; [|by apply (Hchunks sp0 g1)].
        unfold chunks_ok. cbn [g0 m_chunks m_chunk_count fmap list_fmap length].
        split; [constructor|]. split; [constructor|]. unfold C. lia. }
    exists w', A', sp. split; [done|]. split; [done|].
    cbn [tq calls user m_buf groups received] in *.
    split; [|split; [done|]].
    + pose proof (subseteq_size _ _ Hdom') as Hle. rewrite Hdom2, Hdom1 in Hle.
      rewrite size_union in Hle by (by apply disjoint_singleton_l).
      rewrite size_singleton in Hle. lia.
    + split; [done|]. cbn [user m_buf groups received]. split; [|split; [|done]].
      * intros q' Hq'. rewrite Hmbs by done. by rewrite lookup_insert_ne.
      * intros c Hc. destruct (Hothers c Hc) as [Hgc HAc].
        rewrite Hgc, HAc. by rewrite lookup_insert_ne, HA1 by done.
Qed.

Lemma buffer_ok_new_heap (h : positive)
    (mem : gmap positive (BinHeapNode TimeoutRecord))
    (cs : list (positive * closure)) (rc : list (list Z)) :
  fresh mem = true -> Z.of_nat (base.size mem) < 2 ^ 63 ->
  buffer_ok ∅ (mkWorld (new_heap h mem) cs (mkSplitBuffer ∅ ∅ rc)).
Proof.
  intros Hfresh Hsize. split; [by apply split_ok_new_heap|].
  cbn [user groups]. intros sp g. by rewrite lookup_empty.
Qed.

(** An [insert] that returns. *)
Lemma insert_returns (A : gmap positive TimeoutRecord) (w w' : world)
    (rpkt : ReceivedPacket) (t : Z) :
  buffer_ok A w -> valid_split rpkt ->
  0 <= t + SPLIT_TIMEOUT_MS < 2 ^ 64 ->
  Z.of_nat (base.size (dom (nodes (tq w)))) + 1 < 2 ^ 63 ->
  IncomingSplitBuffer_insert rpkt t w = Some (tt, w') ->
  exists A' sp, buffer_ok A' w' /\
    (base.size (dom (nodes (tq w'))) <= S (base.size (dom (nodes (tq w)))))%nat /\
    (m_buf (user w) !! split_seqnum rpkt = Some sp \/ groups (user w) !! sp = None) /\
    step_of (split_seqnum rpkt) sp A A' w w'.
Proof.
  intros Hok Hvalid Ht Hroom Hrun.
  pose proof (insert_general A w rpkt t Hok Hvalid Ht Hroom) as Hstep.
  destruct (m_buf (user w) !! split_seqnum rpkt) as [sp|].
  - destruct Hstep as (g & Hg & Hstep).
    destruct (split_chunk_num rpkt <? m_chunk_count g); [|congruence].
    destruct Hstep as (w1 & A' & Hrun1 & Hok' & Hdom & Hstep').
    assert (w1 = w') as -> by congruence. exists A', sp. split; [done|].
    split; [apply subseteq_size in Hdom; lia|]. split; [by left|done].
  - destruct Hstep as (w1 & A' & sp & Hrun1 & Hok' & Hsize & Hnone & Hstep').
    assert (w1 = w') as -> by congruence. exists A', sp. split; [done|].
    split; [done|]. split; [by right|done].
Qed.

(** [handleTimeout], run from the queue: the group is not reliable,
    and it is taken out of the buffer and deleted. *)
Lemma handleTimeout_frees (A : gmap positive TimeoutRecord) (w : world)
    (c sp : positive) (v : TimeoutRecord) (s1 : state TimeoutRecord)
    (cs : list (positive * closure)) :
  split_ok A w -> A !! c = Some v -> callback v = Some (OnSplitTimeout sp) ->
  armed s1 (delete c A) -> dom (nodes s1) = dom (nodes (tq w)) ->
  exists w' g, handleTimeout sp (mkWorld s1 cs (user w)) = Some (tt, w') /\
    split_ok (delete c A) w' /\ calls w' = cs /\
    dom (nodes (tq w')) ⊆ dom (nodes (tq w)) /\
    received (user w') = received (user w) /\
    groups (user w) !! c = Some g /\ m_reliable g = false /\
    m_buf (user w) !! m_seqnum g = Some c /\
    groups (user w') = delete c (groups (user w)) /\
    m_buf (user w') = delete (m_seqnum g) (m_buf (user w)).
Proof.
  intros [Harm Hgroup Hbuf Htimer] Hc Hcb Harm1 Hdom1.
  destruct (Htimer c v sp Hc Hcb) as [-> [g Hg]].
  destruct (Hgroup c g Hg) as (Hcn & Hmb & Htm).
  assert (Hrel : m_reliable g = false).
  { destruct (m_reliable g); [|done]. congruence. }
  destruct (delete_handle_armed s1 _ c Harm1 ltac:(by rewrite Hdom1))
    as (s2 & Hrun2 & Harm2 & Hdom2 & Hthis2).
  rewrite delete_delete_eq in Harm2.
  unfold handleTimeout. rewrite (run_load_group c g) by done.
  unfold wbind at 1. cbn [user]. rewrite Hmb.
  rewrite run_sanity by (apply bool_decide_eq_true_2; by eexists).
  rewrite run_sanity by (by apply bool_decide_eq_true_2).
  rewrite run_with_buffer. cbn [tq calls user m_buf groups received].
  unfold delete_group. rewrite (run_lift_at _ _ _ tt s2) by done.
  eexists _, g. split; [reflexivity|]. cbn [tq calls user m_buf groups received].
  split; [|split; [done|split; [|by repeat split]]].
  - constructor; cbn [tq calls user m_buf groups received].
    + done.
    + intros sp0 g0 Hg0. apply lookup_delete_Some in Hg0 as [Hne Hg0].
      destruct (Hgroup sp0 g0 Hg0) as (Hsp0 & Hmb0 & Htm0).
      split; [|split].
      * rewrite Hdom2, Hdom1, elem_of_difference, elem_of_singleton. done.
      * rewrite lookup_delete_ne; [done|]. intros Heq.
        rewrite Heq in Hmb. congruence.
      * by rewrite lookup_delete_ne by done.
    + intros q0 sp0 Hq0. apply lookup_delete_Some in Hq0 as [Hne Hq0].
      destruct (Hbuf q0 sp0 Hq0) as (g0 & Hg0 & Hseq).
      exists g0. split; [|done]. rewrite lookup_delete_ne; [done|].
      intros ->. rewrite Hg in Hg0. by simplify_eq.
    + intros c0 v0 sp1 Hc0 Hcb0. apply lookup_delete_Some in Hc0 as [Hne Hc0].
      destruct (Htimer c0 v0 sp1 Hc0 Hcb0) as [-> Hsome].
      split; [done|]. by rewrite lookup_delete_ne.
  - rewrite Hdom2, Hdom1. by apply subseteq_difference_l.
Qed.

Variable foreign : X -> world -> option world.

(** Between the callbacks of a [processTimeouts] that starts with the
    groups [gs0]: the buffer is consistent, over nodes among those of
    [D], it has received [rc], no group has come, and the groups that
    are reliable or have their timer are there as they were. *)
Definition in_order (D : gset positive) (rc : list (list Z))
    (gs0 : gmap positive IncomingSplitPacket)
    (A : gmap positive TimeoutRecord) (w : world) : Prop :=
  split_ok A w /\ dom (nodes (tq w)) ⊆ D /\ received (user w) = rc /\
  groups (user w) ⊆ gs0 /\
  forall sp g, gs0 !! sp = Some g -> m_reliable g = true \/ is_Some (A !! sp) ->
    groups (user w) !! sp = Some g /\ m_buf (user w) !! m_seqnum g = Some sp.

Lemma in_order_fire (D : gset positive) (rc : list (list Z))
    (gs0 : gmap positive IncomingSplitPacket)
    (A : gmap positive TimeoutRecord) (w : world)
    (c : positive) (v : TimeoutRecord) (cb : closure) (s1 : state TimeoutRecord) :
  quiet foreign ->
  in_order D rc gs0 A w -> A !! c = Some v -> callback v = Some cb ->
  armed s1 (delete c A) -> this s1 = this (tq w) ->
  dom (nodes s1) = dom (nodes (tq w)) ->
  exists w', fire foreign cb (mkWorld s1 (calls w ++ [(c, cb)]) (user w)) = Some w' /\
    in_order D rc gs0 (delete c A) w' /\ calls w' = calls w ++ [(c, cb)].
Proof.
  intros Hquiet (Hok & HD & Hrc & Hsub & Hkeep) Hc Hcb Harm1 _ Hdom1.
  destruct cb as [sp|x].
  - destruct (handleTimeout_frees A w c sp v s1 (calls w ++ [(c, OnSplitTimeout sp)])
                Hok Hc Hcb Harm1 Hdom1)
      as (w' & gc & Hrun & Hok' & Hcalls & Hdom & Hrc' & Hgc & Hun & Hmbc & Hgs' & Hmb').
    exists w'. cbn [fire]. rewrite Hrun. split; [done|]. split; [|done].
    split; [done|]. split; [by etrans|]. split; [congruence|].
    split; [rewrite Hgs'; by etrans; [apply delete_subseteq|]|].
    intros sp0 g0 Hg0 Hor.
    assert (Hor' : m_reliable g0 = true \/ is_Some (A !! sp0)).
    { destruct Hor as [?|[x Hx]]; [by left|right].
      apply lookup_delete_Some in Hx as [_ Hx]. by eexists. }
    destruct (Hkeep sp0 g0 Hg0 Hor') as [Hg0' Hmb0].
    assert (sp0 <> c) as Hne.
    { intros ->. destruct Hor as [Hr|[x Hx]]; [congruence|].
      by rewrite lookup_delete_eq in Hx. }
    rewrite Hgs', Hmb'. split; [by rewrite lookup_delete_ne|].
    rewrite lookup_delete_ne; [done|]. intros Heq. rewrite Heq in Hmbc. congruence.
  - cbn [fire]. rewrite Hquiet. eexists. split; [reflexivity|]. split; [|done].
    unfold in_order. cbn [tq user].
    split; [|split; [by rewrite Hdom1|split; [done|split; [done|]]]].
    + destruct Hok as [Harm Hgroup Hbuf Htimer].
      constructor; cbn [tq calls user].
      * done.
      * intros sp0 g0 Hg0. destruct (Hgroup sp0 g0 Hg0) as (Hsp0 & Hmb0 & Htm0).
        rewrite Hdom1. split; [done|]. split; [done|].
        destruct (m_reliable g0).
        -- by apply lookup_delete_None; right.
        -- destruct Htm0 as [e He]. exists e. rewrite lookup_delete_ne; [done|].
           intros ->. rewrite Hc in He. by simplify_eq/=.
      * done.
      * intros c0 v0 sp1 Hc0 Hcb0. apply lookup_delete_Some in Hc0 as [Hne Hc0].
        by apply (Htimer c0 v0 sp1).
    + intros sp0 g0 Hg0 Hor. apply (Hkeep sp0 g0 Hg0).
      destruct Hor as [?|[y Hy]]; [by left|right].
      apply lookup_delete_Some in Hy as [_ Hy]. by eexists.
Qed.

(** [processTimeouts] keeps the buffer consistent, passes nothing to
    the data-received callback, and deletes the groups whose timer is
    overdue, and no other. *)
Lemma processTimeouts_groups (fuel : nat) (now : Z)
    (A : gmap positive TimeoutRecord) (w : world) :
  quiet foreign -> split_ok A w ->
  (base.size (dom (nodes (tq w))) <= fuel)%nat ->
  exists w', processTimeouts (fire foreign) fuel now w = Some (tt, w') /\
    split_ok (pending now A) w' /\
    dom (nodes (tq w')) ⊆ dom (nodes (tq w)) /\
    received (user w') = received (user w) /\
    groups (user w') ⊆ groups (user w) /\
    forall sp g, groups (user w) !! sp = Some g ->
      if m_reliable g || bool_decide (is_Some (pending now A !! sp)) then
        groups (user w') !! sp = Some g /\ m_buf (user w') !! m_seqnum g = Some sp
      else groups (user w') !! sp = None /\ m_buf (user w') !! m_seqnum g = None.
Proof.
  intros Hquiet Hok Hfuel.
  destruct (processTimeouts_spec (fire foreign)
              (in_order (dom (nodes (tq w))) (received (user w)) (groups (user w)))
              ltac:(by intros ? ? [[] _])
              (fun A0 w0 c v cb s1 => in_order_fire _ _ _ A0 w0 c v cb s1 Hquiet)
              fuel now A w)
    as (w' & F & Hrun & (Hok' & Hdom & Hrc & Hsub & Hkeep) & _).
  { split; [done|]. split; [done|]. split; [done|]. split; [done|].
    intros sp g Hg _. split; [done|]. by apply (ok_group _ _ Hok). }
  { destruct Hok as [Harm _ _ _]. pose proof (TimeoutSpec.armed_size _ _ Harm). lia. }
  exists w'. split; [done|]. split; [done|]. split; [done|]. split; [done|].
  split; [done|]. intros sp g Hg.
  destruct (m_reliable g) eqn:Hrel; cbn [orb]; [by apply Hkeep; [|left]|].
  case_bool_decide as Hp; [by apply Hkeep; [|right]|].
  assert (Hgone : groups (user w') !! sp = None).
  { destruct (groups (user w') !! sp) as [g'|] eqn:Hg'; [exfalso|done].
    pose proof (lookup_weaken _ _ _ _ Hg' Hsub) as Hg2.
    assert (g' = g) as -> by congruence.
    destruct (ok_group _ _ Hok' sp g Hg') as (_ & _ & Htm). rewrite Hrel in Htm.
    destruct Htm as [e He]. apply Hp. by eexists. }
  split; [done|].
  destruct (m_buf (user w') !! m_seqnum g) as [sp'|] eqn:Hq; [exfalso|done].
  destruct (ok_buf _ _ Hok' _ sp' Hq) as (g' & Hg' & Hseq).
  pose proof (lookup_weaken _ _ _ _ Hg' Hsub) as Hg2.
  destruct (ok_group _ _ Hok sp' g' Hg2) as (_ & Hm2 & _).
  destruct (ok_group _ _ Hok sp g Hg) as (_ & Hm1 & _).
  rewrite Hseq, Hm1 in Hm2. congruence.
Qed.

Lemma processTimeouts_in_order (fuel : nat) (now : Z)
    (A : gmap positive TimeoutRecord) (w : world) :
  quiet foreign -> buffer_ok A w ->
  (base.size (dom (nodes (tq w))) <= fuel)%nat ->
  exists w', processTimeouts (fire foreign) fuel now w = Some (tt, w') /\
    buffer_ok (pending now A) w' /\
    dom (nodes (tq w')) ⊆ dom (nodes (tq w)) /\
    received (user w') = received (user w).
Proof.
  intros Hquiet [Hok Hchunks] Hfuel.
  destruct (processTimeouts_groups fuel now A w Hquiet Hok Hfuel)
    as (w' & Hrun & Hok' & Hdom & Hrc & Hsub & _).
  exists w'. split; [done|]. split; [|done]. split; [done|].
  intros sp g Hg. apply (Hchunks sp g). by eapply lookup_weaken.
Qed.

(** Packets handed to [insert], and calls of [processTimeouts], each
    with the reading of the clock. *)
Inductive bevent : Type :=
| BInsert (rpkt : ReceivedPacket) (t : Z)
| BProcess (now : Z).

Definition valid_bevent (e : bevent) : Prop :=
  match e with
  | BInsert rpkt t => valid_split rpkt /\ 0 <= t + SPLIT_TIMEOUT_MS < 2 ^ 64
  | BProcess _ => True
  end.

Definition run_bevent (fuel : nat) (e : bevent) : W unit :=
  match e with
  | BInsert rpkt t => IncomingSplitBuffer_insert rpkt t
  | BProcess now => processTimeouts (fire foreign) fuel now
  end.

Fixpoint run_bevents (fuel : nat) (es : list bevent) : W unit :=
  match es with
  | [] => wret tt
  | e :: es' => wbind (run_bevent fuel e) (fun _ => run_bevents fuel es')
  end.

Lemma run_bevents_in_order (fuel : nat) (es : list bevent) :
  quiet foreign -> Forall valid_bevent es ->
  forall (A : gmap positive TimeoutRecord) (w w' : world),
  buffer_ok A w ->
  Z.of_nat (base.size (dom (nodes (tq w))) + length es) < 2 ^ 63 ->
  (base.size (dom (nodes (tq w))) + length es <= fuel)%nat ->
  run_bevents fuel es w = Some (tt, w') ->
  exists A', buffer_ok A' w'.
Proof.
  intros Hquiet. induction 1 as [|e es He _ IH]; intros A w w' Hok Hroom Hfuel Hrun.
  - injection Hrun as <-. by exists A.
  - cbn [run_bevents length] in *. unfold wbind in Hrun.
    destruct e as [rpkt t|now]; cbn [run_bevent valid_bevent] in *.
    + destruct He as [Hvalid Ht].
      destruct (IncomingSplitBuffer_insert rpkt t w) as [[[] w1]|] eqn:Hins; [|done].
      destruct (insert_returns A w w1 rpkt t Hok Hvalid Ht ltac:(lia) Hins)
        as (A1 & sp & Hok1 & Hsize & _).
      apply (IH A1 w1 w' Hok1); [lia|lia|done].
    + destruct (processTimeouts_in_order fuel now A w Hquiet Hok ltac:(lia))
        as (w1 & Hrun1 & Hok1 & Hdom & _).
      rewrite Hrun1 in Hrun. apply subseteq_size in Hdom.
      apply (IH _ w1 w' Hok1); [lia|lia|done].
Qed.

End General.

(** [IncomingSplitBuffer::insert] fails only at the [sanity_check] on
    the chunk number: it fails exactly when the group of the packet is
    in the buffer and the [chunk_num] of the packet is not below the
    [chunk_count] of the group. *)
Theorem insert_fails_only_beyond_group {X : Type}
    (A : gmap positive (TimeoutRecord (closure X)))
    (w : world (closure X) IncomingSplitBuffer) (rpkt : ReceivedPacket) (t : Z) :
  buffer_ok A w -> valid_split rpkt ->
  0 <= t + SPLIT_TIMEOUT_MS < 2 ^ 64 ->
  Z.of_nat (base.size (dom (nodes (tq w)))) + 1 < 2 ^ 63 ->
  IncomingSplitBuffer_insert rpkt t w = None <->
  exists sp g, m_buf (user w) !! split_seqnum rpkt = Some sp /\
    groups (user w) !! sp = Some g /\ m_chunk_count g <= split_chunk_num rpkt.
Proof.
  intros Hok Hvalid Ht Hroom.
  pose proof (insert_general A w rpkt t Hok Hvalid Ht Hroom) as Hstep.
  destruct (m_buf (user w) !! split_seqnum rpkt) as [sp|].
  - destruct Hstep as (g & Hg & Hstep).
    destruct (Z.ltb_spec (split_chunk_num rpkt) (m_chunk_count g)) as [Hlt|Hge].
    + destruct Hstep as (w' & A' & Hrun & _). rewrite Hrun. split; [done|].
      intros (sp0 & g0 & ? & Hg0 & Hle). simplify_eq. lia.
    + split; [|done]. intros _. by exists sp, g.
  - destruct Hstep as (w' & A' & sp & Hrun & _). rewrite Hrun. split; [done|].
    by intros (sp0 & g0 & ? & _).
Qed.

(** An [insert] that returns keeps the buffer in order, runs no
    timeout callback, and calls the data-received callback at most
    once; when it calls it, the group of the packet is in the buffer
    no more. *)
Theorem insert_keeps_buffer_in_order {X : Type}
    (A : gmap positive (TimeoutRecord (closure X)))
    (w w' : world (closure X) IncomingSplitBuffer) (rpkt : ReceivedPacket) (t : Z) :
  buffer_ok A w -> valid_split rpkt ->
  0 <= t + SPLIT_TIMEOUT_MS < 2 ^ 64 ->
  Z.of_nat (base.size (dom (nodes (tq w)))) + 1 < 2 ^ 63 ->
  IncomingSplitBuffer_insert rpkt t w = Some (tt, w') ->
  (exists A', buffer_ok A' w') /\ calls w' = calls w /\
  (received (user w') = received (user w) \/
   m_buf (user w') !! split_seqnum rpkt = None /\
   exists x, received (user w') = received (user w) ++ [x]).
Proof.
  intros Hok Hvalid Ht Hroom Hrun.
  pose proof (insert_general A w rpkt t Hok Hvalid Ht Hroom) as Hstep.
  destruct (m_buf (user w) !! split_seqnum rpkt) as [sp|].
  - destruct Hstep as (g & Hg & Hstep).
    destruct (split_chunk_num rpkt <? m_chunk_count g); [|congruence].
    destruct Hstep as (w1 & A' & Hrun1 & Hok' & _ & Hcalls & _ & _ & Hrc).
    assert (w1 = w') as -> by congruence.
    split; [by exists A'|]. split; [done|].
    destruct Hrc as [?|(? & _ & ?)]; [by left|by right].
  - destruct Hstep as (w1 & A' & sp & Hrun1 & Hok' & _ & _ & Hcalls & _ & _ & Hrc).
    assert (w1 = w') as -> by congruence.
    split; [by exists A'|]. split; [done|].
    destruct Hrc as [?|(? & _ & ?)]; [by left|by right].
Qed.

(** An [insert] leaves the groups of the other [seqnum]s as they are:
    their entries in [m_buf], their chunks, and their timers. *)
Theorem insert_leaves_other_groups {X : Type}
    (A : gmap positive (TimeoutRecord (closure X)))
    (w w' : world (closure X) IncomingSplitBuffer) (rpkt : ReceivedPacket) (t : Z) :
  buffer_ok A w -> valid_split rpkt ->
  0 <= t + SPLIT_TIMEOUT_MS < 2 ^ 64 ->
  Z.of_nat (base.size (dom (nodes (tq w)))) + 1 < 2 ^ 63 ->
  IncomingSplitBuffer_insert rpkt t w = Some (tt, w') ->
  exists A', buffer_ok A' w' /\
    forall q' sp' g', q' <> split_seqnum rpkt ->
      m_buf (user w) !! q' = Some sp' -> groups (user w) !! sp' = Some g' ->
      m_buf (user w') !! q' = Some sp' /\ groups (user w') !! sp' = Some g' /\
      A' !! sp' = A !! sp' /\
      isActive sp' (tq w') = Some (negb (m_reliable g'), tq w').
Proof.
  intros Hok Hvalid Ht Hroom Hrun.
  pose proof (insert_general A w rpkt t Hok Hvalid Ht Hroom) as Hstep.
  assert (exists A' sp, buffer_ok A' w' /\
            (m_buf (user w) !! split_seqnum rpkt = Some sp \/ groups (user w) !! sp = None) /\
            step_of (split_seqnum rpkt) sp A A' w w') as (A' & sp & Hok' & Hsp & Hstep').
  { destruct (m_buf (user w) !! split_seqnum rpkt) as [sp|].
    - destruct Hstep as (g & Hg & Hstep).
      destruct (split_chunk_num rpkt <? m_chunk_count g); [|congruence].
      destruct Hstep as (w1 & A' & Hrun1 & Hok' & _ & Hstep').
      assert (w1 = w') as -> by congruence. exists A', sp. split; [done|]. split; [by left|done].
    - destruct Hstep as (w1 & A' & sp & Hrun1 & Hok' & _ & Hnone & Hstep').
      assert (w1 = w') as -> by congruence. exists A', sp. split; [done|]. split; [by right|done]. }
  exists A'. split; [done|]. intros q' sp' g' Hq' Hmb' Hg'.
  destruct Hstep' as (_ & Hmbs & Hothers & _).
  assert (sp' <> sp) as Hne.
  { intros ->. destruct Hsp as [Hsp|Hsp]; [|congruence].
    destruct Hok as [Hsplit _].
    destruct (ok_group _ _ Hsplit sp g' Hg') as (_ & Hm1 & _).
    destruct (ok_buf _ _ Hsplit _ sp Hsp) as (g1 & Hg1 & Hs1).
    destruct (ok_buf _ _ Hsplit _ sp Hmb') as (g2 & Hg2 & Hs2). congruence. }
  destruct (Hothers sp' Hne) as [Hg1 HA1].
  split; [by rewrite Hmbs|]. split; [by rewrite Hg1|]. split; [done|].
  destruct Hok' as [Hsplit' _]. destruct Hok as [Hsplit _].
  assert (groups (user w') !! sp' = Some g') as Hg2 by (by rewrite Hg1).
  destruct (ok_group _ _ Hsplit' sp' g' Hg2) as (Hdom & _ & Htm).
  rewrite (TimeoutMore.isActive_armed (tq w') A' sp' (ok_armed _ _ Hsplit') Hdom).
  do 2 f_equal. destruct (m_reliable g').
  - rewrite Htm. by apply bool_decide_eq_false_2; intros [].
  - destruct Htm as [e ->]. by apply bool_decide_eq_true_2.
Qed.


(** From the empty buffer, after any [insert]s of split packets the
    parser lets through and any [processTimeouts] in between, the
    buffer is in order: every entry of [m_buf] is a group with that
    [seqnum], every group is an entry of [m_buf] and has a chunk
    missing, and the groups that are not reliable are those with a
    timer. *)
Theorem buffer_stays_in_order {X : Type}
    (foreign : X -> world (closure X) IncomingSplitBuffer
               -> option (world (closure X) IncomingSplitBuffer))
    (fuel : nat) (es : list bevent) (h : positive)
    (w' : world (closure X) IncomingSplitBuffer) :
  quiet foreign -> Forall valid_bevent es ->
  Z.of_nat (length es) < 2 ^ 63 -> (length es <= fuel)%nat ->
  run_bevents foreign fuel es (mkWorld (new_heap h ∅) [] (mkSplitBuffer ∅ ∅ []))
  = Some (tt, w') ->
  exists A', buffer_ok A' w'.
Proof.
  intros Hquiet Hvalid Hlen Hfuel Hrun.
  assert (Hok : buffer_ok (X:=X) ∅ (mkWorld (new_heap h ∅) [] (mkSplitBuffer ∅ ∅ []))).
  { apply buffer_ok_new_heap; [|by rewrite map_size_empty].
    apply bool_decide_eq_true_2, map_Forall_empty. }
  apply (run_bevents_in_order foreign fuel es Hquiet Hvalid ∅ _ w' Hok); [..|done];
    cbn [tq new_heap nodes]; rewrite dom_empty_L, size_empty; lia.
Qed.

(** Chunk 0 of a group of two chunks and chunk 0 of a group of three,
    under different [seqnum]s; a second chunk 0 for the first group
    that says the group has five chunks; and chunk 3 of five. *)
Definition split_packet (q C i : Z) (bytes : list Z) : ReceivedPacket :=
  mkReceivedPacket 0 bytes (Z.of_nat (length bytes)) 0 0 0 RPT_SPLIT false 0 0 0 0 q C i 0
    (Z.of_nat (length bytes)).

Definition one_group : world (closure Empty_set) IncomingSplitBuffer :=
  default example_buffer
    (snd <$> IncomingSplitBuffer_insert (split_packet 7 2 0 [42]) 100 example_buffer).

Lemma one_group_ok : exists A, buffer_ok A one_group.
Proof.
  apply (run_bevents_in_order no_foreign 1 [BInsert (split_packet 7 2 0 [42]) 100]
           ltac:(intros []) ltac:(repeat constructor; vm_compute; congruence)
           ∅ example_buffer one_group).
  - apply buffer_ok_new_heap; vm_compute; reflexivity.
  - vm_compute. reflexivity.
  - vm_compute. lia.
  - vm_compute. reflexivity.
Qed.

Definition four_events : list bevent :=
  [BInsert (split_packet 7 3 0 [42]) 100; BInsert (split_packet 8 2 1 [43]) 105;
   BProcess 131; BInsert (split_packet 8 2 0 [44]) 140].

Lemma buffer_stays_in_order_witness :
  exists w' A',
    run_bevents no_foreign 4 four_events example_buffer = Some (tt, w') /\
    buffer_ok A' w' /\ received (user w') = [[44; 43]].
Proof.
  assert (exists w',
    run_bevents no_foreign 4 four_events example_buffer = Some (tt, w') /\
    received (user w') = [[44; 43]]) as (w' & Hrun & Hrc).
  { eexists. split; vm_compute; reflexivity. }
  destruct (buffer_stays_in_order no_foreign 4 four_events 1 w' ltac:(intros [])
              ltac:(repeat constructor; vm_compute; congruence)
              ltac:(vm_compute; reflexivity) ltac:(vm_compute; lia) Hrun) as [A' Hok].
  exists w', A'. split; [exact Hrun|]. split; [exact Hok|exact Hrc].
Defined.

Lemma insert_fails_only_beyond_group_witness :
  IncomingSplitBuffer_insert (split_packet 7 5 3 [43]) 101 one_group = None /\
  is_Some (IncomingSplitBuffer_insert (split_packet 7 5 0 [43]) 101 one_group).
Proof.
  destruct one_group_ok as [A Hok].
  split.
  - apply (insert_fails_only_beyond_group A one_group (split_packet 7 5 3 [43]) 101 Hok).
    + split; vm_compute; [reflexivity|split; congruence].
    + vm_compute. split; congruence.
    + vm_compute. reflexivity.
    + exists 2%positive, (mkSplitPacket 7 [(0, split_packet 7 2 0 [42])] 2 false).
      split; [vm_compute; reflexivity|]. split; [vm_compute; reflexivity|].
      vm_compute. congruence.
  - destruct (IncomingSplitBuffer_insert (split_packet 7 5 0 [43]) 101 one_group) eqn:Hrun;
      [by eexists|].
    apply (insert_fails_only_beyond_group A one_group (split_packet 7 5 0 [43]) 101 Hok)
      in Hrun as (sp & g & Hsp & Hg & Hle).
    + vm_compute in Hsp. injection Hsp as <-. vm_compute in Hg. injection Hg as <-.
      vm_compute in Hle. congruence.
    + split; vm_compute; [reflexivity|split; congruence].
    + vm_compute. split; congruence.
    + vm_compute. reflexivity.
Defined.

Lemma insert_keeps_buffer_in_order_witness :
  exists w' A',
    IncomingSplitBuffer_insert (split_packet 7 2 1 [43]) 101 one_group = Some (tt, w') /\
    buffer_ok A' w' /\ calls w' = [] /\
    m_buf (user w') !! 7 = None /\ received (user w') = [[42; 43]].
Proof.
  destruct one_group_ok as [A Hok].
  assert (exists w',
    IncomingSplitBuffer_insert (split_packet 7 2 1 [43]) 101 one_group = Some (tt, w') /\
    m_buf (user w') !! 7 = None /\ received (user w') = [[42; 43]])
    as (w' & Hrun & Hmb & Hrc).
  { eexists. split; [vm_compute; reflexivity|]. split; vm_compute; reflexivity. }
  destruct (insert_keeps_buffer_in_order A one_group w' (split_packet 7 2 1 [43]) 101 Hok)
    as ([A' Hok'] & Hcalls & _).
  - split; vm_compute; [reflexivity|split; congruence].
  - vm_compute. split; congruence.
  - vm_compute. reflexivity.
  - exact Hrun.
  - exists w', A'. split; [exact Hrun|]. split; [exact Hok'|]. split; [exact Hcalls|].
    split; [exact Hmb|exact Hrc].
Defined.

Lemma insert_leaves_other_groups_witness :
  exists w',
    IncomingSplitBuffer_insert (split_packet 8 3 1 [43]) 101 one_group = Some (tt, w') /\
    m_buf (user w') !! 7 = Some 2%positive /\
    groups (user w') !! 2%positive
    = Some (mkSplitPacket 7 [(0, split_packet 7 2 0 [42])] 2 false) /\
    isActive 2 (tq w') = Some (true, tq w').
Proof.
  destruct one_group_ok as [A Hok].
  assert (exists w',
    IncomingSplitBuffer_insert (split_packet 8 3 1 [43]) 101 one_group = Some (tt, w'))
    as (w' & Hrun).
  { eexists. vm_compute. reflexivity. }
  destruct (insert_leaves_other_groups A one_group w' (split_packet 8 3 1 [43]) 101 Hok)
    as (A' & _ & Hothers).
  - split; vm_compute; [reflexivity|split; congruence].
  - vm_compute. split; congruence.
  - vm_compute. reflexivity.
  - exact Hrun.
  - destruct (Hothers 7 2%positive (mkSplitPacket 7 [(0, split_packet 7 2 0 [42])] 2 false))
      as (Hmb & Hg & _ & Hact).
    + vm_compute. congruence.
    + vm_compute. reflexivity.
    + vm_compute. reflexivity.
    + exists w'. split; [exact Hrun|]. split; [exact Hmb|]. split; [exact Hg|exact Hact].
Defined.

(** Two groups that are not reliable, with chunks at the times 100
    and 105: at the time 131 the first is overdue and the second is
    not. *)
Definition two_groups : world (closure Empty_set) IncomingSplitBuffer :=
  default example_buffer
    (snd <$> run_bevents no_foreign 2
               [BInsert (split_packet 7 3 0 [42]) 100; BInsert (split_packet 8 2 1 [43]) 105]
               example_buffer).

Lemma two_groups_ok : exists A, buffer_ok A two_groups.
Proof.
  apply (run_bevents_in_order no_foreign 2
           [BInsert (split_packet 7 3 0 [42]) 100; BInsert (split_packet 8 2 1 [43]) 105]
           ltac:(intros []) ltac:(repeat constructor; vm_compute; congruence)
           ∅ example_buffer two_groups).
  - apply buffer_ok_new_heap; vm_compute; reflexivity.
  - vm_compute. reflexivity.
  - vm_compute. lia.
  - vm_compute. reflexivity.
Qed.


End SplitGeneral.

(** ** The fuzz test of the heap (unittest/test_binheap.cpp)

    [DummyBinHeap] keeps pointers to its nodes in a vector sorted by
    value; [testFuzz] runs it side by side with a [BinHeap<int>]. *)

Module DummyBinHeap.

Record DummyBinHeapNode : Type := mkDummyBinHeapNode {
  value : Z;
  partner : positive
}.

(** The memory that holds the dummy nodes. *)
Local Abbreviation memory := (gmap positive DummyBinHeapNode).

(** [ValueLessThan]. *)
Definition ValueLessThan (mem : memory) (a b : positive) : option bool :=
  x ← mem !! a ; y ← mem !! b ; Some (value x <? value y).

(** [std::lower_bound] over the vector: the first position whose
    element is not less than [node].  The C++ library defines it for
    a range in which the elements that are less come first; on
    another range it is a failure here. *)
Fixpoint lower_bound (mem : memory) (values : list positive) (node : positive) : option nat :=
  match values with
  | [] => Some O
  | p :: rest =>
      less ← ValueLessThan mem p node ;
      i ← lower_bound mem rest node ;
      if (less : bool) then Some (S i) else if decide (i = O) then Some O else None
  end.

Definition insert (mem : memory) (node : positive) (values : list positive)
  : option (list positive) :=
  it ← lower_bound mem values node ;
  Some (take it values ++ node :: drop it values).

(** [std::find]: the first position that holds [node], [None] for [values.end()]. *)
Fixpoint find (values : list positive) (node : positive) : option nat :=
  match values with
  | [] => None
  | p :: rest => if decide (p = node) then Some O else S <$> find rest node
  end.

(** [remove]; a failed [UASSERT] is a failure. *)
Definition remove (node : positive) (values : list positive) : option (list positive) :=
  it ← find values node ;
  Some (take it values ++ drop (S it) values).

(** [top], [None] being [nullptr]. *)
Definition top (values : list positive) : option positive := head values.

Definition size (values : list positive) : Z := Z.of_nat (length values).

Definition empty (values : list positive) : bool := bool_decide (values = []).

(** [get_at_index]; an index outside the vector is a failure. *)
Definition get_at_index (index : Z) (values : list positive) : option positive :=
  if index <? 0 then None else values !! Z.to_nat index.

End DummyBinHeap.

Module TestBinHeap.
Import BinHeap BinHeapRep BinHeapFind BinHeapSift BinHeapOps BinHeapFacts BinHeapView
  BinHeapMore BinHeapClear.

Local Abbreviation DummyBinHeapNode := DummyBinHeap.DummyBinHeapNode.
Local Abbreviation mkDummyBinHeapNode := DummyBinHeap.mkDummyBinHeapNode.
Local Abbreviation partner := DummyBinHeap.partner.

Section Fuzz.

(** What the test takes from its environment: the random numbers of
    [rand32] and the addresses that [new] gives. *)
Variable Env : Type.
Variable rand32 : Env -> Z * Env.
Variable new_dummy : Env -> gmap positive DummyBinHeapNode -> positive * Env.
Variable new_real : Env -> gmap positive (BinHeapNode Z) -> positive * Env.

(** The locals of [testFuzz] and the memory of the nodes. *)
Record fuzz : Type := mkFuzz {
  env : Env;
  dmem : gmap positive DummyBinHeapNode;
  dummy : list positive;
  real : state Z
}.

(** A failed [UASSERT] is a failure. *)
Definition UASSERT (c : bool) : option unit := if c then Some tt else None.

(** [delete] of a heap node: [~BinHeapNode] asserts that the node is in no heap. *)
Definition delete_node (p : positive) (s : state Z) : option (state Z) :=
  nd ← nodes s !! p ;
  _ ← UASSERT (bool_decide (in_heap nd = None)) ;
  Some (free_node p s).

(** [delete] of a dummy node. *)
Definition delete_dummy (d : positive) (mem : gmap positive DummyBinHeapNode)
  : option (gmap positive DummyBinHeapNode) :=
  _ ← mem !! d ; Some (delete d mem).

(** The checks at the head of a round of the loop of [testFuzz]. *)
Definition checks (w : fuzz) : option (state Z) :=
  '(_, r) ← validate Z.ltb (real w) ;
  '(rsize, r) ← BinHeap.size r ;
  _ ← UASSERT (DummyBinHeap.size (dummy w) =? rsize) ;
  '(rempty, r) ← BinHeap.empty r ;
  _ ← UASSERT (Bool.eqb (DummyBinHeap.empty (dummy w)) rempty) ;
  '(rsize, r) ← BinHeap.size r ;
  _ ← (if 0 <? rsize then
         dtop ← DummyBinHeap.top (dummy w) ;
         dn ← dmem w !! dtop ;
         '(rtop, r) ← BinHeap.top r ;
         rtop ← rtop ;
         rn ← nodes r !! rtop ;
         UASSERT (DummyBinHeap.value dn =? value rn)
       else Some tt) ;
  Some r.

(** One round of the loop of [testFuzz]. *)
Definition fuzz_round (w : fuzz) : option fuzz :=
  r ← checks w ;
  let '(x, e) := rand32 (env w) in
  if x mod 2 =? 0 then
    let '(x, e) := rand32 e in
    let v := x mod 100 in
    let '(dnode, e) := new_dummy e (dmem w) in
    let '(p, e) := new_real e (nodes r) in
    let mem := <[dnode := mkDummyBinHeapNode v p]> (dmem w) in
    let r := alloc_node p v r in
    values ← DummyBinHeap.insert mem dnode (dummy w) ;
    dn ← mem !! dnode ;
    '(_, r) ← BinHeap.insert Z.ltb (Some (partner dn)) r ;
    Some (mkFuzz e mem values r)
  else if negb (DummyBinHeap.empty (dummy w)) then
    let '(x, e) := rand32 e in
    let index := x mod DummyBinHeap.size (dummy w) in
    dnode ← DummyBinHeap.get_at_index index (dummy w) ;
    dn ← dmem w !! dnode ;
    pn ← nodes r !! partner dn ;
    _ ← UASSERT (DummyBinHeap.value dn =? value pn) ;
    '(_, r) ← BinHeap.remove Z.ltb (Some (partner dn)) r ;
    values ← DummyBinHeap.remove dnode (dummy w) ;
    r ← delete_node (partner dn) r ;
    mem ← delete_dummy dnode (dmem w) ;
    Some (mkFuzz e mem values r)
  else Some (mkFuzz e (dmem w) (dummy w) r).

(** The loop of [testFuzz], with [n] rounds to go. *)
Fixpoint fuzz_loop (n : nat) (w : fuzz) : option fuzz :=
  match n with
  | O => Some w
  | S n' => w ← fuzz_round w ; fuzz_loop n' w
  end.

(** The loop that cleans up; each round erases an entry of the vector. *)
Fixpoint clean_up (fuel : nat) (w : fuzz) : option fuzz :=
  if DummyBinHeap.empty (dummy w) then Some w else
  match fuel with
  | O => None
  | S fuel' =>
      dnode ← DummyBinHeap.get_at_index (DummyBinHeap.size (dummy w) - 1) (dummy w) ;
      dn ← dmem w !! dnode ;
      pn ← nodes (real w) !! partner dn ;
      _ ← UASSERT (negb (inHeap pn)) ;
      r ← delete_node (partner dn) (real w) ;
      values ← DummyBinHeap.remove dnode (dummy w) ;
      mem ← delete_dummy dnode (dmem w) ;
      clean_up fuel' (mkFuzz (env w) mem values r)
  end.

Definition M : Z := 10000.

(** The locals at the start: no node, and the heap [real] at address [h]. *)
Definition start (e : Env) (h : positive) : fuzz := mkFuzz e ∅ [] (new_heap h ∅).

(** What follows the loop in [testFuzz]. *)
Definition after_loop (w : fuzz) : option fuzz :=
  '(_, r) ← validate Z.ltb (real w) ;
  '(_, r) ← clear r ;
  '(n, r) ← BinHeap.size r ;
  _ ← UASSERT (n =? 0) ;
  clean_up (length (dummy w)) (mkFuzz (env w) (dmem w) (dummy w) r).

(** The statements of [testFuzz]. *)
Definition testFuzz_body (e : Env) (h : positive) : option fuzz :=
  w ← fuzz_loop (Z.to_nat M) (start e h) ; after_loop w.

(** [testFuzz]: its statements, and [~BinHeap] of [real] when it returns. *)
Definition testFuzz (e : Env) (h : positive) : option fuzz :=
  w ← testFuzz_body e h ;
  '(_, r) ← clear (real w) ;
  Some (mkFuzz (env w) (dmem w) (dummy w) r).

(** *** The vector of [DummyBinHeap] *)

(** The value of the dummy node at an address. *)
Definition key (mem : gmap positive DummyBinHeapNode) (d : positive) : Z :=
  default 0 (DummyBinHeap.value <$> mem !! d).

Lemma ValueLessThan_key (mem : gmap positive DummyBinHeapNode) (a b : positive) :
  is_Some (mem !! a) -> is_Some (mem !! b) ->
  DummyBinHeap.ValueLessThan mem a b = Some (key mem a <? key mem b).
Proof.
  intros [x Hx] [y Hy]. unfold DummyBinHeap.ValueLessThan, key. by rewrite Hx, Hy.
Qed.

Lemma lower_bound_0 (mem : gmap positive DummyBinHeapNode) (l : list positive) (node : positive) :
  is_Some (mem !! node) ->
  Forall (fun d => is_Some (mem !! d) /\ key mem node <= key mem d) l ->
  DummyBinHeap.lower_bound mem l node = Some O.
Proof.
  intros Hnode. induction 1 as [|p rest [Hp Hle] _ IH]; [done|].
  cbn [DummyBinHeap.lower_bound]. rewrite ValueLessThan_key by done.
  cbn [mbind option_bind]. rewrite IH. cbn [mbind option_bind].
  destruct (Z.ltb_spec (key mem p) (key mem node)); [lia|done].
Qed.

Lemma insert_sorted (mem : gmap positive DummyBinHeapNode) (l : list positive) (node : positive) :
  is_Some (mem !! node) ->
  Forall (fun d => is_Some (mem !! d)) l ->
  StronglySorted Z.le (key mem <$> l) ->
  exists l', DummyBinHeap.insert mem node l = Some l' /\ l' ≡ₚ node :: l /\
    StronglySorted Z.le (key mem <$> l').
Proof.
  intros Hnode. unfold DummyBinHeap.insert.
  induction l as [|p rest IH]; intros Hmem Hsort.
  - exists [node]. split; [done|]. split; [done|].
    cbn. apply SSorted_cons; [apply SSorted_nil|apply List.Forall_nil].
  - apply Forall_cons in Hmem as [Hp Hrest].
    cbn [fmap list_fmap] in Hsort. apply StronglySorted_inv in Hsort as [Hsort Hle].
    destruct (IH Hrest Hsort) as (l' & Hrun & Hperm & Hsort').
    destruct (DummyBinHeap.lower_bound mem rest node) as [i|] eqn:Hi; [|done].
    cbn [mbind option_bind] in Hrun. injection Hrun as <-.
    cbn [DummyBinHeap.lower_bound]. rewrite ValueLessThan_key by done.
    cbn [mbind option_bind]. rewrite Hi. cbn [mbind option_bind].
    destruct (Z.ltb_spec (key mem p) (key mem node)) as [Hlt|Hge].
    + cbn [mbind option_bind take drop app].
      eexists. split; [reflexivity|]. split.
      * rewrite Hperm. apply Permutation_swap.
      * cbn [fmap list_fmap]. apply SSorted_cons; [done|].
        change (Forall (Z.le (key mem p)) (key mem <$> (take i rest ++ node :: drop i rest))).
        rewrite Hperm. cbn [fmap list_fmap]. apply Forall_cons. split; [lia|done].
    + assert (DummyBinHeap.lower_bound mem rest node = Some O) as H0.
      { apply lower_bound_0; [done|]. apply Forall_forall. intros d Hd.
        split; [by eapply Forall_forall in Hrest|].
        assert (key mem p <= key mem d); [|lia].
        eapply Forall_forall in Hle; [done|]. by apply list_elem_of_fmap_2. }
      assert (i = O) as -> by congruence.
      rewrite decide_True by done. cbn [mbind option_bind take drop app].
      eexists. split; [reflexivity|]. split; [done|].
      cbn [fmap list_fmap]. apply SSorted_cons.
      * apply SSorted_cons; done.
      * apply Forall_cons. split; [lia|].
        eapply Forall_impl; [exact Hle|]. intros z Hz. cbn in Hz. lia.
Qed.

Lemma remove_sorted (f : positive -> Z) (l : list positive) (d : positive) :
  d ∈ l -> NoDup l -> StronglySorted Z.le (f <$> l) ->
  exists l', DummyBinHeap.remove d l = Some l' /\ l ≡ₚ d :: l' /\ (d ∉ l') /\
    StronglySorted Z.le (f <$> l').
Proof.
  unfold DummyBinHeap.remove.
  induction l as [|p rest IH]; intros Hd Hnd Hsort; [by apply elem_of_nil in Hd|].
  apply NoDup_cons in Hnd as [Hp Hnd].
  cbn [fmap list_fmap] in Hsort. apply StronglySorted_inv in Hsort as [Hsort Hle].
  cbn [DummyBinHeap.find]. destruct (decide (p = d)) as [->|Hne].
  - cbn [mbind option_bind take drop app]. exists rest. by rewrite drop_0.
  - apply elem_of_cons in Hd as [->|Hd]; [done|].
    destruct (IH Hd Hnd Hsort) as (l' & Hrun & Hperm & Hnot & Hsort').
    destruct (DummyBinHeap.find rest d) as [i|]; [|done].
    cbn [mbind option_bind] in Hrun. injection Hrun as <-.
    cbn [fmap option_fmap option_map mbind option_bind take drop app].
    eexists. split; [reflexivity|]. split; [|split].
    + rewrite Hperm at 1. apply Permutation_swap.
    + intros [->|Hin]%elem_of_cons; done.
    + cbn [fmap list_fmap]. apply SSorted_cons; [done|].
      assert (Forall (Z.le (f p)) (f <$> (d :: (take i rest ++ drop (S i) rest)))) as HF.
      { by rewrite <- Hperm. }
      cbn [fmap list_fmap] in HF. by apply Forall_cons in HF as [_ HF].
Qed.

Lemma get_at_index_elem (index : Z) (l : list positive) :
  0 <= index < Z.of_nat (length l) ->
  exists d, DummyBinHeap.get_at_index index l = Some d /\ d ∈ l.
Proof.
  intros Hi. unfold DummyBinHeap.get_at_index.
  destruct (Z.ltb_spec index 0); [lia|].
  destruct (lookup_lt_is_Some_2 l (Z.to_nat index) ltac:(lia)) as [d Hd].
  exists d. split; [done|]. by eapply list_elem_of_lookup_2.
Qed.

Lemma key_fmap_ext (mem mem' : gmap positive DummyBinHeapNode) (l : list positive) :
  (forall d, d ∈ l -> mem' !! d = mem !! d) -> key mem' <$> l = key mem <$> l.
Proof.
  intros H. apply list_fmap_ext. intros i d Hd. unfold key.
  rewrite H; [done|]. by eapply list_elem_of_lookup_2.
Qed.

(** *** The two heaps side by side *)

Hypothesis new_dummy_fresh : forall e mem, mem !! (new_dummy e mem).1 = None.
Hypothesis new_real_fresh : forall e mem, mem !! (new_real e mem).1 = None.

Local Abbreviation inv := (inv Z.ltb).
Local Abbreviation Hswo := Z_ltb_strict_weak_order.

(** The vector holds the dummy nodes, and the dummy nodes and the
    heap nodes are partners one to one. *)
Definition paired (mem : gmap positive DummyBinHeapNode) (values : list positive)
    (N : gmap positive (BinHeapNode Z)) : Prop :=
  NoDup values /\
  (forall d, d ∈ values <-> is_Some (mem !! d)) /\
  (forall d d' dn dn', mem !! d = Some dn -> mem !! d' = Some dn' ->
     partner dn = partner dn' -> d = d') /\
  (forall p, is_Some (N !! p) <-> exists d dn, mem !! d = Some dn /\ partner dn = p).

(** What the loop keeps: every heap node is in the heap and has the
    value of its partner, and the vector is sorted. *)
Definition fuzz_ok (w : fuzz) : Prop :=
  paired (dmem w) (dummy w) (nodes (real w)) /\
  inv (dom (nodes (real w))) (dom (nodes (real w))) (real w) /\
  (forall d dn nd, dmem w !! d = Some dn -> nodes (real w) !! partner dn = Some nd ->
     value nd = DummyBinHeap.value dn) /\
  StronglySorted Z.le (key (dmem w) <$> dummy w) /\
  base.size (dom (nodes (real w))) = length (dummy w).

Lemma evolves_nodes_dom (a : positive) (s s' : state Z) :
  evolves a s s' -> dom (nodes s') = dom (nodes s).
Proof.
  intros [_ H]. apply set_eq. intros c. rewrite !elem_of_dom. specialize (H c).
  inversion H; split; intros [? ?]; by simplify_eq.
Qed.

Lemma evolves_value (a c : positive) (s s' : state Z) (nd nd' : BinHeapNode Z) :
  evolves a s s' -> nodes s !! c = Some nd -> nodes s' !! c = Some nd' -> value nd' = value nd.
Proof.
  intros Hev Hnd Hnd'. pose proof (evolves_same_values a s s' Hev c) as H.
  rewrite Hnd, Hnd' in H. by inversion H.
Qed.

Lemma fuzz_ok_start (e : Env) (h : positive) : fuzz_ok (start e h).
Proof.
  unfold fuzz_ok, start. cbn [dmem dummy real new_heap nodes].
  split; [|split; [|split; [|split]]].
  - split; [apply NoDup_nil_2|]. split; [|split].
    + intros d. rewrite lookup_empty. split; [by intros ?%elem_of_nil|by intros [? ?]].
    + intros d d' dn dn'. by rewrite lookup_empty.
    + intros p. rewrite lookup_empty. split; [by intros [? ?]|].
      intros (d & dn & Hd & _). by rewrite lookup_empty in Hd.
  - rewrite dom_empty_L.
    pose proof (inv_new_heap Z.ltb h ∅ ltac:(apply bool_decide_eq_true_2, map_Forall_empty)) as H.
    by rewrite dom_empty_L in H.
  - intros d dn nd. by rewrite lookup_empty.
  - apply SSorted_nil.
  - by rewrite dom_empty_L, size_empty.
Qed.

(** The top of the vector and the top of the heap have the same value. *)
Lemma tops_agree (w : fuzz) (d0 : positive) (rest : list positive) :
  fuzz_ok w -> dummy w = d0 :: rest ->
  exists dn r rn, dmem w !! d0 = Some dn /\ m_root (real w) = Some r /\
    nodes (real w) !! r = Some rn /\ DummyBinHeap.value dn = value rn.
Proof.
  intros ((Hnd & Hmem & Hinj & Hsur) & Hinv & Hval & Hsort & Hsize) Hd.
  assert (dom (nodes (real w)) <> ∅) as Hne.
  { intros He. rewrite He, size_empty, Hd in Hsize. done. }
  destruct (inv_root Z.ltb Hswo _ _ _ Hinv Hne) as (r & Hr & HrD & Hmin).
  apply elem_of_dom in HrD as [rn Hrn].
  destruct (proj1 (Hmem d0) ltac:(rewrite Hd; apply elem_of_cons; by left)) as [dn Hdn].
  exists dn, r, rn. split; [done|]. split; [done|]. split; [done|].
  destruct (proj1 (Hsur r) ltac:(by eexists)) as (dr & dnr & Hdr & Hpr).
  assert (value rn = DummyBinHeap.value dnr) as Hvr.
  { apply (Hval dr dnr rn Hdr). by rewrite Hpr. }
  destruct (proj2 (Hsur (partner dn)) ltac:(by exists d0, dn)) as [n0 Hn0].
  pose proof (Hval d0 dn n0 Hdn Hn0) as Hv0.
  pose proof (Hmin (partner dn) (value rn) (value n0)
                ltac:(by apply elem_of_dom) ltac:(by unfold keyof; rewrite Hrn)
                ltac:(by unfold keyof; rewrite Hn0)) as Hle.
  apply Z.ltb_ge in Hle.
  assert (key (dmem w) d0 <= key (dmem w) dr) as Hs.
  { rewrite Hd in Hsort. cbn [fmap list_fmap] in Hsort.
    apply StronglySorted_inv in Hsort as [_ Hall].
    assert (dr ∈ dummy w) as Hin by (apply Hmem; by eexists).
    rewrite Hd in Hin. apply elem_of_cons in Hin as [->|Hin]; [lia|].
    eapply Forall_forall in Hall; [done|]. by apply list_elem_of_fmap_2. }
  unfold key in Hs. rewrite Hdn, Hdr in Hs. cbn in Hs. lia.
Qed.

Lemma checks_ok (w : fuzz) :
  fuzz_ok w -> Z.of_nat (length (dummy w)) < 2 ^ 63 -> checks w = Some (real w).
Proof.
  intros Hok Hbound. pose proof Hok as (_ & Hinv & _ & _ & Hsize).
  unfold checks. rewrite (inv_validate Z.ltb _ _ _ Hinv) by (rewrite Hsize; lia).
  cbn [mbind option_bind]. unfold BinHeap.size, BinHeap.empty, BinHeap.top, get_size, get_root.
  unfold bind, ret. cbn [mbind option_bind].
  rewrite (inv_size Z.ltb _ _ _ Hinv), Hsize. unfold DummyBinHeap.size.
  rewrite Z.eqb_refl. cbn [UASSERT mbind option_bind].
  assert (Bool.eqb (DummyBinHeap.empty (dummy w)) (Z.of_nat (length (dummy w)) =? 0) = true) as ->.
  { unfold DummyBinHeap.empty. destruct (dummy w); [done|].
    rewrite bool_decide_eq_false_2 by done. cbn [length].
    by destruct (Z.eqb_spec (Z.of_nat (S (length l))) 0); [lia|]. }
  cbn [UASSERT mbind option_bind].
  destruct (Z.ltb_spec 0 (Z.of_nat (length (dummy w)))) as [Hpos|Hz]; [|done].
  destruct (dummy w) as [|d0 rest] eqn:Hd; [cbn in Hpos; lia|].
  destruct (tops_agree w d0 rest Hok Hd) as (dn & r & rn & Hdn & Hr & Hrn & Hv).
  cbn [DummyBinHeap.top head mbind option_bind]. rewrite Hdn. cbn [mbind option_bind].
  rewrite Hr. cbn [mbind option_bind]. rewrite Hrn. cbn [mbind option_bind].
  rewrite Hv, Z.eqb_refl. done.
Qed.

Lemma insert_round_ok (w : fuzz) (e : Env) (v : Z) (dnode p : positive) :
  fuzz_ok w -> Z.of_nat (length (dummy w)) + 1 < 2 ^ 63 ->
  dmem w !! dnode = None -> nodes (real w) !! p = None ->
  exists values r,
    DummyBinHeap.insert (<[dnode := mkDummyBinHeapNode v p]> (dmem w)) dnode (dummy w)
      = Some values /\
    BinHeap.insert Z.ltb (Some p) (alloc_node p v (real w)) = Some (tt, r) /\
    fuzz_ok (mkFuzz e (<[dnode := mkDummyBinHeapNode v p]> (dmem w)) values r) /\
    length values = S (length (dummy w)).
Proof.
  intros ((Hnd & Hmem & Hinj & Hsur) & Hinv & Hval & Hsort & Hsize) Hbound Hdnode Hp.
  set (mem := <[dnode := mkDummyBinHeapNode v p]> (dmem w)).
  set (D := dom (nodes (real w))) in *.
  assert (dnode ∉ dummy w) as Hnotin.
  { intros Hin. apply Hmem in Hin as [? ?]. congruence. }
  assert (Hold : forall d, d ∈ dummy w -> mem !! d = dmem w !! d).
  { intros d Hd. unfold mem. rewrite lookup_insert_ne; [done|]. by intros ->. }
  destruct (insert_sorted mem (dummy w) dnode) as (values & Hins & Hperm & Hsort').
  { unfold mem. rewrite lookup_insert_eq. by eexists. }
  { apply Forall_forall. intros d Hd. rewrite Hold by done. by apply Hmem. }
  { by rewrite (key_fmap_ext (dmem w) mem). }
  assert (p ∉ D) as HpD by (by apply not_elem_of_dom).
  pose proof (inv_alloc_node Z.ltb p v D D (real w) HpD Hinv Hp) as Hinv1.
  assert (base.size ({[p]} ∪ D) = S (length (dummy w))) as Hsize1.
  { rewrite size_union by (by apply disjoint_singleton_l). rewrite size_singleton. lia. }
  destruct (inv_insert Z.ltb Hswo _ _ _ p Hinv1 ltac:(rewrite Hsize1; lia)
              ltac:(apply elem_of_union; left; by apply elem_of_singleton) HpD)
    as (r & Hrun & Hinv2 & Hev).
  assert (dom (nodes r) = {[p]} ∪ D) as Hdom.
  { rewrite (evolves_nodes_dom p _ _ Hev). cbn [alloc_node nodes]. by rewrite dom_insert_L. }
  assert (HN : forall q, is_Some (nodes r !! q) <-> q = p \/ is_Some (nodes (real w) !! q)).
  { intros q. rewrite <- !elem_of_dom, Hdom. fold D.
    rewrite elem_of_union, elem_of_singleton. done. }
  exists values, r. split; [done|]. split; [done|]. split; [|by rewrite Hperm].
  unfold fuzz_ok. cbn [dmem dummy real]. fold mem.
  split; [|split; [|split; [|split]]].
  - split; [|split; [|split]].
    + rewrite Hperm. by apply NoDup_cons.
    + intros d. rewrite Hperm, elem_of_cons. unfold mem.
      rewrite lookup_insert_is_Some, Hmem.
      split; [intros [->|?]; [by left|right]|intros [->|[_ ?]]; [by left|by right]].
      split; [|done]. intros ->. apply Hnotin. by apply Hmem.
    + intros d d' dn dn' Hd Hd' Heq. unfold mem in Hd, Hd'.
      apply lookup_insert_Some in Hd as [[<- <-]|[Hne Hd]];
        apply lookup_insert_Some in Hd' as [[<- <-]|[Hne' Hd']]; [done| | |by eapply Hinj].
      * cbn in Heq. exfalso.
        destruct (proj2 (Hsur (partner dn')) ltac:(by eexists _, _)) as [x Hx]. congruence.
      * cbn in Heq. exfalso.
        destruct (proj2 (Hsur (partner dn)) ltac:(by eexists _, _)) as [x Hx]. congruence.
    + intros q. rewrite HN. split.
      * intros [->|Hq].
        -- exists dnode, (mkDummyBinHeapNode v p). split; [|done]. unfold mem.
           by rewrite lookup_insert_eq.
        -- apply Hsur in Hq as (d & dn & Hd & Hq). exists d, dn. split; [|done].
           unfold mem. rewrite lookup_insert_ne; [done|]. intros ->. congruence.
      * intros (d & dn & Hd & Hq). unfold mem in Hd.
        apply lookup_insert_Some in Hd as [[<- <-]|[Hne Hd]]; [by left|right].
        apply Hsur. by exists d, dn.
  - rewrite Hdom. by rewrite (union_comm_L D {[p]}) in Hinv2.
  - intros d dn nd Hd Hnode. unfold mem in Hd.
    apply lookup_insert_Some in Hd as [[<- <-]|[Hne Hd]].
    + cbn [partner DummyBinHeap.partner DummyBinHeap.value] in *.
      rewrite (evolves_value p p _ r (new_node v) nd Hev); [done| |done].
      cbn [alloc_node nodes]. by rewrite lookup_insert_eq.
    + destruct (proj2 (Hsur (partner dn)) ltac:(by eexists _, _)) as [x Hx].
      rewrite (evolves_value p (partner dn) _ r x nd Hev); [by eapply Hval| |done].
      cbn [alloc_node nodes]. rewrite lookup_insert_ne; [done|]. intros Heq. congruence.
  - done.
  - rewrite Hdom, Hsize1. by rewrite Hperm.
Qed.

Lemma paired_remove (mem : gmap positive DummyBinHeapNode) (l l' : list positive)
    (N N' : gmap positive (BinHeapNode Z)) (dnode : positive) (dn : DummyBinHeapNode) :
  paired mem l N -> mem !! dnode = Some dn -> l ≡ₚ dnode :: l' ->
  (forall q, is_Some (N' !! q) <-> q <> partner dn /\ is_Some (N !! q)) ->
  paired (delete dnode mem) l' N'.
Proof.
  intros (Hnd & Hmem & Hinj & Hsur) Hdn Hperm HN.
  assert (NoDup (dnode :: l')) as Hnd' by (by rewrite <- Hperm).
  apply NoDup_cons in Hnd' as [Hnot Hnd'].
  split; [done|]. split; [|split].
  - intros d. rewrite lookup_delete_is_Some, <- Hmem, Hperm, elem_of_cons.
    split; [intros Hd; split; [by intros ->|by right]|by intros [Hne [->|?]]].
  - intros d d' x x' Hd Hd' Heq.
    apply lookup_delete_Some in Hd as [_ Hd]. apply lookup_delete_Some in Hd' as [_ Hd'].
    by eapply Hinj.
  - intros q. rewrite HN. split.
    + intros [Hne Hq]. apply Hsur in Hq as (d & x & Hd & Hq). exists d, x.
      split; [|done]. apply lookup_delete_Some. split; [|done]. intros <-.
      apply Hne. congruence.
    + intros (d & x & Hd & Hq). apply lookup_delete_Some in Hd as [Hne Hd].
      split; [|apply Hsur; by exists d, x].
      intros Heq. apply Hne. eapply Hinj; [exact Hdn|exact Hd|congruence].
Qed.

Lemma remove_round_ok (w : fuzz) (e : Env) (dnode : positive) :
  fuzz_ok w -> Z.of_nat (length (dummy w)) < 2 ^ 63 -> dnode ∈ dummy w ->
  exists dn pn r1 values r2,
    dmem w !! dnode = Some dn /\ nodes (real w) !! partner dn = Some pn /\
    value pn = DummyBinHeap.value dn /\
    BinHeap.remove Z.ltb (Some (partner dn)) (real w) = Some (tt, r1) /\
    DummyBinHeap.remove dnode (dummy w) = Some values /\
    delete_node (partner dn) r1 = Some r2 /\
    fuzz_ok (mkFuzz e (delete dnode (dmem w)) values r2) /\
    (length values <= length (dummy w))%nat.
Proof.
  intros (Hpaired & Hinv & Hval & Hsort & Hsize) Hbound Hin.
  pose proof Hpaired as (Hnd & Hmem & Hinj & Hsur).
  set (D := dom (nodes (real w))) in *.
  destruct (proj1 (Hmem dnode) Hin) as [dn Hdn].
  destruct (proj2 (Hsur (partner dn)) ltac:(by eexists _, _)) as [pn Hpn].
  set (a := partner dn) in *.
  assert (a ∈ D) as HaD by (by apply elem_of_dom).
  destruct (inv_remove Z.ltb Hswo _ _ _ a Hinv ltac:(rewrite Hsize; lia) HaD)
    as (r1 & Hrun & Hinv1 & Hev).
  destruct (remove_sorted (key (dmem w)) (dummy w) dnode Hin Hnd Hsort)
    as (values & Hrem & Hperm & Hnot & Hsort').
  assert (a ∉ D ∖ {[a]}) as HaR.
  { intros [_ Hx]%elem_of_difference. apply Hx. by apply elem_of_singleton. }
  destruct (inv_outside Z.ltb _ _ _ a Hinv1 HaD HaR) as (nd1 & Hnd1 & Hout).
  pose proof (inv_free_node Z.ltb a _ _ _ HaR Hinv1) as Hinv2.
  assert (dom (nodes (free_node a r1)) = D ∖ {[a]}) as Hdom.
  { cbn [free_node nodes]. by rewrite dom_delete_L, (evolves_nodes_dom a _ _ Hev). }
  assert (HN : forall q, is_Some (nodes (free_node a r1) !! q)
                         <-> q <> a /\ is_Some (nodes (real w) !! q)).
  { intros q. rewrite <- !elem_of_dom, Hdom. fold D.
    rewrite elem_of_difference, elem_of_singleton. tauto. }
  exists dn, pn, r1, values, (free_node a r1).
  split; [done|]. split; [done|]. split; [by eapply Hval|]. split; [done|]. split; [done|].
  split.
  { change (delete_node a r1 = Some (free_node a r1)).
    unfold delete_node. rewrite Hnd1. cbn [mbind option_bind].
    by rewrite bool_decide_eq_true_2. }
  assert (NoDup (dnode :: values)) as Hnd' by (by rewrite <- Hperm).
  apply NoDup_cons in Hnd' as [_ Hnd'].
  split; [|rewrite Hperm; cbn [length]; lia].
  unfold fuzz_ok. cbn [dmem dummy real].
  split; [|split; [|split; [|split]]].
  - by apply (paired_remove (dmem w) (dummy w) values (nodes (real w)) _ dnode dn).
  - by rewrite Hdom.
  - intros d x nd Hd Hnd2. apply lookup_delete_Some in Hd as [Hne Hd].
    cbn [free_node nodes] in Hnd2. apply lookup_delete_Some in Hnd2 as [Hne2 Hnd2].
    destruct (proj2 (Hsur (partner x)) ltac:(by eexists _, _)) as [y Hy].
    rewrite (evolves_value a (partner x) _ r1 y nd Hev); [by eapply Hval|done|done].
  - rewrite (key_fmap_ext (dmem w) (delete dnode (dmem w))); [done|].
    intros d Hd. rewrite lookup_delete_ne; [done|]. by intros ->.
  - rewrite Hdom. rewrite size_difference by (by apply singleton_subseteq_l).
    rewrite size_singleton, Hsize, Hperm. cbn [length]. lia.
Qed.

Lemma fuzz_round_ok (w : fuzz) :
  fuzz_ok w -> Z.of_nat (length (dummy w)) + 1 < 2 ^ 63 ->
  exists w', fuzz_round w = Some w' /\ fuzz_ok w' /\
    (length (dummy w') <= S (length (dummy w)))%nat.
Proof.
  intros Hok Hbound. unfold fuzz_round. rewrite (checks_ok w Hok) by lia.
  cbn [mbind option_bind].
  destruct (rand32 (env w)) as [x e1].
  destruct (x mod 2 =? 0).
  - destruct (rand32 e1) as [x2 e2].
    pose proof (new_dummy_fresh e2 (dmem w)) as Hd.
    destruct (new_dummy e2 (dmem w)) as [dnode e3]. cbn [fst] in Hd.
    pose proof (new_real_fresh e3 (nodes (real w))) as Hp.
    destruct (new_real e3 (nodes (real w))) as [p e4]. cbn [fst] in Hp.
    destruct (insert_round_ok w e4 (x2 mod 100) dnode p Hok Hbound Hd Hp)
      as (values & r & Hins & Hrun & Hok' & Hlen).
    rewrite Hins. cbn [mbind option_bind]. rewrite lookup_insert_eq.
    cbn [mbind option_bind partner DummyBinHeap.partner]. rewrite Hrun.
    cbn [mbind option_bind]. eexists. split; [reflexivity|]. split; [done|].
    cbn [dummy]. lia.
  - destruct (dummy w) as [|d0 rest] eqn:Hdummy.
    + unfold DummyBinHeap.empty. rewrite bool_decide_eq_true_2 by done. cbn [negb].
      eexists. split; [reflexivity|]. split; [|cbn [dummy]; lia].
      destruct w as [e0 m0 l0 r0]. cbn [env dmem dummy real] in *. by subst l0.
    + unfold DummyBinHeap.empty. rewrite bool_decide_eq_false_2 by done. cbn [negb].
      rewrite <- Hdummy in *.
      destruct (rand32 e1) as [x2 e2].
      assert (0 < DummyBinHeap.size (dummy w)) as Hpos.
      { unfold DummyBinHeap.size. rewrite Hdummy. cbn [length]. lia. }
      pose proof (Z.mod_pos_bound x2 (DummyBinHeap.size (dummy w)) Hpos) as Hidx.
      destruct (get_at_index_elem (x2 mod DummyBinHeap.size (dummy w)) (dummy w) Hidx)
        as (dnode & Hget & Hin).
      rewrite Hget. cbn [mbind option_bind].
      destruct (remove_round_ok w e2 dnode Hok ltac:(lia) Hin)
        as (dn & pn & r1 & values & r2 & Hdn & Hpn & Hv & Hrun & Hrem & Hdel & Hok' & Hlen).
      rewrite Hdn. cbn [mbind option_bind]. rewrite Hpn. cbn [mbind option_bind].
      rewrite Hv, Z.eqb_refl. cbn [UASSERT mbind option_bind]. rewrite Hrun.
      cbn [mbind option_bind]. rewrite Hrem. cbn [mbind option_bind].
      rewrite Hdel. cbn [mbind option_bind]. unfold delete_dummy. rewrite Hdn.
      cbn [mbind option_bind]. eexists. split; [reflexivity|]. split; [done|].
      cbn [dummy]. lia.
Qed.

Lemma fuzz_loop_ok (n : nat) :
  forall w, fuzz_ok w -> Z.of_nat (length (dummy w)) + Z.of_nat n < 2 ^ 63 ->
  exists w', fuzz_loop n w = Some w' /\ fuzz_ok w' /\
    (length (dummy w') <= length (dummy w) + n)%nat.
Proof.
  induction n as [|n IH]; intros w Hok Hbound.
  - exists w. split; [done|]. split; [done|]. lia.
  - destruct (fuzz_round_ok w Hok ltac:(lia)) as (w1 & Hrun & Hok1 & Hlen).
    cbn [fuzz_loop]. rewrite Hrun. cbn [mbind option_bind].
    destruct (IH w1 Hok1 ltac:(lia)) as (w' & Hrun' & Hok' & Hlen').
    exists w'. split; [done|]. split; [done|]. lia.
Qed.

(** *** After the loop *)

(** What the loop that cleans up keeps: no heap node is in a heap. *)
Definition clean_ok (w : fuzz) : Prop :=
  paired (dmem w) (dummy w) (nodes (real w)) /\
  forall p nd, nodes (real w) !! p = Some nd -> in_heap nd = None.

Lemma sorted_const (l : list positive) : StronglySorted Z.le ((fun _ => 0) <$> l).
Proof.
  induction l as [|p l IH]; [apply SSorted_nil|].
  cbn [fmap list_fmap]. apply SSorted_cons; [done|].
  apply Forall_forall. intros x Hx. apply list_elem_of_fmap in Hx as (y & -> & _). lia.
Qed.

Lemma clean_up_ok (fuel : nat) :
  forall w, clean_ok w -> (length (dummy w) <= fuel)%nat ->
  exists w', clean_up fuel w = Some w' /\
    dummy w' = [] /\ dmem w' = ∅ /\ nodes (real w') = ∅ /\
    m_root (real w') = m_root (real w).
Proof.
  assert (Hnil : forall w, clean_ok w -> dummy w = [] ->
            dmem w = ∅ /\ nodes (real w) = ∅).
  { intros w ((_ & Hmem & _ & Hsur) & _) Hd. rewrite Hd in Hmem.
    assert (dmem w = ∅) as He.
    { apply map_empty. intros d. apply eq_None_not_Some. intros Hs.
      apply Hmem in Hs. by apply elem_of_nil in Hs. }
    split; [done|]. apply map_empty. intros q. apply eq_None_not_Some. intros Hs.
    apply Hsur in Hs as (d & dn & Hdn & _). rewrite He in Hdn. by rewrite lookup_empty in Hdn. }
  induction fuel as [|fuel IH]; intros w Hok Hlen.
  - assert (dummy w = []) as Hd by (destruct (dummy w); [done|cbn in Hlen; lia]).
    destruct (Hnil w Hok Hd) as [Hm HN].
    exists w. cbn [clean_up]. unfold DummyBinHeap.empty. by rewrite bool_decide_eq_true_2.
  - cbn [clean_up]. unfold DummyBinHeap.empty.
    destruct (dummy w) as [|d0 rest] eqn:Hd.
    { destruct (Hnil w Hok Hd) as [Hm HN].
      exists w. by rewrite bool_decide_eq_true_2. }
    rewrite bool_decide_eq_false_2 by done. rewrite <- Hd in *.
    destruct Hok as (Hpaired & Hout). pose proof Hpaired as (Hnd & Hmem & Hinj & Hsur).
    destruct (get_at_index_elem (DummyBinHeap.size (dummy w) - 1) (dummy w))
      as (dnode & Hget & Hin).
    { unfold DummyBinHeap.size. rewrite Hd. cbn [length]. lia. }
    rewrite Hget. cbn [mbind option_bind].
    destruct (proj1 (Hmem dnode) Hin) as [dn Hdn].
    destruct (proj2 (Hsur (partner dn)) ltac:(by eexists _, _)) as [pn Hpn].
    rewrite Hdn. cbn [mbind option_bind]. rewrite Hpn. cbn [mbind option_bind].
    pose proof (Hout _ _ Hpn) as Hpout.
    unfold inHeap, delete_node. rewrite Hpn, Hpout.
    rewrite bool_decide_eq_false_2 by (by intros []).
    cbn [negb UASSERT mbind option_bind]. rewrite Hpout.
    rewrite bool_decide_eq_true_2 by done. cbn [negb UASSERT mbind option_bind].
    destruct (remove_sorted (fun _ => 0) (dummy w) dnode Hin Hnd (sorted_const _))
      as (values & Hrem & Hperm & Hnot & _).
    rewrite Hrem. cbn [mbind option_bind]. unfold delete_dummy. rewrite Hdn.
    cbn [mbind option_bind].
    destruct (IH (mkFuzz (env w) (delete dnode (dmem w)) values (free_node (partner dn) (real w))))
      as (w' & Hrun & Hd' & Hm' & HN' & Hroot').
    + split; cbn [dmem dummy real free_node nodes].
      * apply (paired_remove (dmem w) (dummy w) values (nodes (real w)) _ dnode dn);
          [done|done|done|].
        intros q. rewrite lookup_delete_is_Some. split; [by intros [? ?]|by intros [? ?]].
      * intros p nd Hp. apply lookup_delete_Some in Hp as [_ Hp]. by eapply Hout.
    + cbn [dummy]. apply Permutation_length in Hperm. cbn [length] in Hperm. lia.
    + exists w'. done.
Qed.

Lemma clear_dom (D R : gset positive) (s s' : state Z) :
  inv D R s -> Z.of_nat (base.size D) < 2 ^ 63 -> clear s = Some (tt, s') ->
  dom (nodes s') = dom (nodes s).
Proof.
  intros (m & n & Hrep & _ & Hn & Hrange & Hsub & Hmem) Hsize Hclear.
  pose proof (subseteq_size R D Hsub) as Hle.
  assert (Hl : linked m s).
  { intros p a Hp. destruct (rep_node _ _ _ Hrep p a Hp) as [v Hv]. by eexists. }
  destruct (remove_recursively_spec m n ltac:(lia) (rep_dom _ _ _ Hrep) 65 1 s Hl
              ltac:(cbn [Pos.size_nat]; lia)) as (s1 & Hrun & (_ & _ & _ & Hrel) & _).
  rewrite <- (rep_root _ _ _ Hrep) in Hrun.
  unfold clear in Hclear. rewrite run_get_root in Hclear.
  change (S MAX_DEPTH) with 65%nat in Hclear. rewrite (run_bind_eq _ _ _ _ _ Hrun) in Hclear.
  injection Hclear as <-. cbn [nodes].
  apply set_eq. intros c. rewrite !elem_of_dom. specialize (Hrel c).
  inversion Hrel; split; intros [? ?]; by simplify_eq.
Qed.

Lemma after_loop_ok (w : fuzz) :
  fuzz_ok w -> Z.of_nat (length (dummy w)) < 2 ^ 63 ->
  exists w', after_loop w = Some w' /\
    dummy w' = [] /\ dmem w' = ∅ /\ nodes (real w') = ∅ /\
    m_root (real w') = m_root (real w).
Proof.
  intros ((Hnd & Hmem & Hinj & Hsur) & Hinv & Hval & Hsort & Hsize) Hbound.
  assert (Z.of_nat (base.size (dom (nodes (real w)))) < 2 ^ 63) as HD by (rewrite Hsize; lia).
  unfold after_loop. rewrite (inv_validate Z.ltb _ _ _ Hinv HD). cbn [mbind option_bind].
  destruct (clear_inv Z.ltb _ _ _ Hinv HD) as (r & Hclear & _ & Hsz & Hroot & Hnodes).
  pose proof (clear_dom _ _ _ _ Hinv HD Hclear) as Hdom.
  rewrite Hclear. cbn [mbind option_bind]. unfold BinHeap.size, get_size.
  cbn [mbind option_bind]. rewrite Hsz. cbn [Z.eqb UASSERT mbind option_bind].
  destruct (clean_up_ok (length (dummy w)) (mkFuzz (env w) (dmem w) (dummy w) r))
    as (w' & Hrun & Hd' & Hm' & HN' & Hroot').
  - split; cbn [dmem dummy real].
    + split; [done|]. split; [done|]. split; [done|].
      intros p. rewrite <- Hsur, <- !elem_of_dom. by rewrite Hdom.
    + intros p nd Hp.
      destruct (Hnodes p ltac:(rewrite <- Hdom; by apply elem_of_dom))
        as (x & y & _ & Hy & _ & Hin). congruence.
  - done.
  - exists w'. cbn [real] in Hroot'. split; [done|]. split; [done|]. split; [done|].
    split; [done|]. congruence.
Qed.

Lemma remove_recursively_freed (fuel : nat) (a : positive) (s : state Z) :
  nodes s !! a = None -> remove_recursively (S fuel) (Some a) s = None.
Proof.
  intros Ha. cbn [remove_recursively]. unfold bind at 1. unfold set_in_heap, modify.
  by rewrite Ha.
Qed.

Lemma remove_recursively_null (fuel : nat) (s : state Z) :
  remove_recursively fuel None s = Some (tt, s).
Proof. by destruct fuel. Qed.

(** [~BinHeap] when no node is left in the memory. *)
Lemma clear_freed (s : state Z) :
  nodes s = ∅ -> is_Some (clear s) <-> m_root s = None.
Proof.
  intros HN. unfold clear. rewrite run_get_root.
  destruct (m_root s) as [r|].
  - unfold bind at 1. rewrite remove_recursively_freed by (by rewrite HN, lookup_empty).
    split; [by intros [? ?]|done].
  - unfold bind at 1. rewrite remove_recursively_null.
    split; [done|]. intros _. by eexists.
Qed.

Lemma testFuzz_body_ok (e : Env) (h : positive) :
  exists w1 w2, fuzz_loop (Z.to_nat M) (start e h) = Some w1 /\ fuzz_ok w1 /\
    testFuzz_body e h = Some w2 /\
    dummy w2 = [] /\ dmem w2 = ∅ /\ nodes (real w2) = ∅ /\
    m_root (real w2) = m_root (real w1).
Proof.
  destruct (fuzz_loop_ok (Z.to_nat M) (start e h) (fuzz_ok_start e h))
    as (w1 & Hloop & Hok & Hlen).
  { cbn [start dummy length]. unfold M. lia. }
  cbn [start dummy length] in Hlen.
  destruct (after_loop_ok w1 Hok) as (w2 & Hrun & Hd & Hm & HN & Hroot).
  { unfold M in Hlen. lia. }
  exists w1, w2. split; [done|]. split; [done|].
  unfold testFuzz_body. rewrite Hloop. cbn [mbind option_bind]. done.
Qed.

End Fuzz.

Arguments env {Env} _.
Arguments dmem {Env} _.
Arguments dummy {Env} _.
Arguments real {Env} _.

(** Whatever the random numbers are, and whatever addresses of no
    live node [new] gives: every check of the statements of
    [testFuzz] passes, the vector and the heap agreeing in every
    round, and at the end every node has been deleted. *)
Theorem testFuzz_checks_pass {Env : Type} (rand32 : Env -> Z * Env)
    (new_dummy : Env -> gmap positive DummyBinHeapNode -> positive * Env)
    (new_real : Env -> gmap positive (BinHeapNode Z) -> positive * Env)
    (e : Env) (h : positive) :
  (forall e mem, mem !! (new_dummy e mem).1 = None) ->
  (forall e mem, mem !! (new_real e mem).1 = None) ->
  exists w, testFuzz_body Env rand32 new_dummy new_real e h = Some w /\
    dummy w = [] /\ dmem w = ∅ /\ nodes (real w) = ∅.
Proof.
  intros Hd Hr.
  destruct (testFuzz_body_ok Env rand32 new_dummy new_real Hd Hr e h)
    as (w1 & w2 & _ & _ & Hrun & Hdummy & Hmem & Hnodes & _).
  by exists w2.
Qed.

(** [testFuzz] returns only if the heap is empty when the loop ends.
    Otherwise [clear] has left the root pointer of [real] in place,
    the node it points to is deleted with the others, and [~BinHeap]
    of [real] goes to that node. *)
Theorem testFuzz_returns_iff_heap_ends_empty {Env : Type} (rand32 : Env -> Z * Env)
    (new_dummy : Env -> gmap positive DummyBinHeapNode -> positive * Env)
    (new_real : Env -> gmap positive (BinHeapNode Z) -> positive * Env)
    (e : Env) (h : positive) :
  (forall e mem, mem !! (new_dummy e mem).1 = None) ->
  (forall e mem, mem !! (new_real e mem).1 = None) ->
  exists w, fuzz_loop Env rand32 new_dummy new_real (Z.to_nat M) (start Env e h) = Some w /\
    (is_Some (testFuzz Env rand32 new_dummy new_real e h) <-> dummy w = []).
Proof.
  intros Hd Hr.
  destruct (testFuzz_body_ok Env rand32 new_dummy new_real Hd Hr e h)
    as (w1 & w2 & Hloop & Hok & Hrun & Hdummy & Hmem & Hnodes & Hroot).
  exists w1. split; [done|].
  assert (is_Some (testFuzz Env rand32 new_dummy new_real e h) <-> m_root (real w1) = None) as ->.
  { rewrite <- Hroot, <- (clear_freed _ Hnodes). unfold testFuzz. rewrite Hrun.
    cbn [mbind option_bind]. destruct (clear (real w2)) as [[[] r]|].
    - cbn [mbind option_bind]. split; intros _; by eexists.
    - cbn [mbind option_bind]. split; by intros [? ?]. }
  destruct Hok as (_ & Hinv & _ & _ & Hsize).
  destruct (dummy w1) as [|d0 rest] eqn:Hd1.
  - split; [done|]. intros _.
    assert (dom (nodes (real w1)) = ∅) as He.
    { apply leibniz_equiv, size_empty_inv. by rewrite Hsize. }
    rewrite He in Hinv. by apply (inv_empty_root Z.ltb _ _ Hinv).
  - split; [|done]. intros Hnone. exfalso.
    destruct (inv_root Z.ltb Z_ltb_strict_weak_order _ _ _ Hinv) as (r & Hr' & _).
    + intros He. rewrite He, size_empty in Hsize. done.
    + congruence.
Qed.

(** The generator of the C++ library ([std::minstd_rand]), and an
    allocator that gives the least address of no live node. *)
Definition minstd (x : Z) : Z * Z :=
  let x' := (48271 * x) mod 2147483647 in (x', x').

Definition least_free {A : Type} (e : Z) (mem : gmap positive A) : positive * Z :=
  (stdpp.base.fresh (dom mem), e).

Lemma least_free_fresh {A : Type} (e : Z) (mem : gmap positive A) :
  mem !! (least_free e mem).1 = None.
Proof. cbn [least_free fst]. apply not_elem_of_dom, is_fresh. Qed.

Lemma testFuzz_checks_pass_witness :
  exists w, testFuzz_body Z minstd least_free least_free 1 1 = Some w /\
    dummy w = [] /\ dmem w = ∅ /\ nodes (real w) = ∅.
Proof.
  exact (testFuzz_checks_pass minstd least_free least_free 1 1
           least_free_fresh least_free_fresh).
Defined.

Lemma testFuzz_returns_iff_heap_ends_empty_witness :
  exists w, fuzz_loop Z minstd least_free least_free (Z.to_nat M) (start Z 1 1) = Some w /\
    (is_Some (testFuzz Z minstd least_free least_free 1 1) <-> dummy w = []).
Proof.
  exact (testFuzz_returns_iff_heap_ends_empty minstd least_free least_free 1 1
           least_free_fresh least_free_fresh).
Defined.

End TestBinHeap.

(** ** Reading fields in a row (binreader.h) *)

Module BinReaderMore.
Import Parser ParserFacts.

(** The fields the parser reads. *)
Inductive field : Type := U8 | U16 | U32.

Definition width (f : field) : nat :=
  match f with U8 => 1 | U16 => 2 | U32 => 4 end.

Definition read (f : field) (r : BinReader) : result (Z * BinReader) :=
  match f with U8 => readU8 r | U16 => readU16 r | U32 => readU32 r end.

(** [r >> x1 >> ... >> xn]. *)
Fixpoint reads (fs : list field) (r : BinReader) : result (list Z * BinReader) :=
  match fs with
  | [] => Ok ([], r)
  | f :: fs' =>
      '(v, r) ← read f r ;
      '(vs, r) ← reads fs' r ;
      Ok (v :: vs, r)
  end.

(** The bytes of a field in network order, and the values that fit it. *)
Definition bytes_of (f : field) (v : Z) : list Z :=
  match f with U8 => [v] | U16 => be16 v | U32 => be32 v end.

Definition fits (f : field) (v : Z) : Prop := 0 <= v < 2 ^ (8 * Z.of_nat (width f)).

Definition total (fs : list field) : nat := sum_list (width <$> fs).

Lemma read_reader (f : field) (pre suf : list Z) :
  Z.of_nat (length (pre ++ suf)) + 8 < 2 ^ 64 -> Forall is_u8 suf ->
  if decide (width f <= length suf)%nat then
    exists v, read f (reader pre suf)
              = Ok (v, reader (pre ++ take (width f) suf) (drop (width f) suf)) /\
      fits f v /\ bytes_of f v = take (width f) suf
  else read f (reader pre suf) = Throw (UnexpectedEOF (Z.of_nat (length (pre ++ suf)))).
Proof.
  intros Hlen Hu8. destruct f; cbn [read width bytes_of]; unfold fits; cbn [width].
  - rewrite readU8_reader by done. destruct suf as [|b suf]; case_decide; cbn [length] in *;
      try lia; [done|].
    apply Forall_cons in Hu8 as [Hb _]. exists b. cbn [take drop]. rewrite take_0.
    split; [done|]. split; [apply Hb|done].
  - rewrite readU16_reader by done.
    destruct suf as [|b0 [|b1 suf]]; case_decide; cbn [length] in *; try lia; [done|done|].
    apply Forall_cons in Hu8 as [H0 Hu8]. apply Forall_cons in Hu8 as [H1 _].
    destruct (be16_decode b0 b1 H0 H1) as [Hv Hb].
    eexists. cbn [take drop]. rewrite take_0. split; [reflexivity|]. split; [apply Hv|done].
  - rewrite readU32_reader by done.
    destruct suf as [|b0 [|b1 [|b2 [|b3 suf]]]]; case_decide; cbn [length] in *; try lia;
      [done|done|done|done|].
    apply Forall_cons in Hu8 as [H0 Hu8]. apply Forall_cons in Hu8 as [H1 Hu8].
    apply Forall_cons in Hu8 as [H2 Hu8]. apply Forall_cons in Hu8 as [H3 _].
    destruct (be32_decode b0 b1 b2 b3 H0 H1 H2 H3) as [Hv Hb].
    eexists. cbn [take drop]. rewrite take_0. split; [reflexivity|]. split; [apply Hv|done].
Qed.

(** Reading fields in a row from a buffer of bytes, [pre] being the
    bytes read before and [suf] the bytes left.  When [suf] has the
    bytes of all the fields, the reads return values that fit the
    fields and whose bytes in network order are those at the front of
    [suf], and the reader is behind these bytes.  Otherwise a read
    throws the unexpected-EOF error that names the size of the buffer;
    no read goes outside the buffer. *)
Theorem reads_take_their_bytes (fs : list field) (pre suf : list Z) :
  Z.of_nat (length (pre ++ suf)) + 8 < 2 ^ 64 -> Forall is_u8 suf ->
  if decide (total fs <= length suf)%nat then
    exists vs, reads fs (reader pre suf)
               = Ok (vs, reader (pre ++ take (total fs) suf) (drop (total fs) suf)) /\
      Forall2 fits fs vs /\
      mjoin (zip_with bytes_of fs vs) = take (total fs) suf
  else reads fs (reader pre suf) = Throw (UnexpectedEOF (Z.of_nat (length (pre ++ suf)))).
Proof.
  revert pre suf. induction fs as [|f fs IH]; intros pre suf Hlen Hu8.
  - unfold total. cbn [fmap list_fmap sum_list sum_list_with].
    rewrite decide_True by lia. exists []. rewrite take_0, drop_0, app_nil_r.
    split; [done|]. split; [constructor|done].
  - unfold total in *. cbn [fmap list_fmap sum_list sum_list_with reads id].
    pose proof (read_reader f pre suf Hlen Hu8) as Hread.
    destruct (decide (width f <= length suf)%nat) as [Hw|Hw].
    + destruct Hread as (v & Hread & Hfit & Hbytes). rewrite Hread. cbn [mbind result_bind].
      assert (length ((pre ++ take (width f) suf) ++ drop (width f) suf) = length (pre ++ suf)) as Hsame.
      { by rewrite <- app_assoc, take_drop. }
      specialize (IH (pre ++ take (width f) suf) (drop (width f) suf)
                    ltac:(by rewrite Hsame) ltac:(by apply Forall_drop)).
      rewrite length_drop in IH.
      destruct (decide (sum_list (width <$> fs) <= length suf - width f)%nat) as [Hrest|Hrest].
      * rewrite decide_True by lia.
        destruct IH as (vs & Hrun & Hfits & Hjoin). rewrite Hrun. cbn [mbind result_bind].
        exists (v :: vs). split; [|split].
        -- do 2 f_equal. rewrite <- app_assoc, drop_drop. f_equal. f_equal.
           by rewrite take_take_drop.
        -- by constructor.
        -- cbn [zip_with].
           change (bytes_of f v ++ mjoin (zip_with bytes_of fs vs)
                   = take (width f + sum_list (width <$> fs)) suf).
           rewrite Hbytes, Hjoin. by rewrite take_take_drop.
      * rewrite decide_False by lia. rewrite IH. cbn [mbind result_bind]. by rewrite Hsame.
    + rewrite decide_False by lia. by rewrite Hread.
Qed.

Lemma reads_take_their_bytes_witness :
  (exists vs, reads [U32; U16; U8] (reader [9] [0x4f; 0x45; 0x74; 0x03; 0; 1; 2; 7])
              = Ok (vs, reader [9; 0x4f; 0x45; 0x74; 0x03; 0; 1; 2] [7]) /\
     Forall2 fits [U32; U16; U8] vs /\
     mjoin (zip_with bytes_of [U32; U16; U8] vs) = [0x4f; 0x45; 0x74; 0x03; 0; 1; 2]) /\
  reads [U32; U16; U8] (reader [9] [0x4f; 0x45; 0x74; 0x03; 0; 1])
  = Throw (UnexpectedEOF 7).
Proof.
  split.
  - exact (reads_take_their_bytes [U32; U16; U8] [9] [0x4f; 0x45; 0x74; 0x03; 0; 1; 2; 7]
             ltac:(cbn; lia) ltac:(unfold is_u8; repeat constructor; lia)).
  - exact (reads_take_their_bytes [U32; U16; U8] [9] [0x4f; 0x45; 0x74; 0x03; 0; 1]
             ltac:(cbn; lia) ltac:(unfold is_u8; repeat constructor; lia)).
Defined.

End BinReaderMore.

(** ** The callback loop (util/async_loop.h)

    A callback is code of the program; what it does to the loop it
    does through [add_callback], [atexit] and [exit] (the loop has no
    other public member but [loop], which a callback is taken not to
    call).  [call] gives the calls a callback makes, in order, and
    what it does to the rest of the program. *)

Module AsyncLoop.

Section Loop.

Variable VCallback : Type.
Variable U : Type.

Inductive request : Type :=
| Add_callback (callback : VCallback)
| Atexit (callback : VCallback)
| Exit (status : Z).

Variable call : VCallback -> U -> list request * U.

Record AsyncLoop : Type := mkAsyncLoop {
  m_running : bool;
  exit_status : Z;
  m_atexits : list VCallback;
  m_pending : list VCallback;
  m_active : list VCallback
}.

(** The loop, the rest of the program, and a record of what happened:
    the callbacks run, the callbacks given to [add_callback] and the
    statuses given to [exit], each in order. *)
Record world : Type := mkWorld {
  this : AsyncLoop;
  user : U;
  ran : list VCallback;
  added : list VCallback;
  exited : list Z
}.

(** The loop as its member initialisers leave it. *)
Definition new_loop : AsyncLoop := mkAsyncLoop true 0 [] [] [].

Definition add_callback (callback : VCallback) (l : AsyncLoop) : AsyncLoop :=
  mkAsyncLoop (m_running l) (exit_status l) (m_atexits l) (m_pending l ++ [callback]) (m_active l).

Definition atexit (callback : VCallback) (l : AsyncLoop) : AsyncLoop :=
  mkAsyncLoop (m_running l) (exit_status l) (m_atexits l ++ [callback]) (m_pending l) (m_active l).

Definition exit (status : Z) (l : AsyncLoop) : AsyncLoop :=
  mkAsyncLoop false status (m_atexits l) (m_pending l) (m_active l).

(** A call of a callback on the loop. *)
Definition serve (w : world) (q : request) : world :=
  match q with
  | Add_callback cb =>
      mkWorld (add_callback cb (this w)) (user w) (ran w) (added w ++ [cb]) (exited w)
  | Atexit cb => mkWorld (atexit cb (this w)) (user w) (ran w) (added w) (exited w)
  | Exit status => mkWorld (exit status (this w)) (user w) (ran w) (added w) (exited w ++ [status])
  end.

(** [cb()]. *)
Definition invoke (cb : VCallback) (w : world) : world :=
  let '(qs, u) := call cb (user w) in
  foldl serve (mkWorld (this w) u (ran w ++ [cb]) (added w) (exited w)) qs.

Definition set_active (active : list VCallback) (w : world) : world :=
  mkWorld (mkAsyncLoop (m_running (this w)) (exit_status (this w)) (m_atexits (this w))
             (m_pending (this w)) active)
          (user w) (ran w) (added w) (exited w).

Definition set_atexits (atexits : list VCallback) (w : world) : world :=
  mkWorld (mkAsyncLoop (m_running (this w)) (exit_status (this w)) atexits
             (m_pending (this w)) (m_active (this w)))
          (user w) (ran w) (added w) (exited w).

(** [m_pending.swap(m_active)]. *)
Definition swap (w : world) : world :=
  mkWorld (mkAsyncLoop (m_running (this w)) (exit_status (this w)) (m_atexits (this w))
             (m_active (this w)) (m_pending (this w)))
          (user w) (ran w) (added w) (exited w).

(** The inner loop of [loop], [active] being [m_active]: no call of
    a callback changes [m_active]. *)
Fixpoint run_active (active : list VCallback) (w : world) : world :=
  match active with
  | [] => w
  | cb :: rest => run_active rest (invoke cb (set_active rest w))
  end.

(** The outer loop of [loop]. *)
Fixpoint rounds (fuel : nat) (w : world) : option world :=
  if m_running (this w) then
    match fuel with
    | O => None
    | S fuel' =>
        let w := swap w in
        let w := run_active (m_active (this w)) w in
        if bool_decide (m_pending (this w) = []) then Some w else rounds fuel' w
    end
  else Some w.

(** [clean_exit]; the result is the status given to [std::exit]. *)
Fixpoint clean_exit (fuel : nat) (w : world) : option (Z * world) :=
  match last (m_atexits (this w)) with
  | None => Some (exit_status (this w), w)
  | Some cb =>
      match fuel with
      | O => None
      | S fuel' => clean_exit fuel' (invoke cb (set_atexits (removelast (m_atexits (this w))) w))
      end
  end.

Definition loop (fuel : nat) (w : world) : option (Z * world) :=
  w ← rounds fuel w ; clean_exit fuel w.

(** The program when it calls [loop]: it has given the callbacks
    [P] to [add_callback] and the callbacks [A] to [atexit]. *)
Definition start (P A : list VCallback) (u : U) : world :=
  mkWorld (foldl (fun l cb => atexit cb l) (foldl (fun l cb => add_callback cb l) new_loop P) A)
          u [] P [].

(** *** First in, first out *)

Definition fifo (w : world) : Prop :=
  added w = ran w ++ m_active (this w) ++ m_pending (this w).

Lemma serve_fifo (w : world) (q : request) :
  fifo w -> fifo (serve w q) /\ m_active (this (serve w q)) = m_active (this w)
            /\ ran (serve w q) = ran w.
Proof.
  unfold fifo. intros H. destruct q; cbn; rewrite ?H, ?app_assoc; done.
Qed.

Lemma serves_fifo (qs : list request) (w : world) :
  fifo w -> fifo (foldl serve w qs) /\ m_active (this (foldl serve w qs)) = m_active (this w)
            /\ ran (foldl serve w qs) = ran w.
Proof.
  revert w. induction qs as [|q qs IH]; intros w H; [done|].
  cbn [foldl]. destruct (serve_fifo w q H) as (H1 & Ha & Hr).
  destruct (IH _ H1) as (H2 & Ha' & Hr'). split; [done|]. split; congruence.
Qed.

Lemma run_active_fifo (active : list VCallback) :
  forall w, m_active (this w) = active -> fifo w ->
  fifo (run_active active w) /\ m_active (this (run_active active w)) = [] /\
  ran (run_active active w) = ran w ++ active.
Proof.
  induction active as [|cb rest IH]; intros w Ha H.
  - cbn [run_active]. by rewrite app_nil_r.
  - cbn [run_active]. unfold invoke. cbn [set_active user this ran added exited].
    destruct (call cb (user w)) as [qs u].
    set (w1 := mkWorld _ u (ran w ++ [cb]) (added w) (exited w)).
    assert (fifo w1) as H1.
    { unfold fifo, w1 in *. cbn. rewrite H, Ha. by rewrite <- app_assoc. }
    destruct (serves_fifo qs w1 H1) as (H2 & Ha2 & Hr2).
    destruct (IH (foldl serve w1 qs) Ha2 H2) as (H3 & Ha3 & Hr3).
    split; [done|]. split; [done|]. rewrite Hr3, Hr2. unfold w1. cbn. by rewrite <- app_assoc.
Qed.

Lemma rounds_fifo (fuel : nat) :
  forall w w', m_active (this w) = [] -> fifo w -> rounds fuel w = Some w' ->
  fifo w' /\ m_active (this w') = [] /\
  (m_running (this w') = true -> m_pending (this w') = []) /\
  exists later, ran w' = ran w ++ later.
Proof.
  induction fuel as [|fuel IH]; intros w w' Ha H Hrun.
  - cbn [rounds] in Hrun. destruct (m_running (this w)) eqn:Hr; [done|].
    injection Hrun as <-. split; [done|]. split; [done|]. split; [congruence|].
    exists []. by rewrite app_nil_r.
  - cbn [rounds] in Hrun. destruct (m_running (this w)) eqn:Hr.
    + assert (fifo (swap w)) as Hs.
      { unfold fifo, swap in *. cbn. rewrite H, Ha. by rewrite app_nil_r. }
      destruct (run_active_fifo (m_active (this (swap w))) (swap w) eq_refl Hs)
        as (H1 & Ha1 & Hr1).
      set (w1 := run_active (m_active (this (swap w))) (swap w)) in *.
      case_bool_decide as Hp.
      * injection Hrun as <-. split; [done|]. split; [done|]. split; [done|].
        eexists. exact Hr1.
      * destruct (IH w1 w' Ha1 H1 Hrun) as (H2 & Ha2 & Hp2 & later & Hl).
        split; [done|]. split; [done|]. split; [done|].
        eexists. rewrite Hl, Hr1. cbn [swap ran]. by rewrite <- app_assoc.
    + injection Hrun as <-. split; [done|]. split; [done|]. split; [congruence|].
      exists []. by rewrite app_nil_r.
Qed.

Lemma serves_grow (qs : list request) (w : world) :
  exists later, added (foldl serve w qs) = added w ++ later.
Proof.
  revert w. induction qs as [|q qs IH]; intros w.
  - exists []. by rewrite app_nil_r.
  - cbn [foldl]. destruct (IH (serve w q)) as [l Hl]. rewrite Hl.
    destruct q; cbn [serve added]; [|by exists l|by exists l].
    eexists. by rewrite <- app_assoc.
Qed.

Lemma run_active_grow (active : list VCallback) (w : world) :
  exists later, added (run_active active w) = added w ++ later.
Proof.
  revert w. induction active as [|cb rest IH]; intros w.
  - exists []. by rewrite app_nil_r.
  - cbn [run_active]. destruct (IH (invoke cb (set_active rest w))) as [l Hl]. rewrite Hl.
    unfold invoke. cbn [set_active user this ran added exited].
    destruct (call cb (user w)) as [qs u].
    destruct (serves_grow qs (mkWorld (mkAsyncLoop (m_running (this w)) (exit_status (this w))
                                  (m_atexits (this w)) (m_pending (this w)) rest)
                                u (ran w ++ [cb]) (added w) (exited w))) as [l' Hl'].
    rewrite Hl'. cbn [added]. eexists. by rewrite <- app_assoc.
Qed.

Lemma rounds_grow (fuel : nat) :
  forall w w', rounds fuel w = Some w' -> exists later, added w' = added w ++ later.
Proof.
  induction fuel as [|fuel IH]; intros w w' Hrun; cbn [rounds] in Hrun.
  - destruct (m_running (this w)); [done|]. injection Hrun as <-.
    exists []. by rewrite app_nil_r.
  - destruct (m_running (this w)).
    + destruct (run_active_grow (m_active (this (swap w))) (swap w)) as [l Hl].
      cbn [swap added] in Hl. case_bool_decide.
      * injection Hrun as <-. by exists l.
      * destruct (IH _ _ Hrun) as [l' Hl']. rewrite Hl', Hl.
        eexists. by rewrite <- app_assoc.
    + injection Hrun as <-. exists []. by rewrite app_nil_r.
Qed.

(** *** Callbacks that only call [exit] *)

Definition is_exit (q : request) : Prop :=
  match q with Exit _ => True | _ => False end.

Definition only_exits (cb : VCallback) : Prop :=
  forall u, Forall is_exit (call cb u).1.

(** The status is the last one given to [exit], if any. *)
Definition status_ok (w : world) : Prop :=
  exit_status (this w) = default 0 (last (exited w)) /\
  (m_running (this w) = true -> exited w = []).

Lemma serves_exits (qs : list request) (w : world) :
  Forall is_exit qs -> status_ok w ->
  let w' := foldl serve w qs in
  status_ok w' /\ m_pending (this w') = m_pending (this w) /\
  m_atexits (this w') = m_atexits (this w) /\ m_active (this w') = m_active (this w) /\
  ran w' = ran w /\ added w' = added w.
Proof.
  revert w. induction qs as [|q qs IH]; intros w Hq Hs; [done|].
  apply Forall_cons in Hq as [Hq Hqs]. destruct q as [| |status]; [done|done|].
  cbn [foldl serve]. cbn zeta in IH.
  destruct (IH (mkWorld (exit status (this w)) (user w) (ran w) (added w) (exited w ++ [status])) Hqs)
    as (H1 & H2 & H3 & H4 & H5 & H6).
  { split; cbn; [by rewrite last_snoc|done]. }
  done.
Qed.

Lemma invoke_exits (cb : VCallback) (w : world) :
  only_exits cb -> status_ok w ->
  let w' := invoke cb w in
  status_ok w' /\ m_pending (this w') = m_pending (this w) /\
  m_atexits (this w') = m_atexits (this w) /\ m_active (this w') = m_active (this w) /\
  ran w' = ran w ++ [cb] /\ added w' = added w.
Proof.
  intros Hcb Hs. unfold invoke. specialize (Hcb (user w)).
  destruct (call cb (user w)) as [qs u]. cbn [fst] in Hcb.
  by apply (serves_exits qs (mkWorld (this w) u (ran w ++ [cb]) (added w) (exited w))).
Qed.

Lemma run_active_exits (active : list VCallback) :
  Forall only_exits active ->
  forall w, status_ok w ->
  let w' := run_active active w in
  status_ok w' /\ m_pending (this w') = m_pending (this w) /\
  m_atexits (this w') = m_atexits (this w) /\
  ran w' = ran w ++ active /\ added w' = added w.
Proof.
  induction 1 as [|cb rest Hcb _ IH]; intros w Hs; cbn zeta in *.
  - cbn [run_active]. by rewrite app_nil_r.
  - cbn [run_active].
    destruct (invoke_exits cb (set_active rest w) Hcb Hs) as (H1 & H2 & H3 & _ & H5 & H6).
    destruct (IH _ H1) as (H1' & H2' & H3' & H5' & H6').
    split; [done|]. split; [by rewrite H2', H2|]. split; [by rewrite H3', H3|].
    split; [|by rewrite H6', H6]. rewrite H5', H5. cbn [set_active ran]. by rewrite <- app_assoc.
Qed.

Lemma clean_exit_exits (A : list VCallback) :
  Forall only_exits A ->
  forall (fuel : nat) (w : world), status_ok w -> m_atexits (this w) = A ->
  (length A <= fuel)%nat ->
  exists w', clean_exit fuel w = Some (default 0 (last (exited w')), w') /\
    ran w' = ran w ++ reverse A /\ m_pending (this w') = m_pending (this w) /\
    added w' = added w.
Proof.
  induction A as [|cb A IH] using rev_ind; intros HA fuel w Hs Hat Hfuel.
  - exists w. destruct fuel; cbn [clean_exit]; rewrite Hat; cbn [last];
      rewrite (proj1 Hs), app_nil_r; done.
  - apply Forall_app in HA as [HA Hcb]. apply Forall_cons in Hcb as [Hcb _].
    rewrite length_app in Hfuel. cbn [length] in Hfuel.
    destruct fuel as [|fuel]; [lia|]. cbn [clean_exit]. rewrite Hat, last_snoc.
    rewrite removelast_last.
    destruct (invoke_exits cb (set_atexits A w) Hcb Hs) as (H1 & H2 & H3 & _ & H5 & H6).
    destruct (IH HA fuel _ H1 H3 ltac:(lia)) as (w' & Hrun & Hran & Hpend & Hadd).
    exists w'. split; [done|]. rewrite Hran, H5, Hpend, H2, Hadd, H6.
    cbn [set_atexits ran this m_pending added]. rewrite reverse_snoc, <- app_assoc. done.
Qed.

Lemma start_shape (P A : list VCallback) (u : U) :
  start P A u = mkWorld (mkAsyncLoop true 0 A P []) u [] P [].
Proof.
  unfold start. f_equal.
  assert (forall l, foldl (fun l cb => add_callback cb l) l P
                    = mkAsyncLoop (m_running l) (exit_status l) (m_atexits l)
                        (m_pending l ++ P) (m_active l)) as HP.
  { induction P as [|cb P IH]; intros l; cbn [foldl].
    - rewrite app_nil_r. by destruct l.
    - rewrite IH. cbn. by rewrite <- app_assoc. }
  assert (forall l, foldl (fun l cb => atexit cb l) l A
                    = mkAsyncLoop (m_running l) (exit_status l) (m_atexits l ++ A)
                        (m_pending l) (m_active l)) as HA.
  { induction A as [|cb A IH]; intros l; cbn [foldl].
    - rewrite app_nil_r. by destruct l.
    - rewrite IH. cbn. by rewrite <- app_assoc. }
  rewrite HA, HP. done.
Qed.

End Loop.

Arguments this {VCallback U} _.
Arguments user {VCallback U} _.
Arguments ran {VCallback U} _.
Arguments added {VCallback U} _.
Arguments exited {VCallback U} _.
Arguments m_running {VCallback} _.
Arguments exit_status {VCallback} _.
Arguments m_atexits {VCallback} _.
Arguments m_pending {VCallback} _.
Arguments m_active {VCallback} _.
Arguments Add_callback {VCallback} _.
Arguments Atexit {VCallback} _.
Arguments Exit {VCallback} _.

(** The rounds of [loop] run the callbacks in the order in which they
    were given to [add_callback], whatever the callbacks do: when the
    rounds are over, the callbacks run and the callbacks still
    pending are, in this order, the callbacks added, those added
    before [loop] first.  Callbacks are still pending only if [exit]
    was called. *)
Theorem loop_runs_callbacks_in_the_order_added {VCallback U : Type}
    (call : VCallback -> U -> list (request VCallback) * U)
    (P A : list VCallback) (u : U) (fuel : nat) (w' : world VCallback U) :
  rounds VCallback U call fuel (start VCallback U P A u) = Some w' ->
  ran w' ++ m_pending (this w') = added w' /\
  (exists later, added w' = P ++ later) /\
  m_active (this w') = [] /\
  (m_running (this w') = true -> m_pending (this w') = []).
Proof.
  rewrite start_shape. intros Hrun.
  pose proof (rounds_grow VCallback U call fuel _ _ Hrun) as Hgrow.
  apply rounds_fifo in Hrun as (H1 & Ha & Hp & _); [|done|done].
  unfold fifo in H1. rewrite Ha in H1. cbn [app] in H1.
  split; [done|]. split; [|done]. exact Hgrow.
Qed.

(** When the callbacks call nothing of the loop but [exit], [loop]
    ends: it runs the callbacks given to [add_callback] in that
    order, all of them also when one calls [exit], then the callbacks
    given to [atexit] in the reverse order, and leaves the program
    with the status last given to [exit], or 0. *)
Theorem loop_runs_pending_then_atexits {VCallback U : Type}
    (call : VCallback -> U -> list (request VCallback) * U)
    (P A : list VCallback) (u : U) (fuel : nat) :
  Forall (only_exits VCallback U call) (P ++ A) ->
  (1 <= fuel)%nat -> (length A <= fuel)%nat ->
  exists w', loop VCallback U call fuel (start VCallback U P A u)
             = Some (default 0 (last (exited w')), w') /\
    ran w' = P ++ reverse A.
Proof.
  intros Hcbs Hfuel HfuelA. apply Forall_app in Hcbs as [HP HA].
  rewrite start_shape.
  destruct fuel as [|fuel]; [lia|].
  unfold loop. cbn [rounds this m_running].
  set (w1 := swap VCallback U _).
  change (m_active (this w1)) with P.
  assert (status_ok VCallback U w1) as Hs1 by (by split).
  destruct (run_active_exits VCallback U call P HP w1 Hs1) as (Hs2 & Hpend & Hat & Hran & Hadd).
  set (w2 := run_active VCallback U call P w1) in *.
  rewrite bool_decide_eq_true_2 by (by rewrite Hpend). cbn [mbind option_bind].
  destruct (clean_exit_exits VCallback U call A HA (S fuel) w2 Hs2 Hat HfuelA)
    as (w' & Hrun & Hran' & _).
  exists w'. split; [done|]. by rewrite Hran', Hran.
Qed.

(** Three callbacks: [1] adds [3], [2] calls [exit(7)], the others do nothing. *)
Definition three (cb : nat) (u : unit) : list (request nat) * unit :=
  match cb with
  | 1%nat => ([Add_callback 3%nat], u)
  | 2%nat => ([Exit 7], u)
  | _ => ([], u)
  end.

Lemma loop_runs_callbacks_in_the_order_added_witness :
  exists w', rounds nat unit three 5 (start nat unit [1; 2]%nat [] tt) = Some w' /\
    ran w' = [1; 2]%nat /\ m_pending (this w') = [3%nat] /\ m_running (this w') = false.
Proof.
  assert (exists w', rounds nat unit three 5 (start nat unit [1; 2]%nat [] tt) = Some w' /\
            added w' = [1; 2; 3]%nat /\ m_running (this w') = false /\
            length (ran w') = 2%nat)
    as (w' & Hrun & Hadded & Hrunning & Hlen) by (eexists; vm_compute; repeat split; reflexivity).
  destruct (loop_runs_callbacks_in_the_order_added three [1; 2]%nat [] tt 5 w' Hrun)
    as (Hfifo & _ & _ & _).
  exists w'. split; [exact Hrun|]. rewrite Hadded in Hfifo.
  destruct (ran w') as [|a [|b [|c l]]]; cbn in Hlen; try discriminate.
  cbn [app] in Hfifo. injection Hfifo as -> -> Hp.
  split; [reflexivity|]. split; [exact Hp|exact Hrunning].
Defined.

Lemma loop_runs_pending_then_atexits_witness :
  exists w', loop nat unit three 2 (start nat unit [2; 4]%nat [5; 6]%nat tt) = Some (7, w') /\
    ran w' = [2; 4; 6; 5]%nat.
Proof.
  destruct (loop_runs_pending_then_atexits three [2; 4]%nat [5; 6]%nat tt 2)
    as (w' & Hrun & Hran).
  - repeat constructor; intros []; cbn; repeat constructor.
  - lia.
  - cbn. lia.
  - exists w'. split; [|exact Hran].
    assert (exists w2, loop nat unit three 2 (start nat unit [2; 4]%nat [5; 6]%nat tt)
                       = Some (7, w2)) as [w2 Hrun2] by (eexists; vm_compute; reflexivity).
    rewrite Hrun2 in Hrun. injection Hrun as Hst <-. exact Hrun2.
Defined.

End AsyncLoop.
